(* ===== verification/_CoqProject ===== *)
-Q . S2P
Prelude.v
Bytes.v
Errors.v
Float.v
BTree.v
Value.v
Document.v
Nbf.v
Checksum.v
Samples.v
Wal.v
Recovery.v
Segments.v
History.v
Durability.v
Fault.v
Snapshot.v
Protocol.v
Payload.v
Client.v
ClientLaws.v
Collection.v
StorageProps.v
SnapshotProps.v
ValueProps.v
ProtocolProps.v
Index.v
Manager.v
Covers.v
Ast.v
Evaluator.v
Lexer.v
Parser.v
ParserLaws.v
Unparse.v
Tokens.v
Phrases.v
NqlProps.v
Queries.v
EvalProps.v
Planner.v
Server.v
Engine.v
Connection.v
Network.v
Web.v
Cli.v
Listener.v
Commands.v
EngineLaws.v
Runs.v
Sessions.v
Concurrency.v
EngineSamples.v
NetworkProps.v
ConnectionProps.v
ListenerProps.v
SortLaws.v
FindLaws.v
StatementLaws.v
Database.v
EngineProps.v
EndToEnd.v
ConcurrencyProps.v
ConcurrencyIndexes.v
Feed.v
Watching.v
Subscription.v
Failures.v
Harness.v
ConcurrencyFeed.v
WebProps.v
CliProps.v
FaultProps.v
ShellProps.v
CommandProps.v
EngineFindings.v
