(* ===== verification/Prelude.v ===== *)
(** * NOVA DB: a verification library for the Rust sources under [src/crates]

    NOVA DB is a document database: a server that keeps collections of JSON-like
    documents in memory, logs every mutation to a segmented write-ahead log, answers
    statements of a query language (NQL) over a framed protocol on TCP, pushes change
    events to subscribers, and comes with a client library.

    ** How the parts interact

    A client frames a request ([nova-client], [nova-protocol]); the accept loop gives
    the connection a permit and a task ([server.rs]); the task authenticates, parses the
    query ([nova-query]) and calls the engine ([engine.rs]).  The engine chooses a plan
    over the indexes of the collection ([planner.rs], [nova-index]), evaluates the filter
    ([evaluator.rs]), appends records to the log ([wal.rs], [format.rs]), changes the
    documents and the indexes, and broadcasts an event that watchers turn into frames
    ([connection.rs]).  Opening an engine replays the log ([recovery.rs]) and rebuilds no
    index.  Snapshots ([snapshot.rs]) copy the collections to files of their own.

    ** The files and the code they model

    - [Prelude]: results of Rust computations ([outcome]: [Ok], [Err] or a panic),
      machine integers and their wrap-around, list lemmas, the stable sort, tactics.
      [Bytes]: bytes, big-endian integers, UTF-8.  [Errors]: [nova-core/src/error.rs].
      [Float]: binary64 as bit patterns.  [BTree]: [BTreeMap] and [BTreeSet] as sorted
      lists, with their laws.
    - [Value], [Document]: [nova-core/src/value.rs], [document.rs], [event.rs].
      [ValueProps]: order, equality, hashing, JSON forms.
    - [Nbf], [Wal], [Recovery]: [nova-storage/src/format.rs], [wal.rs], [recovery.rs].
      [Segments], [History], [Durability] hold their lemmas, [StorageProps] their
      theorems.  [Snapshot], [SnapshotProps]: [nova-storage/src/snapshot.rs].
      [Checksum]: what a CRC-32 promises about a changed byte, and that the IEEE one does.
    - [Fault], [FaultProps]: [nova-testkit/src/fault.rs], the damage it does to a log file
      and what recovery makes of it.
    - [Protocol], [Payload]: [nova-protocol/src/frame.rs], [codec.rs]; [ProtocolProps].
    - [Client], [Collection]: [nova-client/src/client.rs], [stream.rs], [collection.rs];
      [ClientLaws] the invariant of the client's tables.  [Network] puts a client and a
      connection of the server together, [NetworkProps] holds the theorems about the two.
    - [Index], [Manager]: [nova-index]; the trait [Index] is a type class whose laws both
      indexes discharge and whose clients are proved against.  [Covers]: indexes that lack
      the entries of some documents, and what the notifications keep of them.
    - [Ast], [Lexer], [Parser], [Evaluator], [Planner]: [nova-query].  [ParserLaws]:
      termination.  [Unparse], [Tokens], [Phrases]: the grammar read backwards, from
      expressions to tokens, from tokens to text, from statements to tokens.  [NqlProps],
      [EvalProps], [Queries]: the theorems about the language and about the texts the
      client library writes.
    - [Server]: [nova-server/src/config.rs], [metrics.rs].  [Engine]: [engine.rs].
      [EngineLaws], [Runs], [Sessions], [SortLaws], [FindLaws], [StatementLaws]: its
      lemmas.  [Database]: the abstract database and the refinement.  [EngineProps],
      [EngineFindings]: the theorems.  [EndToEnd]: client, connection and engine together.
    - [Connection], [ConnectionProps]: [connection.rs].  [Listener], [ListenerProps]:
      [server.rs].
    - [Concurrency], [ConcurrencyProps]: statements side by side, INSERT, UPDATE and REMOVE
      split where they release their locks; [ConcurrencyIndexes]: what searches find meanwhile.  [Feed],
      [Watching], [ConcurrencyFeed]: the events and what a client that follows them knows;
      [Subscription]: the same from end to end, through the server's watcher, the wire, the
      client's reader and the application.  [Failures]: UPDATE and REMOVE that meet an error.
    - [Web], [WebProps]: the HTTP interface of [web.rs].
    - [Cli], [CliProps], [ShellProps]: [nova-cli/src/main.rs], the commands on a data
      directory, the lines of the shell, the table of a response.  [Commands]: every
      command as a program from its arguments to the lines it prints, over an interface
      to the machine ([Host]: clocks, terminal, network, servers, directories);
      [CommandProps] gives a machine that has the interface and the theorems.
    - [Harness]: [nova-testkit/src/harness.rs], starting, killing and restarting a server.
    - [Samples], [EngineSamples]: concrete external code and a small database, on which
      the witnesses compute.

    ** How state and effects are modelled

    The engine is a record of maps (collections, indexes), the log, the list of events
    sent and the metrics; a handler takes the engine and returns the engine with the
    response, an error or a panic, and what was changed before an early return stays
    changed.  The log keeps apart what the operating system holds (a map from file names
    to contents) and what a [BufWriter] has not written; a crash of the process leaves
    the former and a prefix of the latter.  A broadcast channel is the list of what was
    sent, a receiver a position in it.  Concurrency is interleaving: the step relations
    [conn_step], [server_step] and [sys_step] let other statements run between any two
    turns of a task, [world_step] lets the steps of INSERT interleave with each other
    and with other statements, UPDATE and REMOVE making their changes in one step and
    sending each event in another, and the calls of the client are split at their awaits.
    The other statements hold their locks throughout and are atomic, and so is every
    statement in the files on connections.

    Parameters stand for code that is not under [src/]: [CrcLib] (crc32fast), [JsonLib]
    (serde_json on text), [UuidLib], [UnicodeTables] (character classes beyond ASCII),
    [HashOrder] (the iteration order of hash tables), [ArithNan] (the bits of a computed
    NaN), [TokenDebug] (derived texts); [Build] says whether integer overflow is checked.
    Their documented laws are the classes [CrcLaws], [CrcDetects], [JsonLaws], [UuidLaws]
    and [HashOrderLaws], which [Samples] and [Checksum] show can hold.

    ** What the theorems show

    - The engine refines an abstract database of collections that knows of no log, index
      or plan, answer by answer and across restarts ([engine_refines_database]); what
      each statement does ([insert_spec], [update_spec], [remove_spec], [find_sorted],
      [count_and_exists_spec], [statement_frame]); that indexes hold what the documents
      say ([indexes_are_faithful]) and do not change answers ([find_ignores_indexes]), and
      that searches miss nothing while inserts are in flight
      ([concurrent_finds_miss_nothing]).
    - The change feed: events tell the changes, in the order they are sent when statements
      run one after the other ([events_tell_the_changes]), so that a client that watches a
      collection knows its documents ([watching_clients_know_the_documents]), from end to end
      ([subscribers_know_the_documents]), and in the
      order of their sequence numbers when statements interleave
      ([sequence_numbers_order_the_changes]; not in the order they are sent,
      [the_last_event_is_not_the_latest]).
    - Durability: acknowledged records survive restarts, rotations and crashes, also crashes
      inside an append
      ([restart_keeps_documents], [wal_durable], [crash_keeps_a_prefix],
      [recovery_idempotent], [wal_layout]), also while inserts interleave
      ([interleaved_inserts_are_durable]); a flipped byte stops the server
      ([flipped_byte_stops_the_server]) and a cut loses what is cut
      ([cut_log_loses_what_is_cut]); the record format ([nbf_roundtrip],
      [nbf_decode_sound], [nbf_torn_write_detected]); snapshots ([snapshot_roundtrip]);
      maintenance from the command line changes no database, and a backup holds a server's
      documents ([nova_maintenance_keeps_the_database], [backup_holds_the_servers_documents]);
      a server killed and started again has its documents ([killed_server_comes_back]).
    - Errors: an UPDATE that meets an error keeps and logs what it changed before and
      announces nothing ([failed_update_spec]); REMOVE always answers
      ([remove_always_answers]).
    - The wire: frames and payloads are read back however the network cuts them; a
      client's calls get the server's answers to those calls ([replies_match_requests],
      [query_answer_is_the_engines]); what a collection handle reads are the server's
      documents ([client_reads_are_the_documents]) and what it was told is inserted is there
      after a restart ([acknowledged_insert_is_found_after_a_restart]); watchers stream in
      order; an unauthenticated client changes nothing; the number of connections is bounded; the HTTP interface runs the
      statements it is sent ([web_query_runs_the_statement]).
    - The command line: a session of the shell runs its statements on the server and shows
      their answers ([shell_session_runs_its_statements]); a [nova doctor] after any
      maintenance says healthy just when a server opens on the directory
      ([nova_maintenance_keeps_the_database]).
    - The language: parsing is total, every statement is read back from its canonical text
      ([statements_parse_back]), the shell tells WATCH from queries as the parser does
      ([shell_streams_exactly_the_watches]), evaluation does not panic where it should not, integer
      arithmetic is exact or fails.
    - Where the code does not do what it means to, a theorem shows the run: see
      [short_torn_tail_poisons_the_log], [flipped_length_loses_records],
      [minus_literal_swallows_the_where_clause],
      [failed_update_is_visible_then_lost], [disconnected_calls_wait_for_ever],
      [insert_check_then_act] and the examples of [EngineFindings], [ConcurrencyProps],
      [ConcurrencyIndexes], [ConcurrencyFeed], [Queries], [CliProps] and [ShellProps].

    ** Bounds and fuel

    Loops that are not structural take fuel, and a lemma says that the fuel given is
    enough: the recovery loop gets the length of the file (every record takes a byte;
    [recover_loop_end]), the stream codec the length of its buffer ([drain_ok]), the
    lexer the number of characters ([lex_loop_total]), the parser the number of tokens or
    twice that ([ParserLaws], where running out is a [Panic] that [parse_nql_total]
    excludes).  Theorems about documents that go through text ask for [doc_storable]:
    no floats, since serde_json without [float_roundtrip] promises nothing about them, no
    bytes, timestamps and strings that read as UUIDs, since they come back as other values,
    valid UTF-8, and nesting below the parser's limit of 128.  Theorems about histories of
    an engine ([Reach], [history], [Steps], [worlds]) are about statements that fit the log
    ([stmt_ok]) and in which every UPDATE and REMOVE is answered; what an UPDATE that fails
    leaves is told by [failed_update_spec].  Theorems about FIND with a filter ask that the
    filter has an answer on every document ([filter_total]) and that its plan suits it
    ([plan_fits]): an index holds no entry for documents without its field, nor for the
    identifier, and does not compare as the filter does where values are not [ordinary].
    Values are ordered lawfully only while integers are exact as floats, hence the
    hypotheses [ordinary] (see [value_order_lawful] and [value_order_breaks_past_two53]).

    ** Not modelled

    - Device errors: file operations succeed, except where a torn write or the end of a
      task is modelled.  Directory creation, fsync as distinct from write, and the
      modification times of files.
    - Two appends to the log that interleave inside [WriteAheadLog::append] (it is one step),
      and the poisoning of locks by panics.
    - The sockets: frames and requests arrive in order or not at all.  The server's
      writer task is the list of frames given to it; the client's is modelled.
    - Stack overflow of the recursive-descent parser on deeply nested input; memory
      exhaustion.
    - Logging (tracing), and the texts of derived [Debug] implementations.
    - Of [nova-cli]: the parsing of arguments, line editing, escape codes, the borders of
      tables, the formatting of dates and times, which are library code ([Host] has what
      the commands use of them).  The demo is modelled and has no theorem: the JSON it
      sends is written by a printer that is a parameter.
    - Tests, benchmarks and examples, which send fixed statements and keep no state.  The
      page of the web console ([STUDIO_HTML]) is a parameter.
    - Two engines writing into the files of one directory, as a killed server with open
      connections and its successor do.

    ** Plan

    The storage engine, the engine and the query language came first, then protocol,
    connections, listener and snapshots, then the client and the HTTP interface, then the
    command line and the interleaving of statements, then the damage of log files, the
    reads of a client from end to end, the indexes and the change feed while inserts are
    in flight, then statements that fail, subscriptions from end to end, the programs of
    the command line and the test harness.  Left: an UPDATE or REMOVE that fails midway
    among concurrent statements. *)

From Stdlib Require Export ZArith Lia Bool List String Ascii.
From stdpp Require Export base tactics list option gmap strings.

#[global] Open Scope Z_scope.

(** ** Results of Rust computations

    A Rust function of type [Result<T, E>] returns [Ok], returns [Err], or
    unwinds.  [Panic] is the third case: an integer overflow with overflow
    checks on, a division overflow, a slice out of range, a documented panic of
    the standard library. *)
Inductive outcome (E A : Type) : Type :=
| Ok (a : A)
| Err (e : E)
| Panic.
Arguments Ok {E A} a.
Arguments Err {E A} e.
Arguments Panic {E A}.

Declare Scope nova_scope.
Delimit Scope nova_scope with nova.

Definition bindO {E A B} (m : outcome E A) (k : A -> outcome E B) : outcome E B :=
  match m with
  | Ok a => k a
  | Err e => Err e
  | Panic => Panic
  end.

Notation "'let?' x ':=' m 'in' k" := (bindO m (fun x => k))
  (at level 10, x pattern, m at level 100, k at level 200) : nova_scope.
#[global] Open Scope nova_scope.

Definition mapO {E A B} (f : A -> B) (m : outcome E A) : outcome E B :=
  let? a := m in Ok (f a).

(** [Result::unwrap_or(d)]: an [Err] becomes the default, a panic is not caught. *)
Definition unwrap_or {E A} (d : A) (m : outcome E A) : outcome E A :=
  match m with
  | Ok a => Ok a
  | Err _ => Ok d
  | Panic => Panic
  end.

Definition is_ok {E A} (m : outcome E A) : bool :=
  match m with Ok _ => true | _ => false end.

Lemma bindO_Ok_inv {E A B} (m : outcome E A) (k : A -> outcome E B) b :
  bindO m k = Ok b -> exists a, m = Ok a /\ k a = Ok b.
Proof. destruct m; cbn; intros H; try discriminate. eauto. Qed.

Lemma bindO_assoc {E A B C} (m : outcome E A) (k : A -> outcome E B) (k' : B -> outcome E C) :
  bindO (bindO m k) k' = bindO m (fun a => bindO (k a) k').
Proof. now destruct m. Qed.

(** Invert a chain of binds that ended in [Ok]. *)
Ltac inv_ok H :=
  let a := fresh "r" in
  let H1 := fresh "Hr" in
  apply bindO_Ok_inv in H; destruct H as [a [H1 H]].

(** Split a boolean conjunction or comparison hypothesis into arithmetic facts. *)
Ltac bool_facts :=
  repeat match goal with
  | H : _ && _ = true |- _ => apply andb_true_iff in H; destruct H
  | H : _ || _ = false |- _ => apply orb_false_iff in H; destruct H
  | H : negb _ = true |- _ => apply negb_true_iff in H
  | H : negb _ = false |- _ => apply negb_false_iff in H
  | H : (_ <? _) = true |- _ => apply Z.ltb_lt in H
  | H : (_ <? _) = false |- _ => apply Z.ltb_ge in H
  | H : (_ <=? _) = true |- _ => apply Z.leb_le in H
  | H : (_ <=? _) = false |- _ => apply Z.leb_gt in H
  | H : (_ =? _) = true |- _ => apply Z.eqb_eq in H
  | H : (_ =? _) = false |- _ => apply Z.eqb_neq in H
  end.

(** Case analysis on the test of the first [if] of the goal. *)
Ltac case_if :=
  match goal with
  | |- context [if ?b then _ else _] =>
      let E := fresh "Hif" in destruct b eqn:E
  end.

(** ** Machine integers *)

Definition u8_max : Z := 255.
Definition u16_max : Z := 65535.
Definition u32_max : Z := 4294967295.
Definition u64_max : Z := 18446744073709551615.
Definition i64_min : Z := -9223372036854775808.
Definition i64_max : Z := 9223372036854775807.

Definition in_i64 (z : Z) : bool := (i64_min <=? z) && (z <=? i64_max).
Definition in_u64 (z : Z) : bool := (0 <=? z) && (z <=? u64_max).

(** Two's complement wrap-around of a 64-bit result. *)
Definition wrap_i64 (z : Z) : Z := (z - i64_min) mod 2 ^ 64 + i64_min.
Definition wrap_u64 (z : Z) : Z := z mod 2 ^ 64.

Lemma wrap_i64_in_range z : in_i64 (wrap_i64 z) = true.
Proof.
  unfold in_i64, wrap_i64, i64_min, i64_max.
  pose proof (Z.mod_pos_bound (z - -9223372036854775808) (2 ^ 64) ltac:(lia)).
  apply andb_true_iff; split; apply Z.leb_le; lia.
Qed.

Lemma wrap_i64_id z : in_i64 z = true -> wrap_i64 z = z.
Proof.
  unfold in_i64, wrap_i64, i64_min, i64_max. intros H. bool_facts.
  rewrite Z.mod_small; lia.
Qed.

(** ** Lists *)

Section ListFacts.
Context {A B : Type}.

Lemma firstn_skipn_eq (n : nat) (l : list A) : (firstn n l ++ skipn n l)%list = l.
Proof. apply firstn_skipn. Qed.

(** A proper prefix of [l ++ r] is a proper prefix of [l], or [l] followed by a
    proper prefix of [r]. *)
Lemma prefix_app_cases (l r : list A) (n : nat) :
  firstn n (l ++ r) = (firstn n l ++ firstn (n - List.length l) r)%list.
Proof. apply firstn_app. Qed.

Lemma firstn_prefix (n : nat) (l r : list A) : List.length l = n -> firstn n (l ++ r) = l.
Proof. intros <-. rewrite firstn_app, firstn_all, Nat.sub_diag. apply app_nil_r. Qed.

Lemma skipn_prefix (n : nat) (l r : list A) : List.length l = n -> skipn n (l ++ r) = r.
Proof. intros <-. now rewrite skipn_app, skipn_all, Nat.sub_diag. Qed.

(** A prefix of a concatenation of blocks is some whole blocks and a proper
    prefix of the next one. *)
Lemma prefix_of_blocks (g : B -> list A) (fs : list B) (p q : list A) :
  (p ++ q = List.concat (List.map g fs))%list ->
  exists fs1 fs2 tail, fs = (fs1 ++ fs2)%list /\ p = (List.concat (List.map g fs1) ++ tail)%list
    /\ match fs2 with
       | [] => tail = []
       | f :: _ => exists k, (k < List.length (g f))%nat /\ tail = firstn k (g f)
       end.
Proof.
  revert p. induction fs as [|f fs IH]; intros p H; cbn in H.
  - apply app_eq_nil in H as [-> _]. now exists [], [], [].
  - destruct (Nat.lt_ge_cases (List.length p) (List.length (g f))) as [L|L].
    + exists [], (f :: fs), p. split; [reflexivity|]. split; [reflexivity|].
      exists (List.length p). split; [assumption|].
      apply (f_equal (firstn (List.length p))) in H. rewrite firstn_app, firstn_all, Nat.sub_diag, app_nil_r in H.
      etransitivity; [exact H|]. rewrite firstn_app. replace (List.length p - List.length (g f))%nat with 0%nat by lia. now rewrite app_nil_r.
    + assert (E : p = (g f ++ skipn (List.length (g f)) p)%list).
      { rewrite <- (firstn_skipn (List.length (g f)) p) at 1. f_equal.
        apply (f_equal (firstn (List.length (g f)))) in H. rewrite !firstn_app, Nat.sub_diag in H.
        replace (List.length (g f) - List.length p)%nat with 0%nat in H by lia.
        now rewrite !app_nil_r, firstn_all in H. }
      rewrite E, <- app_assoc in H. apply app_inv_head in H.
      destruct (IH _ H) as (fs1 & fs2 & tail & -> & Et & Htail).
      exists (f :: fs1), fs2, tail. split; [reflexivity|]. split; [|assumption].
      cbn. rewrite <- app_assoc, <- Et. exact E.
Qed.
End ListFacts.

(** ** Iteration order of hash tables

    [HashMap] and [HashSet] iterate in an unspecified order: the definitions that
    iterate over one list its contents and let the class rearrange the list. *)
Class HashOrder := hash_order : forall {A : Type}, list A -> list A.

Class HashOrderLaws (H : HashOrder) : Prop :=
  hash_order_perm : forall (A : Type) (l : list A), hash_order l ≡ₚ l.

(** The two orders the witnesses use. *)
Definition order_as_is : HashOrder := fun _ l => l.
Definition order_reversed : HashOrder := fun _ l => rev l.

Lemma order_as_is_laws : HashOrderLaws order_as_is.
Proof. intros A l. reflexivity. Qed.

Lemma order_reversed_laws : HashOrderLaws order_reversed.
Proof. intros A l. symmetry. apply Permutation_rev. Qed.

Lemma elem_of_hash_order `{HashOrderLaws} {A} (x : A) l : x ∈ hash_order l <-> x ∈ l.
Proof. split; intros E; [rewrite <- (hash_order_perm A l)|rewrite (hash_order_perm A l)]; exact E. Qed.

Lemma NoDup_hash_order `{HashOrderLaws} {A} (l : list A) : NoDup l -> NoDup (hash_order l).
Proof. intros E. rewrite (hash_order_perm A l). exact E. Qed.

(** ** [slice::sort_by] *)

(** [sort_by] is a stable sort.  (On a comparison that is not a total order the
    standard library may also panic or return another order.) *)
Section Sort.
Context {A : Type} (cmp : A -> A -> comparison).

Fixpoint sort_insert (x : A) (l : list A) : list A :=
  match l with
  | [] => [x]
  | y :: l' => match cmp x y with Gt => y :: sort_insert x l' | _ => x :: l end
  end.

Fixpoint sort_by (l : list A) : list A :=
  match l with
  | [] => []
  | x :: l' => sort_insert x (sort_by l')
  end.

Lemma sort_insert_perm x l : sort_insert x l ≡ₚ x :: l.
Proof.
  induction l as [|y l IH]; cbn [sort_insert]; [reflexivity|].
  destruct (cmp x y); [reflexivity|reflexivity|]. rewrite IH. apply Permutation_swap.
Qed.

Lemma sort_by_perm l : sort_by l ≡ₚ l.
Proof. induction l as [|x l IH]; cbn [sort_by]; [reflexivity|]. now rewrite sort_insert_perm, IH. Qed.
End Sort.

Create HintDb nova discriminated.
#[export] Hint Resolve wrap_i64_in_range : nova.

(** ** Build profile

    The workspace sets no [overflow-checks], so integer overflow panics in a debug
    build and wraps in a release build; definitions that compute on machine
    integers take the profile as a class argument. *)
Class Build := { overflow_checks : bool }.

Definition debug_build : Build := {| overflow_checks := true |}.
Definition release_build : Build := {| overflow_checks := false |}.

Section Checked.
Context {B : Build} {E : Type}.

(** The result [z] of an [i64] operation computed without bounds. *)
Definition checked_i64 (z : Z) : outcome E Z :=
  if in_i64 z then Ok z else if overflow_checks then Panic else Ok (wrap_i64 z).

Definition checked_u64 (z : Z) : outcome E Z :=
  if in_u64 z then Ok z else if overflow_checks then Panic else Ok (wrap_u64 z).

Lemma checked_i64_in_range z r : checked_i64 z = Ok r -> in_i64 r = true.
Proof.
  unfold checked_i64. destruct (in_i64 z) eqn:E1; [now intros [= <-]|].
  destruct overflow_checks; [discriminate|]. intros [= <-]. apply wrap_i64_in_range.
Qed.

Lemma checked_i64_exact z : in_i64 z = true -> checked_i64 z = Ok z.
Proof. unfold checked_i64. now intros ->. Qed.
End Checked.
