(* ===== verification/Bytes.v ===== *)
(** Bytes, big-endian integers and UTF-8.

    The parts of the Rust standard library and of the [byteorder] calls that the
    storage format and the wire protocol are written with: [u8] as [Byte.byte],
    [write_u16/u32/u64::<BigEndian>] as [be_split], the corresponding reads as
    [be_combine], [String] as its UTF-8 bytes, and [String::from_utf8],
    [str::chars], [char::is_whitespace] and [str::trim]. *)

From Stdlib Require Export Strings.Byte.
From S2P Require Export Prelude.

Abbreviation byte := Byte.byte.
Abbreviation bytes := (list Byte.byte).

#[export] Instance byte_eq_dec : EqDecision byte := Byte.byte_eq_dec.

Definition Z_of_byte (b : byte) : Z := Z.of_N (Byte.to_N b).

Definition byte_of_Z (z : Z) : byte :=
  match Byte.of_N (Z.to_N (z mod 256)) with
  | Some b => b
  | None => x00
  end.

Lemma Z_of_byte_bound b : 0 <= Z_of_byte b < 256.
Proof.
  unfold Z_of_byte. pose proof (Byte.to_N_bounded b). lia.
Qed.

Lemma Z_of_byte_of_Z z : Z_of_byte (byte_of_Z z) = z mod 256.
Proof.
  unfold byte_of_Z, Z_of_byte.
  pose proof (Z.mod_pos_bound z 256 ltac:(lia)) as Hb.
  destruct (Byte.of_N (Z.to_N (z mod 256))) as [b|] eqn:E.
  - apply Byte.to_of_N in E. rewrite E. lia.
  - apply Byte.of_N_None_iff in E. lia.
Qed.

Lemma Z_of_byte_of_Z_small z : 0 <= z < 256 -> Z_of_byte (byte_of_Z z) = z.
Proof. intros. rewrite Z_of_byte_of_Z. now apply Z.mod_small. Qed.

Lemma byte_of_Z_of_byte b : byte_of_Z (Z_of_byte b) = b.
Proof.
  unfold byte_of_Z, Z_of_byte.
  pose proof (Byte.to_N_bounded b).
  rewrite Z.mod_small by lia. rewrite N2Z.id, Byte.of_to_N. reflexivity.
Qed.

#[export] Instance Z_of_byte_inj : Inj (=) (=) Z_of_byte.
Proof.
  intros a b H. rewrite <- (byte_of_Z_of_byte a), <- (byte_of_Z_of_byte b).
  now rewrite H.
Qed.

(** ** Big-endian integers *)

(** The [n] low bytes of [z], most significant first. *)
Fixpoint be_split (n : nat) (z : Z) : bytes :=
  match n with
  | O => []
  | S n' => byte_of_Z (z / 256 ^ Z.of_nat n') :: be_split n' z
  end.

Fixpoint be_combine (l : bytes) : Z :=
  match l with
  | [] => 0
  | b :: l' => Z_of_byte b * 256 ^ Z.of_nat (List.length l') + be_combine l'
  end.

Definition write_u8 (z : Z) : bytes := be_split 1 z.
Definition write_u16 (z : Z) : bytes := be_split 2 z.
Definition write_u32 (z : Z) : bytes := be_split 4 z.
Definition write_u64 (z : Z) : bytes := be_split 8 z.

Lemma length_be_split n z : List.length (be_split n z) = n.
Proof. induction n; cbn; congruence. Qed.

Lemma be_combine_bound l : 0 <= be_combine l < 256 ^ Z.of_nat (List.length l).
Proof.
  induction l as [|b l IH]; cbn [be_combine List.length]; [lia|].
  rewrite Nat2Z.inj_succ, Z.pow_succ_r by lia.
  pose proof (Z_of_byte_bound b). nia.
Qed.

Lemma be_combine_split n z :
  be_combine (be_split n z) = z mod 256 ^ Z.of_nat n.
Proof.
  induction n as [|n IH]; cbn [be_split be_combine].
  - rewrite Z.pow_0_r, Z.mod_1_r. reflexivity.
  - rewrite length_be_split, IH, Z_of_byte_of_Z, Nat2Z.inj_succ, Z.pow_succ_r by lia.
    assert (0 < 256 ^ Z.of_nat n) by (apply Z.pow_pos_nonneg; lia).
    rewrite (Z.mul_comm 256), Z.rem_mul_r by lia. lia.
Qed.

Lemma be_combine_split_small n z :
  0 <= z < 256 ^ Z.of_nat n -> be_combine (be_split n z) = z.
Proof. intros. rewrite be_combine_split. now apply Z.mod_small. Qed.

Lemma be_split_add n k z :
  be_split n (k * 256 ^ Z.of_nat n + z) = be_split n z.
Proof.
  revert k. induction n as [|n IH]; intros k; cbn [be_split]; [reflexivity|].
  assert (0 < 256 ^ Z.of_nat n) by (apply Z.pow_pos_nonneg; lia).
  rewrite Nat2Z.inj_succ, Z.pow_succ_r by lia. f_equal.
  - replace (k * (256 * 256 ^ Z.of_nat n) + z) with (z + (k * 256) * 256 ^ Z.of_nat n) by lia.
    rewrite Z.div_add by lia. unfold byte_of_Z.
    now rewrite Z.mod_add by lia.
  - replace (k * (256 * 256 ^ Z.of_nat n)) with ((k * 256) * 256 ^ Z.of_nat n) by lia.
    apply IH.
Qed.

Lemma be_split_combine l : be_split (List.length l) (be_combine l) = l.
Proof.
  induction l as [|b l IH]; cbn [be_combine List.length be_split]; [reflexivity|].
  pose proof (be_combine_bound l). f_equal.
  - rewrite Z.add_comm, Z.div_add by lia.
    rewrite Z.div_small by lia. apply byte_of_Z_of_byte.
  - now rewrite be_split_add.
Qed.

Lemma be_split_combine_n n l : List.length l = n -> be_split n (be_combine l) = l.
Proof. intros <-. apply be_split_combine. Qed.

(** ** Strings as UTF-8 byte sequences

    A Rust [String] is modelled as the sequence of its UTF-8 bytes, so [len()] is
    [String.length] and [str]'s ordering is the ordering of the bytes. *)

Definition as_bytes (s : string) : bytes := String.list_byte_of_string s.
Definition from_bytes (l : bytes) : string := String.string_of_list_byte l.

Lemma from_as_bytes s : from_bytes (as_bytes s) = s.
Proof. apply String.string_of_list_byte_of_string. Qed.

Lemma as_from_bytes l : as_bytes (from_bytes l) = l.
Proof. apply String.list_byte_of_string_of_list_byte. Qed.

#[export] Instance as_bytes_inj : Inj (=) (=) as_bytes.
Proof.
  intros s t H. rewrite <- (from_as_bytes s), <- (from_as_bytes t). now rewrite H.
Qed.

Definition str_len (s : string) : Z := Z.of_nat (List.length (as_bytes s)).

(** A [char] is a Unicode scalar value. *)
Definition is_scalar (c : Z) : bool :=
  ((0 <=? c) && (c <? 0xD800)) || ((0xE000 <=? c) && (c <=? 0x10FFFF)).

Definition is_cont (c : Z) : bool := (0x80 <=? c) && (c <=? 0xBF).

(** Well-formed byte sequences: Table 3-7 of the Unicode standard, as in [core::str]. *)
Fixpoint utf8_decode (l : bytes) : option (list Z) :=
  match l with
  | [] => Some []
  | b0 :: l1 =>
    let c0 := Z_of_byte b0 in
    if c0 <? 0x80 then cons c0 <$> utf8_decode l1
    else match l1 with
    | [] => None
    | b1 :: l2 =>
      let c1 := Z_of_byte b1 in
      if (0xC2 <=? c0) && (c0 <=? 0xDF) && is_cont c1 then
        cons ((c0 - 0xC0) * 64 + (c1 - 0x80)) <$> utf8_decode l2
      else match l2 with
      | [] => None
      | b2 :: l3 =>
        let c2 := Z_of_byte b2 in
        let cp := (c0 - 0xE0) * 4096 + (c1 - 0x80) * 64 + (c2 - 0x80) in
        if (0xE0 <=? c0) && (c0 <=? 0xEF) && is_cont c1 && is_cont c2
           && (0x800 <=? cp) && negb ((0xD800 <=? cp) && (cp <=? 0xDFFF)) then
          cons cp <$> utf8_decode l3
        else match l3 with
        | [] => None
        | b3 :: l4 =>
          let c3 := Z_of_byte b3 in
          let cp := (c0 - 0xF0) * 262144 + (c1 - 0x80) * 4096 + (c2 - 0x80) * 64 + (c3 - 0x80) in
          if (0xF0 <=? c0) && (c0 <=? 0xF4) && is_cont c1 && is_cont c2 && is_cont c3
             && (0x10000 <=? cp) && (cp <=? 0x10FFFF) then
            cons cp <$> utf8_decode l4
          else None
        end
      end
    end
  end.

Definition utf8_encode_char (c : Z) : bytes :=
  if c <? 0x80 then [byte_of_Z c]
  else if c <? 0x800 then [byte_of_Z (0xC0 + c / 64); byte_of_Z (0x80 + c mod 64)]
  else if c <? 0x10000 then
    [byte_of_Z (0xE0 + c / 4096); byte_of_Z (0x80 + c / 64 mod 64); byte_of_Z (0x80 + c mod 64)]
  else
    [byte_of_Z (0xF0 + c / 262144); byte_of_Z (0x80 + c / 4096 mod 64);
     byte_of_Z (0x80 + c / 64 mod 64); byte_of_Z (0x80 + c mod 64)].

Definition utf8_encode (cs : list Z) : bytes := List.concat (List.map utf8_encode_char cs).

Definition utf8_valid (l : bytes) : bool :=
  match utf8_decode l with Some _ => true | None => false end.

(** [String::from_utf8]. *)
Definition from_utf8 (l : bytes) : option string :=
  if utf8_valid l then Some (from_bytes l) else None.

(** [s.chars()]; a [String] is always valid UTF-8. *)
Definition chars (s : string) : list Z :=
  match utf8_decode (as_bytes s) with Some cs => cs | None => [] end.

Definition string_of_chars (cs : list Z) : string := from_bytes (utf8_encode cs).

Definition valid_str (s : string) : bool := utf8_valid (as_bytes s).

(** [char::is_whitespace]: the [White_Space] property. *)
Definition is_whitespace (c : Z) : bool :=
  ((9 <=? c) && (c <=? 13)) || (c =? 32) || (c =? 0x85) || (c =? 0xA0) || (c =? 0x1680)
  || ((0x2000 <=? c) && (c <=? 0x200A)) || (c =? 0x2028) || (c =? 0x2029)
  || (c =? 0x202F) || (c =? 0x205F) || (c =? 0x3000).

Fixpoint drop_ws (cs : list Z) : list Z :=
  match cs with
  | [] => []
  | c :: cs' => if is_whitespace c then drop_ws cs' else cs
  end.

Definition trim_chars (cs : list Z) : list Z := rev (drop_ws (rev (drop_ws cs))).

(** [str::trim]. *)
Definition trim (s : string) : string := string_of_chars (trim_chars (chars s)).

(** ** UTF-8 lemmas *)

Ltac solve_zb :=
  unfold is_cont, is_scalar;
  repeat (rewrite andb_true_iff || rewrite andb_false_iff || rewrite orb_true_iff
          || rewrite orb_false_iff || rewrite negb_true_iff || rewrite negb_false_iff
          || rewrite Z.leb_le || rewrite Z.ltb_lt || rewrite Z.leb_gt || rewrite Z.ltb_ge);
  Z.to_euclidean_division_equations; lia.

Ltac if_true := match goal with |- context [if ?b then _ else _] =>
  replace b with true by (symmetry; solve_zb) end.
Ltac if_false := match goal with |- context [if ?b then _ else _] =>
  replace b with false by (symmetry; solve_zb) end.

Lemma utf8_decode_encode_char c l :
  is_scalar c = true ->
  utf8_decode (utf8_encode_char c ++ l) = cons c <$> utf8_decode l.
Proof.
  intros Hc.
  assert (0 <= c <= 0x10FFFF /\ ~ (0xD800 <= c <= 0xDFFF)) as [Hr Hs].
  { unfold is_scalar in Hc. apply orb_true_iff in Hc. destruct Hc; bool_facts; lia. }
  clear Hc. unfold utf8_encode_char. repeat case_if; bool_facts;
    cbn [app utf8_decode]; rewrite !Z_of_byte_of_Z_small
      by (Z.to_euclidean_division_equations; lia).
  - if_true. reflexivity.
  - if_false. if_true. f_equal. f_equal. Z.to_euclidean_division_equations; lia.
  - if_false. if_false.
    replace ((0xE0 + c / 4096 - 0xE0) * 4096 + (0x80 + c / 64 mod 64 - 0x80) * 64 + (0x80 + c mod 64 - 0x80))
      with c by (Z.to_euclidean_division_equations; lia).
    if_true. reflexivity.
  - if_false. if_false. if_false.
    replace ((0xF0 + c / 262144 - 0xF0) * 262144 + (0x80 + c / 4096 mod 64 - 0x80) * 4096
             + (0x80 + c / 64 mod 64 - 0x80) * 64 + (0x80 + c mod 64 - 0x80))
      with c by (Z.to_euclidean_division_equations; lia).
    if_true. reflexivity.
Qed.

Lemma utf8_decode_encode cs :
  Forall (fun c => is_scalar c = true) cs -> utf8_decode (utf8_encode cs) = Some cs.
Proof.
  induction 1 as [|c cs Hc _ IH]; [reflexivity|].
  unfold utf8_encode. cbn [List.map List.concat].
  rewrite utf8_decode_encode_char by assumption.
  fold (utf8_encode cs). now rewrite IH.
Qed.

(** One decoding step: the first character, its bytes and the rest. *)
Lemma utf8_decode_cons_inv b l cs :
  utf8_decode (b :: l) = Some cs ->
  exists c cs' l', cs = c :: cs' /\ utf8_decode l' = Some cs' /\
    is_scalar c = true /\ (b :: l = utf8_encode_char c ++ l')%list.
Proof.
  intros H. cbn [utf8_decode] in H.
  pose proof (Z_of_byte_bound b) as Hb.
  assert (Hround : forall x y, Z_of_byte x = y -> byte_of_Z y = x)
    by (intros x y <-; apply byte_of_Z_of_byte).
  destruct (Z_of_byte b <? 0x80) eqn:E0.
  { bool_facts. destruct (utf8_decode l) as [cs'|] eqn:D; [|discriminate].
    injection H as <-. exists (Z_of_byte b), cs', l. repeat split; auto.
    - solve_zb.
    - unfold utf8_encode_char. if_true. now rewrite byte_of_Z_of_byte. }
  destruct l as [|b1 l]; [discriminate|].
  pose proof (Z_of_byte_bound b1) as Hb1.
  destruct (_ && is_cont (Z_of_byte b1)) eqn:E1.
  { unfold is_cont in E1. bool_facts.
    destruct (utf8_decode l) as [cs'|] eqn:D; [|discriminate].
    injection H as <-. eexists _, cs', l. split; [reflexivity|]. split; [assumption|]. split.
    - solve_zb.
    - unfold utf8_encode_char. if_false. if_true. cbn. f_equal; [|f_equal];
        symmetry; apply Hround; Z.to_euclidean_division_equations; lia. }
  destruct l as [|b2 l]; [discriminate|].
  pose proof (Z_of_byte_bound b2) as Hb2.
  destruct (_ && _ && is_cont (Z_of_byte b1) && is_cont (Z_of_byte b2) && _ && _) eqn:E2.
  { clear E1. unfold is_cont in E2. bool_facts.
    destruct (utf8_decode l) as [cs'|] eqn:D; [|discriminate].
    injection H as <-. eexists _, cs', l. split; [reflexivity|]. split; [assumption|].
    match goal with H : (_ <=? _) && (_ <=? _) = false |- _ => apply andb_false_iff in H;
      assert (Hs : ~ (0xD800 <= (Z_of_byte b - 0xE0) * 4096 + (Z_of_byte b1 - 0x80) * 64 + (Z_of_byte b2 - 0x80) <= 0xDFFF))
        by (destruct H; bool_facts; lia) end.
    split.
    - solve_zb.
    - unfold utf8_encode_char. if_false. if_false. if_true.
      cbn. f_equal; [|f_equal; [|f_equal]]; symmetry; apply Hround;
        Z.to_euclidean_division_equations; lia. }
  destruct l as [|b3 l]; [discriminate|].
  pose proof (Z_of_byte_bound b3) as Hb3.
  destruct (_ && _ && is_cont (Z_of_byte b1) && _ && is_cont (Z_of_byte b3) && _ && _) eqn:E3;
    [|discriminate].
  clear E1 E2. unfold is_cont in E3. bool_facts.
  destruct (utf8_decode l) as [cs'|] eqn:D; [|discriminate].
  injection H as <-. eexists _, cs', l. split; [reflexivity|]. split; [assumption|]. split.
  - solve_zb.
  - unfold utf8_encode_char. if_false. if_false. if_false.
    cbn. f_equal; [|f_equal; [|f_equal; [|f_equal]]]; symmetry; apply Hround;
      Z.to_euclidean_division_equations; lia.
Qed.

Lemma utf8_decode_inv l cs :
  utf8_decode l = Some cs ->
  Forall (fun c => is_scalar c = true) cs /\ utf8_encode cs = l.
Proof.
  revert l. induction cs as [|c cs IH]; intros [|b l] H.
  - split; [constructor|reflexivity].
  - apply utf8_decode_cons_inv in H. naive_solver.
  - discriminate.
  - apply utf8_decode_cons_inv in H as (c' & cs' & l' & Hcs & Hd & Hs & Hl).
    injection Hcs as -> ->. destruct (IH _ Hd) as [HF HE]. split; [now constructor|].
    unfold utf8_encode in *. cbn [List.map List.concat]. now rewrite HE.
Qed.

Lemma chars_scalars s : Forall (fun c => is_scalar c = true) (chars s).
Proof.
  unfold chars. destruct (utf8_decode (as_bytes s)) eqn:E; [|constructor].
  now apply utf8_decode_inv in E.
Qed.

Lemma chars_of_chars cs :
  Forall (fun c => is_scalar c = true) cs -> chars (string_of_chars cs) = cs.
Proof.
  intros H. unfold chars, string_of_chars. rewrite as_from_bytes.
  now rewrite utf8_decode_encode.
Qed.

Lemma string_of_chars_valid cs :
  Forall (fun c => is_scalar c = true) cs -> valid_str (string_of_chars cs) = true.
Proof.
  intros H. unfold valid_str, utf8_valid, string_of_chars. rewrite as_from_bytes.
  now rewrite utf8_decode_encode.
Qed.

Lemma from_utf8_as_bytes s : valid_str s = true -> from_utf8 (as_bytes s) = Some s.
Proof. unfold valid_str, from_utf8. intros ->. now rewrite from_as_bytes. Qed.

Lemma from_utf8_inv l s : from_utf8 l = Some s -> as_bytes s = l /\ valid_str s = true.
Proof.
  unfold from_utf8, valid_str. destruct (utf8_valid l) eqn:E; [|discriminate].
  intros [= <-]. rewrite as_from_bytes. auto.
Qed.

(** *** Trimming *)

Lemma drop_ws_forall (P : Z -> Prop) cs : Forall P cs -> Forall P (drop_ws cs).
Proof. induction 1; cbn; [constructor|]. case_if; auto. Qed.

Lemma drop_ws_head cs : match drop_ws cs with c :: _ => is_whitespace c = false | [] => True end.
Proof. induction cs as [|c cs IH]; cbn; [exact I|]. case_if; auto. Qed.

Lemma drop_ws_fix cs :
  match cs with c :: _ => is_whitespace c = false | [] => True end -> drop_ws cs = cs.
Proof. destruct cs; cbn; [reflexivity|]. now intros ->. Qed.

Lemma drop_ws_suffix cs : exists p, cs = (p ++ drop_ws cs)%list.
Proof.
  induction cs as [|c cs [p IH]]; cbn; [now exists []|].
  case_if; [|now exists []]. exists (c :: p). cbn. now f_equal.
Qed.

Lemma trim_chars_forall (P : Z -> Prop) cs : Forall P cs -> Forall P (trim_chars cs).
Proof.
  intros H. unfold trim_chars. apply List.Forall_rev, drop_ws_forall, List.Forall_rev.
  now apply drop_ws_forall.
Qed.

(** A trimmed text has nothing to trim at its front. *)
Lemma drop_ws_trim cs : drop_ws (trim_chars cs) = trim_chars cs.
Proof.
  apply drop_ws_fix. unfold trim_chars. pose proof (drop_ws_head cs) as Hh.
  destruct (drop_ws_suffix (rev (drop_ws cs))) as [p Hp].
  apply (f_equal (@rev Z)) in Hp. rewrite rev_involutive, rev_app_distr in Hp.
  destruct (rev (drop_ws (rev (drop_ws cs)))) as [|c t]; [exact I|].
  rewrite Hp in Hh. exact Hh.
Qed.

Lemma trim_chars_idem cs : trim_chars (trim_chars cs) = trim_chars cs.
Proof.
  unfold trim_chars at 1. rewrite drop_ws_trim. unfold trim_chars. rewrite rev_involutive.
  f_equal. apply drop_ws_fix, drop_ws_head.
Qed.

Lemma chars_trim s : chars (trim s) = trim_chars (chars s).
Proof. unfold trim. now rewrite chars_of_chars by apply trim_chars_forall, chars_scalars. Qed.

Lemma trim_idem s : trim (trim s) = trim s.
Proof.
  unfold trim at 1. rewrite chars_trim, trim_chars_idem. reflexivity.
Qed.

Lemma trim_valid s : valid_str (trim s) = true.
Proof. apply string_of_chars_valid, trim_chars_forall, chars_scalars. Qed.

(** ** Readers

    A reader over bytes that are already there: [Read::read_exact] and the
    [byteorder] reads.  [None] is [ErrorKind::UnexpectedEof]. *)

Definition read_exact (n : nat) (input : bytes) : option (bytes * bytes) :=
  if Nat.leb n (List.length input) then Some (firstn n input, skipn n input) else None.

Definition read_be (n : nat) (input : bytes) : option (Z * bytes) :=
  match read_exact n input with
  | Some (b, rest) => Some (be_combine b, rest)
  | None => None
  end.

(** The text of [io::Error] for a short read. *)
Definition eof_text : string := "failed to fill whole buffer".

Lemma read_exact_app n a b : List.length a = n -> read_exact n (a ++ b) = Some (a, b).
Proof.
  intros <-. unfold read_exact. rewrite (proj2 (Nat.leb_le _ _)) by (rewrite length_app; lia).
  rewrite firstn_app, firstn_all, Nat.sub_diag, app_nil_r.
  now rewrite skipn_app, skipn_all, Nat.sub_diag.
Qed.

Lemma read_exact_short n l : (List.length l < n)%nat -> read_exact n l = None.
Proof. intros H. unfold read_exact. now rewrite (proj2 (Nat.leb_gt _ _)). Qed.

Lemma read_exact_inv n l a b :
  read_exact n l = Some (a, b) -> l = (a ++ b)%list /\ List.length a = n.
Proof.
  unfold read_exact. destruct (Nat.leb_spec n (List.length l)); [|discriminate].
  intros [= <- <-]. split; [symmetry; apply firstn_skipn|]. rewrite length_firstn. lia.
Qed.

Lemma read_be_app n z b :
  0 <= z < 256 ^ Z.of_nat n -> read_be n (be_split n z ++ b) = Some (z, b).
Proof.
  intros. unfold read_be. rewrite read_exact_app by apply length_be_split.
  now rewrite be_combine_split_small.
Qed.

Lemma read_be_short n l : (List.length l < n)%nat -> read_be n l = None.
Proof. intros. unfold read_be. now rewrite read_exact_short. Qed.

Lemma read_be_inv n l z b :
  read_be n l = Some (z, b) -> l = (be_split n z ++ b)%list /\ 0 <= z < 256 ^ Z.of_nat n.
Proof.
  unfold read_be. destruct (read_exact n l) as [[a r]|] eqn:E; [|discriminate].
  intros [= <- <-]. apply read_exact_inv in E as [-> L].
  rewrite be_split_combine_n by assumption. split; [reflexivity|].
  rewrite <- L. apply be_combine_bound.
Qed.
