(* ===== verification/Errors.v ===== *)
(** [nova-core/src/error.rs]: error codes, [NovaError] and its constructors.

    The text of an error is modelled too, with the formatting directives the code
    uses ([{}] on integers and strings, [{:02X}], [{:08X}]).  Where the code prints
    a value whose [Debug] or [Display] rendering is a derived or third-party
    implementation, the rendered text is an argument of the definition. *)

From Stdlib Require Import DecimalString.
From S2P Require Export Prelude.

Inductive ErrorCode :=
| DocumentNotFound | CollectionNotFound | NamespaceNotFound | DocumentAlreadyExists
| IndexAlreadyExists | IndexNotFound | InvalidQuery | ParseError | TypeError
| StorageError | WalCorrupted | TornWriteDetected | ChecksumMismatch
| TransactionAborted | TransactionActive | NoActiveTransaction | ProtocolViolation
| FrameTooLarge | AuthenticationFailed | PermissionDenied | ConnectionLimitExceeded
| BufferOverflow | SnapshotFailed | InternalError.

#[export] Instance ErrorCode_eq_dec : EqDecision ErrorCode.
Proof. solve_decision. Defined.

Definition error_code_as_str (c : ErrorCode) : string :=
  match c with
  | DocumentNotFound => "DOCUMENT_NOT_FOUND"
  | CollectionNotFound => "COLLECTION_NOT_FOUND"
  | NamespaceNotFound => "NAMESPACE_NOT_FOUND"
  | DocumentAlreadyExists => "DOCUMENT_ALREADY_EXISTS"
  | IndexAlreadyExists => "INDEX_ALREADY_EXISTS"
  | IndexNotFound => "INDEX_NOT_FOUND"
  | InvalidQuery => "INVALID_QUERY"
  | ParseError => "PARSE_ERROR"
  | TypeError => "TYPE_ERROR"
  | StorageError => "STORAGE_ERROR"
  | WalCorrupted => "WAL_CORRUPTED"
  | TornWriteDetected => "TORN_WRITE_DETECTED"
  | ChecksumMismatch => "CHECKSUM_MISMATCH"
  | TransactionAborted => "TRANSACTION_ABORTED"
  | TransactionActive => "TRANSACTION_ACTIVE"
  | NoActiveTransaction => "NO_ACTIVE_TRANSACTION"
  | ProtocolViolation => "PROTOCOL_VIOLATION"
  | FrameTooLarge => "FRAME_TOO_LARGE"
  | AuthenticationFailed => "AUTH_FAILED"
  | PermissionDenied => "PERMISSION_DENIED"
  | ConnectionLimitExceeded => "CONNECTION_LIMIT_EXCEEDED"
  | BufferOverflow => "BUFFER_OVERFLOW"
  | SnapshotFailed => "SNAPSHOT_FAILED"
  | InternalError => "INTERNAL_ERROR"
  end%string.

(** ** Formatting *)

(** [{}] on an integer. *)
Definition fmt_int (z : Z) : string := NilZero.string_of_int (Z.to_int z).

Definition hex_digit (upper : bool) (d : Z) : ascii :=
  ascii_of_N (Z.to_N (if d <? 10 then 48 + d else (if upper then 55 else 87) + d)).

(** [{:0nX}] or [{:0nx}] on an unsigned integer below [16^n]. *)
Fixpoint fmt_hex (upper : bool) (n : nat) (z : Z) : string :=
  match n with
  | O => EmptyString
  | S n' => String (hex_digit upper (z / 16 ^ Z.of_nat n' mod 16)) (fmt_hex upper n' z)
  end.

(** ** Errors *)

Record NovaError := {
  code : ErrorCode;
  message : string;
  details : option string;
}.

Abbreviation result A := (outcome NovaError A).

Local Open Scope string_scope.

Definition new (c : ErrorCode) (msg : string) : NovaError :=
  {| code := c; message := msg; details := None |}.

Definition with_details (c : ErrorCode) (msg det : string) : NovaError :=
  {| code := c; message := msg; details := Some det |}.

Definition document_not_found (id : string) : NovaError :=
  new DocumentNotFound ("Document with ID '" ++ id ++ "' was not found").

Definition collection_not_found (name : string) : NovaError :=
  new CollectionNotFound ("Collection '" ++ name ++ "' does not exist").

Definition invalid_query (msg : string) : NovaError := new InvalidQuery msg.

Definition parse_error (msg : string) (line col : Z) : NovaError :=
  with_details ParseError msg
    ("Error location: line " ++ fmt_int line ++ ", column " ++ fmt_int col).

Definition type_error (expected found : string) : NovaError :=
  new TypeError ("Type mismatch: expected " ++ expected ++ ", found " ++ found).

Definition storage (msg : string) : NovaError := new StorageError msg.

Definition wal_corrupted (msg : string) : NovaError := new WalCorrupted msg.

Definition checksum_mismatch (expected calculated : Z) : NovaError :=
  with_details ChecksumMismatch "Checksum verification failed"
    ("Expected CRC32 0x" ++ fmt_hex true 8 expected
     ++ ", but calculated 0x" ++ fmt_hex true 8 calculated).

Definition protocol (msg : string) : NovaError := new ProtocolViolation msg.

Definition internal (msg : string) : NovaError := new InternalError msg.

(** [impl Display for NovaError]. *)
Definition error_to_string (e : NovaError) : string :=
  "[" ++ error_code_as_str e.(code) ++ "] " ++ e.(message)
  ++ match e.(details) with Some d => " (" ++ d ++ ")" | None => "" end.

(** The code names on the wire are distinct. *)
Lemma error_code_as_str_inj c c' : error_code_as_str c = error_code_as_str c' -> c = c'.
Proof. destruct c, c'; (reflexivity || discriminate). Qed.
