(* ===== verification/Float.v ===== *)
(** IEEE 754 binary64 as the code uses it.

    An [f64] is its 64-bit pattern, a [Z] in [0, 2^64): [total_cmp] and [to_bits]
    (both used by [value.rs]) tell apart NaNs and zeros that the numeric
    operations identify, so the pattern is the datum.  Arithmetic goes through
    Rocq's executable specification [SpecFloat] at precision 53 and [emax] 1024;
    the bit pattern of a NaN produced by arithmetic is unspecified in Rust and is
    the argument [nan]. *)

From Stdlib Require Import Floats.SpecFloat.
From S2P Require Export Prelude.

Definition two52 : Z := 4503599627370496.
Definition two53 : Z := 9007199254740992.
Definition two63 : Z := 9223372036854775808.
Definition two64 : Z := 18446744073709551616.

Definition is_f64 (b : Z) : bool := (0 <=? b) && (b <? two64).

Definition f64_sign (b : Z) : bool := two63 <=? b.
Definition f64_exp (b : Z) : Z := (b / two52) mod 2048.
Definition f64_man (b : Z) : Z := b mod two52.

Definition to_sf (b : Z) : spec_float :=
  let s := f64_sign b in
  let e := f64_exp b in
  let m := f64_man b in
  if e =? 2047 then (if m =? 0 then S754_infinity s else S754_nan)
  else if e =? 0 then
    match m with Zpos p => S754_finite s p (-1074) | _ => S754_zero s end
  else
    match m + two52 with Zpos p => S754_finite s p (e - 1075) | _ => S754_zero s end.

Definition of_sf (nan : Z) (x : spec_float) : Z :=
  match x with
  | S754_zero s => if s then two63 else 0
  | S754_infinity s => (if s then two63 else 0) + 2047 * two52
  | S754_nan => nan
  | S754_finite s m e =>
    (if s then two63 else 0)
    + (if Zpos m <? two52 then Zpos m else (e + 1075) * two52 + (Zpos m - two52))
  end.

(** The quiet NaN with an empty payload, [f64::NAN]. *)
Definition f64_NAN : Z := 0x7FF8000000000000.

Definition f64_is_nan (b : Z) : bool := (f64_exp b =? 2047) && negb (f64_man b =? 0).

Definition f64_add (nan a b : Z) : Z := of_sf nan (SFadd 53 1024 (to_sf a) (to_sf b)).
Definition f64_sub (nan a b : Z) : Z := of_sf nan (SFsub 53 1024 (to_sf a) (to_sf b)).
Definition f64_mul (nan a b : Z) : Z := of_sf nan (SFmul 53 1024 (to_sf a) (to_sf b)).
Definition f64_div (nan a b : Z) : Z := of_sf nan (SFdiv 53 1024 (to_sf a) (to_sf b)).

(** [-f] flips the sign bit, of a NaN too. *)
Definition f64_neg (a : Z) : Z := if f64_sign a then a - two63 else a + two63.

(** [PartialOrd::partial_cmp] and [PartialEq::eq]. *)
Definition f64_partial_cmp (a b : Z) : option comparison := SFcompare (to_sf a) (to_sf b).
Definition f64_eqb (a b : Z) : bool := SFeqb (to_sf a) (to_sf b).
Definition f64_leb (a b : Z) : bool := SFleb (to_sf a) (to_sf b).

(** [f64::total_cmp]: the bits as a signed integer, with the low 63 bits of the
    negative ones flipped. *)
Definition total_key (b : Z) : Z := if b <? two63 then b else two63 - 1 - b.
Definition total_cmp (a b : Z) : comparison := Z.compare (total_key a) (total_key b).

(** [i as f64]: round to nearest, ties to even. *)
Definition mag_of_int (a : Z) : Z :=
  let d := Z.log2 a in
  if d <=? 52 then (d + 1022) * two52 + a * 2 ^ (52 - d)
  else
    let s := d - 52 in
    let q := a / 2 ^ s in
    let r := a mod 2 ^ s in
    let up := (2 ^ (s - 1) <? r) || ((2 ^ (s - 1) =? r) && Z.odd q) in
    (d + 1022) * two52 + (if up then q + 1 else q).

Definition f64_of_i64 (i : Z) : Z :=
  if i =? 0 then 0
  else if 0 <? i then mag_of_int i
  else two63 + mag_of_int (- i).

(** The integer part of a finite float, rounded towards zero. *)
Definition sf_trunc (x : spec_float) : Z :=
  match x with
  | S754_finite s m e =>
    let a := if 0 <=? e then Zpos m * 2 ^ e else Zpos m / 2 ^ (- e) in
    if s then - a else a
  | _ => 0
  end.

(** [f as i64]: saturating, a NaN gives 0. *)
Definition f64_as_i64 (b : Z) : Z :=
  match to_sf b with
  | S754_nan => 0
  | S754_infinity s => if s then i64_min else i64_max
  | x => Z.max i64_min (Z.min i64_max (sf_trunc x))
  end.

(** [f.fract() == 0.0], with [fract] being [self - self.trunc()]: infinite and NaN
    arguments give NaN, which is not equal to zero. *)
Definition fract_is_zero (b : Z) : bool :=
  match to_sf b with
  | S754_zero _ => true
  | S754_finite _ m e => (0 <=? e) || (Zpos m mod 2 ^ (- e) =? 0)
  | _ => false
  end.

(** The test [f.fract() == 0.0 && f >= i64::MIN as f64 && f <= i64::MAX as f64]. *)
Definition fits_i64 (b : Z) : bool :=
  fract_is_zero b && f64_leb (f64_of_i64 i64_min) b && f64_leb b (f64_of_i64 i64_max).

(** Cross-checks against [SpecFloat]'s own rounding. *)
Definition sf_of_int (i : Z) : spec_float := binary_normalize 53 1024 i 0 false.

Example f64_of_i64_samples :
  List.forallb (fun i => f64_of_i64 i =? of_sf f64_NAN (sf_of_int i))
    [0; 1; -1; 2; 3; 10; 1000003; -7; two53; two53 + 1; two53 + 2; two53 + 3; - two53 - 1;
     i64_max; i64_min; i64_max - 512; i64_max - 511; 0x20000000000001; 0x3FFFFFFFFFFFFF] = true.
Proof. vm_compute. reflexivity. Qed.

Example to_of_sf_samples :
  List.forallb (fun b => of_sf f64_NAN (to_sf b) =? b)
    [0; two63; 1; two52; two52 - 1; 0x7FF0000000000000; 0xFFF0000000000000; f64_NAN;
     0x3FF0000000000000; 0x4024800000000000; 0xC024800000000000] = true.
Proof. vm_compute. reflexivity. Qed.

(** ** Comparison on small integers

    Up to 2^53 in magnitude, integers convert exactly and [total_cmp] on the
    images is the order of the integers. *)

Definition int_small (i : Z) : bool := (- two53 <=? i) && (i <=? two53).

Lemma total_cmp_sym a b : total_cmp b a = CompOpp (total_cmp a b).
Proof. apply Z.compare_antisym. Qed.

Lemma pow_split d : 0 <= d <= 52 -> 2 ^ d * 2 ^ (52 - d) = two52.
Proof.
  intros. rewrite <- Z.pow_add_r by lia. replace (d + (52 - d)) with 52 by lia. reflexivity.
Qed.

Lemma scaled_bounds a d :
  2 ^ d <= a < 2 ^ (d + 1) -> 0 <= d <= 52 -> two52 <= a * 2 ^ (52 - d) < 2 * two52.
Proof.
  intros Ha Hd. pose proof (pow_split d Hd). rewrite Z.pow_add_r in Ha by lia.
  assert (0 < 2 ^ (52 - d)) by (apply Z.pow_pos_nonneg; lia). nia.
Qed.

Lemma mag_of_two53 : mag_of_int two53 = 1076 * two52.
Proof. reflexivity. Qed.

Lemma log2_small a : 0 < a < two53 -> 0 <= Z.log2 a <= 52.
Proof.
  intros. split; [apply Z.log2_nonneg|].
  enough (Z.log2 a < 53) by lia. apply Z.log2_lt_pow2; [lia|]. exact (proj2 H).
Qed.

Lemma mag_of_int_bounds a : 0 < a <= two53 -> 1023 * two52 <= mag_of_int a <= 1076 * two52.
Proof.
  intros Ha. destruct (Z.eq_dec a two53) as [->|].
  { rewrite mag_of_two53. unfold two52. lia. }
  pose proof (log2_small a ltac:(lia)) as Hd.
  pose proof (Z.log2_spec a ltac:(lia)) as Hs. rewrite <- Z.add_1_r in Hs.
  pose proof (scaled_bounds a _ Hs Hd). unfold mag_of_int.
  rewrite (proj2 (Z.leb_le _ _)) by lia. unfold two52 in *. lia.
Qed.

Lemma mag_of_int_mono a b : 0 < a -> a < b -> b <= two53 -> mag_of_int a < mag_of_int b.
Proof.
  intros Ha Hab Hb.
  pose proof (log2_small a ltac:(lia)) as Hda.
  pose proof (Z.log2_spec a ltac:(lia)) as Hsa. rewrite <- Z.add_1_r in Hsa.
  pose proof (scaled_bounds a _ Hsa Hda) as Ba.
  assert (Ea : mag_of_int a = (Z.log2 a + 1022) * two52 + a * 2 ^ (52 - Z.log2 a)).
  { unfold mag_of_int. now rewrite (proj2 (Z.leb_le _ _)) by lia. }
  destruct (Z.eq_dec b two53) as [->|].
  { rewrite Ea, mag_of_two53. unfold two52 in *. nia. }
  pose proof (log2_small b ltac:(lia)) as Hdb.
  pose proof (Z.log2_spec b ltac:(lia)) as Hsb. rewrite <- Z.add_1_r in Hsb.
  pose proof (scaled_bounds b _ Hsb Hdb) as Bb.
  assert (Eb : mag_of_int b = (Z.log2 b + 1022) * two52 + b * 2 ^ (52 - Z.log2 b)).
  { unfold mag_of_int. now rewrite (proj2 (Z.leb_le _ _)) by lia. }
  pose proof (Z.log2_le_mono a b ltac:(lia)) as Hm.
  rewrite Ea, Eb. destruct (Z.eq_dec (Z.log2 a) (Z.log2 b)) as [E|].
  - rewrite E. assert (0 < 2 ^ (52 - Z.log2 b)) by (apply Z.pow_pos_nonneg; lia). nia.
  - unfold two52 in *. nia.
Qed.

Definition int_key (i : Z) : Z := total_key (f64_of_i64 i).

Lemma int_key_pos i : 0 < i <= two53 -> int_key i = mag_of_int i.
Proof.
  intros H. pose proof (mag_of_int_bounds i H). unfold int_key, f64_of_i64, total_key.
  rewrite (proj2 (Z.eqb_neq _ _)) by lia. rewrite (proj2 (Z.ltb_lt 0 i)) by lia.
  rewrite (proj2 (Z.ltb_lt _ _)); [reflexivity|]. unfold two52, two63 in *. lia.
Qed.

Lemma int_key_neg i : - two53 <= i < 0 -> int_key i = - 1 - mag_of_int (- i).
Proof.
  intros H. pose proof (mag_of_int_bounds (- i) ltac:(lia)). unfold int_key, f64_of_i64, total_key.
  rewrite (proj2 (Z.eqb_neq _ _)) by lia. rewrite (proj2 (Z.ltb_ge 0 i)) by lia.
  rewrite (proj2 (Z.ltb_ge _ _)); [lia|]. unfold two52, two63 in *. lia.
Qed.

Lemma int_key_mono i j :
  int_small i = true -> int_small j = true -> i < j -> int_key i < int_key j.
Proof.
  unfold int_small. intros Hi Hj Hij. bool_facts.
  assert (K0 : int_key 0 = 0) by reflexivity.
  assert (0 < two52) by reflexivity.
  destruct (Z.lt_trichotomy i 0) as [Hi0|[->|Hi0]];
    destruct (Z.lt_trichotomy j 0) as [Hj0|[->|Hj0]]; try lia;
    rewrite ?K0, ?int_key_neg, ?int_key_pos by lia;
    try pose proof (mag_of_int_bounds i ltac:(lia));
    try pose proof (mag_of_int_bounds (- i) ltac:(lia));
    try pose proof (mag_of_int_bounds j ltac:(lia));
    try pose proof (mag_of_int_bounds (- j) ltac:(lia)); try lia.
  - enough (mag_of_int (- j) < mag_of_int (- i)) by lia. apply mag_of_int_mono; lia.
  - apply mag_of_int_mono; lia.
Qed.

Lemma int_key_compare i j :
  int_small i = true -> int_small j = true ->
  Z.compare i j = Z.compare (int_key i) (int_key j).
Proof.
  intros Hi Hj. destruct (Z.compare_spec i j) as [->|H|H].
  - now rewrite Z.compare_refl.
  - symmetry. apply Z.compare_lt_iff. now apply int_key_mono.
  - symmetry. apply Z.compare_gt_iff. now apply int_key_mono.
Qed.

(** ** Bit patterns and numeric equality *)

Lemma f64_split b :
  is_f64 b = true ->
  b = (if f64_sign b then two63 else 0) + f64_exp b * two52 + f64_man b
  /\ 0 <= f64_exp b < 2048 /\ 0 <= f64_man b < two52.
Proof.
  unfold is_f64, f64_sign, f64_exp, f64_man. intros H. bool_facts.
  pose proof (Z.mod_pos_bound b two52 ltac:(reflexivity)).
  pose proof (Z.mod_pos_bound (b / two52) 2048 ltac:(reflexivity)).
  repeat split; try lia.
  pose proof (Z.div_mod b two52 ltac:(easy)) as E1.
  pose proof (Z.div_mod (b / two52) 2048 ltac:(easy)) as E2.
  unfold two63, two64, two52 in *. destruct (Z.leb_spec 9223372036854775808 b); lia.
Qed.

Lemma of_to_sf n b : is_f64 b = true -> to_sf b <> S754_nan -> of_sf n (to_sf b) = b.
Proof.
  intros Hb Hn. destruct (f64_split b Hb) as (E & He & Hm). unfold to_sf in *.
  set (s := f64_sign b) in *. clearbody s.
  destruct (f64_exp b =? 2047) eqn:E1; bool_facts.
  - destruct (f64_man b =? 0) eqn:E2; [|easy]. bool_facts. cbn. lia.
  - destruct (f64_exp b =? 0) eqn:E2; bool_facts.
    + destruct (f64_man b) as [|p|p] eqn:E3; cbn [of_sf]; [lia| |lia].
      rewrite (proj2 (Z.ltb_lt _ _)) by lia. lia.
    + destruct (f64_man b + two52) as [|p|p] eqn:E3; cbn [of_sf]; try (unfold two52 in *; lia).
      rewrite (proj2 (Z.ltb_ge _ _)) by (unfold two52 in *; lia). unfold two52 in *. lia.
Qed.

Definition f64_is_zero (b : Z) : bool := match to_sf b with S754_zero _ => true | _ => false end.

(** Numeric equality is equality of the patterns, up to the sign of zero. *)
Lemma f64_eqb_true a b :
  is_f64 a = true -> is_f64 b = true -> f64_eqb a b = true ->
  a = b \/ (f64_is_zero a = true /\ f64_is_zero b = true).
Proof.
  intros Ha Hb H. unfold f64_eqb, SFeqb in H.
  assert (to_sf a = to_sf b /\ to_sf a <> S754_nan \/ (f64_is_zero a = true /\ f64_is_zero b = true)) as [[E N]|]; auto.
  - unfold f64_is_zero. destruct (to_sf a) as [| | |sa ma ea], (to_sf b) as [| | |sb mb eb]; cbn in H; try discriminate; auto;
      try (destruct s; discriminate); try (destruct s0; discriminate); try (destruct sa; discriminate);
      try (destruct sb; discriminate).
    + left. destruct s, s0; easy.
    + left. destruct sa, sb; try discriminate;
        destruct (Z.compare_spec ea eb); try discriminate; subst;
        rewrite Pos.compare_cont_spec in H; destruct (Pos.compare_spec ma mb); subst; easy.
  - left. rewrite <- (of_to_sf 0 a), <- (of_to_sf 0 b) by (congruence || auto). now rewrite E.
Qed.

(** ** Small integers as floats *)

Lemma f64_of_i64_bits i :
  int_small i = true -> i <> 0 ->
  f64_of_i64 i = (if i <? 0 then two63 else 0) + mag_of_int (Z.abs i)
  /\ 1023 * two52 <= mag_of_int (Z.abs i) <= 1076 * two52.
Proof.
  unfold int_small. intros H H0. bool_facts.
  split; [|apply mag_of_int_bounds; lia].
  unfold f64_of_i64. rewrite (proj2 (Z.eqb_neq _ _)) by lia.
  destruct (Z.ltb_spec 0 i), (Z.ltb_spec i 0); try lia;
    [rewrite Z.abs_eq by lia|rewrite Z.abs_neq by lia]; lia.
Qed.

Lemma is_f64_of_i64 i : int_small i = true -> is_f64 (f64_of_i64 i) = true.
Proof.
  intros H. destruct (Z.eq_dec i 0) as [->|H0]; [reflexivity|].
  destruct (f64_of_i64_bits i H H0) as [-> Hb]. unfold is_f64, two52, two63, two64 in *.
  apply andb_true_iff; split; [apply Z.leb_le|apply Z.ltb_lt]; destruct (i <? 0); lia.
Qed.

(** The float of a small integer, decoded: [|i|] scaled into [2^52, 2^53). *)
Lemma to_sf_of_i64 i :
  int_small i = true -> i <> 0 ->
  exists m e, to_sf (f64_of_i64 i) = S754_finite (i <? 0) m e
    /\ -52 <= e <= 1 /\ (e <= 0 -> Zpos m = Z.abs i * 2 ^ (- e))
    /\ (e = 1 -> Z.abs i = two53 /\ Zpos m = two52).
Proof.
  intros H H0. destruct (f64_of_i64_bits i H H0) as [E Hb].
  set (a := Z.abs i) in *. assert (Ha : 0 < a <= two53).
  { unfold int_small in H. bool_facts. lia. }
  set (s := i <? 0) in *. set (M := mag_of_int a) in *.
  assert (Hs : f64_sign (f64_of_i64 i) = s).
  { rewrite E. unfold f64_sign, two52, two63 in *. destruct s; [apply Z.leb_le|apply Z.leb_gt]; lia. }
  assert (He : f64_exp (f64_of_i64 i) = M / two52).
  { rewrite E. unfold f64_exp. destruct s.
    - replace (two63 + M) with (M + 2048 * two52) by (unfold two63, two52; lia).
      rewrite Z.div_add by easy. rewrite Z.add_mod, Z.mod_same, Z.add_0_r, Z.mod_mod by easy.
      apply Z.mod_small. unfold two52 in *. Z.to_euclidean_division_equations; lia.
    - rewrite Z.add_0_l. apply Z.mod_small. unfold two52 in *. Z.to_euclidean_division_equations; lia. }
  assert (Hm : f64_man (f64_of_i64 i) = M mod two52).
  { rewrite E. unfold f64_man. destruct s; [|now rewrite Z.add_0_l].
    replace (two63 + M) with (M + 2048 * two52) by (unfold two63, two52; lia).
    now rewrite Z.mod_add by easy. }
  unfold to_sf. rewrite Hs, He, Hm.
  destruct (Z.eq_dec a two53) as [Ea|Ea].
  - assert (EM : M = 1076 * two52) by (subst M; now rewrite Ea).
    rewrite EM. exists 4503599627370496%positive, 1. repeat split; auto; lia.
  - pose proof (log2_small a ltac:(lia)) as Hd.
    pose proof (Z.log2_spec a ltac:(lia)) as Hl. rewrite <- Z.add_1_r in Hl.
    pose proof (scaled_bounds a _ Hl Hd) as B.
    assert (EM : M = (Z.log2 a + 1023) * two52 + (a * 2 ^ (52 - Z.log2 a) - two52)).
    { subst M. unfold mag_of_int. rewrite (proj2 (Z.leb_le _ _)) by lia. unfold two52. lia. }
    assert (Ed : M / two52 = Z.log2 a + 1023).
    { rewrite EM, Z.add_comm, Z.div_add by easy. rewrite Z.div_small by lia. lia. }
    assert (Er : M mod two52 = a * 2 ^ (52 - Z.log2 a) - two52).
    { rewrite EM, Z.add_comm, Z.mod_add by easy. apply Z.mod_small. lia. }
    rewrite Ed, Er. rewrite (proj2 (Z.eqb_neq _ _)) by lia. rewrite (proj2 (Z.eqb_neq _ _)) by lia.
    replace (a * 2 ^ (52 - Z.log2 a) - two52 + two52) with (a * 2 ^ (52 - Z.log2 a)) by lia.
    destruct (a * 2 ^ (52 - Z.log2 a)) as [|p|p] eqn:Ep; try (unfold two52 in *; lia).
    exists p, (Z.log2 a + 1023 - 1075). repeat split; try lia.
    intros _. rewrite <- Ep. do 2 f_equal. lia.
Qed.

Lemma f64_of_i64_not_zero i : int_small i = true -> i <> 0 -> f64_is_zero (f64_of_i64 i) = false.
Proof. intros H H0. unfold f64_is_zero. destruct (to_sf_of_i64 i H H0) as (m & e & -> & _). reflexivity. Qed.

Lemma fits_of_i64 i :
  int_small i = true -> fits_i64 (f64_of_i64 i) = true /\ f64_as_i64 (f64_of_i64 i) = i.
Proof.
  intros H. destruct (Z.eq_dec i 0) as [->|H0]; [now vm_compute|].
  destruct (to_sf_of_i64 i H H0) as (m & e & E & He & Hneg & Hone).
  assert (Hi : i64_min <= i <= i64_max).
  { unfold int_small in H. bool_facts. unfold i64_min, i64_max, two53 in *. lia. }
  assert (Emin : to_sf (f64_of_i64 i64_min) = S754_finite true 4503599627370496 11) by reflexivity.
  assert (Emax : to_sf (f64_of_i64 i64_max) = S754_finite false 4503599627370496 11) by reflexivity.
  assert (Htr : sf_trunc (S754_finite (i <? 0) m e) = i).
  { cbn [sf_trunc]. assert (A : (if 0 <=? e then Zpos m * 2 ^ e else Zpos m / 2 ^ (- e)) = Z.abs i).
    { destruct (Z.leb_spec 0 e).
      - destruct (Z.eq_dec e 0) as [->|]; [rewrite Hneg by lia; change (2 ^ (- 0)) with 1; change (2 ^ 0) with 1; lia|].
        destruct (Hone ltac:(lia)) as [-> ->]. assert (e = 1) as -> by lia. reflexivity.
      - rewrite Hneg by lia. apply Z.div_mul. apply Z.pow_nonzero; lia. }
    rewrite A. destruct (Z.ltb_spec i 0); lia. }
  split.
  - unfold fits_i64, fract_is_zero, f64_leb. rewrite E, Emin, Emax.
    assert (Hint : (0 <=? e) || (Zpos m mod 2 ^ (- e) =? 0) = true).
    { destruct (Z.leb_spec 0 e); [reflexivity|]. cbn [orb]. apply Z.eqb_eq.
      rewrite Hneg by lia. apply Z.mod_mul. apply Z.pow_nonzero; lia. }
    rewrite Hint. cbn [andb]. unfold SFleb, SFcompare.
    rewrite (proj2 (Z.compare_lt_iff e 11)), (proj2 (Z.compare_gt_iff 11 e)) by lia.
    destruct (i <? 0); reflexivity.
  - unfold f64_as_i64. rewrite E, Htr. lia.
Qed.

Lemma f64_eqb_refl f : f64_is_nan f = false -> f64_eqb f f = true.
Proof.
  unfold f64_eqb, SFeqb, f64_is_nan, to_sf. intros H.
  destruct (f64_exp f =? 2047) eqn:E; cbn [andb] in H.
  - destruct (f64_man f =? 0); [|easy]. now destruct (f64_sign f).
  - assert (R : forall s m e, match SFcompare (S754_finite s m e) (S754_finite s m e) with Some Eq => true | _ => false end = true).
    { intros s m e. cbn. rewrite Z.compare_refl, Pos.compare_cont_refl. now destruct s. }
    destruct (f64_exp f =? 0); [destruct (f64_man f)|destruct (f64_man f + two52)]; auto.
Qed.

(** Floats a query and an index agree on: a bit pattern that is neither a NaN nor
    the negative zero. *)
Definition ordinary_f64 (f : Z) : bool :=
  is_f64 f && negb (f64_is_nan f) && negb (f =? two63).

Lemma f64_is_zero_bits f :
  is_f64 f = true -> f64_is_zero f = true -> f = 0 \/ f = two63.
Proof.
  intros Hf Hz. unfold f64_is_zero in Hz. destruct (to_sf f) eqn:E; try discriminate.
  rewrite <- (of_to_sf 0 f) by (congruence || auto). rewrite E. destruct s; cbn; auto.
Qed.

Lemma f64_eqb_ordinary a b :
  ordinary_f64 a = true -> ordinary_f64 b = true -> f64_eqb a b = true -> a = b.
Proof.
  unfold ordinary_f64. intros Ha Hb H. bool_facts.
  destruct (f64_eqb_true a b) as [|[Za Zb]]; auto.
  destruct (f64_is_zero_bits a), (f64_is_zero_bits b); auto; congruence.
Qed.

Lemma ordinary_of_i64 i : int_small i = true -> ordinary_f64 (f64_of_i64 i) = true.
Proof.
  intros H. destruct (Z.eq_dec i 0) as [->|H0]; [reflexivity|].
  destruct (to_sf_of_i64 i H H0) as (m & e & E & _).
  unfold ordinary_f64. rewrite (is_f64_of_i64 i H). cbn [andb].
  assert (f64_is_nan (f64_of_i64 i) = false) as ->.
  { unfold f64_is_nan. unfold to_sf in E.
    destruct (f64_exp (f64_of_i64 i) =? 2047); [|reflexivity].
    destruct (f64_man (f64_of_i64 i) =? 0); [reflexivity|discriminate]. }
  cbn. apply negb_true_iff, Z.eqb_neq. intros E'.
  pose proof (f64_of_i64_not_zero i H H0) as Hz. rewrite E' in Hz. discriminate.
Qed.

