(* ===== verification/BTree.v ===== *)
(** [std::collections::BTreeMap] and [BTreeSet] as strictly sorted association
    lists over a comparison function.

    Iteration order is the order of the list.  As in the standard library,
    inserting over an equal key replaces the value and keeps the key that is
    there.  The operations are defined for any comparison; their laws are stated
    for keys on which the comparison is a total preorder ([OrdOn]): on other keys
    the standard library leaves the behaviour of the map unspecified. *)

From Stdlib Require Import Sorting.Sorted.
From S2P Require Export Prelude.

(** The comparison is a total preorder on the keys that satisfy [P]. *)
Class OrdOn {K} (P : K -> Prop) (cmp : K -> K -> comparison) : Prop := {
  ord_sym : forall x y, P x -> P y -> cmp y x = CompOpp (cmp x y);
  ord_trans : forall x y z, P x -> P y -> P z ->
    cmp x y <> Gt -> cmp y z <> Gt -> cmp x z <> Gt;
}.

Section OrdFacts.
Context {K : Type} {P : K -> Prop} {cmp : K -> K -> comparison} {O : OrdOn P cmp}.

Lemma ord_refl x : P x -> cmp x x = Eq.
Proof. intros H. pose proof (ord_sym (OrdOn:=O) x x H H) as E. destruct (cmp x x); easy. Qed.

Lemma ord_lt_gt x y : P x -> P y -> cmp x y = Lt <-> cmp y x = Gt.
Proof. intros Hx Hy. rewrite (ord_sym (OrdOn:=O) x y) by assumption. destruct (cmp x y); easy. Qed.

Lemma ord_eq_sym x y : P x -> P y -> cmp x y = Eq -> cmp y x = Eq.
Proof. intros Hx Hy E. rewrite (ord_sym (OrdOn:=O) x y) by assumption. now rewrite E. Qed.

Lemma ord_lt_le_trans x y z :
  P x -> P y -> P z -> cmp x y = Lt -> cmp y z <> Gt -> cmp x z = Lt.
Proof.
  intros Hx Hy Hz H1 H2. destruct (cmp x z) eqn:E; [|easy|].
  - exfalso. assert (C : cmp y x <> Gt).
    { apply (ord_trans (OrdOn:=O) y z x); auto. rewrite (ord_sym (OrdOn:=O) x z) by assumption. now rewrite E. }
    apply C. now apply ord_lt_gt.
  - exfalso. revert E. apply (ord_trans (OrdOn:=O) x y z); auto. congruence.
Qed.

Lemma ord_le_lt_trans x y z :
  P x -> P y -> P z -> cmp x y <> Gt -> cmp y z = Lt -> cmp x z = Lt.
Proof.
  intros Hx Hy Hz H1 H2. destruct (cmp x z) eqn:E; [|easy|].
  - exfalso. assert (C : cmp z y <> Gt).
    { apply (ord_trans (OrdOn:=O) z x y); auto. rewrite (ord_sym (OrdOn:=O) x z) by assumption. now rewrite E. }
    apply C. now apply ord_lt_gt.
  - exfalso. revert E. apply (ord_trans (OrdOn:=O) x y z); auto. congruence.
Qed.

Lemma ord_eq_l x y z : P x -> P y -> P z -> cmp x y = Eq -> cmp x z = cmp y z.
Proof.
  intros Hx Hy Hz E. pose proof (ord_eq_sym _ _ Hx Hy E) as E'.
  destruct (cmp y z) eqn:F.
  - destruct (cmp x z) eqn:G; [easy| |].
    + pose proof (ord_le_lt_trans y x z Hy Hx Hz ltac:(congruence) G). congruence.
    + exfalso. revert G. apply (ord_trans (OrdOn:=O) x y z); auto; congruence.
  - apply (ord_le_lt_trans x y z); auto. congruence.
  - destruct (cmp x z) eqn:G; [| |easy]; exfalso; revert F;
      apply (ord_trans (OrdOn:=O) y x z); auto; congruence.
Qed.

Lemma ord_eq_r x y z : P x -> P y -> P z -> cmp x y = Eq -> cmp z x = cmp z y.
Proof.
  intros Hx Hy Hz E. rewrite (ord_sym (OrdOn:=O) x z), (ord_sym (OrdOn:=O) y z) by assumption.
  f_equal. now apply ord_eq_l.
Qed.
End OrdFacts.

(** [Ord] for pairs and slices: lexicographic. *)
Definition then_cmp (c d : comparison) : comparison :=
  match c with Eq => d | _ => c end.

Section ListCmp.
Context {A : Type} (cmp : A -> A -> comparison) (eqb : A -> A -> bool).

Fixpoint list_cmp (l l' : list A) : comparison :=
  match l, l' with
  | [], [] => Eq
  | [], _ :: _ => Lt
  | _ :: _, [] => Gt
  | x :: l1, y :: l1' => then_cmp (cmp x y) (list_cmp l1 l1')
  end.

(** [PartialEq] for slices and maps: element by element. *)
Fixpoint list_eqb (l l' : list A) : bool :=
  match l, l' with
  | [], [] => true
  | x :: l1, y :: l1' => eqb x y && list_eqb l1 l1'
  | _, _ => false
  end.

Lemma list_cmp_sym l l' :
  Forall (fun x => forall y, cmp y x = CompOpp (cmp x y)) l ->
  list_cmp l' l = CompOpp (list_cmp l l').
Proof.
  intros H. revert l'. induction H as [|x l Hx _ IH]; intros [|y l']; cbn; try reflexivity.
  rewrite Hx. destruct (cmp x y); cbn; auto.
Qed.

Lemma list_cmp_refl l : Forall (fun x => cmp x x = Eq) l -> list_cmp l l = Eq.
Proof. induction 1 as [|x l Hx _ IH]; cbn; [reflexivity|]. now rewrite Hx. Qed.

Lemma list_eqb_sym l l' :
  Forall (fun x => forall y, eqb y x = eqb x y) l -> list_eqb l' l = list_eqb l l'.
Proof.
  intros H. revert l'. induction H as [|x l Hx _ IH]; intros [|y l']; cbn; try reflexivity.
  now rewrite Hx, IH.
Qed.

Lemma list_eqb_refl l : Forall (fun x => eqb x x = true) l -> list_eqb l l = true.
Proof. induction 1 as [|x l Hx _ IH]; cbn; [reflexivity|]. now rewrite Hx. Qed.

Lemma list_cmp_eqb (Q : A -> Prop) l l' :
  Forall (fun x => forall y, Q x -> Q y -> cmp x y = Eq -> eqb x y = true) l ->
  Forall Q l -> Forall Q l' -> list_cmp l l' = Eq -> list_eqb l l' = true.
Proof.
  intros HF. revert l'. induction HF as [|x l Hx _ IH]; intros [|y l'] HQ HQ' H; cbn in *; try easy.
  inversion HQ; inversion HQ'; subst. destruct (cmp x y) eqn:E; try easy.
  rewrite Hx by assumption. cbn. auto.
Qed.

Lemma list_eqb_cmp (Q : A -> Prop) l l' :
  Forall (fun x => forall y, Q x -> Q y -> eqb x y = true -> cmp x y = Eq) l ->
  Forall Q l -> Forall Q l' -> list_eqb l l' = true -> list_cmp l l' = Eq.
Proof.
  intros H. revert l'. induction H as [|x l Hx _ IH]; intros [|y l'] HQ HQ' E; cbn in *; try easy.
  inversion_clear HQ. inversion_clear HQ'. apply andb_true_iff in E as [E1 E2].
  rewrite Hx by assumption. cbn. now apply IH.
Qed.
End ListCmp.

(** A comparison of a product that is lexicographic in two total preorders. *)
Definition pair_cmp {A B} (ca : A -> A -> comparison) (cb : B -> B -> comparison)
    (p q : A * B) : comparison :=
  then_cmp (ca p.1 q.1) (cb p.2 q.2).

(** The three comparisons of [x], [y], [z] that a total preorder allows. *)
Definition tri_ok (cxy cyz cxz : comparison) : Prop :=
  match cxy, cyz with
  | Eq, c | c, Eq => cxz = c
  | Lt, Lt => cxz = Lt
  | Gt, Gt => cxz = Gt
  | _, _ => True
  end.

Lemma tri_ok_then a b c a' b' c' :
  tri_ok a b c -> tri_ok a' b' c' -> tri_ok (then_cmp a a') (then_cmp b b') (then_cmp c c').
Proof. destruct a, b, c, a', b', c'; cbn; congruence || auto. Qed.

Lemma tri_ok_Z x y z : tri_ok (Z.compare x y) (Z.compare y z) (Z.compare x z).
Proof.
  destruct (Z.compare_spec x y), (Z.compare_spec y z); cbn; subst;
    rewrite ?Z.compare_refl, ?Z.compare_lt_iff, ?Z.compare_gt_iff; auto; lia.
Qed.

Definition tri_at {A} (cmp : A -> A -> comparison) (P : A -> Prop) (x : A) : Prop :=
  forall y z, P x -> P y -> P z -> tri_ok (cmp x y) (cmp y z) (cmp x z).

Lemma list_cmp_tri {A} (cmp : A -> A -> comparison) (P : A -> Prop) l :
  Forall (tri_at cmp P) l -> tri_at (list_cmp cmp) (Forall P) l.
Proof.
  intros H. induction H as [|x l Hx _ IH]; intros [|y l1] [|z l2] P1 P2 P3; cbn; try easy;
    try (destruct (then_cmp _ _); easy).
  - inversion_clear P1. inversion_clear P2. inversion_clear P3.
    apply tri_ok_then; [now apply Hx|now apply IH].
Qed.

(** A comparison that is antisymmetric and [tri_ok] is a total preorder. *)
Lemma ord_of_tri {K} (P : K -> Prop) (cmp : K -> K -> comparison) :
  (forall x y, P x -> P y -> cmp y x = CompOpp (cmp x y)) ->
  (forall x, P x -> tri_at cmp P x) -> OrdOn P cmp.
Proof.
  intros HS HT. split; [exact HS|]. intros x y z Px Py Pz.
  pose proof (HT x Px y z Px Py Pz) as H.
  destruct (cmp x y), (cmp y z), (cmp x z); cbn in H; easy.
Qed.

(** [Ord for str]: the byte-wise lexicographic order. *)
Definition ascii_cmp (a b : ascii) : comparison := N.compare (N_of_ascii a) (N_of_ascii b).

Fixpoint str_cmp (s t : string) : comparison :=
  match s, t with
  | EmptyString, EmptyString => Eq
  | EmptyString, String _ _ => Lt
  | String _ _, EmptyString => Gt
  | String a s', String b t' => then_cmp (ascii_cmp a b) (str_cmp s' t')
  end.

Lemma str_cmp_eq s t : str_cmp s t = Eq <-> s = t.
Proof.
  split; [|intros <-; induction s as [|a s IH]; cbn; unfold ascii_cmp;
    [reflexivity|now rewrite N.compare_refl]].
  revert t. induction s as [|a s IH]; intros [|b t]; cbn; try discriminate; [reflexivity|].
  unfold ascii_cmp. destruct (N.compare_spec (N_of_ascii a) (N_of_ascii b)) as [E| |];
    cbn; try discriminate. intros H. f_equal; [|now apply IH].
  rewrite <- (ascii_N_embedding a), <- (ascii_N_embedding b). now rewrite E.
Qed.

Lemma str_cmp_sym s t : str_cmp t s = CompOpp (str_cmp s t).
Proof.
  revert t. induction s as [|a s IH]; intros [|b t]; cbn; try reflexivity.
  unfold ascii_cmp. rewrite (N.compare_antisym (N_of_ascii a) (N_of_ascii b)).
  destruct (N_of_ascii a ?= N_of_ascii b)%N; cbn; auto.
Qed.

Lemma str_cmp_le_trans s t u : str_cmp s t <> Gt -> str_cmp t u <> Gt -> str_cmp s u <> Gt.
Proof.
  revert t u. induction s as [|a s IH]; intros [|b t] [|c u]; cbn; try easy.
  unfold ascii_cmp.
  destruct (N.compare_spec (N_of_ascii a) (N_of_ascii b)) as [E1|E1|E1];
    destruct (N.compare_spec (N_of_ascii b) (N_of_ascii c)) as [E2|E2|E2]; cbn; try easy.
  - rewrite E1, E2, N.compare_refl. cbn. apply IH.
  - rewrite (proj2 (N.compare_lt_iff _ _)) by lia. easy.
  - rewrite (proj2 (N.compare_lt_iff _ _)) by lia. easy.
  - rewrite (proj2 (N.compare_lt_iff _ _)) by lia. easy.
Qed.

Lemma str_cmp_tri s t u : tri_ok (str_cmp s t) (str_cmp t u) (str_cmp s u).
Proof.
  revert t u. induction s as [|a s IH]; intros [|b t] [|c u]; cbn; try easy;
    try (destruct (then_cmp _ _); easy).
  apply tri_ok_then; [|apply IH]. unfold ascii_cmp.
  rewrite <- !N2Z.inj_compare. apply tri_ok_Z.
Qed.

#[export] Instance str_cmp_ord : OrdOn (fun _ => True) str_cmp.
Proof.
  split; [intros; apply str_cmp_sym|]. intros x y z _ _ _. apply str_cmp_le_trans.
Qed.

(** ** The map *)

Section BTree.
Context {K V : Type} (cmp : K -> K -> comparison).

Fixpoint bt_get (k : K) (m : list (K * V)) : option V :=
  match m with
  | [] => None
  | (k', v) :: m' =>
    match cmp k k' with
    | Lt => None
    | Eq => Some v
    | Gt => bt_get k m'
    end
  end.

Fixpoint bt_insert (k : K) (v : V) (m : list (K * V)) : list (K * V) :=
  match m with
  | [] => [(k, v)]
  | (k', v') :: m' =>
    match cmp k k' with
    | Lt => (k, v) :: m
    | Eq => (k', v) :: m'
    | Gt => (k', v') :: bt_insert k v m'
    end
  end.

Fixpoint bt_remove (k : K) (m : list (K * V)) : list (K * V) :=
  match m with
  | [] => []
  | (k', v') :: m' =>
    match cmp k k' with
    | Lt => m
    | Eq => m'
    | Gt => (k', v') :: bt_remove k m'
    end
  end.

Definition bt_of_list (l : list (K * V)) : list (K * V) :=
  fold_left (fun m '(k, v) => bt_insert k v m) l [].

Definition key_lt (p q : K * V) : Prop := cmp p.1 q.1 = Lt.

(** Well-formed maps: keys strictly increasing, all of them in [P]. *)
Definition bt_wf (P : K -> Prop) (m : list (K * V)) : Prop :=
  StronglySorted key_lt m /\ Forall (fun p => P p.1) m.

Section Laws.
Context {P : K -> Prop} {O : OrdOn P cmp}.

Lemma bt_wf_nil : bt_wf P [].
Proof. split; constructor. Qed.

Lemma bt_wf_cons_inv k v m :
  bt_wf P ((k, v) :: m) ->
  P k /\ bt_wf P m /\ Forall (fun p => cmp k p.1 = Lt) m.
Proof.
  intros [HS HF]. apply Sorted.StronglySorted_inv in HS as [HS HL].
  inversion_clear HF. repeat split; auto.
Qed.

Lemma bt_wf_cons k v m :
  P k -> bt_wf P m -> Forall (fun p => cmp k p.1 = Lt) m -> bt_wf P ((k, v) :: m).
Proof. intros HP [HS HF] HL. split; constructor; auto. Qed.

Lemma bt_below_none k m :
  Forall (fun p => cmp k p.1 = Lt) m -> bt_get k m = None.
Proof. intros H. destruct m as [|[k' v] m]; [easy|]. cbn. inversion_clear H. cbn in *. now rewrite H0. Qed.

Lemma Forall_lt_insert k k0 v m :
  cmp k k0 = Lt -> Forall (fun p => cmp k p.1 = Lt) m ->
  Forall (fun p => cmp k p.1 = Lt) (bt_insert k0 v m).
Proof.
  intros Hk. induction 1 as [|[k' v'] m H Hm IH]; cbn; [now constructor|].
  destruct (cmp k0 k'); repeat (constructor; auto).
Qed.

Lemma Forall_remove (Q : K * V -> Prop) k0 m : Forall Q m -> Forall Q (bt_remove k0 m).
Proof.
  induction 1 as [|[k' v'] m H Hm IH]; cbn; [constructor|].
  destruct (cmp k0 k'); repeat (constructor; auto). assumption.
Qed.

Lemma bt_insert_wf k v m : P k -> bt_wf P m -> bt_wf P (bt_insert k v m).
Proof.
  intros Hk. induction m as [|[k' v'] m IH]; intros Hm; cbn.
  - apply bt_wf_cons; auto using bt_wf_nil.
  - destruct (bt_wf_cons_inv _ _ _ Hm) as (Hk' & Hm' & HL).
    destruct (cmp k k') eqn:E.
    + now apply bt_wf_cons.
    + apply bt_wf_cons; auto. constructor; [exact E|].
      destruct Hm' as [_ HF]. rewrite List.Forall_forall in *. intros p Hp.
      apply (ord_lt_le_trans (P := P)) with k'; auto. rewrite (HL _ Hp). easy.
    + apply bt_wf_cons; auto. apply Forall_lt_insert; auto.
      now apply (ord_lt_gt (P := P)).
Qed.

Lemma bt_remove_wf k m : bt_wf P m -> bt_wf P (bt_remove k m).
Proof.
  induction m as [|[k' v'] m IH]; intros Hm; cbn; [assumption|].
  destruct (bt_wf_cons_inv _ _ _ Hm) as (Hk' & Hm' & HL).
  destruct (cmp k k'); auto. apply bt_wf_cons; auto. now apply Forall_remove.
Qed.

(** Lookup after insertion and removal, on both branches. *)
Lemma bt_get_insert k k0 v m :
  P k -> P k0 -> bt_wf P m ->
  bt_get k0 (bt_insert k v m) = match cmp k0 k with Eq => Some v | _ => bt_get k0 m end.
Proof.
  intros Hk Hk0. induction m as [|[k' v'] m IH]; intros Hm; cbn.
  - destruct (cmp k0 k); reflexivity.
  - destruct (bt_wf_cons_inv _ _ _ Hm) as (Hk' & Hm' & HL).
    destruct (cmp k k') eqn:E; cbn.
    + rewrite (ord_eq_r (P := P) k k' k0) by assumption.
      destruct (cmp k0 k'); reflexivity.
    + destruct (cmp k0 k) eqn:F; try reflexivity.
      now rewrite (ord_lt_le_trans (P := P) k0 k k') by (try assumption; congruence).
    + rewrite IH by assumption.
      destruct (cmp k0 k') eqn:F, (cmp k0 k) eqn:G; try reflexivity; exfalso.
      * rewrite (ord_eq_l (P := P) k0 k k') in F by assumption. congruence.
      * rewrite (ord_eq_l (P := P) k0 k k') in F by assumption. congruence.
Qed.

Lemma bt_get_remove k k0 m :
  P k -> P k0 -> bt_wf P m ->
  bt_get k0 (bt_remove k m) = match cmp k0 k with Eq => None | _ => bt_get k0 m end.
Proof.
  intros Hk Hk0. induction m as [|[k' v'] m IH]; intros Hm; cbn.
  - destruct (cmp k0 k); reflexivity.
  - destruct (bt_wf_cons_inv _ _ _ Hm) as (Hk' & Hm' & HL).
    assert (Hbelow : cmp k0 k' <> Gt -> bt_get k0 m = None).
    { intros HE. apply bt_below_none. destruct Hm' as [_ HF]. rewrite List.Forall_forall in *.
      intros p Hp. apply (ord_le_lt_trans (P := P)) with k'; auto. }
    destruct (cmp k k') eqn:E; cbn.
    + rewrite (ord_eq_r (P := P) k k' k0) by assumption.
      destruct (cmp k0 k') eqn:F; [apply Hbelow; congruence|apply Hbelow; congruence|reflexivity].
    + destruct (cmp k0 k) eqn:F; try reflexivity.
      now rewrite (ord_eq_l (P := P) k0 k k'), E by assumption.
    + destruct (cmp k0 k') eqn:F.
      * destruct (cmp k0 k) eqn:G; try reflexivity. exfalso.
        rewrite (ord_eq_l (P := P) k0 k k') in F by assumption. congruence.
      * destruct (cmp k0 k) eqn:G; try reflexivity.
      * rewrite IH by assumption. now destruct (cmp k0 k).
Qed.

Lemma bt_get_eq_key k k' m : P k -> P k' -> bt_wf P m -> cmp k k' = Eq -> bt_get k m = bt_get k' m.
Proof.
  intros Hk Hk' [_ HF] E. induction HF as [|[k1 v] m H HF IH]; cbn; [easy|].
  rewrite (ord_eq_l (P := P) k k' k1) by assumption. now rewrite IH.
Qed.

Lemma bt_get_Some_In k v m : bt_get k m = Some v -> exists k', In (k', v) m /\ cmp k k' = Eq.
Proof.
  induction m as [|[k1 v1] m IH]; cbn; [discriminate|].
  destruct (cmp k k1) eqn:E; [|discriminate|].
  - intros [= ->]. eauto.
  - intros H. destruct (IH H) as (k' & ? & ?). eauto.
Qed.

Lemma bt_In_get k v m : bt_wf P m -> In (k, v) m -> bt_get k m = Some v.
Proof.
  induction m as [|[k1 v1] m IH]; cbn; [easy|]. intros Hm Hin.
  destruct (bt_wf_cons_inv _ _ _ Hm) as (Hk1 & Hm' & HL).
  destruct Hin as [[= -> ->]|Hin].
  - now rewrite (ord_refl (P := P)).
  - rewrite List.Forall_forall in HL. pose proof (HL _ Hin) as L. cbn in L.
    assert (Pk : P k) by (destruct Hm' as [_ HF]; rewrite List.Forall_forall in HF; exact (HF _ Hin)).
    apply (ord_lt_gt (P := P)) in L; auto. rewrite L. auto.
Qed.

Lemma bt_of_list_wf l : Forall (fun p => P p.1) l -> bt_wf P (bt_of_list l).
Proof.
  unfold bt_of_list. generalize (bt_wf_nil). generalize (@nil (K * V)).
  induction l as [|[k v] l IH]; intros m Hm HF; cbn; [assumption|].
  inversion_clear HF. apply IH; auto. now apply bt_insert_wf.
Qed.

(** Strictly sorted maps with the same lookups at their own keys are equal up
    to the representatives of their keys; for a comparison that decides
    equality they are equal. *)
Lemma bt_ext (Hcmp : forall x y, cmp x y = Eq -> x = y) m m' :
  bt_wf P m -> bt_wf P m' -> (forall k, P k -> bt_get k m = bt_get k m') -> m = m'.
Proof.
  revert m'. induction m as [|[k v] m IH]; intros [|[k' v'] m'] Hm Hm' H; [easy| | |].
  - destruct (bt_wf_cons_inv _ _ _ Hm') as (Pk & _ & _). specialize (H k' Pk).
    cbn in H. rewrite (ord_refl (P := P)) in H by assumption. discriminate.
  - destruct (bt_wf_cons_inv _ _ _ Hm) as (Pk & _ & _). specialize (H k Pk).
    cbn in H. rewrite (ord_refl (P := P)) in H by assumption. discriminate.
  - destruct (bt_wf_cons_inv _ _ _ Hm) as (Pk & Wm & Lm).
    destruct (bt_wf_cons_inv _ _ _ Hm') as (Pk' & Wm' & Lm').
    assert (Ek : k = k').
    { pose proof (H k Pk) as H1. pose proof (H k' Pk') as H2. cbn in H1, H2.
      rewrite (ord_refl (P := P)) in H1, H2 by assumption.
      destruct (cmp k k') eqn:E; [now apply Hcmp|discriminate|].
      apply (ord_lt_gt (P := P)) in E; auto. rewrite E in H2. discriminate. }
    subst k'. pose proof (H k Pk) as H1. cbn in H1.
    rewrite (ord_refl (P := P)) in H1 by assumption. injection H1 as <-.
    f_equal. apply IH; auto. intros k0 Pk0. specialize (H k0 Pk0). cbn in H.
    destruct (cmp k0 k) eqn:E; [| |assumption];
      rewrite !bt_below_none; auto; rewrite List.Forall_forall; intros p Hp;
      eapply (ord_le_lt_trans (P := P) k0 k p.1); auto;
      rewrite ?E; try easy;
      rewrite ?List.Forall_forall in *; auto;
      [destruct Wm' as [_ F]|destruct Wm as [_ F]|destruct Wm' as [_ F]|destruct Wm as [_ F]];
      rewrite List.Forall_forall in F; auto.
Qed.
End Laws.
End BTree.

Arguments bt_wf_cons_inv {K V cmp P} k v m.

(** ** Maps built in key order *)

Section Build.
Context {K V : Type} (cmp : K -> K -> comparison) {P : K -> Prop} {O : OrdOn P cmp}.

(** Adjacent keys increase: decidable well-formedness. *)
Fixpoint sortedb (m : list (K * V)) : bool :=
  match m with
  | (k, _) :: m' =>
    match m' with
    | (k', _) :: _ => match cmp k k' with Lt => sortedb m' | _ => false end
    | [] => true
    end
  | [] => true
  end.

Lemma sortedb_wf (m : list (K * V)) : Forall (fun p => P p.1) m -> sortedb m = true -> bt_wf cmp P m.
Proof.
  induction m as [|[k v] m IH]; intros HF HS; [apply bt_wf_nil|].
  inversion_clear HF. cbn in HS. destruct m as [|[k' v'] m].
  - apply bt_wf_cons; auto using bt_wf_nil.
  - destruct (cmp k k') eqn:E; try discriminate. specialize (IH H0 HS).
    apply bt_wf_cons; auto. constructor; [exact E|].
    destruct (bt_wf_cons_inv _ _ _ IH) as (Pk' & [_ F] & L).
    rewrite List.Forall_forall in *. intros p Hp.
    apply (ord_lt_le_trans (O := O)) with k'; auto. rewrite (L _ Hp). easy.
Qed.

Lemma wf_sortedb (m : list (K * V)) : bt_wf cmp P m -> sortedb m = true.
Proof.
  induction m as [|[k v] m IH]; intros H; [reflexivity|].
  destruct (bt_wf_cons_inv _ _ _ H) as (Pk & Hm & L). cbn. destruct m as [|[k' v'] m]; [reflexivity|].
  inversion_clear L. cbn in H0. rewrite H0. auto.
Qed.

Lemma bt_insert_last k (v : V) (m : list (K * V)) :
  P k -> bt_wf cmp P m -> Forall (fun p => cmp p.1 k = Lt) m ->
  bt_insert cmp k v m = (m ++ [(k, v)])%list.
Proof.
  intros Pk Hm L. induction L as [|[k' v'] m H L IH]; cbn; [reflexivity|].
  destruct (bt_wf_cons_inv _ _ _ Hm) as (Pk' & Hm' & _).
  apply (ord_lt_gt (O := O)) in H; auto. cbn in H. rewrite H. now rewrite IH.
Qed.

Lemma bt_wf_app_inv (m m' : list (K * V)) :
  bt_wf cmp P (m ++ m') ->
  bt_wf cmp P m /\ bt_wf cmp P m' /\ forall p q, In p m -> In q m' -> cmp p.1 q.1 = Lt.
Proof.
  induction m as [|[k v] m IH]; cbn; intros H.
  - split; [apply bt_wf_nil|]. split; [assumption|easy].
  - destruct (bt_wf_cons_inv _ _ _ H) as (Pk & Hm & L). apply Forall_app in L as [L1 L2].
    destruct (IH Hm) as (A & B & C). split; [|split].
    + now apply bt_wf_cons.
    + exact B.
    + intros p q [<-|Hp] Hq; [|now apply C]. rewrite List.Forall_forall in L2. now apply L2.
Qed.

End Build.

Lemma bt_wf_map {K V W} (cmp : K -> K -> comparison) (P : K -> Prop) (f : V -> W) m :
  bt_wf cmp P m -> bt_wf cmp P (List.map (fun p => (p.1, f p.2)) m).
Proof.
  induction m as [|[k v] m IH]; cbn; intros H; [apply bt_wf_nil|].
  destruct (bt_wf_cons_inv _ _ _ H) as (Pk & Hm & L). apply bt_wf_cons; auto.
  rewrite List.Forall_map. apply L.
Qed.

(** Inserting the entries of a map one by one, in order, rebuilds the map. *)
Lemma fold_insert_sorted {K V W} (cmp : K -> K -> comparison) (P : K -> Prop) {O : OrdOn P cmp}
    (f : V -> W) (m : list (K * V)) :
  bt_wf cmp P m ->
  fold_left (fun acc p => bt_insert cmp p.1 (f p.2) acc) m [] = List.map (fun p => (p.1, f p.2)) m.
Proof.
  intros H. enough (G : forall fin, bt_wf cmp P (fin ++ m) ->
    fold_left (fun acc p => bt_insert cmp p.1 (f p.2) acc) m (List.map (fun p => (p.1, f p.2)) fin)
    = List.map (fun p => (p.1, f p.2)) (fin ++ m)) by now apply (G []).
  clear H. induction m as [|[k w] m IH]; intros fin H; cbn; [now rewrite app_nil_r|].
  replace (fin ++ (k, w) :: m)%list with ((fin ++ [(k, w)]) ++ m)%list in H |- *
    by (now rewrite <- app_assoc).
  rewrite <- IH by assumption. f_equal. rewrite List.map_app. cbn.
  apply (bt_wf_app_inv cmp) in H as (H & _ & _).
  destruct (bt_wf_app_inv cmp _ _ H) as (H1 & H2 & H3).
  apply (bt_insert_last cmp (P := P)).
  - now destruct (bt_wf_cons_inv _ _ _ H2).
  - now apply bt_wf_map.
  - rewrite List.Forall_map. apply List.Forall_forall. intros p Hp. apply (H3 p (k, w)); cbn; auto.
Qed.

(** Building a map from any list of entries gives a well-formed map. *)
Lemma fold_insert_wf {K V W} (cmp : K -> K -> comparison) (P : K -> Prop) {O : OrdOn P cmp}
    (f : V -> W) (l : list (K * V)) (acc : list (K * W)) :
  Forall (fun p => P p.1) l -> bt_wf cmp P acc ->
  bt_wf cmp P (fold_left (fun acc p => bt_insert cmp p.1 (f p.2) acc) l acc).
Proof.
  intros HF. revert acc. induction HF as [|p l Hp _ IH]; intros acc H; cbn; [assumption|].
  apply IH. now apply bt_insert_wf.
Qed.

(** A property of the values survives building. *)
Lemma fold_insert_values {K V W} (cmp : K -> K -> comparison) (f : V -> W) (Q : W -> Prop)
    (l : list (K * V)) (acc : list (K * W)) :
  Forall (fun p => Q (f p.2)) l -> Forall (fun p => Q p.2) acc ->
  Forall (fun p => Q p.2) (fold_left (fun acc p => bt_insert cmp p.1 (f p.2) acc) l acc).
Proof.
  intros HF. revert acc. induction HF as [|p l Hp _ IH]; intros acc H; cbn; [assumption|].
  apply IH. clear IH. induction H as [|[k w] acc Hw Hacc IH]; cbn; [constructor; auto|].
  destruct (cmp p.1 k); repeat (constructor; auto).
Qed.
