(* ===== verification/Value.v ===== *)
(** [nova-core/src/value.rs]: the typed value, its equality, its ordering, its
    hash, its text rendering and its conversions to and from JSON. *)

From S2P Require Export Bytes Errors Float BTree.

(** [BTreeMap<String, Value>] is the strictly sorted list of its entries. *)
#[warnings="-register-all"]
Inductive Value :=
| VNull
| VBool (b : bool)
| VInt (i : Z)
| VFloat (f : Z)
| VString (s : string)
| VBytes (b : bytes)
| VArray (l : list Value)
| VObject (m : list (string * Value))
| VTimestamp (t : Z)
| VUuid (u : bytes).

Section ValueInd.
Context (Q : Value -> Prop).
Context (HNull : Q VNull) (HBool : forall b, Q (VBool b)) (HInt : forall i, Q (VInt i))
  (HFloat : forall f, Q (VFloat f)) (HString : forall s, Q (VString s))
  (HBytes : forall b, Q (VBytes b))
  (HArray : forall l, Forall Q l -> Q (VArray l))
  (HObject : forall m, Forall (fun p => Q p.2) m -> Q (VObject m))
  (HTimestamp : forall t, Q (VTimestamp t)) (HUuid : forall u, Q (VUuid u)).

Fixpoint value_ind' (v : Value) : Q v :=
  match v with
  | VNull => HNull
  | VBool b => HBool b
  | VInt i => HInt i
  | VFloat f => HFloat f
  | VString s => HString s
  | VBytes b => HBytes b
  | VArray l =>
    HArray l ((fix go l : Forall Q l :=
      match l with [] => @List.Forall_nil _ _ | x :: l' => @List.Forall_cons _ _ _ _ (value_ind' x) (go l') end) l)
  | VObject m =>
    HObject m ((fix go m : Forall (fun p => Q p.2) m :=
      match m with [] => @List.Forall_nil _ _ | p :: m' => @List.Forall_cons _ _ _ _ (value_ind' p.2) (go m') end) m)
  | VTimestamp t => HTimestamp t
  | VUuid u => HUuid u
  end.
End ValueInd.

(** ** Inspection *)

Definition type_name (v : Value) : string :=
  match v with
  | VNull => "null"
  | VBool _ => "bool"
  | VInt _ => "int"
  | VFloat _ => "float"
  | VString _ => "string"
  | VBytes _ => "bytes"
  | VArray _ => "array"
  | VObject _ => "object"
  | VTimestamp _ => "timestamp"
  | VUuid _ => "uuid"
  end%string.

Definition is_null (v : Value) : bool := match v with VNull => true | _ => false end.

Definition as_bool (v : Value) : result bool :=
  match v with
  | VBool b => Ok b
  | other => Err (type_error "bool" (type_name other))
  end.

Definition as_int (v : Value) : result Z :=
  match v with
  | VInt i => Ok i
  | VFloat f => if fits_i64 f then Ok (f64_as_i64 f) else Err (type_error "int" (type_name v))
  | other => Err (type_error "int" (type_name other))
  end.

Definition as_float (v : Value) : result Z :=
  match v with
  | VFloat f => Ok f
  | VInt i => Ok (f64_of_i64 i)
  | other => Err (type_error "float" (type_name other))
  end.

Definition as_str (v : Value) : result string :=
  match v with
  | VString s => Ok s
  | other => Err (type_error "string" (type_name other))
  end.

Definition value_as_bytes (v : Value) : result bytes :=
  match v with
  | VBytes b => Ok b
  | other => Err (type_error "bytes" (type_name other))
  end.

Definition as_array (v : Value) : result (list Value) :=
  match v with
  | VArray l => Ok l
  | other => Err (type_error "array" (type_name other))
  end.

Definition as_object (v : Value) : result (list (string * Value)) :=
  match v with
  | VObject m => Ok m
  | other => Err (type_error "object" (type_name other))
  end.

(** [BTreeMap::get]. *)
Definition obj_get (k : string) (m : list (string * Value)) : option Value :=
  bt_get str_cmp k m.

(** [path.split('.')]: always at least one part. *)
Fixpoint split_dot (s : string) : list string :=
  match s with
  | EmptyString => [EmptyString]
  | String a s' =>
    if Ascii.eqb a "." then EmptyString :: split_dot s'
    else match split_dot s' with
         | p :: ps => String a p :: ps
         | [] => [String a EmptyString]
         end
  end.

(** The loop of [get_path]. *)
Fixpoint walk_path (current : Value) (parts : list string) : option Value :=
  match parts with
  | [] => Some current
  | part :: parts' =>
    match current with
    | VObject m =>
      match obj_get part m with
      | Some v => walk_path v parts'
      | None => None
      end
    | _ => None
    end
  end.

Definition get_path (v : Value) (path : string) : option Value := walk_path v (split_dot path).

Definition numeric_cmp (v w : Value) : option comparison :=
  match v, w with
  | VInt a, VInt b => Some (Z.compare a b)
  | VFloat a, VFloat b => f64_partial_cmp a b
  | VInt a, VFloat b => f64_partial_cmp (f64_of_i64 a) b
  | VFloat a, VInt b => f64_partial_cmp a (f64_of_i64 b)
  | _, _ => None
  end.

(** ** Equality and order *)

Definition bytes_cmp : bytes -> bytes -> comparison :=
  list_cmp (fun a b => Z.compare (Z_of_byte a) (Z_of_byte b)).

Definition bytes_eqb (a b : bytes) : bool := if decide (a = b) then true else false.

Definition bool_cmp (a b : bool) : comparison :=
  match a, b with
  | false, true => Lt
  | true, false => Gt
  | _, _ => Eq
  end.

(** [impl PartialEq for Value]. *)
Fixpoint value_eqb (x y : Value) {struct x} : bool :=
  match x, y with
  | VNull, VNull => true
  | VBool a, VBool b => Bool.eqb a b
  | VInt a, VInt b => a =? b
  | VFloat a, VFloat b => if f64_is_nan a && f64_is_nan b then true else f64_eqb a b
  | VInt a, VFloat b | VFloat b, VInt a => f64_eqb (f64_of_i64 a) b
  | VString a, VString b => String.eqb a b
  | VBytes a, VBytes b => bytes_eqb a b
  | VArray a, VArray b => list_eqb value_eqb a b
  | VObject a, VObject b =>
    list_eqb (fun p q => String.eqb p.1 q.1 && value_eqb p.2 q.2) a b
  | VTimestamp a, VTimestamp b => a =? b
  | VUuid a, VUuid b => bytes_eqb a b
  | _, _ => false
  end.

Definition tag (v : Value) : Z :=
  match v with
  | VNull => 0
  | VBool _ => 1
  | VInt _ | VFloat _ => 2
  | VString _ => 3
  | VBytes _ => 4
  | VTimestamp _ => 5
  | VUuid _ => 6
  | VArray _ => 7
  | VObject _ => 8
  end.

(** [impl Ord for Value]. *)
Fixpoint value_cmp (x y : Value) {struct x} : comparison :=
  if negb (tag x =? tag y) then Z.compare (tag x) (tag y)
  else
    match x, y with
    | VNull, VNull => Eq
    | VBool a, VBool b => bool_cmp a b
    | VInt a, VInt b => Z.compare a b
    | VFloat a, VFloat b => total_cmp a b
    | VInt a, VFloat b => total_cmp (f64_of_i64 a) b
    | VFloat a, VInt b => total_cmp a (f64_of_i64 b)
    | VString a, VString b => str_cmp a b
    | VBytes a, VBytes b => bytes_cmp a b
    | VTimestamp a, VTimestamp b => Z.compare a b
    | VUuid a, VUuid b => bytes_cmp a b
    | VArray a, VArray b => list_cmp value_cmp a b
    | VObject a, VObject b => list_cmp (pair_cmp str_cmp value_cmp) a b
    | _, _ => Eq
    end.

(** [impl Hash for Value]: the calls it makes on the hasher, in order.  A slice
    hashes its length first, a [str] its bytes and a terminator. *)
Inductive HashWrite :=
| HU8 (z : Z) | HI64 (z : Z) | HU64 (z : Z) | HStr (s : string) | HBytes (b : bytes) | HLen (n : Z).

Fixpoint value_hash (v : Value) : list HashWrite :=
  match v with
  | VNull => [HU8 0]
  | VBool b => [HU8 1; HU8 (if b then 1 else 0)]
  | VInt i => [HU8 2; HI64 i]
  | VFloat f => HU8 2 :: (if fits_i64 f then [HI64 (f64_as_i64 f)] else [HU64 f])
  | VString s => [HU8 3; HStr s]
  | VBytes b => [HU8 4; HLen (Z.of_nat (List.length b)); HBytes b]
  | VTimestamp t => [HU8 5; HI64 t]
  | VUuid u => [HU8 6; HLen (Z.of_nat (List.length u)); HBytes u]
  | VArray l =>
    HU8 7 :: HLen (Z.of_nat (List.length l)) :: List.concat (List.map value_hash l)
  | VObject m => HU8 8 :: List.concat (List.map (fun p => HStr p.1 :: value_hash p.2) m)
  end.

(** ** Laws *)

(** Every integer inside is within 2^53 of zero, so that its float is exact. *)
Fixpoint exact_ints (v : Value) : bool :=
  match v with
  | VInt i => int_small i
  | VArray l => forallb exact_ints l
  | VObject m => forallb (fun p => exact_ints p.2) m
  | _ => true
  end.

Lemma bool_cmp_tri a b c : tri_ok (bool_cmp a b) (bool_cmp b c) (bool_cmp a c).
Proof. destruct a, b, c; cbn; easy. Qed.

Lemma bytes_cmp_sym a b : bytes_cmp b a = CompOpp (bytes_cmp a b).
Proof. apply list_cmp_sym, Forall_true. intros x y. apply Z.compare_antisym. Qed.

Lemma bytes_cmp_tri a b c : tri_ok (bytes_cmp a b) (bytes_cmp b c) (bytes_cmp a c).
Proof.
  apply (list_cmp_tri _ (fun _ => True)); try apply Forall_true; auto.
  intros x y z _ _ _. apply tri_ok_Z.
Qed.

Lemma value_cmp_tags x y :
  tag x <> tag y -> value_cmp x y = Z.compare (tag x) (tag y).
Proof. intros H. destruct x, y; cbn in *; try reflexivity; easy. Qed.

Lemma value_cmp_sym x y : value_cmp y x = CompOpp (value_cmp x y).
Proof.
  revert y. induction x as [| | | | | |l IH|m IH| |] using value_ind'; intros y;
    (destruct (Z.eq_dec (tag x) (tag y)) || destruct (Z.eq_dec (tag (VArray l)) (tag y))
     || destruct (Z.eq_dec (tag (VObject m)) (tag y)) || idtac);
    destruct y; cbn; try reflexivity; try (apply Z.compare_antisym); try (apply bytes_cmp_sym);
    try (apply str_cmp_sym); try (apply total_cmp_sym); try (destruct b, b0; reflexivity);
    try easy.
  - now apply list_cmp_sym.
  - apply list_cmp_sym. apply (Forall_impl _ _ _ IH). intros [k v] H [k' v']. unfold pair_cmp. cbn in *.
    rewrite str_cmp_sym, H. now destruct (str_cmp k k').
Qed.

Lemma bytes_cmp_eq a b : bytes_cmp a b = Eq -> a = b.
Proof.
  unfold bytes_cmp. revert b. induction a as [|x a IH]; intros [|y b] H; cbn in *; try easy.
  destruct (Z.compare_spec (Z_of_byte x) (Z_of_byte y)) as [E| |]; try easy.
  rewrite (IH b) by assumption. f_equal. rewrite <- (byte_of_Z_of_byte x), E. apply byte_of_Z_of_byte.
Qed.

(** Integers and floats together are ordered by the bits of the float. *)
Definition num_key (v : Value) : Z :=
  match v with VInt i => int_key i | VFloat f => total_key f | _ => 0 end.

Lemma value_cmp_num x y :
  tag x = 2 -> tag y = 2 -> exact_ints x = true -> exact_ints y = true ->
  value_cmp x y = Z.compare (num_key x) (num_key y).
Proof.
  destruct x, y; try discriminate; intros _ _ Hx Hy; cbn in *; try reflexivity.
  now apply int_key_compare.
Qed.

(** It is enough to compare values with the same tag. *)
Lemma tri_by_tag x y z :
  (tag x = tag y -> tag y = tag z -> tri_ok (value_cmp x y) (value_cmp y z) (value_cmp x z)) ->
  tri_ok (value_cmp x y) (value_cmp y z) (value_cmp x z).
Proof.
  intros H. destruct (Z.eq_dec (tag x) (tag y)) as [E1|N1].
  - destruct (Z.eq_dec (tag y) (tag z)) as [E2|N2]; [auto|].
    rewrite (value_cmp_tags y z), (value_cmp_tags x z), E1 by congruence.
    destruct (value_cmp x y), (Z.compare_spec (tag y) (tag z)); cbn; easy.
  - rewrite (value_cmp_tags x y) by assumption. destruct (Z.eq_dec (tag y) (tag z)) as [E2|N2].
    + rewrite (value_cmp_tags x z), <- E2 by congruence.
      destruct (value_cmp y z), (Z.compare_spec (tag x) (tag y)); cbn; easy.
    + rewrite (value_cmp_tags y z) by assumption. destruct (Z.eq_dec (tag x) (tag z)) as [E3|N3].
      * rewrite E3, (Z.compare_antisym (tag y) (tag z)).
        destruct (Z.compare_spec (tag y) (tag z)); cbn; easy.
      * rewrite (value_cmp_tags x z) by assumption. apply tri_ok_Z.
Qed.

Lemma value_cmp_tri x : tri_at value_cmp (fun v => exact_ints v = true) x.
Proof.
  induction x as [| | | | | |l IH|m IH| |] using value_ind'; intros y z Hx Hy Hz;
    apply tri_by_tag; intros E1 E2.
  all: try (rewrite !value_cmp_num by (assumption || (cbn in *; congruence)); apply tri_ok_Z).
  all: destruct y; try discriminate E1; destruct z; try discriminate E2; cbn;
    auto using bool_cmp_tri, bytes_cmp_tri, str_cmp_tri, tri_ok_Z.
  - apply (list_cmp_tri _ (fun v => exact_ints v = true)); auto; now apply List.Forall_forall, forallb_forall.
  - apply (list_cmp_tri _ (fun p => exact_ints p.2 = true)); try (now apply List.Forall_forall, forallb_forall).
    apply (Forall_impl _ _ _ IH). intros [k v] H [k1 v1] [k2 v2] A B C. unfold pair_cmp. cbn in *.
    apply tri_ok_then; [apply str_cmp_tri|now apply H].
Qed.

#[export] Instance value_cmp_ord : OrdOn (fun v => exact_ints v = true) value_cmp.
Proof.
  apply ord_of_tri; [intros; apply value_cmp_sym|]. intros x _. apply value_cmp_tri.
Qed.

Lemma value_eqb_refl_bytes b : bytes_eqb b b = true.
Proof. unfold bytes_eqb. now rewrite decide_True. Qed.

Lemma value_eqb_refl x : value_eqb x x = true.
Proof.
  induction x as [| | | | | |l IH|m IH| |] using value_ind'; cbn;
    auto using Z.eqb_refl, String.eqb_refl, value_eqb_refl_bytes, Bool.eqb_reflx.
  - destruct (f64_is_nan f) eqn:E; [reflexivity|now apply f64_eqb_refl].
  - now apply list_eqb_refl.
  - apply list_eqb_refl. apply (Forall_impl _ _ _ IH). intros [k v] H. cbn in *.
    now rewrite String.eqb_refl.
Qed.

Fixpoint ordinary (v : Value) : bool :=
  match v with
  | VInt i => int_small i
  | VFloat f => ordinary_f64 f
  | VArray l => forallb ordinary l
  | VObject m => forallb (fun p => ordinary p.2) m
  | _ => true
  end.

Lemma ordinary_exact v : ordinary v = true -> exact_ints v = true.
Proof.
  induction v as [| | | | | |l IH|m IH| |] using value_ind'; cbn; auto.
  - rewrite !forallb_forall. rewrite List.Forall_forall in IH. auto.
  - rewrite !forallb_forall. rewrite List.Forall_forall in IH. auto.
Qed.

(** On ordinary values, equality implies order-equality: what a filter accepts an
    ordered index finds. *)
Lemma value_eqb_cmp x y :
  ordinary x = true -> ordinary y = true -> value_eqb x y = true -> value_cmp x y = Eq.
Proof.
  revert y. induction x as [| | | | | |l IH|m IH| |] using value_ind'; intros y Hx Hy H;
    destruct y; try discriminate H; cbn in *; try reflexivity.
  - destruct b, b0; easy.
  - apply Z.eqb_eq in H as ->. apply Z.compare_refl.
  - apply f64_eqb_ordinary in H; auto using ordinary_of_i64. rewrite H. apply Z.compare_refl.
  - apply f64_eqb_ordinary in H; auto using ordinary_of_i64. rewrite H. apply Z.compare_refl.
  - assert (f64_is_nan f = false) as Hn by (unfold ordinary_f64 in Hx; now bool_facts).
    rewrite Hn in H. cbn in H. rewrite (f64_eqb_ordinary f f0) by assumption. apply Z.compare_refl.
  - apply String.eqb_eq in H as ->. now apply str_cmp_eq.
  - unfold bytes_eqb in H. case_decide; [subst|easy]. apply list_cmp_refl, Forall_true.
    intros. apply Z.compare_refl.
  - apply (list_eqb_cmp _ value_eqb (fun v => ordinary v = true)); auto; now apply List.Forall_forall, forallb_forall.
  - apply (list_eqb_cmp _ (fun p q => String.eqb p.1 q.1 && value_eqb p.2 q.2) (fun p => ordinary p.2 = true));
      auto; try now apply List.Forall_forall, forallb_forall.
    apply (Forall_impl _ _ _ IH). intros [k v] Hv [k' v'] A B E. cbn in *. bool_facts.
    apply String.eqb_eq in H0 as ->. unfold pair_cmp. cbn. rewrite (proj2 (str_cmp_eq k' k') eq_refl). cbn. auto.
  - apply Z.eqb_eq in H as ->. apply Z.compare_refl.
  - unfold bytes_eqb in H. case_decide; [subst|easy]. apply list_cmp_refl, Forall_true.
    intros. apply Z.compare_refl.
Qed.

Lemma total_cmp_eq a b : is_f64 a = true -> is_f64 b = true -> total_cmp a b = Eq -> a = b.
Proof.
  unfold is_f64, total_cmp, total_key, two63. intros Ha Hb H. apply Z.compare_eq in H. bool_facts.
  repeat case_match; bool_facts; lia.
Qed.

Lemma ordinary_total_eqb a b :
  ordinary_f64 a = true -> ordinary_f64 b = true -> total_cmp a b = Eq -> f64_eqb a b = true.
Proof.
  unfold ordinary_f64. intros Ha Hb H. bool_facts. rewrite (total_cmp_eq a b) by assumption.
  now apply f64_eqb_refl.
Qed.

(** And conversely: on ordinary values the two notions of equality agree. *)
Lemma value_cmp_eqb x y :
  ordinary x = true -> ordinary y = true -> value_cmp x y = Eq -> value_eqb x y = true.
Proof.
  revert y. induction x as [| | | | | |l IH|m IH| |] using value_ind'; intros y Hx Hy H;
    destruct y; try discriminate H; cbn in *; try reflexivity.
  - now destruct b, b0.
  - apply Z.compare_eq in H as ->. apply Z.eqb_refl.
  - auto using ordinary_total_eqb, ordinary_of_i64.
  - unfold total_cmp in H. rewrite Z.compare_antisym in H.
    apply ordinary_total_eqb; auto using ordinary_of_i64. unfold total_cmp.
    now destruct (Z.compare _ _).
  - destruct (_ && _); [reflexivity|]. now apply ordinary_total_eqb.
  - apply str_cmp_eq in H as ->. apply String.eqb_refl.
  - apply bytes_cmp_eq in H as ->. apply value_eqb_refl_bytes.
  - apply (list_cmp_eqb value_cmp value_eqb (fun v => ordinary v = true)); auto; now apply List.Forall_forall, forallb_forall.
  - apply (list_cmp_eqb (pair_cmp str_cmp value_cmp) _ (fun p => ordinary p.2 = true));
      auto; try now apply List.Forall_forall, forallb_forall.
    apply (Forall_impl _ _ _ IH). intros [k v] Hv [k' v'] A B E. unfold pair_cmp in E. cbn in *.
    destruct (str_cmp k k') eqn:E1; try discriminate E. apply str_cmp_eq in E1 as ->.
    rewrite String.eqb_refl. cbn in *. auto.
  - apply Z.compare_eq in H as ->. apply Z.eqb_refl.
  - apply bytes_cmp_eq in H as ->. apply value_eqb_refl_bytes.
Qed.

Lemma value_eqb_iff x y :
  ordinary x = true -> ordinary y = true -> value_eqb x y = true <-> value_cmp x y = Eq.
Proof. split; auto using value_eqb_cmp, value_cmp_eqb. Qed.

(** Values on which hashing respects equality: small integers, and NaNs with the
    one pattern that [f64::NAN] has. *)
Fixpoint hash_ok (v : Value) : bool :=
  match v with
  | VInt i => int_small i
  | VFloat f => is_f64 f && (negb (f64_is_nan f) || (f =? f64_NAN))
  | VArray l => forallb hash_ok l
  | VObject m => forallb (fun p => hash_ok p.2) m
  | _ => true
  end.

Lemma float_hash_eq a b :
  is_f64 a = true -> is_f64 b = true -> f64_eqb a b = true ->
  (if fits_i64 a then [HI64 (f64_as_i64 a)] else [HU64 a])
  = (if fits_i64 b then [HI64 (f64_as_i64 b)] else [HU64 b]).
Proof.
  intros Ha Hb H. destruct (f64_eqb_true a b Ha Hb H) as [->|[Za Zb]]; [reflexivity|].
  destruct (f64_is_zero_bits a Ha Za) as [-> | ->], (f64_is_zero_bits b Hb Zb) as [-> | ->];
    reflexivity.
Qed.

Lemma int_float_hash_eq i f :
  int_small i = true -> is_f64 f = true -> f64_eqb (f64_of_i64 i) f = true ->
  [HI64 i] = (if fits_i64 f then [HI64 (f64_as_i64 f)] else [HU64 f]).
Proof.
  intros Hi Hf H. rewrite <- (float_hash_eq (f64_of_i64 i) f) by auto using is_f64_of_i64.
  destruct (fits_of_i64 i Hi) as [-> ->]. reflexivity.
Qed.

Lemma hash_list_eq l :
  Forall (fun x => forall y, hash_ok x = true -> hash_ok y = true -> value_eqb x y = true ->
                   value_hash x = value_hash y) l ->
  forall l', forallb hash_ok l = true -> forallb hash_ok l' = true ->
  list_eqb value_eqb l l' = true ->
  List.length l = List.length l'
  /\ List.concat (List.map value_hash l) = List.concat (List.map value_hash l').
Proof.
  induction 1 as [|x l Hx _ IH]; intros [|y l'] H1 H2 H3; cbn in *; try easy.
  bool_facts. destruct (IH l') as [E1 E2]; auto. rewrite (Hx y) by assumption.
  rewrite E2. split; congruence.
Qed.

Lemma hash_obj_eq m :
  Forall (fun p => forall y, hash_ok p.2 = true -> hash_ok y = true -> value_eqb p.2 y = true ->
                   value_hash p.2 = value_hash y) m ->
  forall m', forallb (fun p => hash_ok p.2) m = true -> forallb (fun p => hash_ok p.2) m' = true ->
  list_eqb (fun p q => String.eqb p.1 q.1 && value_eqb p.2 q.2) m m' = true ->
  List.concat (List.map (fun p => HStr p.1 :: value_hash p.2) m)
  = List.concat (List.map (fun p => HStr p.1 :: value_hash p.2) m').
Proof.
  induction 1 as [|[k x] m Hx _ IH]; intros [|[k' y] m'] H1 H2 H3; cbn in *; try easy.
  apply andb_true_iff in H1 as [A1 A2], H2 as [B1 B2], H3 as [E1 E2].
  apply andb_true_iff in E1 as [E0 E1]. apply String.eqb_eq in E0 as ->.
  rewrite (Hx y), (IH m') by assumption. reflexivity.
Qed.

Lemma value_hash_eq x y :
  hash_ok x = true -> hash_ok y = true -> value_eqb x y = true -> value_hash x = value_hash y.
Proof.
  revert y. induction x as [| | | | | |l IH|m IH| |] using value_ind'; intros y Hx Hy H;
    destruct y; try discriminate H; cbn in *; try reflexivity.
  - destruct b, b0; easy.
  - now apply Z.eqb_eq in H as ->.
  - bool_facts. f_equal. now apply int_float_hash_eq.
  - bool_facts. f_equal. symmetry. now apply int_float_hash_eq.
  - bool_facts. f_equal. destruct (f64_is_nan f && f64_is_nan f0) eqn:E.
    + apply andb_true_iff in E as [E1 E2]. rewrite E1 in *. rewrite E2 in *. cbn in *.
      bool_facts. subst. reflexivity.
    + now apply float_hash_eq.
  - now apply String.eqb_eq in H as ->.
  - unfold bytes_eqb in H. case_decide; [subst|easy]. reflexivity.
  - destruct (hash_list_eq l IH l0) as [E1 E2]; auto. now rewrite E1, E2.
  - f_equal. now apply hash_obj_eq.
  - now apply Z.eqb_eq in H as ->.
  - unfold bytes_eqb in H. case_decide; [subst|easy]. reflexivity.
Qed.

(** ** Text *)

Definition hex_encode (b : bytes) : string :=
  String.concat "" (List.map (fun x => fmt_hex false 2 (Z_of_byte x)) b).

Section Display.
(** [Display] of [f64], [DateTime::to_rfc3339] and [Display] of [Uuid]. *)
Context (fmt_f64 : Z -> string) (rfc3339 : Z -> option string) (uuid_to_string : bytes -> string).
Local Open Scope string_scope.

Definition quote : string := String (ascii_of_nat 34) EmptyString.

Fixpoint value_to_string (v : Value) : string :=
  match v with
  | VNull => "null"
  | VBool b => if b then "true" else "false"
  | VInt i => fmt_int i
  | VFloat f => fmt_f64 f
  | VString s => quote ++ s ++ quote
  | VBytes b => "0x" ++ hex_encode b
  | VArray l => "[" ++ String.concat ", " (List.map value_to_string l) ++ "]"
  | VObject m =>
    "{" ++ String.concat ", "
             (List.map (fun p => quote ++ p.1 ++ quote ++ ": " ++ value_to_string p.2) m) ++ "}"
  | VTimestamp t =>
    match rfc3339 t with
    | Some s => s
    | None => "timestamp(" ++ fmt_int t ++ ")"
    end
  | VUuid u => "uuid(" ++ quote ++ uuid_to_string u ++ quote ++ ")"
  end.
End Display.

(** ** JSON

    [serde_json::Value]; its [Number] is an unsigned or a negative 64-bit integer
    or a finite float, its [Map] a [BTreeMap]. *)
Inductive Number := PosInt (n : Z) | NegInt (i : Z) | NFloat (f : Z).

#[warnings="-register-all"]
Inductive Json :=
| JNull
| JBool (b : bool)
| JNumber (n : Number)
| JString (s : string)
| JArray (l : list Json)
| JObject (m : list (string * Json)).

(** [Number::as_i64], [Number::as_f64], [Number::from_f64], [From<i64> for Number]. *)
Definition num_as_i64 (n : Number) : option Z :=
  match n with
  | PosInt n => if n <=? i64_max then Some n else None
  | NegInt i => Some i
  | NFloat _ => None
  end.

Definition num_as_f64 (n : Number) : option Z :=
  match n with
  | PosInt n => Some (f64_of_i64 n)
  | NegInt i => Some (f64_of_i64 i)
  | NFloat f => Some f
  end.

Definition f64_is_finite (f : Z) : bool := negb (f64_exp f =? 2047).

Definition num_from_f64 (f : Z) : option Number :=
  if f64_is_finite f then Some (NFloat f) else None.

Definition num_of_i64 (i : Z) : Number := if i <? 0 then NegInt i else PosInt i.

(** The parts of the [uuid] crate the conversions call. *)
Class UuidLib := {
  uuid_parse : string -> option bytes;
  uuid_to_string : bytes -> string;
}.

(** Documented: the hyphenated text of a UUID parses back to it, and a parsed
    UUID has 16 bytes. *)
Class UuidLaws (U : UuidLib) : Prop := {
  uuid_parse_to_string : forall u, List.length u = 16%nat -> uuid_parse (uuid_to_string u) = Some u;
  uuid_parse_length : forall s u, uuid_parse s = Some u -> List.length u = 16%nat;
}.

Section JsonConv.
Context {U : UuidLib}.

(** [impl From<serde_json::Value> for Value]. *)
Fixpoint value_of_json (j : Json) : Value :=
  match j with
  | JNull => VNull
  | JBool b => VBool b
  | JNumber num =>
    match num_as_i64 num with
    | Some i => VInt i
    | None =>
      match num_as_f64 num with
      | Some f => VFloat f
      | None => VNull
      end
    end
  | JString s =>
    match uuid_parse s with
    | Some u => VUuid u
    | None => VString s
    end
  | JArray l => VArray (List.map value_of_json l)
  | JObject m =>
    VObject (fold_left (fun acc p => bt_insert str_cmp p.1 (value_of_json p.2) acc) m [])
  end.

(** [impl From<Value> for serde_json::Value]. *)
Fixpoint json_of_value (v : Value) : Json :=
  match v with
  | VNull => JNull
  | VBool b => JBool b
  | VInt i => JNumber (num_of_i64 i)
  | VFloat f =>
    match num_from_f64 f with
    | Some n => JNumber n
    | None => JNull
    end
  | VString s => JString s
  | VBytes b => JString ("0x" ++ hex_encode b)%string
  | VArray l => JArray (List.map json_of_value l)
  | VObject m =>
    JObject (fold_left (fun acc p => bt_insert str_cmp p.1 (json_of_value p.2) acc) m [])
  | VTimestamp t => JNumber (num_of_i64 t)
  | VUuid u => JString (uuid_to_string u)
  end.
End JsonConv.

(** *** What survives JSON *)

Section JsonLaws.
Context {U : UuidLib} {UL : UuidLaws U}.

(** Values JSON represents faithfully. *)
Fixpoint json_native (v : Value) : bool :=
  match v with
  | VNull | VBool _ => true
  | VInt i => in_i64 i
  | VFloat f => f64_is_finite f
  | VString s => match uuid_parse s with Some _ => false | None => true end
  | VUuid u => Nat.eqb (List.length u) 16
  | VArray l => forallb json_native l
  | VObject m => sortedb str_cmp m && forallb (fun p => json_native p.2) m
  | VBytes _ | VTimestamp _ => false
  end.

Lemma num_as_i64_of_i64 i : in_i64 i = true -> num_as_i64 (num_of_i64 i) = Some i.
Proof.
  unfold in_i64, num_of_i64. intros H. bool_facts.
  destruct (i <? 0); cbn; [reflexivity|]. now rewrite (proj2 (Z.leb_le _ _)).
Qed.

Lemma obj_rebuild {V W} (f : V -> W) (m : list (string * V)) :
  sortedb str_cmp m = true ->
  fold_left (fun acc p => bt_insert str_cmp p.1 (f p.2) acc) m [] = List.map (fun p => (p.1, f p.2)) m.
Proof.
  intros H. apply (fold_insert_sorted str_cmp (fun _ => True)).
  apply (sortedb_wf str_cmp (P := fun _ => True)); [now apply Forall_true|assumption].
Qed.

Lemma sortedb_map {V W} (f : V -> W) (m : list (string * V)) :
  sortedb str_cmp (List.map (fun p => (p.1, f p.2)) m) = sortedb str_cmp m.
Proof.
  induction m as [|[k v] m IH]; cbn; [reflexivity|]. destruct m as [|[k' v'] m]; cbn in *; [reflexivity|].
  now rewrite IH.
Qed.

Lemma json_roundtrip v : json_native v = true -> value_of_json (json_of_value v) = v.
Proof.
  induction v as [| | | | | |l IH|m IH| |] using value_ind'; cbn; intros H; try easy.
  - now rewrite num_as_i64_of_i64.
  - unfold num_from_f64. rewrite H. reflexivity.
  - now destruct (uuid_parse s).
  - f_equal. rewrite List.map_map. rewrite <- (List.map_id l) at 2. apply List.map_ext_in.
    intros x Hx. rewrite forallb_forall in H. rewrite List.Forall_forall in IH. auto.
  - apply andb_true_iff in H as [HS H]. f_equal.
    rewrite (obj_rebuild json_of_value) by assumption.
    rewrite (obj_rebuild value_of_json) by (now rewrite sortedb_map).
    rewrite List.map_map. rewrite <- (List.map_id m) at 2. apply List.map_ext_in.
    intros [k x] Hx. cbn. rewrite forallb_forall in H. rewrite List.Forall_forall in IH.
    f_equal. apply (IH (k, x)); auto.
  - apply Nat.eqb_eq in H. now rewrite uuid_parse_to_string.
Qed.

(** JSON numbers in range. *)
Definition num_ok (n : Number) : bool :=
  match n with
  | PosInt n => in_u64 n
  | NegInt i => (i64_min <=? i) && (i <? 0)
  | NFloat f => f64_is_finite f
  end.

Fixpoint json_ok (j : Json) : bool :=
  match j with
  | JNumber n => num_ok n
  | JArray l => forallb json_ok l
  | JObject m => forallb (fun p => json_ok p.2) m
  | _ => true
  end.

Lemma big_int_finite n : 0 < n -> n <= u64_max -> f64_is_finite (f64_of_i64 n) = true.
Proof.
  intros H0 H1. unfold f64_of_i64, f64_is_finite.
  rewrite (proj2 (Z.eqb_neq n 0)), (proj2 (Z.ltb_lt 0 n)) by lia.
  assert (Hb : 0 <= mag_of_int n < 2000 * two52).
  { assert (Hd : 0 <= Z.log2 n <= 63).
    { split; [apply Z.log2_nonneg|]. enough (Z.log2 n < 64) by lia.
      apply Z.log2_lt_pow2; [lia|]. change (2 ^ 64) with two64. unfold u64_max, two64 in *. lia. }
    pose proof (Z.log2_spec n H0) as Hs. rewrite <- Z.add_1_r in Hs.
    unfold mag_of_int. destruct (Z.leb_spec (Z.log2 n) 52) as [L|L].
    - pose proof (scaled_bounds n _ Hs ltac:(lia)). unfold two52 in *. lia.
    - assert (Hq : 0 <= n / 2 ^ (Z.log2 n - 52) < 2 * two52).
      { assert (0 < 2 ^ (Z.log2 n - 52)) by (apply Z.pow_pos_nonneg; lia).
        split; [apply Z.div_pos; lia|]. apply Z.div_lt_upper_bound; [lia|].
        replace (2 * two52) with (2 ^ 53) by reflexivity. rewrite <- Z.pow_add_r by lia.
        replace (Z.log2 n - 52 + 53) with (Z.log2 n + 1) by lia. lia. }
      unfold two52 in *. destruct (_ || _); lia. }
  unfold f64_exp. apply negb_true_iff, Z.eqb_neq.
  assert (0 <= mag_of_int n / two52 < 2000).
  { split; [apply Z.div_pos; unfold two52; lia|]. apply Z.div_lt_upper_bound; unfold two52 in *; lia. }
  rewrite Z.mod_small; lia.
Qed.

#[warnings="-register-all"]
Fixpoint json_ind' (Q : Json -> Prop) (HN : Q JNull) (HB : forall b, Q (JBool b))
    (HNum : forall n, Q (JNumber n)) (HS : forall s, Q (JString s))
    (HA : forall l, Forall Q l -> Q (JArray l))
    (HO : forall m, Forall (fun p => Q p.2) m -> Q (JObject m)) (j : Json) : Q j :=
  match j with
  | JNull => HN
  | JBool b => HB b
  | JNumber n => HNum n
  | JString s => HS s
  | JArray l =>
    HA l ((fix go l : Forall Q l := match l with
      | [] => @List.Forall_nil _ _
      | x :: l' => @List.Forall_cons _ _ _ _ (json_ind' Q HN HB HNum HS HA HO x) (go l') end) l)
  | JObject m =>
    HO m ((fix go m : Forall (fun p => Q p.2) m := match m with
      | [] => @List.Forall_nil _ _
      | p :: m' => @List.Forall_cons _ _ _ _ (json_ind' Q HN HB HNum HS HA HO p.2) (go m') end) m)
  end.

Lemma value_of_json_native j : json_ok j = true -> json_native (value_of_json j) = true.
Proof.
  induction j as [| |n|s|l IH|m IH] using json_ind'; cbn; intros H; try easy.
  - destruct n as [n|i|f]; cbn in *; [|unfold in_i64, i64_max; bool_facts; apply andb_true_iff; split; apply Z.leb_le; lia|assumption].
    destruct (n <=? i64_max) eqn:E; cbn; unfold in_u64, in_i64, i64_min, i64_max in *; bool_facts.
    + apply andb_true_iff; split; apply Z.leb_le; lia.
    + apply big_int_finite; lia.
  - destruct (uuid_parse s) eqn:E; cbn; [|now rewrite E].
    apply Nat.eqb_eq. eapply uuid_parse_length; eauto.
  - rewrite forallb_forall in *. intros x Hx. apply List.in_map_iff in Hx as (y & <- & Hy).
    rewrite List.Forall_forall in IH. auto.
  - apply andb_true_iff. split.
    + apply (wf_sortedb str_cmp (P := fun _ => True)).
      apply (fold_insert_wf str_cmp (fun _ => True) value_of_json); [now apply Forall_true|apply bt_wf_nil].
    + apply forallb_forall. apply List.Forall_forall.
      apply (fold_insert_values str_cmp value_of_json (fun v => json_native v = true)); [|constructor].
      rewrite forallb_forall in H. rewrite List.Forall_forall in *. auto.
Qed.

(** Values the code can hold: 64-bit integers inside. *)
Fixpoint value_ok (v : Value) : bool :=
  match v with
  | VInt i | VTimestamp i => in_i64 i
  | VArray l => forallb value_ok l
  | VObject m => forallb (fun p => value_ok p.2) m
  | _ => true
  end.

Lemma num_of_i64_ok i : in_i64 i = true -> num_ok (num_of_i64 i) = true.
Proof.
  unfold in_i64, num_of_i64. intros H. bool_facts. unfold i64_max in *.
  destruct (i <? 0) eqn:E; cbn; unfold in_u64, u64_max; bool_facts; apply andb_true_iff; split;
    rewrite ?Z.leb_le, ?Z.ltb_lt; lia.
Qed.

Lemma json_of_value_ok v : value_ok v = true -> json_ok (json_of_value v) = true.
Proof.
  induction v as [| | | | | |l IH|m IH| |] using value_ind'; cbn; intros H;
    auto using num_of_i64_ok.
  - unfold num_from_f64. destruct (f64_is_finite f) eqn:E; cbn; auto.
  - rewrite forallb_forall in *. intros x Hx. apply List.in_map_iff in Hx as (y & <- & Hy).
    rewrite List.Forall_forall in IH. auto.
  - apply forallb_forall. apply List.Forall_forall.
    apply (fold_insert_values str_cmp json_of_value (fun j => json_ok j = true)); [|constructor].
    rewrite forallb_forall in H. rewrite List.Forall_forall in *. auto.
Qed.
End JsonLaws.
