(* ===== verification/Document.v ===== *)
(** [nova-core/src/document.rs] and [nova-core/src/event.rs]: document identifiers,
    documents, their JSON form, and data events. *)

From S2P Require Export Value.

(** ** [DocumentId]

    The newtype around [String] is the string itself. *)
Abbreviation DocumentId := string.

Module DocId.
(** [DocumentId::new]: trims, rejects an empty and an over-long identifier. *)
Definition new (s : string) : result DocumentId :=
  let trimmed := trim s in
  if str_len trimmed =? 0 then Err (invalid_query "Document ID cannot be empty")
  else if 256 <? str_len trimmed then
    Err (invalid_query "Document ID cannot exceed 256 bytes")
  else Ok trimmed.

(** [From<&str>] and [From<String>]: an invalid text is replaced by a generated
    identifier, [generated]. *)
Definition from_str (generated : DocumentId) (s : string) : DocumentId :=
  match new s with Ok id => id | _ => generated end.

Lemma new_Ok s id :
  new s = Ok id -> id = trim s /\ 0 < str_len id <= 256.
Proof.
  unfold new. intros H. repeat (case_match; try discriminate). injection H as <-. bool_facts.
  split; [reflexivity|]. unfold str_len in *. lia.
Qed.

Lemma new_valid s id : new s = Ok id -> valid_str id = true.
Proof. intros H. apply new_Ok in H as [-> _]. apply trim_valid. Qed.

(** An identifier made by [new] is a fixed point of [new]. *)
Lemma new_fix s id : new s = Ok id -> new id = Ok id.
Proof.
  intros H. pose proof (new_Ok _ _ H) as [E L]. unfold new in *.
  rewrite E, trim_idem. rewrite <- E.
  rewrite (proj2 (Z.eqb_neq _ _)), (proj2 (Z.ltb_ge _ _)) by lia. reflexivity.
Qed.
End DocId.

(** ** [Document] *)

Record Document := {
  id : DocumentId;
  version : Z;
  created_at : Z;
  updated_at : Z;
  fields : list (string * Value);
}.

Module Doc.
(** [Document::new]: identifier and clock reading are inputs. *)
Definition new (now : Z) (generated : DocumentId) : Document :=
  {| id := generated; version := 1; created_at := now; updated_at := now; fields := [] |}.

Definition with_id (now : Z) (doc_id : DocumentId) : Document :=
  {| id := doc_id; version := 1; created_at := now; updated_at := now; fields := [] |}.

Definition set_fields (d : Document) (fs : list (string * Value)) : Document :=
  {| id := d.(id); version := d.(version); created_at := d.(created_at);
     updated_at := d.(updated_at); fields := fs |}.

Definition get (d : Document) (key : string) : option Value :=
  if String.eqb key "_id" || String.eqb key "id" then None
  else obj_get key d.(fields).

Definition get_path (d : Document) (path : string) : option Value :=
  if String.eqb path "_id" || String.eqb path "id" then None
  else
    match split_dot path with
    | [] => None
    | part0 :: parts =>
      match obj_get part0 d.(fields) with
      | Some current => walk_path current parts
      | None => None
      end
    end.

(** [doc.get_path(field).or_else(|| doc.fields.get(field))], the lookup of the
    evaluator, the indexes and the sort. *)
Definition lookup (d : Document) (field : string) : option Value :=
  match get_path d field with
  | Some v => Some v
  | None => obj_get field d.(fields)
  end.

(** [Document::insert] and [remove] also return the value they displace. *)
Definition insert (d : Document) (key : string) (v : Value) : Document * option Value :=
  (set_fields d (bt_insert str_cmp key v d.(fields)), obj_get key d.(fields)).

Definition remove (d : Document) (key : string) : Document * option Value :=
  (set_fields d (bt_remove str_cmp key d.(fields)), obj_get key d.(fields)).

(** [advance_version]: [self.version += 1] and the clock. *)
Definition advance_version `{Build} (now : Z) (d : Document) : result Document :=
  let? v := checked_u64 (d.(version) + 1) in
  Ok {| id := d.(id); version := v; created_at := d.(created_at);
        updated_at := now; fields := d.(fields) |}.
End Doc.

(** ** JSON form of a document

    [serde_json::to_vec] and [from_slice] on text are external; the derived
    [Serialize] and [Deserialize] of [Document] are the conversions below. *)
Class JsonLib := {
  json_to_vec : Json -> bytes;
  json_from_slice : bytes -> option Json;
  json_error_text : bytes -> string;
}.

(** How deep arrays and objects are nested. *)
Fixpoint json_depth (j : Json) : nat :=
  match j with
  | JArray l => S (fold_right (fun x n => Nat.max (json_depth x) n) 0%nat l)
  | JObject m => S (fold_right (fun p n => Nat.max (json_depth p.2) n) 0%nat m)
  | _ => 0
  end.

Fixpoint json_plain (j : Json) : bool :=
  match j with
  | JNumber (NFloat _) => false
  | JNumber n => num_ok n
  | JString s => valid_str s
  | JArray l => forallb json_plain l
  | JObject m => bool_decide (NoDup m.*1) && forallb (fun p => valid_str p.1 && json_plain p.2) m
  | _ => true
  end.

(** Documented: parsing the printed text gives the value back for JSON without
    floats (they need the [float_roundtrip] feature, which is off), with numbers of 64
    bits, UTF-8 strings and distinct keys, nested less than 128 deep (the parser's
    recursion limit). *)
Definition text_safe (j : Json) : bool := json_plain j && (json_depth j <? 128)%nat.

Class JsonLaws (J : JsonLib) : Prop :=
  json_parse_print : forall j, text_safe j = true -> json_from_slice (json_to_vec j) = Some j.

Section DocJson.
Context {U : UuidLib}.

Definition json_of_document (d : Document) : Json :=
  JObject [("id", JString d.(id)); ("version", JNumber (PosInt d.(version)));
           ("created_at", JNumber (num_of_i64 d.(created_at)));
           ("updated_at", JNumber (num_of_i64 d.(updated_at)));
           ("fields", JObject (List.map (fun p => (p.1, json_of_value p.2)) d.(fields)))]%string.

Definition json_str (j : Json) : option string :=
  match j with JString s => Some s | _ => None end.
Definition json_u64 (j : Json) : option Z :=
  match j with JNumber (PosInt n) => Some n | _ => None end.
Definition json_i64 (j : Json) : option Z :=
  match j with JNumber n => num_as_i64 n | _ => None end.
Definition json_fields (j : Json) : option (list (string * Value)) :=
  match j with
  | JObject m => Some (fold_left (fun acc p => bt_insert str_cmp p.1 (value_of_json p.2) acc) m [])
  | _ => None
  end.

(** A struct field must occur exactly once. *)
Definition json_member (k : string) (m : list (string * Json)) : option Json :=
  match List.filter (fun p => String.eqb p.1 k) m with
  | [(_, j)] => Some j
  | _ => None
  end.

Definition document_of_json (j : Json) : option Document :=
  match j with
  | JObject m =>
    i ← json_member "id" m ≫= json_str;
    v ← json_member "version" m ≫= json_u64;
    c ← json_member "created_at" m ≫= json_i64;
    u ← json_member "updated_at" m ≫= json_i64;
    fs ← json_member "fields" m ≫= json_fields;
    Some {| id := i; version := v; created_at := c; updated_at := u; fields := fs |}
  | JArray [ji; jv; jc; ju; jf] =>
    i ← json_str ji; v ← json_u64 jv; c ← json_i64 jc; u ← json_i64 ju; fs ← json_fields jf;
    Some {| id := i; version := v; created_at := c; updated_at := u; fields := fs |}
  | _ => None
  end.

(** Documents whose JSON form determines them. *)
Definition doc_native (d : Document) : bool :=
  in_u64 d.(version) && in_i64 d.(created_at) && in_i64 d.(updated_at)
  && sortedb str_cmp d.(fields) && forallb (fun p => json_native p.2) d.(fields).

Lemma document_json_roundtrip {UL : UuidLaws U} d :
  doc_native d = true -> document_of_json (json_of_document d) = Some d.
Proof.
  unfold doc_native. intros H. bool_facts. destruct d as [i v c u fs]. cbn in *.
  rewrite !num_as_i64_of_i64 by assumption. cbn.
  do 2 f_equal. pose proof (json_roundtrip (VObject fs)) as R. cbn in R.
  rewrite (obj_rebuild json_of_value) in R by assumption.
  specialize (R ltac:(apply andb_true_iff; auto)). now injection R.
Qed.
End DocJson.

(** ** [event.rs] *)

Inductive EventType := Create | Update | Delete | Expire | IndexCreated | IndexDropped | Snapshot.

Definition event_type_as_str (e : EventType) : string :=
  match e with
  | Create => "CREATE"
  | Update => "UPDATE"
  | Delete => "DELETE"
  | Expire => "EXPIRE"
  | IndexCreated => "INDEX_CREATED"
  | IndexDropped => "INDEX_DROPPED"
  | Snapshot => "SNAPSHOT"
  end%string.

Record DataEvent := {
  ev_sequence : Z;
  ev_type : EventType;
  ev_namespace : string;
  ev_collection : string;
  ev_document_id : DocumentId;
  ev_before : option Document;
  ev_after : option Document;
  ev_timestamp : Z;
  ev_tx_id : option Z;
}.

Definition event_new (now seq : Z) (ty : EventType) (ns coll : string) (doc_id : DocumentId)
    (before after : option Document) (tx : option Z) : DataEvent :=
  {| ev_sequence := seq; ev_type := ty; ev_namespace := ns; ev_collection := coll;
     ev_document_id := doc_id; ev_before := before; ev_after := after;
     ev_timestamp := now; ev_tx_id := tx |}.

Definition target_uri (e : DataEvent) : string :=
  ("nova://" ++ e.(ev_namespace) ++ "/" ++ e.(ev_collection) ++ "/" ++ e.(ev_document_id))%string.

Definition matches_collection (e : DataEvent) (ns coll : string) : bool :=
  String.eqb e.(ev_namespace) ns && String.eqb e.(ev_collection) coll.
