(* ===== verification/Nbf.v ===== *)
(** [nova-storage/src/format.rs]: the NOVA Binary Format of write-ahead log records. *)

From S2P Require Export Document.

(** CRC-32 of the [crc32fast] crate; a [Hasher] fed in pieces hashes their
    concatenation. *)
Class CrcLib := { crc32 : bytes -> Z }.

Class CrcLaws (C : CrcLib) : Prop := crc32_range : forall b, 0 <= crc32 b < 2 ^ 32.

(** The bit-by-bit IEEE 802.3 CRC-32, an instance for computing examples. *)
Definition crc32_step (c : Z) : Z :=
  if Z.odd c then Z.lxor (Z.shiftr c 1) 0xEDB88320 else Z.shiftr c 1.

Definition crc32_byte (c : Z) (b : byte) : Z :=
  let c0 := Z.lxor c (Z_of_byte b) in
  crc32_step (crc32_step (crc32_step (crc32_step
    (crc32_step (crc32_step (crc32_step (crc32_step c0))))))).

Definition crc32_ieee (l : bytes) : Z :=
  Z.lxor (fold_left crc32_byte l 0xFFFFFFFF) 0xFFFFFFFF mod 2 ^ 32.

Definition ieee_crc : CrcLib := {| crc32 := crc32_ieee |}.

Lemma ieee_crc_laws : CrcLaws ieee_crc.
Proof. intros b. apply Z.mod_pos_bound. reflexivity. Qed.

Example crc32_ieee_check : crc32_ieee (as_bytes "123456789") = 0xCBF43926.
Proof. vm_compute. reflexivity. Qed.

(** ** Constants and record types *)

Definition NBF_MAGIC : bytes := [x4e; x4f; x56; x42].
Definition NBF_VERSION : Z := 1.
Definition MAX_PAYLOAD : Z := 64 * 1024 * 1024.

(** [{:?}] on a byte array. *)
Definition fmt_debug_bytes (b : bytes) : string :=
  ("[" ++ String.concat ", " (List.map (fun x => fmt_int (Z_of_byte x)) b) ++ "]")%string.

Inductive RecordType := Insert | Update | Delete | Checkpoint | TxBegin | TxCommit | TxRollback.

#[export] Instance RecordType_eq_dec : EqDecision RecordType.
Proof. solve_decision. Defined.

(** [self.record_type as u8]. *)
Definition record_type_as_u8 (t : RecordType) : Z :=
  match t with
  | Insert => 0x01
  | Update => 0x02
  | Delete => 0x03
  | Checkpoint => 0x04
  | TxBegin => 0x05
  | TxCommit => 0x06
  | TxRollback => 0x07
  end.

Definition record_type_from_u8 (b : Z) : result RecordType :=
  if b =? 0x01 then Ok Insert
  else if b =? 0x02 then Ok Update
  else if b =? 0x03 then Ok Delete
  else if b =? 0x04 then Ok Checkpoint
  else if b =? 0x05 then Ok TxBegin
  else if b =? 0x06 then Ok TxCommit
  else if b =? 0x07 then Ok TxRollback
  else Err (storage ("Unknown NBF record type: 0x" ++ fmt_hex true 2 b)).

Module NbfRecord.
Record t := {
  sequence : Z;
  record_type : RecordType;
  flags : Z;
  tx_id : option Z;
  timestamp : Z;
  namespace : string;
  collection : string;
  document_id : DocumentId;
  payload : bytes;
}.

Section Codec.
Context {C : CrcLib}.

(** The 32 bytes up to the timestamp. *)
Definition encode_fixed (r : t) : bytes :=
  NBF_MAGIC ++ write_u16 NBF_VERSION ++ write_u8 (record_type_as_u8 (record_type r))
  ++ write_u8 (flags r) ++ write_u64 (sequence r)
  ++ write_u64 (match tx_id r with Some tx => tx | None => 0 end)
  ++ write_u64 (timestamp r).

(** A length-prefixed text. *)
Definition encode_str (s : string) : bytes := write_u16 (str_len s) ++ as_bytes s.

(** [NbfRecord::encode]. *)
Definition encode (r : t) : result bytes :=
  let buf := encode_fixed r in
  if u16_max <? str_len (namespace r) then Err (storage "Namespace length exceeds u16 limit")
  else
    let buf := (buf ++ encode_str (namespace r))%list in
    if u16_max <? str_len (collection r) then
      Err (storage "Collection name length exceeds u16 limit")
    else
      let buf := (buf ++ encode_str (collection r))%list in
      if u16_max <? str_len (document_id r) then
        Err (storage "Document ID length exceeds u16 limit")
      else
        let buf := (buf ++ encode_str (document_id r))%list in
        let payload_len := Z.of_nat (List.length (payload r)) in
        if MAX_PAYLOAD <? payload_len then Err (storage "Payload exceeds 64MB limit")
        else
          let buf := (buf ++ write_u32 payload_len ++ payload r)%list in
          Ok (buf ++ write_u32 (crc32 buf))%list.

Definition torn (what : string) {A} : result A :=
  Err (Errors.new TornWriteDetected (what ++ ": " ++ eof_text)).

(** One length-prefixed text: length, bytes, UTF-8 check. *)
Definition decode_str (len_what what utf8_what : string) (input : bytes)
    : result (Z * string * bytes) :=
  match read_be 2 input with
  | None => torn len_what
  | Some (len, input) =>
    match read_exact (Z.to_nat len) input with
    | None => torn what
    | Some (raw, input) =>
      match from_utf8 raw with
      | None => Err (wal_corrupted utf8_what)
      | Some s => Ok (len, s, input)
      end
    end
  end.

(** The 28 header bytes through a cursor: version, type, flags, sequence,
    transaction, timestamp. *)
Definition decode_header (header_buf : bytes)
    : result (RecordType * Z * Z * option Z * Z) :=
  let io {A} (o : option A) : result A :=
    match o with Some a => Ok a | None => Err (storage eof_text) end in
  let? (ver, r) := io (read_be 2 header_buf) in
  if negb (ver =? NBF_VERSION) then
    Err (storage ("Unsupported NBF version: " ++ fmt_int ver))
  else
    let? (record_type_byte, r) := io (read_be 1 r) in
    let? ty := record_type_from_u8 record_type_byte in
    let? (fl, r) := io (read_be 1 r) in
    let? (seq, r) := io (read_be 8 r) in
    let? (raw_tx, r) := io (read_be 8 r) in
    let? (ts, r) := io (read_be 8 r) in
    Ok (ty, fl, seq, (if raw_tx =? 0 then None else Some raw_tx), ts).

(** [NbfRecord::decode]: a record and the rest of the input, [None] at a clean
    end of file, or an error. *)
Definition decode (input : bytes) : result (option (t * bytes)) :=
  match read_exact 4 input with
  | None => Ok None
  | Some (magic, input) =>
    if negb (bytes_eqb magic NBF_MAGIC) then
      Err (with_details WalCorrupted "Invalid NBF magic bytes"
             ("Expected " ++ fmt_debug_bytes NBF_MAGIC ++ ", found " ++ fmt_debug_bytes magic))
    else
      match read_exact 28 input with
      | None =>
        Err (with_details TornWriteDetected "Incomplete NBF record header (torn write)" eof_text)
      | Some (header_buf, input) =>
        let? (ty, fl, seq, tx, ts) := decode_header header_buf in
        let? (ns_len, ns, input) :=
          decode_str "Torn write in namespace length" "Torn write in namespace"
            "Invalid UTF-8 in namespace" input in
        let? (coll_len, coll, input) :=
          decode_str "Torn write in collection length" "Torn write in collection"
            "Invalid UTF-8 in collection" input in
        let? (doc_id_len, doc_id_str, input) :=
          decode_str "Torn write in doc ID length" "Torn write in doc ID"
            "Invalid UTF-8 in document ID" input in
        let? doc_id := DocId.new doc_id_str in
        match read_be 4 input with
        | None => torn "Torn write in payload length"
        | Some (payload_len, input) =>
          if MAX_PAYLOAD <? payload_len then Err (wal_corrupted "Payload length exceeds limit")
          else
            match read_exact (Z.to_nat payload_len) input with
            | None => torn "Torn write in payload"
            | Some (pl, input) =>
              match read_be 4 input with
              | None => torn "Torn write in checksum"
              | Some (expected_checksum, input) =>
                let calculated_checksum :=
                  crc32 (magic ++ header_buf ++ write_u16 ns_len ++ as_bytes ns
                         ++ write_u16 coll_len ++ as_bytes coll
                         ++ write_u16 doc_id_len ++ as_bytes doc_id
                         ++ write_u32 payload_len ++ pl)%list in
                if negb (expected_checksum =? calculated_checksum) then
                  Err (checksum_mismatch expected_checksum calculated_checksum)
                else
                  Ok (Some ({| sequence := seq; record_type := ty; flags := fl; tx_id := tx;
                               timestamp := ts; namespace := ns; collection := coll;
                               document_id := doc_id; payload := pl |}, input))
              end
            end
        end
      end
  end.
End Codec.

(** [payload_from_document] and [document_from_payload]. *)
Definition payload_from_document `{UuidLib, JsonLib} (d : Document) : result bytes :=
  Ok (json_to_vec (json_of_document d)).

Definition document_from_payload `{UuidLib, JsonLib} (r : t) : result Document :=
  match json_from_slice (payload r) ≫= document_of_json with
  | Some d => Ok d
  | None => Err (storage (json_error_text (payload r)))
  end.
End NbfRecord.

(** ** Laws of the codec *)

Section CodecLaws.
Import NbfRecord.
Context {C : CrcLib} {CL : CrcLaws C}.

(** Records the code writes: 64-bit fields, a transaction id that is not the
    [0] which stands for none, texts in UTF-8 within the length prefix, an
    identifier made by [DocumentId::new], a payload within 64 MB. *)
Definition record_ok (r : t) : Prop :=
  in_u64 (sequence r) = true /\ 0 <= flags r <= u8_max
  /\ match tx_id r with Some tx => 0 < tx <= u64_max | None => True end
  /\ in_u64 (timestamp r) = true
  /\ valid_str (namespace r) = true /\ str_len (namespace r) <= u16_max
  /\ valid_str (collection r) = true /\ str_len (collection r) <= u16_max
  /\ DocId.new (document_id r) = Ok (document_id r)
  /\ Z.of_nat (List.length (payload r)) <= MAX_PAYLOAD.

Definition is_torn {A} (x : result A) : Prop :=
  exists e, x = Err e /\ code e = TornWriteDetected.

Definition raw_tx (r : t) : Z := match tx_id r with Some tx => tx | None => 0 end.

(** The 28 bytes after the magic. *)
Definition header_bytes (r : t) : bytes :=
  write_u16 NBF_VERSION ++ write_u8 (record_type_as_u8 (record_type r))
    ++ write_u8 (flags r) ++ write_u64 (sequence r) ++ write_u64 (raw_tx r)
    ++ write_u64 (timestamp r).

(** Everything the checksum covers. *)
Definition body_bytes (r : t) : bytes :=
  NBF_MAGIC ++ header_bytes r ++ encode_str (namespace r) ++ encode_str (collection r)
    ++ encode_str (document_id r) ++ write_u32 (Z.of_nat (List.length (payload r))) ++ payload r.

Definition record_bytes (r : t) : bytes := body_bytes r ++ write_u32 (crc32 (body_bytes r)).

Lemma doc_id_bounds i : DocId.new i = Ok i -> 0 < str_len i <= 256 /\ valid_str i = true.
Proof. intros H. split; [now apply DocId.new_Ok in H|now apply DocId.new_valid in H]. Qed.

Lemma encode_ok r : record_ok r -> encode r = Ok (record_bytes r).
Proof.
  intros (_ & _ & _ & _ & _ & Hns & _ & Hc & Hid & Hp). apply doc_id_bounds in Hid as [Hid _].
  unfold encode. repeat (rewrite (proj2 (Z.ltb_ge _ _)) by (unfold u16_max in *; lia)).
  unfold record_bytes, body_bytes, header_bytes, encode_fixed, raw_tx. rewrite <- !app_assoc.
  reflexivity.
Qed.

Lemma length_header r : List.length (header_bytes r) = 28%nat.
Proof. reflexivity. Qed.

Lemma record_type_roundtrip ty : record_type_from_u8 (record_type_as_u8 ty) = Ok ty.
Proof. now destruct ty. Qed.

Lemma record_type_range ty : 0 <= record_type_as_u8 ty < 256.
Proof. destruct ty; cbn; lia. Qed.

Lemma decode_header_ok r :
  record_ok r ->
  decode_header (header_bytes r)
  = Ok (record_type r, flags r, sequence r, tx_id r, timestamp r).
Proof.
  intros (Hs & Hf & Htx & Ht & _). unfold in_u64, u64_max, u8_max in *. bool_facts.
  assert (Hraw : 0 <= raw_tx r < 2 ^ 64).
  { unfold raw_tx. destruct (tx_id r); lia. }
  unfold decode_header, header_bytes, write_u16, write_u8, write_u64.
  rewrite read_be_app by (unfold NBF_VERSION; change (256 ^ Z.of_nat 2) with 65536; lia).
  cbn [bindO]. rewrite Z.eqb_refl. cbn [negb].
  rewrite read_be_app by (apply record_type_range). cbn [bindO].
  rewrite record_type_roundtrip. cbn [bindO].
  rewrite read_be_app by (change (256 ^ Z.of_nat 1) with 256; lia). cbn [bindO].
  rewrite read_be_app by (change (256 ^ Z.of_nat 8) with two64; unfold two64; lia). cbn [bindO].
  rewrite read_be_app by (change (256 ^ Z.of_nat 8) with (2 ^ 64); lia). cbn [bindO].
  rewrite <- (app_nil_r (be_split 8 (timestamp r))).
  rewrite read_be_app by (change (256 ^ Z.of_nat 8) with two64; unfold two64; lia). cbn [bindO].
  unfold raw_tx. destruct (tx_id r) as [tx|]; [|reflexivity].
  rewrite (proj2 (Z.eqb_neq _ _)) by lia. reflexivity.
Qed.

Lemma str_len_nat s : Z.to_nat (str_len s) = List.length (as_bytes s).
Proof. unfold str_len. apply Nat2Z.id. Qed.

Lemma decode_str_ok s a b c rest :
  valid_str s = true -> str_len s <= u16_max ->
  decode_str a b c (encode_str s ++ rest) = Ok (str_len s, s, rest).
Proof.
  intros Hv Hl. unfold decode_str, encode_str, write_u16. rewrite <- app_assoc.
  rewrite read_be_app by (change (256 ^ Z.of_nat 2) with 65536; unfold u16_max, str_len in *; lia).
  rewrite read_exact_app by (now rewrite str_len_nat). now rewrite from_utf8_as_bytes.
Qed.

Lemma length_encode_str s : List.length (encode_str s) = (2 + List.length (as_bytes s))%nat.
Proof. unfold encode_str. now rewrite length_app. Qed.

Lemma decode_str_torn s a b c n :
  str_len s <= u16_max -> (n < List.length (encode_str s))%nat ->
  is_torn (decode_str a b c (firstn n (encode_str s))).
Proof.
  intros Hl Hn. rewrite length_encode_str in Hn. unfold decode_str, encode_str.
  rewrite firstn_app. change (List.length (write_u16 (str_len s))) with 2%nat.
  destruct (Nat.lt_ge_cases n 2) as [L|L].
  - rewrite read_be_short by (rewrite length_app, !length_firstn; lia). eexists; split; reflexivity.
  - rewrite firstn_all2 by exact L. unfold write_u16.
    rewrite read_be_app by (change (256 ^ Z.of_nat 2) with 65536; unfold u16_max, str_len in *; lia).
    rewrite read_exact_short by (rewrite length_firstn, str_len_nat; lia).
    eexists; split; reflexivity.
Qed.

(** A frame whose identifier text [raw] is [document_id r] up to trimming, and
    the bytes [decode] computes the checksum over. *)
Definition covered_bytes (r : t) (raw : string) : bytes :=
  NBF_MAGIC ++ header_bytes r ++ encode_str (namespace r) ++ encode_str (collection r)
    ++ write_u16 (str_len raw) ++ as_bytes (document_id r)
    ++ write_u32 (Z.of_nat (List.length (payload r))) ++ payload r.

Definition frame_bytes (r : t) (raw : string) : bytes :=
  NBF_MAGIC ++ header_bytes r ++ encode_str (namespace r) ++ encode_str (collection r)
    ++ encode_str raw ++ write_u32 (Z.of_nat (List.length (payload r))) ++ payload r
    ++ write_u32 (crc32 (covered_bytes r raw)).

Definition raw_id_ok (r : t) (raw : string) : Prop :=
  DocId.new raw = Ok (document_id r) /\ valid_str raw = true /\ str_len raw <= u16_max.

Lemma record_raw_ok r : record_ok r -> raw_id_ok r (document_id r).
Proof.
  intros (_ & _ & _ & _ & _ & _ & _ & _ & Hid & _). apply doc_id_bounds in Hid as H.
  unfold raw_id_ok, u16_max. split; [assumption|]. lia || (destruct H; split; [assumption|lia]).
Qed.

Lemma covered_self r : covered_bytes r (document_id r) = body_bytes r.
Proof. unfold covered_bytes, body_bytes, encode_str. now rewrite <- !app_assoc. Qed.

Lemma frame_self r : frame_bytes r (document_id r) = record_bytes r.
Proof.
  unfold record_bytes. rewrite <- covered_self. unfold frame_bytes, covered_bytes, encode_str.
  now rewrite <- !app_assoc.
Qed.

(** Reading a frame gives its record and leaves what follows untouched. *)
Lemma decode_frame r raw rest :
  record_ok r -> raw_id_ok r raw -> decode (frame_bytes r raw ++ rest) = Ok (Some (r, rest)).
Proof.
  intros Hr (Hraw & Vraw & Lraw). pose proof Hr as (Hs & Hf & Htx & Ht & Vn & Ln & Vc & Lc & Hid & Hp).
  set (cs := crc32 (covered_bytes r raw)).
  assert (Hcs : 0 <= cs < 256 ^ Z.of_nat 4).
  { pose proof (crc32_range (covered_bytes r raw)). change (256 ^ Z.of_nat 4) with (2 ^ 32). auto. }
  unfold frame_bytes. fold cs. rewrite <- !app_assoc. unfold decode.
  rewrite read_exact_app by reflexivity. change (bytes_eqb NBF_MAGIC NBF_MAGIC) with true. cbn [negb].
  rewrite read_exact_app by apply length_header.
  rewrite decode_header_ok by assumption. cbn [bindO].
  rewrite decode_str_ok by assumption. cbn [bindO].
  rewrite decode_str_ok by assumption. cbn [bindO].
  rewrite decode_str_ok by assumption. cbn [bindO].
  rewrite Hraw. cbn [bindO]. unfold write_u32 at 1.
  rewrite read_be_app by (change (256 ^ Z.of_nat 4) with 4294967296; unfold MAX_PAYLOAD in *; lia).
  rewrite (proj2 (Z.ltb_ge _ _)) by lia.
  rewrite read_exact_app by (now rewrite Nat2Z.id).
  unfold write_u32 at 1. rewrite read_be_app by assumption.
  match goal with |- context [crc32 ?b] => replace (crc32 b) with cs end.
  - rewrite Z.eqb_refl. cbn [negb]. now destruct r.
  - subst cs. now f_equal.
Qed.

Lemma decode_ok r rest :
  record_ok r -> decode (record_bytes r ++ rest) = Ok (Some (r, rest)).
Proof. intros H. rewrite <- frame_self. apply decode_frame; auto using record_raw_ok. Qed.

Lemma is_torn_bind {A B} (m : result A) (k : A -> result B) : is_torn m -> is_torn (bindO m k).
Proof. intros (e & -> & He). now exists e. Qed.

(** A cut text is torn; a whole one is read and the cut moves on. *)
Lemma decode_str_prefix s a b c k tail :
  valid_str s = true -> str_len s <= u16_max ->
  let x := decode_str a b c (firstn k (encode_str s ++ tail)) in
  ((k < List.length (encode_str s))%nat /\ is_torn x)
  \/ ((List.length (encode_str s) <= k)%nat
      /\ x = Ok (str_len s, s, firstn (k - List.length (encode_str s)) tail)).
Proof.
  intros Hv Hl x. subst x. rewrite firstn_app.
  destruct (Nat.lt_ge_cases k (List.length (encode_str s))) as [L|L]; [left|right]; (split; [exact L|]).
  - replace (k - List.length (encode_str s))%nat with 0%nat by lia. rewrite firstn_O, app_nil_r.
    now apply decode_str_torn.
  - rewrite (firstn_all2 (encode_str s)) by exact L. now apply decode_str_ok.
Qed.

(** Length, payload and checksum, the last part of [decode]. *)
Lemma decode_tail_torn {A} (pl sum : bytes) (k : nat) (cont : Z -> bytes -> Z -> bytes -> result A) :
  Z.of_nat (List.length pl) <= MAX_PAYLOAD ->
  (k < 4 + (List.length pl + 4))%nat ->
  is_torn (match read_be 4 (firstn k (write_u32 (Z.of_nat (List.length pl)) ++ pl ++ sum)) with
    | None => torn "Torn write in payload length"
    | Some (payload_len, input) =>
      if MAX_PAYLOAD <? payload_len then Err (wal_corrupted "Payload length exceeds limit")
      else match read_exact (Z.to_nat payload_len) input with
        | None => torn "Torn write in payload"
        | Some (p, input) =>
          match read_be 4 input with
          | None => torn "Torn write in checksum"
          | Some (expected, input) => cont payload_len p expected input
          end
        end
    end).
Proof.
  intros Hp Hk. rewrite firstn_app. change (List.length (write_u32 _)) with 4%nat.
  destruct (Nat.lt_ge_cases k 4) as [L4|L4].
  { rewrite read_be_short by (rewrite length_app, !length_firstn; lia). eexists; split; reflexivity. }
  rewrite (firstn_all2 (write_u32 _)) by exact L4. unfold write_u32.
  rewrite read_be_app by (change (256 ^ Z.of_nat 4) with 4294967296; unfold MAX_PAYLOAD in *; lia).
  rewrite (proj2 (Z.ltb_ge _ _)) by lia. rewrite Nat2Z.id.
  destruct (Nat.lt_ge_cases (k - 4) (List.length pl)) as [L5|L5].
  { rewrite read_exact_short by (rewrite length_firstn, length_app; lia). eexists; split; reflexivity. }
  rewrite firstn_app, (firstn_all2 pl) by exact L5. rewrite read_exact_app by reflexivity.
  rewrite read_be_short by (rewrite length_firstn; lia). eexists; split; reflexivity.
Qed.

(** A record cut anywhere after its magic is reported as a torn write, cut
    within its magic as the end of the file. *)
Lemma decode_torn r n :
  record_ok r -> (n < List.length (record_bytes r))%nat ->
  if (n <? 4)%nat then decode (firstn n (record_bytes r)) = Ok None
  else is_torn (decode (firstn n (record_bytes r))).
Proof.
  intros Hr Hn. pose proof Hr as (Hs & Hf & Htx & Ht & Vn & Ln & Vc & Lc & Hid & Hp).
  pose proof (doc_id_bounds _ Hid) as [Bid Vid].
  assert (Hlen : List.length (record_bytes r) =
    (4 + (28 + (List.length (encode_str (namespace r)) + (List.length (encode_str (collection r))
      + (List.length (encode_str (document_id r)) + (4 + (List.length (payload r) + 4)))))))%nat).
  { unfold record_bytes, body_bytes. rewrite !length_app, length_header. cbn. lia. }
  rewrite Hlen in Hn. clear Hlen.
  unfold record_bytes. set (sum := write_u32 (crc32 (body_bytes r))).
  assert (Hsum : List.length sum = 4%nat) by reflexivity. clearbody sum.
  unfold body_bytes, decode. rewrite <- !app_assoc.
  destruct (Nat.ltb_spec n 4) as [L4|L4].
  { rewrite read_exact_short by (rewrite length_firstn; lia). reflexivity. }
  rewrite firstn_app. change (List.length NBF_MAGIC) with 4%nat. rewrite (firstn_all2 NBF_MAGIC) by exact L4.
  rewrite read_exact_app by reflexivity. change (bytes_eqb NBF_MAGIC NBF_MAGIC) with true. cbn [negb].
  remember (n - 4)%nat as k eqn:Ek. assert (Hk : (k < 28 + (List.length (encode_str (namespace r)) + (List.length (encode_str (collection r))
      + (List.length (encode_str (document_id r)) + (4 + (List.length (payload r) + 4))))))%nat) by lia.
  clear Ek Hn L4 n.
  destruct (Nat.lt_ge_cases k 28) as [L|L].
  { rewrite read_exact_short by (rewrite length_firstn; lia). eexists; split; reflexivity. }
  rewrite firstn_app, length_header, (firstn_all2 (header_bytes r)) by (rewrite length_header; lia).
  rewrite read_exact_app by apply length_header.
  rewrite decode_header_ok by assumption. cbn [bindO].
  destruct (decode_str_prefix (namespace r) "Torn write in namespace length" "Torn write in namespace"
    "Invalid UTF-8 in namespace" (k - 28) (encode_str (collection r) ++ encode_str (document_id r)
    ++ write_u32 (Z.of_nat (List.length (payload r))) ++ payload r ++ sum)
    Vn Ln) as [[_ T]|[L1 ->]]; [now apply is_torn_bind|]. cbn [bindO].
  destruct (decode_str_prefix (collection r) "Torn write in collection length" "Torn write in collection"
    "Invalid UTF-8 in collection" (k - 28 - List.length (encode_str (namespace r))) (encode_str (document_id r)
    ++ write_u32 (Z.of_nat (List.length (payload r))) ++ payload r ++ sum)
    Vc Lc) as [[_ T]|[L2 ->]]; [now apply is_torn_bind|]. cbn [bindO].
  destruct (decode_str_prefix (document_id r) "Torn write in doc ID length" "Torn write in doc ID"
    "Invalid UTF-8 in document ID"
    (k - 28 - List.length (encode_str (namespace r)) - List.length (encode_str (collection r)))
    (write_u32 (Z.of_nat (List.length (payload r))) ++ payload r ++ sum)
    Vid ltac:(unfold u16_max; lia)) as [[_ T]|[L3 ->]]; [now apply is_torn_bind|]. cbn [bindO].
  rewrite Hid. cbn [bindO]. apply decode_tail_torn; [assumption|lia].
Qed.

Lemma record_type_from_u8_inv b ty :
  record_type_from_u8 b = Ok ty -> b = record_type_as_u8 ty.
Proof.
  unfold record_type_from_u8. repeat (case_if; [intros [= <-]; now apply Z.eqb_eq|]). discriminate.
Qed.

Lemma decode_str_inv a b c input n s rest :
  decode_str a b c input = Ok (n, s, rest) ->
  input = (encode_str s ++ rest)%list /\ n = str_len s /\ str_len s <= u16_max /\ valid_str s = true.
Proof.
  unfold decode_str. intros H.
  destruct (read_be 2 input) as [[n' i1]|] eqn:E1; [|discriminate].
  destruct (read_exact (Z.to_nat n') i1) as [[raw i2]|] eqn:E2; [|discriminate].
  destruct (from_utf8 raw) as [s'|] eqn:E3; [|discriminate]. injection H as <- <- <-.
  apply read_be_inv in E1 as [-> Hn]. apply read_exact_inv in E2 as [-> Hl].
  apply from_utf8_inv in E3 as [<- Hv]. change (256 ^ Z.of_nat 2) with 65536 in Hn.
  assert (n' = str_len s') as -> by (unfold str_len; lia).
  unfold encode_str, write_u16. rewrite <- app_assoc. repeat split; auto. unfold u16_max; lia.
Qed.

(** What the cursor reads determines the 28 bytes. *)
Lemma decode_header_inv h ty fl seq tx ts :
  List.length h = 28%nat -> decode_header h = Ok (ty, fl, seq, tx, ts) ->
  h = (write_u16 NBF_VERSION ++ write_u8 (record_type_as_u8 ty) ++ write_u8 fl ++ write_u64 seq
       ++ write_u64 (match tx with Some x => x | None => 0 end) ++ write_u64 ts)%list
  /\ 0 <= fl < 2 ^ 8 /\ 0 <= seq < 2 ^ 64 /\ 0 <= ts < 2 ^ 64
  /\ match tx with Some x => 0 < x < 2 ^ 64 | None => True end.
Proof.
  unfold decode_header. intros Hlen H.
  destruct (read_be 2 h) as [[v r1]|] eqn:E1; [|discriminate]. cbn [bindO] in H.
  destruct (v =? NBF_VERSION) eqn:Ev; [|discriminate]. cbn [negb] in H.
  destruct (read_be 1 r1) as [[bt r2]|] eqn:E2; [|discriminate]. cbn [bindO] in H.
  destruct (record_type_from_u8 bt) as [ty'| |] eqn:Et; try discriminate. cbn [bindO] in H.
  destruct (read_be 1 r2) as [[fl' r3]|] eqn:E3; [|discriminate]. cbn [bindO] in H.
  destruct (read_be 8 r3) as [[seq' r4]|] eqn:E4; [|discriminate]. cbn [bindO] in H.
  destruct (read_be 8 r4) as [[raw r5]|] eqn:E5; [|discriminate]. cbn [bindO] in H.
  destruct (read_be 8 r5) as [[ts' r6]|] eqn:E6; [|discriminate]. cbn [bindO] in H.
  injection H as <- <- <- <- <-. apply Z.eqb_eq in Ev as ->. apply record_type_from_u8_inv in Et as ->.
  apply read_be_inv in E1 as [-> _], E2 as [-> _], E3 as [-> B3], E4 as [-> B4], E5 as [-> B5], E6 as [-> B6].
  rewrite !length_app, !length_be_split in Hlen. destruct r6; [|cbn in Hlen; lia].
  rewrite app_nil_r. split.
  - unfold write_u16, write_u8, write_u64. do 5 f_equal.
    destruct (raw =? 0) eqn:E0; [apply Z.eqb_eq in E0 as ->|]; reflexivity.
  - repeat split; try apply B3; try apply B4; try apply B6.
    destruct (raw =? 0) eqn:E0; [exact I|]. apply Z.eqb_neq in E0.
    change (256 ^ Z.of_nat 8) with (2 ^ 64) in B5. lia.
Qed.

(** Whatever [decode] accepts is a well-formed record, and the input starts with
    its frame, the identifier possibly with the white space that
    [DocumentId::new] trims. *)
Lemma decode_inv input r rest :
  decode input = Ok (Some (r, rest)) ->
  record_ok r /\ exists raw, raw_id_ok r raw /\ input = (frame_bytes r raw ++ rest)%list.
Proof.
  unfold decode. intros H.
  destruct (read_exact 4 input) as [[magic i0]|] eqn:E0; [|discriminate].
  destruct (bytes_eqb magic NBF_MAGIC) eqn:Em; [|discriminate]. cbn [negb] in H.
  destruct (read_exact 28 i0) as [[h i1]|] eqn:E1; [|discriminate].
  inv_ok H. destruct r0 as [[[[ty fl] seq] tx] ts]. inv_ok H. destruct r0 as [[nl ns] i2].
  inv_ok H. destruct r0 as [[cl co] i3]. inv_ok H. destruct r0 as [[dl di] i4].
  inv_ok H. rename r0 into did.
  destruct (read_be 4 i4) as [[pl i5]|] eqn:E5; [|discriminate].
  destruct (MAX_PAYLOAD <? pl) eqn:Epl; [discriminate|].
  destruct (read_exact (Z.to_nat pl) i5) as [[p i6]|] eqn:E6; [|discriminate].
  destruct (read_be 4 i6) as [[sum i7]|] eqn:E7; [|discriminate].
  destruct (_ =? _) eqn:Es in H; [|discriminate]. cbn [negb] in H. injection H as <- <-.
  unfold bytes_eqb in Em. case_decide; [subst magic|discriminate].
  apply read_exact_inv in E0 as [-> _], E1 as [-> Lh], E6 as [-> Lp].
  apply read_be_inv in E5 as [-> B5], E7 as [-> B7].
  apply decode_header_inv in Hr as (Eh & Bf & Bs & Bt & Btx); [|assumption].
  apply decode_str_inv in Hr0 as (-> & -> & Ln & Vn), Hr1 as (-> & -> & Lc & Vc), Hr2 as (-> & -> & Ld & Vd).
  apply Z.ltb_ge in Epl. assert (pl = Z.of_nat (List.length p)) as -> by lia.
  pose proof (DocId.new_fix _ _ Hr3) as Hfix. split.
  - unfold record_ok. cbn. unfold in_u64, u64_max, u8_max.
    change (2 ^ 8) with 256 in Bf. change (2 ^ 64) with 18446744073709551616 in *.
    repeat (rewrite (proj2 (Z.leb_le _ _)) by lia).
    repeat split; auto; try lia. destruct tx; [lia|exact I].
  - exists di. split; [unfold raw_id_ok; auto|].
    unfold frame_bytes, covered_bytes.
    replace (header_bytes _) with h by exact Eh.
    cbn [namespace collection document_id payload]. apply Z.eqb_eq in Es. subst sum.
    unfold encode_str. rewrite <- !app_assoc. reflexivity.
Qed.

(** Decoding looks at the record only: another continuation is decoded alike. *)
Lemma decode_local input r rest :
  decode input = Ok (Some (r, rest)) ->
  exists used, input = (used ++ rest)%list /\ (40 < List.length used)%nat
    /\ forall rest', decode (used ++ rest') = Ok (Some (r, rest')).
Proof.
  intros H. apply decode_inv in H as (Hr & raw & Hraw & ->). exists (frame_bytes r raw).
  split; [reflexivity|]. split; [|intros; now apply decode_frame].
  unfold frame_bytes. rewrite !length_app, length_header, !length_encode_str. cbn. lia.
Qed.
End CodecLaws.
