(* ===== verification/Checksum.v ===== *)
(** CRC-32 detects a changed byte: the law the record format relies on, and its proof for
    the IEEE polynomial. *)

From S2P Require Export Nbf.

(** Two byte strings that differ in exactly one place. *)
Inductive one_byte : bytes -> bytes -> Prop :=
| one_byte_intro a x y b : x <> y -> one_byte (a ++ x :: b) (a ++ y :: b).

Lemma one_byte_app p s l l' : one_byte l l' -> one_byte (p ++ l ++ s) (p ++ l' ++ s).
Proof.
  intros [a x y b H]. replace (p ++ (a ++ x :: b) ++ s)%list with ((p ++ a) ++ x :: (b ++ s))%list by now rewrite <- !app_assoc.
  replace (p ++ (a ++ y :: b) ++ s)%list with ((p ++ a) ++ y :: (b ++ s))%list by now rewrite <- !app_assoc. now constructor.
Qed.

Lemma one_byte_length l l' : one_byte l l' -> List.length l = List.length l'.
Proof. intros [a x y b _]. rewrite !length_app. reflexivity. Qed.

Lemma one_byte_neq l l' : one_byte l l' -> l <> l'.
Proof. intros [a x y b H] E. apply app_inv_head in E. now injection E. Qed.

(** Documented: a CRC of 32 bits detects every burst of errors no longer than that. *)
Class CrcDetects (C : CrcLib) : Prop :=
  crc32_detects : forall l l', one_byte l l' -> crc32 l <> crc32 l'.

(** ** Words of 32 bits *)

Abbreviation word32 c := (0 <= c < 2 ^ 32).

Lemma word32_bits c i : word32 c -> 32 <= i -> Z.testbit c i = false.
Proof.
  intros H Hi. rewrite <- (Z.mod_small c (2 ^ 32)) by exact H. now apply Z.mod_pow2_bits_high.
Qed.

Lemma word32_of_bits c : 0 <= c -> (forall i, 32 <= i -> Z.testbit c i = false) -> word32 c.
Proof.
  intros Hc H. split; [exact Hc|]. assert (E : c = c mod 2 ^ 32).
  { apply Z.bits_inj'. intros i Hi. destruct (Z.lt_ge_cases i 32).
    - now rewrite Z.mod_pow2_bits_low.
    - rewrite Z.mod_pow2_bits_high by lia. now apply H. }
  rewrite E. now apply Z.mod_pos_bound.
Qed.

Lemma word32_lxor a b : word32 a -> word32 b -> word32 (Z.lxor a b).
Proof.
  intros Ha Hb. apply word32_of_bits; [apply Z.lxor_nonneg; lia|]. intros i Hi.
  rewrite Z.lxor_spec, (word32_bits a), (word32_bits b) by assumption. reflexivity.
Qed.

Lemma word32_byte b : word32 (Z_of_byte b).
Proof. pose proof (Z_of_byte_bound b). lia. Qed.

Lemma lxor_cancel_l c a b : Z.lxor c a = Z.lxor c b -> a = b.
Proof.
  intros E. apply (f_equal (Z.lxor c)) in E. rewrite <- !Z.lxor_assoc, Z.lxor_nilpotent, !Z.lxor_0_l in E. exact E.
Qed.

(** ** One step of the register *)

Lemma word32_half c : word32 c -> 0 <= Z.shiftr c 1 < 2 ^ 31.
Proof.
  intros H. rewrite Z.shiftr_div_pow2 by lia. change (2 ^ 1) with 2. change (2 ^ 32) with (2 * 2 ^ 31) in H.
  split; [apply Z.div_pos; lia|apply Z.div_lt_upper_bound; lia].
Qed.

Lemma crc32_step_word c : word32 c -> word32 (crc32_step c).
Proof.
  intros H. pose proof (word32_half c H) as B. change (2 ^ 32) with (2 * 2 ^ 31). unfold crc32_step. destruct (Z.odd c); [|lia].
  apply word32_lxor; lia.
Qed.

(** The bit shifted out can be read off the top bit of the result. *)
Lemma crc32_step_top c : word32 c -> Z.testbit (crc32_step c) 31 = Z.odd c.
Proof.
  intros H. assert (T : Z.testbit (Z.shiftr c 1) 31 = false).
  { rewrite Z.shiftr_spec by lia. apply word32_bits; [exact H|lia]. }
  unfold crc32_step. destruct (Z.odd c); [|exact T]. rewrite Z.lxor_spec, T. reflexivity.
Qed.

Lemma crc32_step_inj c d : word32 c -> word32 d -> crc32_step c = crc32_step d -> c = d.
Proof.
  intros Hc Hd E. assert (O : Z.odd c = Z.odd d) by now rewrite <- !crc32_step_top, E.
  assert (S : Z.shiftr c 1 = Z.shiftr d 1).
  { unfold crc32_step in E. rewrite <- O in E. destruct (Z.odd c); [|exact E].
    rewrite !(Z.lxor_comm (Z.shiftr _ 1)) in E. now apply lxor_cancel_l in E. }
  rewrite <- !Z.div2_spec in S. rewrite (Z.div2_odd c), (Z.div2_odd d), S, O. reflexivity.
Qed.

(** ** A byte, and a string of them *)

Lemma crc32_byte_word c b : word32 c -> word32 (crc32_byte c b).
Proof. intros H. unfold crc32_byte. do 8 apply crc32_step_word. apply word32_lxor; [exact H|apply word32_byte]. Qed.

Lemma crc32_byte_lxor c d x y :
  word32 c -> word32 d -> crc32_byte c x = crc32_byte d y -> Z.lxor c (Z_of_byte x) = Z.lxor d (Z_of_byte y).
Proof.
  intros Hc Hd. unfold crc32_byte.
  assert (Wc : word32 (Z.lxor c (Z_of_byte x))) by (apply word32_lxor; [exact Hc|apply word32_byte]).
  assert (Wd : word32 (Z.lxor d (Z_of_byte y))) by (apply word32_lxor; [exact Hd|apply word32_byte]).
  generalize dependent (Z.lxor c (Z_of_byte x)). generalize dependent (Z.lxor d (Z_of_byte y)). intros w Ww v Wv E.
  do 8 (apply crc32_step_inj in E; [|repeat apply crc32_step_word; assumption..]). exact E.
Qed.

Lemma crc32_fold_inj l c d : word32 c -> word32 d -> fold_left crc32_byte l c = fold_left crc32_byte l d -> c = d.
Proof.
  revert c d. induction l as [|b l IH]; intros c d Hc Hd E; [exact E|]. cbn [fold_left] in E.
  apply IH in E; [|now apply crc32_byte_word..]. apply crc32_byte_lxor in E; [|assumption..].
  rewrite !(Z.lxor_comm _ (Z_of_byte b)) in E. now apply lxor_cancel_l in E.
Qed.

Lemma crc32_fold_word l c : word32 c -> word32 (fold_left crc32_byte l c).
Proof. revert c. induction l as [|b l IH]; intros c H; [exact H|]. cbn [fold_left]. now apply IH, crc32_byte_word. Qed.

Lemma ieee_detects : CrcDetects ieee_crc.
Proof.
  intros l l' [a x y b Hxy] E. apply Hxy. cbn [crc32 ieee_crc] in E. unfold crc32_ieee in E.
  assert (W : word32 0xFFFFFFFF) by lia.
  rewrite !Z.mod_small in E by (apply word32_lxor; [now apply crc32_fold_word|lia]).
  rewrite !(Z.lxor_comm _ 0xFFFFFFFF) in E. apply lxor_cancel_l in E. rewrite !fold_left_app in E. cbn [fold_left] in E.
  pose proof (crc32_fold_word a _ W) as Wa. set (c := fold_left crc32_byte a 0xFFFFFFFF) in *.
  apply crc32_fold_inj in E; [|now apply crc32_byte_word..]. apply crc32_byte_lxor in E; [|exact Wa..].
  apply lxor_cancel_l in E. rewrite <- (byte_of_Z_of_byte x), <- (byte_of_Z_of_byte y). now rewrite E.
Qed.
