(* ===== verification/Samples.v ===== *)
(** Concrete functions for the external code, with which the witnesses compute: a
    CRC-32, a UUID text form and a byte form of JSON values that satisfy the laws
    the theorems assume of the real libraries. *)

From stdpp Require Import countable.
From S2P Require Export Nbf.

(** ** UUIDs: a prefix and the sixteen bytes *)

Definition sample_uuid_parse (s : string) : option bytes :=
  let b := as_bytes s in
  if bytes_eqb (firstn 5 b) (as_bytes "uuid:") && Nat.eqb (List.length (skipn 5 b)) 16
  then Some (skipn 5 b) else None.

Definition sample_uuid : UuidLib := {|
  uuid_parse := sample_uuid_parse;
  uuid_to_string := fun u => from_bytes (as_bytes "uuid:" ++ u);
|}.

Lemma sample_uuid_laws : UuidLaws sample_uuid.
Proof.
  split.
  - intros u Hu. change (sample_uuid_parse (from_bytes (as_bytes "uuid:" ++ u)) = Some u).
    unfold sample_uuid_parse. rewrite as_from_bytes, firstn_prefix, skipn_prefix by reflexivity.
    now rewrite value_eqb_refl_bytes, Hu.
  - intros s u. cbn. unfold sample_uuid_parse. destruct (_ && _) eqn:E; [|discriminate].
    intros [= <-]. bool_facts. now apply Nat.eqb_eq.
Qed.

(** ** JSON: the code number of the value, bit by bit *)

Abbreviation JLeaf := (bool + (Z + Z) + (Z + string))%type.

Fixpoint json_tree (j : Json) : gen_tree JLeaf :=
  match j with
  | JNull => GenNode 0 []
  | JBool b => GenLeaf (inl (inl b))
  | JNumber (PosInt n) => GenLeaf (inl (inr (inl n)))
  | JNumber (NegInt n) => GenLeaf (inl (inr (inr n)))
  | JNumber (NFloat f) => GenLeaf (inr (inl f))
  | JString s => GenLeaf (inr (inr s))
  | JArray l => GenNode 1 (List.map json_tree l)
  | JObject m => GenNode 2 (List.concat (List.map (fun p => [GenLeaf (inr (inr p.1)); json_tree p.2]) m))
  end.

Fixpoint tree_json (t : gen_tree JLeaf) : Json :=
  match t with
  | GenLeaf (inl (inl b)) => JBool b
  | GenLeaf (inl (inr (inl n))) => JNumber (PosInt n)
  | GenLeaf (inl (inr (inr n))) => JNumber (NegInt n)
  | GenLeaf (inr (inl f)) => JNumber (NFloat f)
  | GenLeaf (inr (inr s)) => JString s
  | GenNode 0 _ => JNull
  | GenNode 1 l => JArray (List.map tree_json l)
  | GenNode _ l =>
    JObject ((fix pairs (l : list (gen_tree JLeaf)) : list (string * Json) :=
      match l with
      | GenLeaf (inr (inr k)) :: v :: l' => (k, tree_json v) :: pairs l'
      | _ => []
      end) l)
  end.

Lemma tree_json_tree j : tree_json (json_tree j) = j.
Proof.
  induction j as [| |n|s|l IH|m IH] using json_ind'; cbn; try reflexivity.
  - now destruct n.
  - f_equal. induction IH as [|x l Hx _ IHl]; cbn; [reflexivity|]. now rewrite Hx, IHl.
  - f_equal. induction IH as [|[k x] m Hx _ IHm]; cbn in *; [reflexivity|]. now rewrite Hx, IHm.
Qed.

#[export] Instance Number_eq_dec : EqDecision Number.
Proof. solve_decision. Defined.

Lemma Json_eq_dec_lemma (x y : Json) : json_tree x = json_tree y -> x = y.
Proof. intros E. rewrite <- (tree_json_tree x), E. apply tree_json_tree. Qed.

#[export] Instance Json_eq_dec : EqDecision Json.
Proof.
  intros x y. destruct (decide (json_tree x = json_tree y)) as [E|N].
  - left. now apply Json_eq_dec_lemma.
  - right. intros ->. now destruct N.
Defined.

#[export] Instance Json_countable : Countable Json := inj_countable' json_tree tree_json tree_json_tree.

Fixpoint pos_bytes (p : positive) : bytes :=
  match p with
  | xH => []
  | xO p' => x00 :: pos_bytes p'
  | xI p' => x01 :: pos_bytes p'
  end.

Fixpoint bytes_pos (b : bytes) : positive :=
  match b with
  | [] => xH
  | x00 :: b' => xO (bytes_pos b')
  | _ :: b' => xI (bytes_pos b')
  end.

Lemma bytes_pos_bytes p : bytes_pos (pos_bytes p) = p.
Proof. induction p; cbn; congruence. Qed.

Definition sample_json : JsonLib := {|
  json_to_vec := fun j => pos_bytes (encode j);
  json_from_slice := fun b => decode (bytes_pos b);
  json_error_text := fun _ => "invalid JSON"%string;
|}.

Lemma sample_json_laws : JsonLaws sample_json.
Proof. intros j _. cbn. now rewrite bytes_pos_bytes, decode_encode. Qed.

(** ** A document and records to try things on *)

Definition sample_doc : Document :=
  {| id := "u1"; version := 1; created_at := 1000; updated_at := 1000;
     fields := [("age", VInt 30); ("name", VString "Ada")] |}%string.

Example sample_doc_roundtrip :
  let U := sample_uuid in let J := sample_json in
  json_from_slice (json_to_vec (json_of_document sample_doc)) ≫= document_of_json = Some sample_doc.
Proof. vm_compute. reflexivity. Qed.
