(* ===== verification/Wal.v ===== *)
(** [nova-storage/src/wal.rs]: the segmented write-ahead log.

    The log directory is the finite map from file names to file contents as the
    operating system holds them; the bytes a [BufWriter] has not written yet are
    in the state of the log, and are what a crash of the process loses.  File
    operations succeed: device errors are not modelled, torn writes are (a crash
    in the middle of a write leaves a prefix). *)

From stdpp Require Import sorting.
From S2P Require Export Nbf.

(** ** Segment names *)

Definition digit (d : Z) : ascii := ascii_of_N (Z.to_N (48 + d)).

(** The [n] low decimal digits of [z]. *)
Fixpoint dec_digits (n : nat) (z : Z) : string :=
  match n with
  | O => EmptyString
  | S n' => String (digit (z / 10 ^ Z.of_nat n' mod 10)) (dec_digits n' z)
  end.

(** [{:016}] on a [u64]: at least sixteen digits, at most twenty. *)
Definition pad16_width (z : Z) : nat :=
  if z <? 10 ^ 16 then 16
  else if z <? 10 ^ 17 then 17
  else if z <? 10 ^ 18 then 18
  else if z <? 10 ^ 19 then 19
  else 20.

Definition fmt_pad16 (z : Z) : string := dec_digits (pad16_width z) z.

(** [WriteAheadLog::segment_path], the file name inside the directory. *)
Definition segment_path (index : Z) : string := (fmt_pad16 index ++ ".wal")%string.

(** [str::parse::<u64>]. *)
Definition digit_value (a : ascii) : option Z :=
  let c := Z.of_N (N_of_ascii a) in
  if (48 <=? c) && (c <=? 57) then Some (c - 48) else None.

Fixpoint parse_digits (acc : Z) (s : string) : option Z :=
  match s with
  | EmptyString => Some acc
  | String a s' =>
    match digit_value a with
    | Some d => parse_digits (acc * 10 + d) s'
    | None => None
    end
  end.

Definition parse_u64 (s : string) : option Z :=
  let body := match s with
              | String a s' => if Ascii.eqb a "+" then s' else s
              | EmptyString => s
              end in
  match body with
  | EmptyString => None
  | _ =>
    match parse_digits 0 body with
    | Some z => if z <=? u64_max then Some z else None
    | None => None
    end
  end.

(** [Path::file_stem] of a name with extension [wal]: everything before the final
    [.wal], which must not be empty. *)
Fixpoint strip_wal (s : string) : option string :=
  match s with
  | EmptyString => None
  | String a s' =>
    if String.eqb s ".wal" then Some EmptyString
    else match strip_wal s' with
         | Some p => Some (String a p)
         | None => None
         end
  end.

Definition wal_stem (name : string) : option string :=
  match strip_wal name with
  | Some EmptyString => None
  | r => r
  end.

(** [WriteAheadLog::discover_segments]. *)
Definition discover_segments (dir : gmap string bytes) : list Z :=
  merge_sort Z.le
    (omap (fun p => wal_stem p.1 ≫= parse_u64) (map_to_list dir)).

(** ** The log *)

Inductive SyncMode := SyncAlways | SyncNone.

#[export] Instance SyncMode_eq_dec : EqDecision SyncMode.
Proof. solve_decision. Defined.

(** Values of the [NOVA_FAULT] environment variable the code looks at. *)
Inductive Fault := NoFault | PartialWrite | CrashAfterWal.

Module WriteAheadLog.
Record t := {
  dir : gmap string bytes;
  current_segment_index : Z;
  current_sequence : Z;
  segment_size_limit : Z;
  sync_mode : SyncMode;
  active_buf : bytes;             (* unwritten bytes of the [BufWriter] *)
  current_segment_size : Z;
}.

Definition buf_capacity : Z := 8192.

Definition active_path (w : t) : string := segment_path (current_segment_index w).

(** Append to the active file (opened in append mode). *)
Definition file_append (b : bytes) (w : t) : t :=
  {| dir := <[active_path w := (default [] (dir w !! active_path w) ++ b)%list]> (dir w);
     current_segment_index := current_segment_index w; current_sequence := current_sequence w;
     segment_size_limit := segment_size_limit w; sync_mode := sync_mode w;
     active_buf := active_buf w; current_segment_size := current_segment_size w |}.

Definition set_buf (b : bytes) (w : t) : t :=
  {| dir := dir w; current_segment_index := current_segment_index w;
     current_sequence := current_sequence w; segment_size_limit := segment_size_limit w;
     sync_mode := sync_mode w; active_buf := b; current_segment_size := current_segment_size w |}.

Definition set_sequence (seq : Z) (w : t) : t :=
  {| dir := dir w; current_segment_index := current_segment_index w; current_sequence := seq;
     segment_size_limit := segment_size_limit w; sync_mode := sync_mode w;
     active_buf := active_buf w; current_segment_size := current_segment_size w |}.

Definition set_size (n : Z) (w : t) : t :=
  {| dir := dir w; current_segment_index := current_segment_index w;
     current_sequence := current_sequence w; segment_size_limit := segment_size_limit w;
     sync_mode := sync_mode w; active_buf := active_buf w; current_segment_size := n |}.

(** [fetch_add(1) + 1]: the counter wraps; the sum overflows only at the very
    last value. *)
Definition next_sequence (w : t) : Z * t :=
  let s := wrap_u64 (current_sequence w + 1) in (s, set_sequence s w).

(** [BufWriter::flush]. *)
Definition buf_flush (w : t) : t := set_buf [] (file_append (active_buf w) w).

(** [BufWriter::write_all]. *)
Definition buf_write (b : bytes) (w : t) : t :=
  let w := if buf_capacity <? Z.of_nat (List.length (active_buf w) + List.length b)
           then buf_flush w else w in
  if buf_capacity <=? Z.of_nat (List.length b) then file_append b w
  else set_buf (active_buf w ++ b) w.

(** [WriteAheadLog::open]. *)
Definition open (d : gmap string bytes) (mode : SyncMode) (limit : Z) : t :=
  let index := default 0 (last (discover_segments d)) in
  let content := default [] (d !! segment_path index) in
  {| dir := <[segment_path index := content]> d;
     current_segment_index := index; current_sequence := 0;
     segment_size_limit := limit; sync_mode := mode; active_buf := [];
     current_segment_size := Z.of_nat (List.length content) |}.

(** [flush]: write the buffer out and fsync. *)
Definition flush (w : t) : t := buf_flush w.

(** [rotate_segment]. *)
Definition rotate_segment (w : t) : t :=
  let w := buf_flush w in
  let next_index := wrap_u64 (current_segment_index w + 1) in
  {| dir := <[segment_path next_index := default [] (dir w !! segment_path next_index)]> (dir w);
     current_segment_index := next_index; current_sequence := current_sequence w;
     segment_size_limit := segment_size_limit w; sync_mode := sync_mode w;
     active_buf := []; current_segment_size := 0 |}.

Section Append.
Context {C : CrcLib}.

Definition make_record (seq now : Z) (ty : RecordType) (ns coll : string) (doc_id : DocumentId)
    (payload : bytes) (tx : option Z) : NbfRecord.t :=
  {| NbfRecord.sequence := seq; NbfRecord.record_type := ty; NbfRecord.flags := 0;
     NbfRecord.tx_id := tx; NbfRecord.timestamp := wrap_u64 now; NbfRecord.namespace := ns;
     NbfRecord.collection := coll; NbfRecord.document_id := doc_id;
     NbfRecord.payload := payload |}.

(** [append]: the new state and the sequence number or the error.  [now] is the
    clock in microseconds.

    One step here.  In the code the lock is taken after the sequence number is drawn and
    the size of the segment checked, so that two appends at once may leave their records in
    the other order, or rotate twice; and a panic while it is held (the fault
    [CrashAfterWal]) poisons it, after which every append fails.  Neither is modelled. *)
Definition append (fault : Fault) (now : Z) (ty : RecordType) (ns coll : string)
    (doc_id : DocumentId) (payload : bytes) (tx : option Z) (w : t) : t * result Z :=
  let (sequence, w) := next_sequence w in
  let record := make_record sequence now ty ns coll doc_id payload tx in
  match NbfRecord.encode record with
  | Err e => (w, Err e)
  | Panic => (w, Panic)
  | Ok encoded =>
    let record_len := Z.of_nat (List.length encoded) in
    let w := if segment_size_limit w <? current_segment_size w + record_len
             then rotate_segment w else w in
    match fault with
    | PartialWrite =>
      let partial_len := (List.length encoded - 16)%nat in
      (buf_flush (buf_write (firstn partial_len encoded) w),
       Err (storage "Simulated partial write fault injected"))
    | _ =>
      let w := buf_write encoded w in
      let w := match sync_mode w with SyncAlways => buf_flush w | SyncNone => w end in
      let w := set_size (current_segment_size w + record_len) w in
      match fault with
      | CrashAfterWal => (w, Panic)
      | _ => (w, Ok sequence)
      end
    end
  end.
End Append.
End WriteAheadLog.
