(* ===== verification/Recovery.v ===== *)
(** [nova-storage/src/recovery.rs]: crash recovery from the write-ahead log. *)

From S2P Require Export Wal.

(** [(namespace, collection)]. *)
Abbreviation CollectionKey := (string * string)%type.

Abbreviation DocumentStore := (gmap DocumentId Document).

Record RecoveredState := {
  collections : gmap CollectionKey DocumentStore;
  max_sequence : Z;
  records_replayed : Z;
  torn_tails_truncated : Z;
}.

Definition recovered_new : RecoveredState :=
  {| collections := ∅; max_sequence := 0; records_replayed := 0; torn_tails_truncated := 0 |}.

Definition set_collections (c : gmap CollectionKey DocumentStore) (st : RecoveredState) : RecoveredState :=
  {| collections := c; max_sequence := max_sequence st; records_replayed := records_replayed st;
     torn_tails_truncated := torn_tails_truncated st |}.

Section Recovery.
Context {C : CrcLib} {U : UuidLib} {J : JsonLib}.

(** [apply_record_to_state]: the entry of the collection is created first, for
    every type of record. *)
Definition apply_record_to_state (record : NbfRecord.t) (st : RecoveredState) : result RecoveredState :=
  let key := (NbfRecord.namespace record, NbfRecord.collection record) in
  let collection_map := default ∅ (collections st !! key) in
  match NbfRecord.record_type record with
  | Insert | Update =>
    let? doc := NbfRecord.document_from_payload record in
    Ok (set_collections
          (<[key := <[NbfRecord.document_id record := doc]> collection_map]> (collections st)) st)
  | Delete =>
    Ok (set_collections
          (<[key := delete (NbfRecord.document_id record) collection_map]> (collections st)) st)
  | Checkpoint | TxBegin | TxCommit | TxRollback =>
    Ok (set_collections (<[key := collection_map]> (collections st)) st)
  end.

(** What the loop does with a decoded record. *)
Definition replay_record (record : NbfRecord.t) (st : RecoveredState) : result RecoveredState :=
  let st :=
    {| collections := collections st;
       max_sequence := if max_sequence st <? NbfRecord.sequence record
                       then NbfRecord.sequence record else max_sequence st;
       records_replayed := records_replayed st;
       torn_tails_truncated := torn_tails_truncated st |} in
  let? st := apply_record_to_state record st in
  Ok {| collections := collections st; max_sequence := max_sequence st;
        records_replayed := records_replayed st + 1;
        torn_tails_truncated := torn_tails_truncated st |}.

Definition count_torn (st : RecoveredState) : RecoveredState :=
  {| collections := collections st; max_sequence := max_sequence st;
     records_replayed := records_replayed st;
     torn_tails_truncated := torn_tails_truncated st + 1 |}.

Definition corruption (path : string) (offset : Z) (e : NovaError) : NovaError :=
  with_details WalCorrupted
    ("Corruption encountered in WAL segment " ++ quote ++ path ++ quote ++ " at offset " ++ fmt_int offset)
    (error_to_string e).

(** The loop of [recover_segment] over the bytes still to be read; [offset] is the
    stream position, at every iteration also the last valid offset.  The result
    says where to truncate the file, if anywhere.  Each iteration but the last
    consumes at least one byte, so the length of the input is enough fuel. *)
Fixpoint recover_loop (fuel : nat) (path : string) (offset : Z) (input : bytes) (st : RecoveredState)
    : result (RecoveredState * option Z) :=
  match fuel with
  | O => Ok (st, None)
  | S fuel' =>
    match NbfRecord.decode input with
    | Ok (Some (record, rest)) =>
      let? st := replay_record record st in
      recover_loop fuel' path (offset + Z.of_nat (List.length input - List.length rest)) rest st
    | Ok None => Ok (st, None)
    | Err e =>
      if decide (code e = TornWriteDetected) then Ok (count_torn st, Some offset)
      else Err (corruption path offset e)
    | Panic => Panic
    end
  end.

(** [recover_segment]: the new state and the new content of the file. *)
Definition recover_segment (path : string) (content : bytes) (st : RecoveredState)
    : result (RecoveredState * bytes) :=
  match content with
  | [] => Ok (st, content)
  | _ =>
    let? (st, cut) := recover_loop (S (List.length content)) path 0 content st in
    Ok (st, match cut with Some n => firstn (Z.to_nat n) content | None => content end)
  end.

Fixpoint recover_segments (segments : list Z) (dir : gmap string bytes) (st : RecoveredState)
    : result (RecoveredState * gmap string bytes) :=
  match segments with
  | [] => Ok (st, dir)
  | idx :: segments' =>
    let path := segment_path idx in
    match dir !! path with
    | None => Err (storage ("Failed to open segment file " ++ quote ++ path ++ quote))
    | Some content =>
      let? (st, content) := recover_segment path content st in
      recover_segments segments' (<[path := content]> dir) st
    end
  end.

(** [RecoveryManager::recover]; a directory that does not exist is the empty map. *)
Definition recover (dir : gmap string bytes) : result (RecoveredState * gmap string bytes) :=
  recover_segments (discover_segments dir) dir recovered_new.
End Recovery.

(** ** The log as a sequence of records *)

Section Laws.
Context {C : CrcLib} {CL : CrcLaws C} {U : UuidLib} {J : JsonLib}.

Definition log_bytes (rs : list NbfRecord.t) : bytes := List.concat (List.map record_bytes rs).

(** The specification of recovery: replay the records one after the other. *)
Fixpoint replay (rs : list NbfRecord.t) (st : RecoveredState) : result RecoveredState :=
  match rs with
  | [] => Ok st
  | r :: rs' => let? st := replay_record r st in replay rs' st
  end.

Lemma replay_app rs rs' st : replay (rs ++ rs') st = bindO (replay rs st) (replay rs').
Proof.
  revert st. induction rs as [|r rs IH]; intros st; cbn; [reflexivity|].
  rewrite bindO_assoc. destruct (replay_record r st); cbn; auto.
Qed.

Lemma record_bytes_length r : (32 < List.length (record_bytes r))%nat.
Proof. unfold record_bytes, body_bytes. rewrite !length_app, length_header. cbn. lia. Qed.

(** A tail that the loop does not mistake for records. *)
Inductive tail_of : bytes -> Prop :=
| tail_intro r n : record_ok r -> (n < List.length (record_bytes r))%nat ->
    tail_of (firstn n (record_bytes r)).

(** Bytes at which the loop ends: too few for the magic, or read as a torn write. *)
Definition ends_log (tail : bytes) : Prop :=
  if (List.length tail <? 4)%nat then NbfRecord.decode tail = Ok None else is_torn (NbfRecord.decode tail).

Lemma tail_decode tail : tail_of tail -> ends_log tail.
Proof.
  intros [r n Hr Hn]. unfold ends_log. rewrite length_firstn, Nat.min_l by lia. now apply decode_torn.
Qed.

(** Enough fuel: the loop over a log of well-formed records and what ends it. *)
Lemma recover_loop_end fuel path offset rs tail st :
  Forall record_ok rs -> ends_log tail -> (List.length (log_bytes rs ++ tail) < fuel)%nat ->
  recover_loop fuel path offset (log_bytes rs ++ tail) st
  = bindO (replay rs st) (fun st' =>
      if (List.length tail <? 4)%nat then Ok (st', None)
      else Ok (count_torn st', Some (offset + Z.of_nat (List.length (log_bytes rs))))).
Proof.
  intros HF HT. revert fuel offset st.
  induction HF as [|r rs Hr HF IH]; intros fuel offset st Hfuel.
  - destruct fuel as [|fuel]; [lia|]. cbn [log_bytes List.map List.concat app replay bindO recover_loop].
    pose proof HT as D. unfold ends_log in D. destruct (List.length tail <? 4)%nat.
    + now rewrite D.
    + destruct D as (e & -> & He). rewrite decide_True by assumption.
      do 3 f_equal. cbn. lia.
  - destruct fuel as [|fuel]; [lia|]. cbn [log_bytes List.map List.concat] in *.
    fold (log_bytes rs) in *. rewrite <- app_assoc in *. cbn [recover_loop replay].
    rewrite decode_ok by assumption. destruct (replay_record r st) as [st'| |]; cbn [bindO]; try reflexivity.
    pose proof (record_bytes_length r) as Lr. rewrite length_app in Hfuel.
    rewrite IH by lia. destruct (replay rs st') as [st''| |]; cbn [bindO]; try reflexivity.
    destruct (List.length tail <? 4)%nat; [reflexivity|].
    do 3 f_equal. rewrite !length_app. lia.
Qed.
End Laws.
