(* ===== verification/Segments.v ===== *)
(** Segment names and the directory of the log: names print and parse back, and the
    segments of a log are discovered in the order in which they were written. *)

From stdpp Require Import sorting.
From S2P Require Export Recovery.

(** ** Names *)

Lemma digit_value_digit d : 0 <= d < 10 -> digit_value (digit d) = Some d.
Proof.
  intros H. unfold digit_value, digit. rewrite N_ascii_embedding by lia.
  rewrite Z2N.id by lia. rewrite (proj2 (Z.leb_le 48 _)), (proj2 (Z.leb_le _ 57)) by lia.
  cbn. f_equal. lia.
Qed.

Lemma digit_not_plus d : 0 <= d < 10 -> digit d <> "+"%char.
Proof.
  intros H E. apply (f_equal digit_value) in E. rewrite digit_value_digit in E by assumption. discriminate.
Qed.

Lemma parse_dec_digits n acc z :
  0 <= z -> parse_digits acc (dec_digits n z) = Some (acc * 10 ^ Z.of_nat n + z mod 10 ^ Z.of_nat n).
Proof.
  intros Hz. revert acc. induction n as [|n IH]; intros acc.
  - cbn [dec_digits parse_digits]. rewrite Z.mod_1_r. f_equal. lia.
  - cbn [dec_digits parse_digits]. assert (P : 0 < 10 ^ Z.of_nat n) by (apply Z.pow_pos_nonneg; lia).
    rewrite digit_value_digit by (apply Z.mod_pos_bound; lia). rewrite IH. f_equal.
    rewrite Nat2Z.inj_succ, Z.pow_succ_r by lia.
    rewrite (Z.mul_comm 10 (10 ^ Z.of_nat n)), (Z.rem_mul_r z (10 ^ Z.of_nat n) 10) by lia. lia.
Qed.

Lemma pad16_bound z : 0 <= z <= u64_max -> z < 10 ^ Z.of_nat (pad16_width z).
Proof.
  intros H. unfold pad16_width, u64_max in *. repeat case_if; bool_facts; cbn; lia.
Qed.

Lemma pad16_pos z : exists n, pad16_width z = S n.
Proof. unfold pad16_width. repeat case_if; eauto. Qed.

Lemma parse_fmt_pad16 z : 0 <= z <= u64_max -> parse_u64 (fmt_pad16 z) = Some z.
Proof.
  intros H. unfold parse_u64, fmt_pad16. pose proof (pad16_bound z H) as B.
  destruct (pad16_pos z) as [n En]. pose proof (parse_dec_digits (S n) 0 z ltac:(lia)) as P.
  rewrite En in *. cbn [dec_digits] in *.
  set (d := z / 10 ^ Z.of_nat n mod 10) in *.
  assert (Hd : 0 <= d < 10) by (apply Z.mod_pos_bound; lia).
  pose proof (digit_not_plus d Hd) as Np. set (rest := dec_digits n z) in *.
  rewrite (proj2 (Ascii.eqb_neq _ _) Np), P. rewrite Z.mul_0_l, Z.add_0_l, Z.mod_small by lia.
  now rewrite (proj2 (Z.leb_le _ _)) by lia.
Qed.

Lemma string_length_append s t : String.length (s ++ t) = (String.length s + String.length t)%nat.
Proof.
  induction s as [|a s IH]; [reflexivity|]. change (S (String.length (s ++ t)) = S (String.length s + String.length t)%nat).
  now rewrite IH.
Qed.

Lemma strip_wal_app s : strip_wal (s ++ ".wal") = Some s.
Proof.
  induction s as [|a s IH]; [reflexivity|].
  change (String a s ++ ".wal")%string with (String a (s ++ ".wal")). cbn [strip_wal].
  destruct (String.eqb_spec (String a (s ++ ".wal")) ".wal") as [E|_].
  - apply (f_equal String.length) in E.
    change (S (String.length (s ++ ".wal")) = 4%nat) in E. rewrite string_length_append in E. cbn in E. lia.
  - now rewrite IH.
Qed.

Lemma wal_stem_path z : wal_stem (segment_path z) = Some (fmt_pad16 z).
Proof.
  unfold wal_stem, segment_path. rewrite strip_wal_app. unfold fmt_pad16.
  destruct (pad16_pos z) as [n ->]. reflexivity.
Qed.

(** A name the log gives to a segment is read back as the segment's index. *)
Lemma segment_index_path z :
  0 <= z <= u64_max -> (wal_stem (segment_path z) ≫= parse_u64) = Some z.
Proof. intros H. rewrite wal_stem_path. cbn. now apply parse_fmt_pad16. Qed.

Lemma segment_path_inj i j :
  0 <= i <= u64_max -> 0 <= j <= u64_max -> segment_path i = segment_path j -> i = j.
Proof.
  intros Hi Hj E. apply (f_equal (fun s => wal_stem s ≫= parse_u64)) in E.
  rewrite !segment_index_path in E by assumption. now injection E.
Qed.

(** ** The directory *)

(** The directory that holds the segments [i], [i + 1], ... with these contents. *)
Fixpoint dir_from (i : Z) (contents : list bytes) : gmap string bytes :=
  match contents with
  | [] => ∅
  | c :: cs => <[segment_path i := c]> (dir_from (i + 1) cs)
  end.

Section Dir.
(** All indexes in play fit in 64 bits. *)
Abbreviation fits i n := (0 <= i /\ i + Z.of_nat n <= u64_max + 1).

Lemma dir_from_below i j cs :
  fits i (List.length cs) -> 0 <= j < i -> dir_from i cs !! segment_path j = None.
Proof.
  revert i. induction cs as [|c cs IH]; intros i Hi Hj; cbn in *; [apply lookup_empty|].
  rewrite lookup_insert_ne; [apply IH; lia|]. intros E. apply segment_path_inj in E; lia.
Qed.

Lemma dir_from_lookup i k cs :
  fits i (List.length cs) -> (k < List.length cs)%nat ->
  dir_from i cs !! segment_path (i + Z.of_nat k) = cs !! k.
Proof.
  revert i k. induction cs as [|c cs IH]; intros i k Hi Hk; [cbn in Hk; lia|].
  destruct k as [|k]; cbn [dir_from List.length] in *.
  - rewrite Z.add_0_r. now rewrite lookup_insert_eq.
  - rewrite lookup_insert_ne by (intros E; apply segment_path_inj in E; lia).
    replace (i + Z.of_nat (S k)) with (i + 1 + Z.of_nat k) by lia. rewrite IH by lia. reflexivity.
Qed.

Lemma dir_from_above i j cs :
  0 <= i -> i + Z.of_nat (List.length cs) <= j <= u64_max -> dir_from i cs !! segment_path j = None.
Proof.
  revert i. induction cs as [|c cs IH]; intros i Hi Hj; cbn [dir_from List.length] in *; [apply lookup_empty|].
  rewrite lookup_insert_ne; [apply IH; lia|]. intros E. apply segment_path_inj in E; lia.
Qed.

Lemma dir_from_snoc i cs c :
  fits i (S (List.length cs)) ->
  dir_from i (cs ++ [c]) = <[segment_path (i + Z.of_nat (List.length cs)) := c]> (dir_from i cs).
Proof.
  revert i. induction cs as [|c0 cs IH]; intros i Hi; cbn [app dir_from List.length] in *.
  - now rewrite Z.add_0_r.
  - rewrite IH by lia. replace (i + 1 + Z.of_nat (List.length cs)) with (i + Z.of_nat (S (List.length cs))) by lia.
    rewrite insert_insert_ne; [reflexivity|]. intros E. apply segment_path_inj in E; lia.
Qed.

Lemma dir_from_replace i cs c c' :
  fits i (S (List.length cs)) ->
  <[segment_path (i + Z.of_nat (List.length cs)) := c']> (dir_from i (cs ++ [c])) = dir_from i (cs ++ [c']).
Proof. intros H. rewrite !dir_from_snoc by assumption. apply insert_insert_eq. Qed.

Lemma dir_from_list i cs :
  fits i (List.length cs) ->
  omap (fun p => wal_stem p.1 ≫= parse_u64) (map_to_list (dir_from i cs)) ≡ₚ seqZ i (Z.of_nat (List.length cs)).
Proof.
  revert i. induction cs as [|c cs IH]; intros i Hi; cbn [dir_from List.length] in *.
  - rewrite map_to_list_empty. reflexivity.
  - rewrite map_to_list_insert by (apply dir_from_below; cbn; lia). cbn [omap list_omap fst].
    rewrite segment_index_path by lia. rewrite seqZ_cons by lia.
    replace (Z.pred (Z.of_nat (S (List.length cs)))) with (Z.of_nat (List.length cs)) by lia.
    replace (Z.succ i) with (i + 1) by lia. f_equiv. apply IH. lia.
Qed.

Lemma seqZ_sorted i n : Sorted Z.le (seqZ i (Z.of_nat n)).
Proof.
  revert i. induction n as [|n IH]; intros i; [constructor|]. rewrite seqZ_cons by lia.
  replace (Z.pred (Z.of_nat (S n))) with (Z.of_nat n) by lia. constructor; [apply IH|].
  destruct n as [|n]; [constructor|]. rewrite seqZ_cons by lia. constructor. lia.
Qed.

Lemma discover_dir_from i cs :
  fits i (List.length cs) -> discover_segments (dir_from i cs) = seqZ i (Z.of_nat (List.length cs)).
Proof.
  intros H. unfold discover_segments. apply (Sorted_unique Z.le).
  - apply Sorted_merge_sort. intros x y. lia.
  - apply seqZ_sorted.
  - rewrite merge_sort_Permutation. now apply dir_from_list.
Qed.

Lemma last_seqZ n : last (seqZ 0 (Z.of_nat (S n))) = Some (Z.of_nat n).
Proof.
  replace (Z.of_nat (S n)) with (Z.of_nat n + 1) by lia. rewrite seqZ_app by lia.
  change (seqZ (0 + Z.of_nat n) 1) with [Z.of_nat n]. apply last_snoc.
Qed.
End Dir.
