(* ===== verification/History.v ===== *)
(** The life of a write-ahead log: runs of operations, crashes, recoveries and
    restarts; the log on disk as the sequence of acknowledged records. *)

From stdpp Require Import sorting.
From S2P Require Export Segments.

Import WriteAheadLog.

#[local] Arguments record_bytes : simpl never.

(** ** Operations *)

Inductive WalOp :=
| OpAppend (now : Z) (ty : RecordType) (ns coll : string) (doc_id : DocumentId)
    (payload : bytes) (tx : option Z)
| OpFlush
| OpRotate.

Section History.
Context {C : CrcLib}.

(** One operation: the new state and the record it acknowledged, if any. *)
Definition wal_step (op : WalOp) (w : t) : t * list NbfRecord.t :=
  match op with
  | OpAppend now ty ns coll i pl tx =>
    let (w', r) := append NoFault now ty ns coll i pl tx w in
    (w', match r with Ok seq => [make_record seq now ty ns coll i pl tx] | _ => [] end)
  | OpFlush => (flush w, [])
  | OpRotate => (rotate_segment w, [])
  end.

Fixpoint run_wal (ops : list WalOp) (w : t) : t * list NbfRecord.t :=
  match ops with
  | [] => (w, [])
  | op :: ops' =>
    let (w, acked) := wal_step op w in
    let (w, more) := run_wal ops' w in
    (w, (acked ++ more)%list)
  end.

(** The texts of an operation are Rust strings, identifiers come from
    [DocumentId::new], transaction identifiers are positive. *)
Definition op_ok (op : WalOp) : Prop :=
  match op with
  | OpAppend _ _ ns coll i _ tx =>
    valid_str ns = true /\ valid_str coll = true /\ DocId.new i = Ok i
    /\ match tx with Some x => 0 < x <= u64_max | None => True end
  | _ => True
  end.

Context {CL : CrcLaws C}.

(** ** Files and buffer *)

(** The closed files hold [cb]; the active file and the buffer together [log]. *)
Definition files (w : t) (cb : list bytes) (disk log : bytes) : Prop :=
  dir w = dir_from 0 (cb ++ [disk]) /\ current_segment_index w = Z.of_nat (List.length cb)
  /\ (disk ++ active_buf w)%list = log.

Definition room (cb : list bytes) : Prop := Z.of_nat (List.length cb) <= u64_max.

Lemma files_active w cb disk log :
  room cb -> files w cb disk log -> dir w !! active_path w = Some disk.
Proof.
  intros R (D & I & _). unfold active_path. rewrite D, I.
  rewrite (dir_from_lookup 0 (List.length cb)) by (rewrite length_app; unfold room in R; cbn; lia).
  rewrite list_lookup_middle; reflexivity.
Qed.

Lemma files_append b w cb disk log :
  room cb -> files w cb disk log ->
  files (file_append b w) cb (disk ++ b) (disk ++ b ++ active_buf w).
Proof.
  intros R F. pose proof (files_active _ _ _ _ R F) as A. destruct F as (D & I & _).
  split; [|split; [exact I|cbn; now rewrite <- app_assoc]].
  cbn. rewrite A. cbn. unfold active_path. rewrite D, I.
  apply dir_from_replace. unfold room in R. cbn. lia.
Qed.

Lemma files_flush w cb disk log :
  room cb -> files w cb disk log -> files (buf_flush w) cb log log /\ active_buf (buf_flush w) = [].
Proof.
  intros R F. pose proof (files_append (active_buf w) _ _ _ _ R F) as (D & I & _).
  destruct F as (_ & _ & B). split; [|reflexivity]. rewrite B in D.
  split; [exact D|]. split; [exact I|]. cbn. apply app_nil_r.
Qed.

Lemma files_write b w cb disk log :
  room cb -> files w cb disk log -> exists disk', files (buf_write b w) cb disk' (log ++ b).
Proof.
  intros R F. unfold buf_write.
  assert (G : exists w1 d1, (if buf_capacity <? Z.of_nat (List.length (active_buf w) + List.length b)
      then buf_flush w else w) = w1 /\ files w1 cb d1 log
      /\ (buf_capacity <= Z.of_nat (List.length b) -> active_buf w1 = [])).
  { destruct (Z.ltb_spec buf_capacity (Z.of_nat (List.length (active_buf w) + List.length b))) as [L|L].
    - destruct (files_flush _ _ _ _ R F) as [F1 E1]. exists (buf_flush w), log. auto.
    - exists w, disk. split; [reflexivity|]. split; [assumption|]. intros Hb.
      destruct (active_buf w); [reflexivity|]. cbn in L. lia. }
  destruct G as (w1 & d1 & -> & F1 & E1).
  destruct (Z.leb_spec buf_capacity (Z.of_nat (List.length b))) as [L|L].
  - pose proof (files_append b _ _ _ _ R F1) as F2. destruct F1 as (_ & _ & B1).
    rewrite E1, app_nil_r in * by assumption. subst. eauto.
  - destruct F1 as (D & I & B1). exists d1. split; [exact D|]. split; [exact I|]. cbn. now rewrite app_assoc, B1.
Qed.

Lemma files_rotate w cb disk log :
  room (log :: cb) -> files w cb disk log -> files (rotate_segment w) (cb ++ [log]) [] [].
Proof.
  intros R F. assert (R0 : room cb) by (unfold room in *; cbn in R; lia).
  destruct (files_flush _ _ _ _ R0 F) as [(D & I & _) _].
  assert (E : wrap_u64 (current_segment_index (buf_flush w) + 1) = Z.of_nat (List.length (cb ++ [log]))).
  { rewrite I. unfold wrap_u64, room, u64_max in *. rewrite length_app. cbn [List.length] in *.
    rewrite Z.mod_small; lia. }
  unfold rotate_segment. rewrite E. split; [|split; reflexivity]. cbn [dir].
  assert (N : dir_from 0 (cb ++ [log]) !! segment_path (Z.of_nat (List.length (cb ++ [log]))) = None).
  { apply dir_from_above; [lia|]. rewrite length_app. unfold room in R. cbn in *. lia. }
  rewrite D, N. cbn [default]. rewrite (dir_from_snoc 0 (cb ++ [log])); [reflexivity|].
  rewrite length_app. cbn. unfold room in R. cbn in R. lia.
Qed.

(** ** The log invariant *)

Definition within (limit : Z) (rs : list NbfRecord.t) : Prop :=
  Z.of_nat (List.length (log_bytes rs)) <= limit \/ (List.length rs <= 1)%nat.

(** Closed segments hold whole records; the active file and the buffer hold the
    records of the open segment; sequence numbers increase; a segment exceeds
    the size limit only with a single record. *)
Record log_inv (w : t) (closed : list (list NbfRecord.t)) (opened : list NbfRecord.t) (disk : bytes) : Prop := {
  inv_files : files w (List.map log_bytes closed) disk (log_bytes opened);
  inv_size : current_segment_size w = Z.of_nat (List.length (log_bytes opened));
  inv_records : Forall record_ok (List.concat closed ++ opened);
  inv_sorted : StronglySorted Z.lt (List.map NbfRecord.sequence (List.concat closed ++ opened));
  inv_bound : Forall (fun r => NbfRecord.sequence r <= current_sequence w) (List.concat closed ++ opened);
  inv_seq : 0 <= current_sequence w;
  inv_limit : Forall (within (segment_size_limit w)) (closed ++ [opened]);
}.

(** Room for [n] more segments, and for [n] more sequence numbers. *)
Definition budget (w : t) (n : nat) : Prop := current_segment_index w + Z.of_nat n <= u64_max.
Definition seq_budget (w : t) (n : nat) : Prop := current_sequence w + Z.of_nat n <= u64_max.

Lemma log_bytes_app rs rs' : log_bytes (rs ++ rs') = (log_bytes rs ++ log_bytes rs')%list.
Proof. unfold log_bytes. now rewrite List.map_app, List.concat_app. Qed.

Lemma log_bytes_one r : log_bytes [r] = record_bytes r.
Proof. unfold log_bytes. cbn [List.map List.concat]. apply app_nil_r. Qed.

Lemma inv_room w closed opened disk n :
  log_inv w closed opened disk -> budget w (S n) ->
  room (log_bytes opened :: List.map log_bytes closed).
Proof.
  intros [(_ & I & _)] B. unfold room, budget in *. rewrite I, length_map in B. cbn [List.length].
  rewrite length_map. lia.
Qed.

Lemma inv_room' w closed opened disk n :
  log_inv w closed opened disk -> budget w n -> room (List.map log_bytes closed).
Proof.
  intros [(_ & I & _)] B. unfold room, budget in *. rewrite I, length_map in B. rewrite length_map. lia.
Qed.

Lemma flush_inv w closed opened disk n :
  log_inv w closed opened disk -> budget w n ->
  log_inv (buf_flush w) closed opened (log_bytes opened) /\ active_buf (buf_flush w) = []
  /\ budget (buf_flush w) n.
Proof.
  intros I B. pose proof (inv_room' _ _ _ _ _ I B) as R.
  destruct (files_flush _ _ _ _ R (inv_files _ _ _ _ I)) as [F E].
  split; [destruct I; now split|]. split; [exact E|exact B].
Qed.

Lemma rotate_inv w closed opened disk n :
  log_inv w closed opened disk -> budget w (S n) ->
  log_inv (rotate_segment w) (closed ++ [opened]) [] [] /\ budget (rotate_segment w) n
  /\ current_sequence (rotate_segment w) = current_sequence w.
Proof.
  intros I B. pose proof (inv_room _ _ _ _ _ I B) as R.
  pose proof (files_rotate _ _ _ _ R (inv_files _ _ _ _ I)) as F.
  assert (E : (List.concat (closed ++ [opened]) ++ [])%list = (List.concat closed ++ opened)%list).
  { rewrite List.concat_app. cbn. now rewrite !app_nil_r. }
  split; [|split].
  - destruct I. split; rewrite ?E; auto.
    + now rewrite List.map_app.
    + apply Forall_app. split; [assumption|]. constructor; [right; cbn; lia|constructor].
  - destruct F as (_ & Ix & _). destruct I as [(_ & I0 & _)]. unfold budget in *.
    rewrite Ix, length_app, length_map. rewrite I0, length_map in B. cbn. lia.
  - reflexivity.
Qed.

(** Writing one more encoded record to a log whose counter is already past it. *)
Lemma write_inv w closed opened disk n r :
  log_inv w closed opened disk -> budget w n -> record_ok r ->
  Forall (fun r' => NbfRecord.sequence r' < NbfRecord.sequence r) (List.concat closed ++ opened) ->
  NbfRecord.sequence r <= current_sequence w ->
  (current_segment_size w + Z.of_nat (List.length (record_bytes r)) <= segment_size_limit w \/ opened = []) ->
  exists disk', log_inv (set_size (current_segment_size w + Z.of_nat (List.length (record_bytes r)))
                           (buf_write (record_bytes r) w)) closed (opened ++ [r]) disk'.
Proof.
  intros I B Hr Hlt Hle Hlim. pose proof (inv_room' _ _ _ _ _ I B) as R.
  destruct (files_write (record_bytes r) _ _ _ _ R (inv_files _ _ _ _ I)) as [disk' F].
  exists disk'. assert (Es : segment_size_limit (buf_write (record_bytes r) w) = segment_size_limit w
                            /\ current_sequence (buf_write (record_bytes r) w) = current_sequence w).
  { unfold buf_write. repeat case_if; now split. }
  destruct Es as [El Ec]. destruct I as [_ Iz Ir Is Ib Iq Il].
  split; cbn [current_segment_size segment_size_limit current_sequence set_size]; rewrite ?El, ?Ec; auto.
  - rewrite log_bytes_app, log_bytes_one. exact F.
  - rewrite Iz, log_bytes_app, log_bytes_one, length_app. lia.
  - rewrite app_assoc. apply Forall_app. auto.
  - rewrite app_assoc, List.map_app. cbn [List.map]. apply StronglySorted_app.
    split; [|split; [assumption|repeat constructor]]. intros x y Hx Hy. apply list_elem_of_singleton in Hy as ->.
    apply list_elem_of_In, List.in_map_iff in Hx as (r' & <- & Hin).
    rewrite List.Forall_forall in Hlt. now apply Hlt.
  - rewrite app_assoc. apply Forall_app. auto.
  - apply Forall_app in Il as [Il1 Il2]. apply Forall_app. split; [assumption|].
    constructor; [|constructor]. destruct Hlim as [Hlim| ->]; [left|right; cbn; lia].
    rewrite log_bytes_app, log_bytes_one, length_app. rewrite Iz in Hlim. lia.
Qed.

Lemma encode_Ok_inv r b :
  NbfRecord.encode r = Ok b ->
  str_len (NbfRecord.namespace r) <= u16_max /\ str_len (NbfRecord.collection r) <= u16_max
  /\ Z.of_nat (List.length (NbfRecord.payload r)) <= MAX_PAYLOAD.
Proof.
  unfold NbfRecord.encode. repeat (case_if; [discriminate|]). intros _. bool_facts. auto.
Qed.

Lemma make_record_ok seq now ty ns coll i pl tx b :
  op_ok (OpAppend now ty ns coll i pl tx) -> 0 <= seq <= u64_max ->
  NbfRecord.encode (make_record seq now ty ns coll i pl tx) = Ok b ->
  record_ok (make_record seq now ty ns coll i pl tx)
  /\ b = record_bytes (make_record seq now ty ns coll i pl tx).
Proof.
  intros (Vn & Vc & Hi & Htx) Hs He. apply encode_Ok_inv in He as H. cbn in H. destruct H as (L1 & L2 & L3).
  assert (Hr : record_ok (make_record seq now ty ns coll i pl tx)).
  { unfold record_ok, make_record. cbn. unfold in_u64.
    assert (0 <= wrap_u64 now <= u64_max).
    { unfold wrap_u64, u64_max. pose proof (Z.mod_pos_bound now (2 ^ 64) ltac:(lia)). lia. }
    repeat (rewrite (proj2 (Z.leb_le _ _)) by lia). unfold u8_max. auto 12 with lia. }
  split; [assumption|]. rewrite encode_ok in He by assumption. now injection He.
Qed.

Lemma set_sequence_inv w closed opened disk s :
  log_inv w closed opened disk -> current_sequence w <= s ->
  log_inv (set_sequence s w) closed opened disk.
Proof.
  intros [If Iz Ir Is Ib Iq Il] L. split; auto; cbn; [|lia].
  apply (Forall_impl _ _ _ Ib). intros r Hr. lia.
Qed.

(** The segment a record of [len] bytes goes to. *)
Lemma make_room_inv w1 closed opened disk n len :
  log_inv w1 closed opened disk -> budget w1 (S n) ->
  exists w2 closed2 opened2 disk2,
    (if segment_size_limit w1 <? current_segment_size w1 + len then rotate_segment w1 else w1) = w2
    /\ log_inv w2 closed2 opened2 disk2 /\ budget w2 n /\ current_sequence w2 = current_sequence w1
    /\ sync_mode w2 = sync_mode w1 /\ segment_size_limit w2 = segment_size_limit w1
    /\ (List.concat closed2 ++ opened2 = List.concat closed ++ opened)%list
    /\ (current_segment_size w2 + len <= segment_size_limit w2 \/ opened2 = [])
    /\ (active_buf w1 = [] -> active_buf w2 = []).
Proof.
  intros I1 B1. destruct (Z.ltb_spec (segment_size_limit w1) (current_segment_size w1 + len)) as [L|L].
  - destruct (rotate_inv _ _ _ _ _ I1 B1) as (I2 & B2 & S2).
    exists (rotate_segment w1), (closed ++ [opened])%list, [], [].
    do 6 (split; [first [reflexivity|assumption]|]). split; [|auto].
    rewrite List.concat_app. cbn. now rewrite !app_nil_r.
  - exists w1, closed, opened, disk. split; [reflexivity|]. split; [exact I1|].
    split; [unfold budget in *; lia|]. repeat (split; [reflexivity|]). split; [left; exact L|auto].
Qed.

Lemma append_inv now ty ns coll i pl tx w closed opened disk n :
  op_ok (OpAppend now ty ns coll i pl tx) ->
  log_inv w closed opened disk -> budget w (S n) -> seq_budget w (S n) ->
  let (w', r) := append NoFault now ty ns coll i pl tx w in
  budget w' n /\ seq_budget w' n /\ sync_mode w' = sync_mode w /\ segment_size_limit w' = segment_size_limit w
  /\ match r with
     | Ok seq =>
       seq = current_sequence w + 1 /\ exists closed' opened' disk',
         log_inv w' closed' opened' disk'
         /\ (List.concat closed' ++ opened' = (List.concat closed ++ opened) ++ [make_record seq now ty ns coll i pl tx])%list
         /\ (sync_mode w = SyncAlways -> active_buf w' = [])
     | Err e => log_inv w' closed opened disk /\ active_buf w' = active_buf w
                /\ NbfRecord.encode (make_record (current_sequence w + 1) now ty ns coll i pl tx) = Err e
     | Panic => False
     end.
Proof.
  intros Hop I B SB. unfold append, next_sequence. pose proof (inv_seq _ _ _ _ I) as Iq.
  assert (Ew : wrap_u64 (current_sequence w + 1) = current_sequence w + 1).
  { unfold wrap_u64, seq_budget, u64_max in *. rewrite Z.mod_small; lia. }
  rewrite Ew. set (seq := current_sequence w + 1). set (w1 := set_sequence seq w).
  assert (I1 : log_inv w1 closed opened disk) by (apply set_sequence_inv; [assumption|lia]).
  assert (SB1 : seq_budget w1 n) by (unfold seq_budget in *; cbn; lia).
  assert (B1 : budget w1 (S n)) by exact B.
  assert (B1' : budget w1 n) by (unfold budget in *; cbn in *; lia).
  destruct (NbfRecord.encode (make_record seq now ty ns coll i pl tx)) as [b|e|] eqn:Ee.
  2: { split; [exact B1'|]. split; [exact SB1|]. auto. }
  2: { exfalso. revert Ee. unfold NbfRecord.encode. repeat case_if; discriminate. }
  assert (Hseq : 0 <= seq <= u64_max) by (unfold seq_budget in *; lia).
  destruct (make_record_ok seq now ty ns coll i pl tx b Hop Hseq Ee) as [Hr ->].
  set (r := make_record seq now ty ns coll i pl tx) in *. set (len := Z.of_nat (List.length (record_bytes r))).
  destruct (make_room_inv w1 closed opened disk n len I1 B1)
    as (w2 & closed2 & opened2 & disk2 & -> & I2 & B2 & S2 & M2 & L2 & E2 & Hlim & _).
  change (current_sequence w1) with seq in S2. change (sync_mode w1) with (sync_mode w) in M2.
  change (segment_size_limit w1) with (segment_size_limit w) in L2.
  assert (Hlt : Forall (fun r' => NbfRecord.sequence r' < NbfRecord.sequence r) (List.concat closed2 ++ opened2)).
  { rewrite E2. apply (Forall_impl _ _ _ (inv_bound _ _ _ _ I)). intros r' Hr'. cbn. lia. }
  destruct (write_inv _ _ _ _ n r I2 B2 Hr Hlt ltac:(cbn; lia) Hlim) as [disk3 I3]. fold len in I3.
  set (w3 := buf_write (record_bytes r) w2) in *.
  assert (E3 : current_segment_size w3 = current_segment_size w2 /\ current_segment_index w3 = current_segment_index w2
    /\ current_sequence w3 = seq /\ sync_mode w3 = sync_mode w /\ segment_size_limit w3 = segment_size_limit w).
  { subst w3. unfold buf_write. repeat case_if; cbn; auto. }
  destruct E3 as (Z3 & X3 & S3 & M3 & L3).
  assert (Eapp : (List.concat closed2 ++ opened2 ++ [r] = (List.concat closed ++ opened) ++ [r])%list)
    by (rewrite app_assoc, E2; reflexivity).
  assert (B3 : budget w3 n) by (unfold budget in *; now rewrite X3).
  assert (SB3 : seq_budget w3 n) by (unfold seq_budget in *; now rewrite S3).
  rewrite M3. destruct (sync_mode w) eqn:EM.
  - assert (I3' : log_inv (set_size (current_segment_size w2 + len) w3) closed2 (opened2 ++ [r]) disk3) by exact I3.
    assert (B3' : budget (set_size (current_segment_size w2 + len) w3) n) by exact B3.
    destruct (flush_inv _ _ _ _ _ I3' B3') as (I4 & E4 & B4).
    replace (current_segment_size (buf_flush w3)) with (current_segment_size w2) by (cbn; congruence).
    split; [exact B3|]. split; [exact SB3|]. split; [exact M3|]. split; [exact L3|]. split; [reflexivity|].
    exists closed2, (opened2 ++ [r])%list, (log_bytes (opened2 ++ [r])). split; [exact I4|]. split; [exact Eapp|auto].
  - rewrite Z3. split; [exact B3|]. split; [exact SB3|]. split; [exact M3|]. split; [exact L3|]. split; [reflexivity|].
    exists closed2, (opened2 ++ [r])%list, disk3. split; [exact I3|]. split; [exact Eapp|discriminate].
Qed.

Lemma wal_step_inv op w closed opened disk n :
  op_ok op -> log_inv w closed opened disk -> budget w (S n) -> seq_budget w (S n) ->
  let (w', acked) := wal_step op w in
  budget w' n /\ seq_budget w' n /\ sync_mode w' = sync_mode w /\ segment_size_limit w' = segment_size_limit w
  /\ (exists closed' opened' disk', log_inv w' closed' opened' disk'
      /\ (List.concat closed' ++ opened' = (List.concat closed ++ opened) ++ acked)%list)
  /\ (sync_mode w = SyncAlways -> active_buf w = [] -> active_buf w' = []).
Proof.
  intros Hop I B SB. destruct op as [now ty ns coll i pl tx| |]; cbn [wal_step].
  - pose proof (append_inv now ty ns coll i pl tx w closed opened disk n Hop I B SB) as H.
    destruct (append NoFault now ty ns coll i pl tx w) as [w' [seq|e|]].
    + destruct H as (B' & SB' & M & L & -> & closed' & opened' & disk' & I' & E & A). eauto 12.
    + destruct H as (B' & SB' & M & L & I' & A & _). do 4 (split; [assumption|]). split.
      * exists closed, opened, disk. split; [assumption|]. now rewrite app_nil_r.
      * intros _ E. congruence.
    + now destruct H as (_ & _ & _ & _ & []).
  - assert (B' : budget w n) by (unfold budget in *; lia).
    assert (SB' : seq_budget w n) by (unfold seq_budget in *; lia).
    destruct (flush_inv _ _ _ _ _ I B') as (I' & A & B2).
    split; [exact B2|]. split; [exact SB'|]. split; [reflexivity|]. split; [reflexivity|]. split; [|auto].
    exists closed, opened, (log_bytes opened). split; [assumption|]. now rewrite app_nil_r.
  - destruct (rotate_inv _ _ _ _ _ I B) as (I' & B' & S').
    split; [exact B'|]. split; [unfold seq_budget in *; rewrite S'; lia|].
    split; [reflexivity|]. split; [reflexivity|]. split; [|auto].
    exists (closed ++ [opened])%list, [], []. split; [assumption|].
    rewrite List.concat_app. cbn. now rewrite !app_nil_r.
Qed.

Lemma run_wal_inv ops n w closed opened disk :
  Forall op_ok ops -> log_inv w closed opened disk ->
  budget w (List.length ops + n) -> seq_budget w (List.length ops + n) ->
  let (w', acked) := run_wal ops w in
  budget w' n /\ seq_budget w' n /\ sync_mode w' = sync_mode w /\ segment_size_limit w' = segment_size_limit w
  /\ (exists closed' opened' disk', log_inv w' closed' opened' disk'
      /\ (List.concat closed' ++ opened' = (List.concat closed ++ opened) ++ acked)%list)
  /\ (sync_mode w = SyncAlways -> active_buf w = [] -> active_buf w' = []).
Proof.
  intros HF. revert w closed opened disk. induction HF as [|op ops Hop HF IH]; intros w closed opened disk I B SB.
  - cbn [run_wal]. do 2 (split; [assumption|]). split; [reflexivity|]. split; [reflexivity|]. split; [|auto].
    exists closed, opened, disk. split; [assumption|]. now rewrite app_nil_r.
  - cbn [run_wal]. pose proof (wal_step_inv op w closed opened disk (List.length ops + n) Hop I B SB) as H.
    destruct (wal_step op w) as [w1 acked].
    destruct H as (B1 & SB1 & M1 & L1 & (closed1 & opened1 & disk1 & I1 & E1) & A1).
    specialize (IH w1 closed1 opened1 disk1 I1 B1 SB1). destruct (run_wal ops w1) as [w2 more].
    destruct IH as (B2 & SB2 & M2 & L2 & (closed2 & opened2 & disk2 & I2 & E2) & A2).
    do 2 (split; [assumption|]). split; [congruence|]. split; [congruence|]. split.
    + exists closed2, opened2, disk2. split; [assumption|]. rewrite E2, E1. now rewrite <- !app_assoc.
    + intros M A. apply A2; [congruence|auto].
Qed.

(** ** Recovery of a log *)

Lemma tail_nil : tail_of [].
Proof.
  change (@nil byte) with (firstn 0 (record_bytes (make_record 1 0 Delete "n" "c" "d" [] None))).
  constructor; [|apply (Nat.lt_trans _ 32); [lia|apply record_bytes_length]].
  unfold record_ok. cbn. repeat split; reflexivity || easy.
Qed.

Lemma waiting_tail fs (k : nat) r :
  Forall record_ok fs -> match fs with f :: _ => f = r | [] => False end ->
  (k < List.length (record_bytes r))%nat -> tail_of (firstn k (record_bytes r)).
Proof. intros HF E Hk. destruct fs as [|f fs]; [easy|]. subst. inversion HF; subst. now constructor. Qed.

Context {U : UuidLib} {J : JsonLib}.

(** What recovery leaves of the last segment, and what it counts. *)
Definition settle (tail : bytes) (st : RecoveredState) : RecoveredState :=
  if (List.length tail <? 4)%nat then st else count_torn st.
Definition kept (tail : bytes) : bytes := if (List.length tail <? 4)%nat then tail else [].

Lemma recover_segment_end path rs tail st :
  Forall record_ok rs -> ends_log tail ->
  recover_segment path (log_bytes rs ++ tail) st
  = let? st' := replay rs st in Ok (settle tail st', (log_bytes rs ++ kept tail)%list).
Proof.
  intros HF HT. unfold recover_segment, settle, kept.
  destruct (log_bytes rs ++ tail)%list as [|b l] eqn:E.
  - apply app_eq_nil in E as [E1 ->]. cbn [List.length Nat.ltb Nat.leb]. rewrite E1.
    destruct rs as [|r rs]; [reflexivity|]. exfalso. apply (f_equal (@List.length byte)) in E1.
    unfold log_bytes in E1. cbn [List.map List.concat] in E1. rewrite length_app in E1.
    pose proof (record_bytes_length r). cbn [List.length] in E1. lia.
  - rewrite <- E. rewrite recover_loop_end by (assumption || lia).
    destruct (replay rs st) as [st'| |]; cbn [bindO]; try reflexivity.
    destruct (List.length tail <? 4)%nat; cbn [bindO]; [reflexivity|].
    rewrite Z.add_0_l, Nat2Z.id, firstn_prefix, app_nil_r by reflexivity. reflexivity.
Qed.

Lemma recover_segment_log path rs tail st :
  Forall record_ok rs -> tail_of tail ->
  recover_segment path (log_bytes rs ++ tail) st
  = let? st' := replay rs st in Ok (settle tail st', (log_bytes rs ++ kept tail)%list).
Proof. intros HF HT. apply recover_segment_end; [exact HF|now apply tail_decode]. Qed.

Lemma recover_segments_log closed i rs tail d st :
  Forall record_ok (List.concat closed ++ rs) -> tail_of tail ->
  (forall k c, (List.map log_bytes closed ++ [log_bytes rs ++ tail]) !! k = Some c ->
     d !! segment_path (i + Z.of_nat k) = Some c) ->
  recover_segments (seqZ i (Z.of_nat (S (List.length closed)))) d st
  = let? st' := replay (List.concat closed ++ rs) st in
    Ok (settle tail st', <[segment_path (i + Z.of_nat (List.length closed)) := (log_bytes rs ++ kept tail)%list]> d).
Proof.
  revert i d st. induction closed as [|c closed IH]; intros i d st HF HT Hd.
  - change (seqZ i (Z.of_nat (S (List.length [])))) with [0 + i]. cbn [recover_segments].
    rewrite Z.add_0_l. pose proof (Hd 0%nat _ eq_refl) as G. cbn [Z.of_nat] in G. rewrite Z.add_0_r in G.
    rewrite G. cbn [List.concat app] in *. rewrite recover_segment_log by assumption.
    rewrite bindO_assoc. cbn [List.length Z.of_nat]. rewrite Z.add_0_r. now destruct (replay rs st).
  - cbn [List.length]. rewrite seqZ_cons by lia.
    replace (Z.pred (Z.of_nat (S (S (List.length closed))))) with (Z.of_nat (S (List.length closed))) by lia.
    cbn [recover_segments List.map List.concat app] in *.
    pose proof (Hd 0%nat _ eq_refl) as G. cbn [Z.of_nat] in G. rewrite Z.add_0_r in G. rewrite G.
    rewrite <- app_assoc in HF. apply Forall_app in HF as [HF1 HF2].
    rewrite <- (app_nil_r (log_bytes c)), recover_segment_log by (assumption || apply tail_nil).
    unfold kept at 1. cbn [List.length Nat.ltb Nat.leb]. rewrite <- app_assoc, replay_app, !bindO_assoc, app_nil_r.
    destruct (replay c st) as [st1| |]; cbn [bindO]; try reflexivity.
    unfold settle at 1. cbn [List.length Nat.ltb Nat.leb]. rewrite insert_id by assumption.
    replace (Z.succ i) with (i + 1) by lia. rewrite IH; auto.
    + replace (i + 1 + Z.of_nat (List.length closed)) with (i + Z.of_nat (S (List.length closed))) by lia. reflexivity.
    + intros k c' Hk. replace (i + 1 + Z.of_nat k) with (i + Z.of_nat (S k)) by lia. now apply Hd.
Qed.

(** Recovery of a directory of whole segments, the last one possibly torn. *)
Lemma recover_log closed rs tail :
  Forall record_ok (List.concat closed ++ rs) -> tail_of tail -> Z.of_nat (List.length closed) <= u64_max ->
  recover (dir_from 0 (List.map log_bytes closed ++ [log_bytes rs ++ tail]))
  = let? st := replay (List.concat closed ++ rs) recovered_new in
    Ok (settle tail st, dir_from 0 (List.map log_bytes closed ++ [log_bytes rs ++ kept tail])).
Proof.
  intros HF HT Hn. assert (Ln : List.length (List.map log_bytes closed ++ [log_bytes rs ++ tail]) = S (List.length closed)).
  { rewrite length_app, length_map. cbn. lia. }
  unfold recover. rewrite discover_dir_from by (rewrite Ln; lia). rewrite Ln.
  rewrite recover_segments_log with (rs := rs) (tail := tail); auto.
  - destruct (replay _ _); cbn [bindO]; try reflexivity. do 2 f_equal.
    rewrite <- (length_map log_bytes closed) at 1. apply dir_from_replace. rewrite length_map. lia.
  - intros k c Hk. rewrite dir_from_lookup; [assumption|rewrite Ln; lia|]. now apply lookup_lt_Some in Hk.
Qed.
End History.
