(* ===== verification/Durability.v ===== *)
(** What the log promises: acknowledged records survive any number of restarts, a
    crash loses a suffix of them at most, recovery is idempotent; and where the
    promise fails, a torn tail of one to three bytes. *)

From stdpp Require Import sorting.
From S2P Require Export History.

Import WriteAheadLog.
#[local] Arguments record_bytes : simpl never.

Section Durability.
Context {C : CrcLib} {CL : CrcLaws C} {U : UuidLib} {J : JsonLib}.

(** ** What replay keeps track of *)

Lemma apply_record_counters r st st' :
  apply_record_to_state r st = Ok st' ->
  max_sequence st' = max_sequence st /\ records_replayed st' = records_replayed st
  /\ torn_tails_truncated st' = torn_tails_truncated st.
Proof.
  unfold apply_record_to_state. intros H.
  destruct (NbfRecord.record_type r); try (inv_ok H); now injection H as <-.
Qed.

Lemma replay_record_counters r st st' :
  replay_record r st = Ok st' ->
  max_sequence st' = Z.max (max_sequence st) (NbfRecord.sequence r)
  /\ records_replayed st' = records_replayed st + 1
  /\ torn_tails_truncated st' = torn_tails_truncated st.
Proof.
  unfold replay_record. intros H. inv_ok H. injection H as <-.
  apply apply_record_counters in Hr as (E1 & E2 & E3). cbn in *. rewrite E1, E2, E3.
  split; [|now split]. destruct (Z.ltb_spec (max_sequence st) (NbfRecord.sequence r)); lia.
Qed.

Lemma replay_counters rs st st' :
  replay rs st = Ok st' ->
  max_sequence st' = fold_left Z.max (List.map NbfRecord.sequence rs) (max_sequence st)
  /\ records_replayed st' = records_replayed st + Z.of_nat (List.length rs)
  /\ torn_tails_truncated st' = torn_tails_truncated st.
Proof.
  revert st. induction rs as [|r rs IH]; intros st H; cbn [replay] in H.
  - injection H as <-. cbn. split; [reflexivity|]. split; [lia|reflexivity].
  - inv_ok H. apply replay_record_counters in Hr as (E1 & E2 & E3). apply IH in H as (-> & -> & ->).
    cbn. rewrite E1, E2, E3. split; [reflexivity|]. split; [lia|reflexivity].
Qed.

Lemma fold_max_bounds l m b :
  m <= b -> Forall (fun x => x <= b) l -> m <= fold_left Z.max l m <= b.
Proof.
  intros Hm HF. revert m Hm. induction HF as [|x l Hx HF IH]; intros m Hm; cbn; [lia|].
  specialize (IH (Z.max m x)). lia.
Qed.

Lemma fold_max_ge l m x : In x l -> x <= fold_left Z.max l m.
Proof.
  revert m. induction l as [|y l IH]; intros m Hin; cbn; [easy|]. destruct Hin as [->|Hin]; [|auto].
  assert (forall l m, m <= fold_left Z.max l m) as G.
  { clear. induction l as [|y l IH]; intros m; cbn; [lia|]. specialize (IH (Z.max m y)). lia. }
  specialize (G l (Z.max m x)). lia.
Qed.

(** ** Restart *)

(** A directory that holds exactly the records [rs], with room for [n] more
    operations; an empty directory holds no records. *)
Definition stored (limit : Z) (d : gmap string bytes) (rs : list NbfRecord.t) (n : nat) : Prop :=
  exists closed opened,
    (d = dir_from 0 (List.map log_bytes closed ++ [log_bytes opened])
     \/ d = ∅ /\ closed = [] /\ opened = [])
    /\ (List.concat closed ++ opened)%list = rs
    /\ Forall record_ok rs /\ StronglySorted Z.lt (List.map NbfRecord.sequence rs)
    /\ Forall (within limit) (closed ++ [opened])
    /\ Z.of_nat (List.length closed + n) <= u64_max
    /\ Forall (fun r => NbfRecord.sequence r + Z.of_nat n <= u64_max) rs.

Lemma stored_empty limit n : Z.of_nat n <= u64_max -> stored limit ∅ [] n.
Proof.
  intros Hn. exists [], []. split; [now right|]. split; [reflexivity|]. split; [constructor|].
  split; [constructor|]. split; [|split; [exact Hn|constructor]]. constructor; [right; cbn; lia|constructor].
Qed.

Lemma recover_stored limit d rs n :
  stored limit d rs n -> recover d = mapO (fun st => (st, d)) (replay rs recovered_new).
Proof.
  intros (closed & opened & [->|(-> & -> & ->)] & <- & HF & _ & _ & Hn & _).
  - rewrite <- (app_nil_r (log_bytes opened)), recover_log by (assumption || apply tail_nil || lia).
    unfold kept, settle, mapO. cbn [List.length Nat.ltb Nat.leb]. now rewrite !app_nil_r.
  - reflexivity.
Qed.

(** Opening the log after a recovery resumes it. *)
Lemma open_inv limit d rs n mode st :
  stored limit d rs n -> replay rs recovered_new = Ok st ->
  let w := set_sequence (max_sequence st) (open d mode limit) in
  (exists closed opened disk, log_inv w closed opened disk /\ (List.concat closed ++ opened)%list = rs)
  /\ budget w n /\ seq_budget w n /\ active_buf w = [] /\ sync_mode w = mode /\ segment_size_limit w = limit.
Proof.
  intros (closed & opened & Hd & <- & HF & HS & HW & Hn & Hseq) Hst w.
  destruct (replay_counters _ _ _ Hst) as (Em & _ & _). cbn in Em.
  assert (Hb : 0 <= max_sequence st /\ max_sequence st + Z.of_nat n <= u64_max).
  { rewrite Em. assert (Forall (fun x => x <= u64_max - Z.of_nat n) (List.map NbfRecord.sequence (List.concat closed ++ opened))) as HB.
    { apply List.Forall_forall. intros x Hx. apply List.in_map_iff in Hx as (r & <- & Hin).
      rewrite List.Forall_forall in Hseq. specialize (Hseq _ Hin). lia. }
    pose proof (fold_max_bounds _ 0 (u64_max - Z.of_nat n) ltac:(lia) HB). lia. }
  assert (Hle : Forall (fun r => NbfRecord.sequence r <= max_sequence st) (List.concat closed ++ opened)).
  { apply List.Forall_forall. intros r Hin. rewrite Em. apply fold_max_ge. now apply List.in_map. }
  assert (Hopen : dir w = dir_from 0 (List.map log_bytes closed ++ [log_bytes opened])
    /\ current_segment_index w = Z.of_nat (List.length closed)
    /\ current_segment_size w = Z.of_nat (List.length (log_bytes opened))).
  { subst w. destruct Hd as [->|(-> & -> & ->)]; [|now repeat split].
    set (cs := (List.map log_bytes closed ++ [log_bytes opened])%list).
    assert (Lc : List.length cs = S (List.length closed)) by (subst cs; rewrite length_app, length_map; cbn; lia).
    assert (Ei : default 0 (last (discover_segments (dir_from 0 cs))) = Z.of_nat (List.length closed)).
    { rewrite discover_dir_from by (rewrite Lc; lia). now rewrite Lc, last_seqZ. }
    assert (Ec : dir_from 0 cs !! segment_path (Z.of_nat (List.length closed)) = Some (log_bytes opened)).
    { rewrite (dir_from_lookup 0 (List.length closed)) by (rewrite Lc; lia). subst cs.
      rewrite <- (length_map log_bytes closed). now apply list_lookup_middle. }
    unfold open. rewrite Ei, Ec. cbn. split; [now apply insert_id|now split]. }
  destruct Hopen as (D & I & Z0).
  split; [|split; [unfold budget; rewrite I; lia|split; [unfold seq_budget; cbn; lia|now repeat split]]].
  exists closed, opened, (log_bytes opened). split; [|reflexivity]. split; auto.
  - split; [exact D|]. split; [rewrite I; now rewrite length_map|]. cbn. apply app_nil_r.
  - cbn. lia.
Qed.

(** A flushed log is a stored log. *)
Lemma inv_stored w closed opened disk n :
  log_inv w closed opened disk -> active_buf w = [] -> budget w n -> seq_budget w n ->
  stored (segment_size_limit w) (dir w) (List.concat closed ++ opened) n.
Proof.
  intros [(D & I & B) Iz Ir Is Ib Iq Il] Eb Bw Sw. exists closed, opened.
  rewrite Eb, app_nil_r in B. subst disk. split; [now left|]. split; [reflexivity|]. split; [assumption|].
  split; [assumption|]. split; [assumption|]. unfold budget, seq_budget in *. rewrite I, length_map in Bw.
  split; [lia|]. apply (Forall_impl _ _ _ Ib). intros r Hr. cbn in *. lia.
Qed.

(** A server's life: recover, open, run, stop; again and again. *)
Fixpoint run_sessions (limit : Z) (sessions : list (list WalOp)) (d : gmap string bytes)
    : result (gmap string bytes * list NbfRecord.t) :=
  match sessions with
  | [] => Ok (d, [])
  | ops :: rest =>
    let? (st, d) := recover d in
    let (w, acked) := run_wal ops (set_sequence (max_sequence st) (open d SyncAlways limit)) in
    let? (d, more) := run_sessions limit rest (dir w) in
    Ok (d, (acked ++ more)%list)
  end.

Definition total_ops (sessions : list (list WalOp)) : nat := List.length (List.concat sessions).

Lemma run_sessions_stored limit sessions d d' rs acked n :
  Forall (Forall op_ok) sessions -> stored limit d rs (total_ops sessions + n) ->
  run_sessions limit sessions d = Ok (d', acked) -> stored limit d' (rs ++ acked) n.
Proof.
  revert d rs acked. induction sessions as [|ops rest IH]; intros d rs acked HF HS H; cbn [run_sessions] in H.
  - injection H as <- <-. now rewrite app_nil_r.
  - inversion HF as [|? ? Hops HF']; subst. rewrite (recover_stored _ _ _ _ HS) in H.
    destruct (replay rs recovered_new) as [st| |] eqn:Est; [|discriminate..]. cbn [mapO bindO] in H.
    assert (Et : (total_ops (ops :: rest) + n = List.length ops + (total_ops rest + n))%nat).
    { unfold total_ops. cbn. rewrite length_app. lia. }
    rewrite Et in HS.
    pose proof (open_inv limit d rs _ SyncAlways st HS Est) as O. cbn zeta in O.
    destruct O as ((closed & opened & disk & I & Ers) & B & SB & Ab & M & L).
    pose proof (run_wal_inv ops _ _ _ _ _ Hops I B SB) as R.
    destruct (run_wal ops _) as [w1 acked1].
    destruct R as (B1 & SB1 & M1 & L1 & (closed1 & opened1 & disk1 & I1 & E1) & A1).
    inv_ok H. destruct r as [d2 more]. injection H as <- <-.
    assert (HS1 : stored limit (dir w1) (rs ++ acked1) (total_ops rest + n)).
    { rewrite <- L, <- L1, <- Ers, <- E1. apply (inv_stored w1 closed1 opened1 disk1); auto. }
    rewrite app_assoc. eapply IH; eauto.
Qed.

(** ** Lives that end inside an append *)

(** The process dies while it appends a record: of what is to be written, the operating
    system has the first [k] bytes.  Gives the files, and the record if all of it is there
    although nobody was told. *)
Definition append_dies (now : Z) (ty : RecordType) (ns coll : string) (doc_id : DocumentId)
    (payload : bytes) (tx : option Z) (k : nat) (w : t) : gmap string bytes * list NbfRecord.t :=
  let (sequence, w) := next_sequence w in
  let record := make_record sequence now ty ns coll doc_id payload tx in
  match NbfRecord.encode record with
  | Ok encoded =>
    let w := if segment_size_limit w <? current_segment_size w + Z.of_nat (List.length encoded)
             then rotate_segment w else w in
    let bytes := (active_buf w ++ encoded)%list in
    (dir (file_append (firstn k bytes) w), if (List.length bytes <=? k)%nat then [record] else [])
  | _ => (dir w, [])
  end.

Inductive Ending :=
| Stopped
| Died (now : Z) (ty : RecordType) (ns coll : string) (doc_id : DocumentId) (payload : bytes) (tx : option Z) (k : nat).

Definition end_life (ending : Ending) (w : t) : gmap string bytes * list NbfRecord.t :=
  match ending with
  | Stopped => (dir w, [])
  | Died now ty ns coll i pl tx k => append_dies now ty ns coll i pl tx k w
  end.

(** What the log holds: records whose append returned, and records that were written in
    full by an append that did not. *)
Inductive Entry := Acknowledged (r : NbfRecord.t) | Unanswered (r : NbfRecord.t).

Definition entry_record (x : Entry) : NbfRecord.t :=
  match x with Acknowledged r | Unanswered r => r end.

(** Lives one after the other, each with the way it ends. *)
Fixpoint run_lives (limit : Z) (lives : list (list WalOp * Ending)) (d : gmap string bytes)
    : result (gmap string bytes * list Entry) :=
  match lives with
  | [] => Ok (d, [])
  | (ops, ending) :: rest =>
    let? (st, d) := recover d in
    let (w, acked) := run_wal ops (set_sequence (max_sequence st) (open d SyncAlways limit)) in
    let (d, extra) := end_life ending w in
    let? (d, more) := run_lives limit rest d in
    Ok (d, (List.map Acknowledged acked ++ List.map Unanswered extra ++ more)%list)
  end.

(** An append that dies leaves no byte of its record, or the magic at least: what less
    leads to is told by [short_tail_then_append]. *)
Definition ending_ok (ending : Ending) : Prop :=
  match ending with
  | Stopped => True
  | Died now ty ns coll i pl tx k => op_ok (OpAppend now ty ns coll i pl tx) /\ (k = 0 \/ 4 <= k)%nat
  end.

Definition life_ok (life : list WalOp * Ending) : Prop := Forall op_ok life.1 /\ ending_ok life.2.

Definition stops (life : list WalOp * Ending) : bool :=
  match life.2 with Stopped => true | _ => false end.

(** An append for each operation, and one for the end. *)
Definition life_ops (lives : list (list WalOp * Ending)) : nat :=
  List.list_sum (List.map (fun life => S (List.length life.1)) lives).

(** Like [stored], with the bytes [tail] of a record cut short behind the records. *)
Definition stored_torn (limit : Z) (d : gmap string bytes) (rs : list NbfRecord.t) (n : nat) (tail : bytes) : Prop :=
  tail = [] /\ stored limit d rs n
  \/ (4 <= List.length tail)%nat /\ tail_of tail
     /\ exists closed opened,
       d = dir_from 0 (List.map log_bytes closed ++ [log_bytes opened ++ tail])
       /\ stored limit (dir_from 0 (List.map log_bytes closed ++ [log_bytes opened])) rs n
       /\ (List.concat closed ++ opened)%list = rs /\ Forall record_ok rs
       /\ Z.of_nat (List.length closed) <= u64_max.

Lemma recover_stored_torn limit d rs n tail :
  stored_torn limit d rs n tail ->
  exists d', stored limit d' rs n
    /\ recover d = (let? st := replay rs recovered_new in Ok (settle tail st, d'))
    /\ (tail = [] -> d' = d).
Proof.
  intros [[-> HS]|(Lt & HT & closed & opened & -> & HS & <- & HF & Hn)].
  - exists d. split; [exact HS|]. split; [|reflexivity]. rewrite (recover_stored _ _ _ _ HS). unfold settle. cbn. reflexivity.
  - exists (dir_from 0 (List.map log_bytes closed ++ [log_bytes opened])). split; [exact HS|]. split.
    + rewrite recover_log by assumption. unfold kept.
      rewrite (proj2 (Nat.ltb_ge (List.length tail) 4)) by exact Lt. now rewrite app_nil_r.
    + intros ->. cbn in Lt. lia.
Qed.

Lemma settle_sequence tail st : max_sequence (settle tail st) = max_sequence st.
Proof. unfold settle. now case_match. Qed.

(** All bytes of the record are there, answered or not. *)
Lemma written_stored w closed opened disk n r :
  log_inv w closed opened disk -> active_buf w = [] -> budget w n -> seq_budget w n -> record_ok r ->
  Forall (fun r' => NbfRecord.sequence r' < NbfRecord.sequence r) (List.concat closed ++ opened) ->
  NbfRecord.sequence r <= current_sequence w ->
  (current_segment_size w + Z.of_nat (List.length (record_bytes r)) <= segment_size_limit w \/ opened = []) ->
  stored (segment_size_limit w) (dir_from 0 (List.map log_bytes closed ++ [log_bytes (opened ++ [r])]))
    ((List.concat closed ++ opened) ++ [r]) n.
Proof.
  intros I Eb B SB Hr Hlt Hle Hlim. destruct (write_inv w closed opened disk n r I B Hr Hlt Hle Hlim) as [disk3 I3].
  set (w3 := set_size _ _) in I3.
  assert (E3 : current_segment_index w3 = current_segment_index w /\ current_sequence w3 = current_sequence w
               /\ segment_size_limit w3 = segment_size_limit w).
  { subst w3. unfold buf_write. repeat case_if; now repeat split. }
  destruct E3 as (X3 & Y3 & Z3). rewrite <- Z3, <- app_assoc.
  assert (B3 : budget w3 n) by (unfold budget in *; now rewrite X3).
  destruct (flush_inv _ _ _ _ _ I3 B3) as (I4 & Eb4 & B4).
  replace (dir_from 0 _) with (dir (buf_flush w3)) by exact (proj1 (inv_files _ _ _ _ I4)).
  apply (inv_stored (buf_flush w3) closed (opened ++ [r]) _ n I4 Eb4 B4). unfold seq_budget in *.
  change (current_sequence (buf_flush w3)) with (current_sequence w3). now rewrite Y3.
Qed.

Lemma append_dies_stored now ty ns coll i pl tx k w closed opened disk n :
  op_ok (OpAppend now ty ns coll i pl tx) -> (k = 0 \/ 4 <= k)%nat ->
  log_inv w closed opened disk -> active_buf w = [] -> budget w (S n) -> seq_budget w (S n) ->
  let (d, extra) := append_dies now ty ns coll i pl tx k w in
  exists tail, stored_torn (segment_size_limit w) d ((List.concat closed ++ opened) ++ extra) n tail.
Proof.
  intros Hop Hk I Eb B SB. unfold append_dies, next_sequence. pose proof (inv_seq _ _ _ _ I) as Iq.
  assert (Ew : wrap_u64 (current_sequence w + 1) = current_sequence w + 1).
  { unfold wrap_u64, seq_budget, u64_max in *. rewrite Z.mod_small; lia. }
  rewrite Ew. set (seq := current_sequence w + 1). set (w1 := set_sequence seq w).
  assert (I1 : log_inv w1 closed opened disk) by (apply set_sequence_inv; [assumption|lia]).
  assert (SB1 : seq_budget w1 n) by (unfold seq_budget in *; cbn; lia).
  assert (B1' : budget w1 n) by (unfold budget in *; cbn in *; lia).
  destruct (NbfRecord.encode (make_record seq now ty ns coll i pl tx)) as [b|e|] eqn:Ee.
  2, 3: exists []; left; split; [reflexivity|]; rewrite app_nil_r; now apply (inv_stored w1 closed opened disk).
  assert (Hseq : 0 <= seq <= u64_max) by (unfold seq_budget in *; lia).
  destruct (make_record_ok seq now ty ns coll i pl tx b Hop Hseq Ee) as [Hr ->].
  set (r := make_record seq now ty ns coll i pl tx) in *. set (len := Z.of_nat (List.length (record_bytes r))).
  destruct (make_room_inv w1 closed opened disk n len I1 B) as (w2 & closed2 & opened2 & disk2 & -> & I2 & B2 & S2 & _ & L2 & E2 & Hlim & Hb).
  specialize (Hb Eb). rewrite Hb. cbn [app].
  assert (SB2 : seq_budget w2 n) by (unfold seq_budget in *; now rewrite S2).
  change (segment_size_limit w) with (segment_size_limit w1). rewrite <- L2, <- E2.
  pose proof (inv_room' _ _ _ _ _ I2 B2) as R. pose proof (inv_files _ _ _ _ I2) as F.
  assert (Ed : disk2 = log_bytes opened2) by (destruct F as (_ & _ & <-); now rewrite Hb, app_nil_r).
  destruct (files_append (firstn k (record_bytes r)) _ _ _ _ R F) as (D & _ & _). rewrite D, Ed. clear D.
  pose proof (inv_stored _ _ _ _ n I2 Hb B2 SB2) as HS.
  destruct (Nat.leb_spec (List.length (record_bytes r)) k) as [Lk|Lk].
  - exists []. left. split; [reflexivity|]. rewrite firstn_all2 by exact Lk. rewrite <- log_bytes_one, <- log_bytes_app.
    apply (written_stored w2 closed2 opened2 disk2 n r I2 Hb B2 SB2 Hr); [|cbn; rewrite S2; cbn; lia|exact Hlim].
    rewrite E2. apply (Forall_impl _ _ _ (inv_bound _ _ _ _ I)). intros r' Hr'. cbn. lia.
  - rewrite app_nil_r. destruct Hk as [->|Hk].
    + exists []. left. split; [reflexivity|]. cbn [firstn]. rewrite app_nil_r.
      replace (dir_from 0 _) with (dir w2); [exact HS|]. rewrite <- Ed. exact (proj1 F).
    + exists (firstn k (record_bytes r)). right. split; [rewrite length_firstn; lia|]. split; [now constructor|].
      exists closed2, opened2. split; [reflexivity|]. split; [|split; [reflexivity|split; [exact (inv_records _ _ _ _ I2)|]]].
      * replace (dir_from 0 _) with (dir w2); [exact HS|]. rewrite <- Ed. exact (proj1 F).
      * unfold room in R. now rewrite length_map in R.
Qed.

Lemma run_lives_stored limit lives d d' rs log n tail :
  Forall life_ok lives -> stored_torn limit d rs (life_ops lives + n) tail ->
  run_lives limit lives d = Ok (d', log) ->
  exists tail', stored_torn limit d' (rs ++ List.map entry_record log) n tail'
    /\ (forallb stops lives = true -> tail = [] -> tail' = []).
Proof.
  revert d rs log tail. induction lives as [|[ops ending] rest IH]; intros d rs log tail HF HS H; cbn [run_lives] in H.
  - injection H as <- <-. exists tail. cbn. rewrite app_nil_r. now split.
  - inversion HF as [|? ? [Hops Hend] HF']; subst. cbn [fst snd] in *.
    destruct (recover_stored_torn _ _ _ _ _ HS) as (d0 & HS0 & Er & Et). rewrite Er in H.
    destruct (replay rs recovered_new) as [st| |] eqn:Est; [|discriminate..]. cbn [bindO] in H. rewrite settle_sequence in H.
    assert (En : (life_ops ((ops, ending) :: rest) + n = List.length ops + S (life_ops rest + n))%nat).
    { change (S (List.length ops) + life_ops rest + n = List.length ops + S (life_ops rest + n))%nat. lia. }
    rewrite En in HS0.
    pose proof (open_inv limit d0 rs _ SyncAlways st HS0 Est) as O. cbn zeta in O.
    destruct O as ((closed & opened & disk & I & Ers) & B & SB & Ab & M & L).
    pose proof (run_wal_inv ops _ _ _ _ _ Hops I B SB) as R. destruct (run_wal ops _) as [w1 acked].
    destruct R as (B1 & SB1 & M1 & L1 & (closed1 & opened1 & disk1 & I1 & E1) & A1). specialize (A1 M Ab).
    rewrite L in L1. rewrite Ers in E1.
    assert (G : exists tail1, stored_torn limit (end_life ending w1).1 ((rs ++ acked) ++ (end_life ending w1).2) (life_ops rest + n) tail1
                  /\ (stops (ops, ending) = true -> tail1 = [])).
    { destruct ending as [|now ty ns coll i pl tx k]; cbn [end_life fst snd].
      - exists []. split; [|reflexivity]. left. split; [reflexivity|]. rewrite app_nil_r, <- E1, <- L1.
        apply (inv_stored w1 closed1 opened1 disk1 _ I1 A1); [unfold budget in *|unfold seq_budget in *]; lia.
      - destruct Hend as [Hop Hk].
        pose proof (append_dies_stored now ty ns coll i pl tx k w1 closed1 opened1 disk1 _ Hop Hk I1 A1 B1 SB1) as G.
        destruct (append_dies now ty ns coll i pl tx k w1) as [d1 extra]. destruct G as [tail1 G].
        rewrite E1, L1 in G. exists tail1. split; [exact G|discriminate]. }
    destruct G as (tail1 & HS1 & Hst). destruct (end_life ending w1) as [d1 extra]. cbn [fst snd] in *.
    inv_ok H. destruct r as [d2 more]. injection H as <- <-.
    destruct (IH d1 _ more tail1 HF' HS1 Hr) as (tail' & HS' & Ht). exists tail'. split.
    + rewrite !List.map_app, !List.map_map. cbn [entry_record]. rewrite !List.map_id, !app_assoc. rewrite <- !app_assoc in HS' |- *. exact HS'.
    + cbn [forallb]. intros [Hs1 Hs2]%andb_true_iff _. auto.
Qed.

(** Lives that all end with a stop are the sessions. *)
Lemma stopped_lives limit sessions d :
  run_lives limit (List.map (fun ops => (ops, Stopped)) sessions) d
  = mapO (fun p => (p.1, List.map Acknowledged p.2)) (run_sessions limit sessions d).
Proof.
  revert d. induction sessions as [|ops sessions IH]; intros d; [reflexivity|]. cbn [List.map run_lives run_sessions].
  destruct (recover d) as [[st d0]| |]; [|reflexivity..]. cbn [bindO]. destruct (run_wal ops _) as [w acked].
  cbn [end_life List.map app]. rewrite IH. destruct (run_sessions limit sessions (dir w)) as [[d1 more]| |]; [|reflexivity..].
  cbn. now rewrite List.map_app.
Qed.

(** ** Crash *)

(** The process dies; of the bytes still in the buffer the file gets a prefix. *)
Lemma crash_prefix w closed opened disk p q n :
  log_inv w closed opened disk -> budget w n -> active_buf w = (p ++ q)%list ->
  exists survivors lost tail,
    opened = (survivors ++ lost)%list /\ tail_of tail /\ (q = [] -> lost = [] /\ tail = [])
    /\ recover (dir (file_append p w))
       = let? st := replay (List.concat closed ++ survivors) recovered_new in
         Ok (settle tail st,
             dir_from 0 (List.map log_bytes closed ++ [log_bytes survivors ++ kept tail])).
Proof.
  intros I B Eb. pose proof (inv_room' _ _ _ _ _ I B) as R. pose proof (inv_files _ _ _ _ I) as F.
  destruct (files_append p _ _ _ _ R F) as (D & Ix & _). destruct F as (_ & I0 & L).
  rewrite Eb, app_assoc in L.
  destruct (prefix_of_blocks record_bytes opened (disk ++ p) q L) as (s & lost & tail & -> & E & HW).
  pose proof (inv_records _ _ _ _ I) as HF. rewrite app_assoc in HF. apply Forall_app in HF as [HF1 HF2].
  fold (log_bytes s) in E. exists s, lost, tail.
  assert (HT : tail_of tail).
  { destruct lost as [|r lost]; [subst; apply tail_nil|]. destruct HW as (k & Hk & ->).
    inversion HF2; subst. now constructor. }
  split; [reflexivity|]. split; [assumption|]. split.
  - intros ->. rewrite app_nil_r, E in L. fold (log_bytes (s ++ lost)) in L. rewrite log_bytes_app in L.
    apply app_inv_head in L. destruct lost as [|r lost]; [now subst|]. exfalso.
    destruct HW as (k & Hk & ->). apply (f_equal (@List.length byte)) in L. unfold log_bytes in L.
    cbn [List.map List.concat] in L. rewrite length_app, length_firstn in L. lia.
  - rewrite D, E. apply recover_log; auto.
    unfold budget in B. rewrite I0, length_map in B. lia.
Qed.

(** ** Idempotence *)

Definition same_data (st st' : RecoveredState) : Prop :=
  collections st' = collections st /\ max_sequence st' = max_sequence st
  /\ records_replayed st' = records_replayed st.

Lemma same_data_refl st : same_data st st.
Proof. now repeat split. Qed.

Lemma replay_record_same r st st2 st1 :
  same_data st st2 -> replay_record r st = Ok st1 ->
  exists st3, replay_record r st2 = Ok st3 /\ same_data st1 st3
    /\ torn_tails_truncated st3 = torn_tails_truncated st2.
Proof.
  intros (E1 & E2 & E3) H. destruct st as [c m n t], st2 as [c2 m2 n2 t2]. cbn in *. subst.
  unfold replay_record, apply_record_to_state in *. cbn in *.
  destruct (NbfRecord.record_type r); cbn in *;
    try (destruct (NbfRecord.document_from_payload r); cbn in *; [|discriminate..]);
    injection H as <-; eexists; (split; [reflexivity|now repeat split]).
Qed.

(** The loop over some input, and the loop over the part of it that is kept. *)
Lemma recover_loop_again fuel path input st st1 cut st2 offset :
  (List.length input < fuel)%nat ->
  recover_loop fuel path offset input st = Ok (st1, cut) -> same_data st st2 ->
  exists used rest st3, input = (used ++ rest)%list
    /\ (cut = None /\ torn_tails_truncated st1 = torn_tails_truncated st
        \/ cut = Some (offset + Z.of_nat (List.length used)))
    /\ (forall fuel', (List.length (match cut with Some _ => used | None => input end) < fuel')%nat ->
         recover_loop fuel' path offset (match cut with Some _ => used | None => input end) st2 = Ok (st3, None))
    /\ same_data st1 st3 /\ torn_tails_truncated st3 = torn_tails_truncated st2.
Proof.
  revert input st st2 offset. induction fuel as [|fuel IH]; intros input st st2 offset Hf H SD; [lia|].
  cbn [recover_loop] in H. destruct (NbfRecord.decode input) as [[[r rest]|]|e|] eqn:Ed; [| | |discriminate].
  - inv_ok H. destruct (decode_local _ _ _ Ed) as (used0 & -> & Lu & Hloc).
    destruct (replay_record_same _ _ _ _ SD Hr) as (st2' & Hr2 & SD2 & T2).
    rewrite length_app in Hf.
    replace (List.length (used0 ++ rest) - List.length rest)%nat with (List.length used0) in H
      by (rewrite length_app; lia).
    destruct (IH rest r0 st2' _ ltac:(lia) H SD2) as (used1 & rest1 & st3 & -> & Hcut & Hloop & SD3 & T3).
    exists (used0 ++ used1)%list, rest1, st3. split; [now rewrite app_assoc|].
    apply replay_record_counters in Hr as (_ & _ & Tr). split; [|split; [|split; [assumption|congruence]]].
    + destruct Hcut as [[-> Ht]|Hc]; [left; split; congruence|right].
      rewrite Hc, length_app. f_equal. lia.
    + intros fuel' Hf'. destruct fuel' as [|fuel']; [lia|].
      specialize (Hloop fuel'). destruct cut as [c|]; rewrite length_app in Hf'; specialize (Hloop ltac:(lia)).
      * cbn [recover_loop]. rewrite Hloc, Hr2. cbn [bindO].
        replace (List.length (used0 ++ used1) - List.length used1)%nat with (List.length used0)
          by (rewrite length_app; lia). exact Hloop.
      * cbn [recover_loop]. rewrite Hloc, Hr2. cbn [bindO].
        replace (List.length (used0 ++ used1 ++ rest1) - List.length (used1 ++ rest1))%nat with (List.length used0)
          by (rewrite !length_app; lia). exact Hloop.
  - injection H as <- <-. exists input, [], st2. split; [now rewrite app_nil_r|].
    split; [left; now split|]. split; [|now split].
    intros fuel' Hf'. destruct fuel' as [|fuel']; [lia|]. cbn [recover_loop]. now rewrite Ed.
  - destruct (decide (code e = TornWriteDetected)) as [Ht|]; [|discriminate]. injection H as <- <-.
    exists [], input, st2. split; [reflexivity|]. split; [right; f_equal; cbn; lia|]. split; [|now split].
    intros fuel' Hf'. destruct fuel' as [|fuel']; [lia|]. reflexivity.
Qed.

Lemma recover_segment_again path c st st1 c' st2 :
  recover_segment path c st = Ok (st1, c') -> same_data st st2 ->
  exists st3, recover_segment path c' st2 = Ok (st3, c') /\ same_data st1 st3
    /\ torn_tails_truncated st3 = torn_tails_truncated st2.
Proof.
  unfold recover_segment. intros H SD. destruct c as [|b c]; [injection H as <- <-; eauto|].
  inv_ok H. destruct r as [sta cut]. injection H as <- <-.
  destruct (recover_loop_again _ _ _ _ _ _ st2 _ (Nat.lt_succ_diag_r _) Hr SD)
    as (used & rest & st3 & E & Hcut & Hloop & SD3 & T3).
  exists st3. destruct cut as [n|].
  - destruct Hcut as [[? _]|[= ->]]; [discriminate|]. rewrite Z.add_0_l, Nat2Z.id, E, firstn_prefix by reflexivity.
    destruct used as [|u used].
    + specialize (Hloop 1%nat ltac:(cbn; lia)). cbn in Hloop. injection Hloop as <-. auto.
    + rewrite Hloop by lia. cbn [bindO]. auto.
  - rewrite Hloop by lia. cbn [bindO]. auto.
Qed.

Lemma recover_segments_dom segs d st st1 d1 :
  recover_segments segs d st = Ok (st1, d1) -> dom d1 = dom d.
Proof.
  revert d st. induction segs as [|i segs IH]; intros d st H; cbn [recover_segments] in H.
  - now injection H as _ <-.
  - destruct (d !! segment_path i) as [c|] eqn:G; [|discriminate]. inv_ok H. destruct r as [st' c'].
    rewrite (IH _ _ H). apply dom_insert_lookup_L. eauto.
Qed.

(** Whether a file is read to its end, and where it is cut, does not depend on the state. *)
Lemma replay_record_any r st st1 st2 : replay_record r st = Ok st1 -> exists st3, replay_record r st2 = Ok st3.
Proof.
  unfold replay_record, apply_record_to_state. intros H.
  destruct (NbfRecord.record_type r); cbn in *;
    try (destruct (NbfRecord.document_from_payload r); cbn in *; [|discriminate..]); eauto.
Qed.

Lemma recover_loop_any fuel path offset input st st1 cut st2 :
  recover_loop fuel path offset input st = Ok (st1, cut) ->
  exists st3, recover_loop fuel path offset input st2 = Ok (st3, cut).
Proof.
  revert offset input st st2. induction fuel as [|fuel IH]; intros offset input st st2 H; [injection H as _ <-; now exists st2|].
  cbn [recover_loop] in *. destruct (NbfRecord.decode input) as [[[r rest]|]|e|]; [| | |discriminate].
  - inv_ok H. destruct (replay_record_any r st r0 st2 Hr) as [st3 ->]. cbn [bindO]. exact (IH _ _ _ st3 H).
  - injection H as _ <-. eauto.
  - case_decide; [|discriminate]. injection H as _ <-. eauto.
Qed.

Lemma recover_segment_any path c st st1 c' st2 :
  recover_segment path c st = Ok (st1, c') -> exists st3, recover_segment path c st2 = Ok (st3, c').
Proof.
  unfold recover_segment. intros H. destruct c as [|b c]; [injection H as _ <-; eauto|].
  inv_ok H. destruct r as [sta cut]. injection H as _ <-.
  destruct (recover_loop_any _ _ _ _ _ _ _ st2 Hr) as [st3 ->]. cbn [bindO]. eauto.
Qed.

(** A file that recovery leaves as it is stays as it is, however often it is visited. *)
Lemma recover_segments_fixed segs d st st1 d1 i c :
  (forall st, exists st', recover_segment (segment_path i) c st = Ok (st', c)) ->
  d !! segment_path i = Some c -> recover_segments segs d st = Ok (st1, d1) -> d1 !! segment_path i = Some c.
Proof.
  intros Fx. revert d st. induction segs as [|j segs IH]; intros d st G H; cbn [recover_segments] in H.
  - now injection H as _ <-.
  - destruct (d !! segment_path j) as [cj|] eqn:Gj; [|discriminate]. inv_ok H. destruct r as [st' c'].
    apply (IH _ _) in H; [exact H|]. destruct (decide (segment_path j = segment_path i)) as [E|N].
    + rewrite E in Gj, Hr |- *. rewrite G in Gj. injection Gj as <-. destruct (Fx st) as [st2 E2].
      rewrite E2 in Hr. injection Hr as _ <-. apply lookup_insert_eq.
    + now rewrite lookup_insert_ne.
Qed.

Lemma recover_segments_again segs d st st1 d1 st2 :
  recover_segments segs d st = Ok (st1, d1) -> same_data st st2 ->
  exists st3, recover_segments segs d1 st2 = Ok (st3, d1) /\ same_data st1 st3
    /\ torn_tails_truncated st3 = torn_tails_truncated st2.
Proof.
  revert d st st2. induction segs as [|i segs IH]; intros d st st2 H SD; cbn [recover_segments] in H.
  - injection H as <- <-. cbn. eauto.
  - destruct (d !! segment_path i) as [c|] eqn:G; [|discriminate]. inv_ok H. destruct r as [sta c'].
    destruct (recover_segment_again _ _ _ _ _ _ Hr SD) as (stb & E & SDb & Tb).
    destruct (IH _ _ stb H SDb) as (st3 & E3 & SD3 & T3).
    assert (O : d1 !! segment_path i = Some c').
    { refine (recover_segments_fixed _ _ _ _ _ i c' _ (lookup_insert_eq _ _ _) H). intros sty.
      exact (recover_segment_any _ _ _ _ _ sty E). }
    exists st3. cbn [recover_segments]. rewrite O, E. cbn [bindO]. rewrite insert_id by assumption.
    split; [exact E3|]. split; [exact SD3|congruence].
Qed.

Lemma discover_dom (d d' : gmap string bytes) : dom d = dom d' -> discover_segments d = discover_segments d'.
Proof.
  intros E. unfold discover_segments.
  assert (P : forall m : gmap string bytes,
    omap (fun p => wal_stem p.1 ≫= parse_u64) (map_to_list m) ≡ₚ omap (fun s => wal_stem s ≫= parse_u64) (elements (dom m))).
  { intros m. transitivity (omap (fun s => wal_stem s ≫= parse_u64) (fst <$> map_to_list m)).
    - apply reflexive_eq. induction (map_to_list m) as [|p l IH]; cbn; [reflexivity|].
      destruct (wal_stem p.1 ≫= parse_u64); [f_equal|]; exact IH.
    - apply omap_Permutation. apply NoDup_Permutation.
      + apply NoDup_fst_map_to_list.
      + apply NoDup_elements.
      + intros s. rewrite elem_of_elements, elem_of_dom, list_elem_of_fmap. split.
        * intros ([s' c] & -> & Hin). apply elem_of_map_to_list in Hin. cbn. eauto.
        * intros [c G]. exists (s, c). split; [reflexivity|]. now apply elem_of_map_to_list. }
  apply (Sorted_unique Z.le); try (apply Sorted_merge_sort; intros x y; lia).
  rewrite !merge_sort_Permutation, (P d), (P d'), E. reflexivity.
Qed.

Lemma recover_again d st d' :
  recover d = Ok (st, d') ->
  exists st', recover d' = Ok (st', d') /\ same_data st st' /\ torn_tails_truncated st' = 0.
Proof.
  unfold recover. intros H. rewrite <- (discover_dom d d').
  - apply (recover_segments_again _ _ _ _ _ _ H (same_data_refl _)).
  - symmetry. eapply recover_segments_dom; eauto.
Qed.

(** ** A torn tail shorter than the magic *)

Lemma short_magic_then_record k r rest :
  (1 <= k <= 3)%nat ->
  exists e, NbfRecord.decode (firstn k NBF_MAGIC ++ record_bytes r ++ rest) = Err e /\ code e = WalCorrupted.
Proof.
  intros Hk. unfold record_bytes, body_bytes, NBF_MAGIC. rewrite <- !app_assoc.
  assert (k = 1 \/ k = 2 \/ k = 3)%nat as [-> |[-> | ->]] by lia; eexists; split; reflexivity.
Qed.

(** Replaying a log up to bytes that are damaged, and not cut short, fails. *)
Lemma recover_loop_corrupt fuel path offset rs bad st e :
  Forall record_ok rs -> NbfRecord.decode bad = Err e -> code e <> TornWriteDetected ->
  (List.length (log_bytes rs ++ bad) < fuel)%nat -> is_ok (replay rs st) = true ->
  exists off, recover_loop fuel path offset (log_bytes rs ++ bad) st = Err (corruption path off e).
Proof.
  intros HF He Hc. revert fuel offset st.
  induction HF as [|r rs Hr HF IH]; intros fuel offset st Hfuel Hok; (destruct fuel as [|fuel]; [lia|]).
  - cbn [log_bytes List.map List.concat app recover_loop]. rewrite He.
    rewrite decide_False by assumption. eauto.
  - cbn [log_bytes List.map List.concat] in *. fold (log_bytes rs) in *. rewrite <- app_assoc in *.
    cbn [recover_loop replay] in *. rewrite decode_ok by assumption.
    destruct (replay_record r st) as [st'| |]; try discriminate. cbn [bindO] in *.
    pose proof (record_bytes_length r). rewrite length_app in Hfuel. apply IH; [lia|assumption].
Qed.

Lemma recover_one_segment content :
  recover (dir_from 0 [content])
  = let? (st, content') := recover_segment (segment_path 0) content recovered_new in
    Ok (st, dir_from 0 [content']).
Proof.
  unfold recover. rewrite discover_dir_from by (cbn; unfold u64_max; lia).
  change (seqZ 0 (Z.of_nat (List.length [content]))) with [0]. cbn [recover_segments dir_from].
  rewrite lookup_insert_eq. destruct (recover_segment _ content _) as [[st c']| |]; cbn [bindO]; reflexivity.
Qed.

Lemma open_one_segment content mode limit :
  let w := open (dir_from 0 [content]) mode limit in
  files w [] content content /\ active_buf w = [] /\ sync_mode w = mode
  /\ current_segment_size w = Z.of_nat (List.length content).
Proof.
  intros w. assert (Ei : default 0 (last (discover_segments (dir_from 0 [content]))) = 0).
  { rewrite discover_dir_from by (cbn; unfold u64_max; lia). reflexivity. }
  assert (Ec : dir_from 0 [content] !! segment_path 0 = Some content) by (cbn [dir_from]; apply lookup_insert_eq).
  assert (Eo : w = {| dir := dir_from 0 [content]; current_segment_index := 0; current_sequence := 0;
    segment_size_limit := limit; sync_mode := mode; active_buf := [];
    current_segment_size := Z.of_nat (List.length content) |}).
  { unfold w, open. rewrite Ei, Ec. cbn [default from_option id]. rewrite insert_id by assumption. reflexivity. }
  clearbody w. subst w. unfold files. cbn [dir current_segment_index active_buf sync_mode current_segment_size].
  rewrite app_nil_r. auto.
Qed.

Lemma buf_write_index b w : current_segment_index (buf_write b w) = current_segment_index w.
Proof. unfold buf_write. repeat case_if; reflexivity. Qed.
Lemma set_size_index n w : current_segment_index (set_size n w) = current_segment_index w.
Proof. reflexivity. Qed.
Lemma set_size_dir n w : dir (set_size n w) = dir w.
Proof. reflexivity. Qed.
Lemma flush_index w : current_segment_index (buf_flush w) = current_segment_index w.
Proof. reflexivity. Qed.
Lemma rotate_index w : current_segment_index (rotate_segment w) = wrap_u64 (current_segment_index w + 1).
Proof. reflexivity. Qed.

(** Appending to a one-segment log puts the record right after what is there. *)
Lemma append_one_segment content limit now ty ns coll i pl tx seq0 w' seq :
  op_ok (OpAppend now ty ns coll i pl tx) ->
  let w := set_sequence seq0 (open (dir_from 0 [content]) SyncAlways limit) in
  append NoFault now ty ns coll i pl tx w = (w', Ok seq) -> current_segment_index w' = 0 ->
  exists r, record_ok r /\ dir w' = dir_from 0 [content ++ record_bytes r].
Proof.
  intros Hop w H Hidx. destruct (open_one_segment content SyncAlways limit) as (F & A & M & Z0).
  assert (Fw : files w [] content content) by exact F. assert (Aw : active_buf w = []) by exact A.
  assert (Mw : sync_mode w = SyncAlways) by exact M. assert (Iw : current_segment_index w = 0) by apply F.
  clearbody w. clear F A M Z0. unfold append, next_sequence in H. set (s := wrap_u64 _) in H.
  assert (Hs : 0 <= s <= u64_max).
  { subst s. unfold wrap_u64, u64_max. pose proof (Z.mod_pos_bound (current_sequence w + 1) (2 ^ 64) ltac:(lia)). lia. }
  destruct (NbfRecord.encode (make_record s now ty ns coll i pl tx)) as [b|e|] eqn:Ee; [|discriminate..].
  destruct (make_record_ok s now ty ns coll i pl tx b Hop Hs Ee) as [Hr ->].
  exists (make_record s now ty ns coll i pl tx). split; [exact Hr|]. set (r := make_record s now ty ns coll i pl tx) in *.
  set (w1 := set_sequence s w) in *. cbv zeta in H.
  assert (Hrot : (segment_size_limit w1 <? current_segment_size w1 + Z.of_nat (List.length (record_bytes r))) = false).
  { destruct (_ <? _) eqn:E; [|reflexivity]. exfalso.
    assert (Ei : current_segment_index w' = 1); [|lia].
    assert (Er : current_segment_index (rotate_segment w1) = 1) by (rewrite rotate_index; cbn; now rewrite Iw).
    apply pair_eq in H as [H _]. rewrite <- H, set_size_index.
    destruct (sync_mode _); rewrite ?flush_index, buf_write_index; exact Er. }
  rewrite Hrot in H.
  assert (F1 : files w1 [] content content) by exact Fw.
  assert (R0 : room []) by (unfold room; cbn; unfold u64_max; lia).
  destruct (files_write (record_bytes r) w1 [] content content R0 F1) as [disk' F2].
  assert (M2 : sync_mode (buf_write (record_bytes r) w1) = SyncAlways).
  { unfold buf_write. repeat case_if; exact Mw. }
  rewrite M2 in H. apply pair_eq in H as [H _]. rewrite <- H, set_size_dir. clear H.
  destruct (files_flush _ _ _ _ R0 F2) as [(D & _ & _) _]. exact D.
Qed.

Lemma short_tail_recover rs k r st :
  Forall record_ok rs -> record_ok r -> (k <= 3)%nat -> replay rs recovered_new = Ok st ->
  recover (dir_from 0 [log_bytes rs ++ firstn k (record_bytes r)])
  = Ok (st, dir_from 0 [log_bytes rs ++ firstn k (record_bytes r)]).
Proof.
  intros HF Hr Hk Hst. rewrite recover_one_segment.
  pose proof (record_bytes_length r) as L.
  assert (Lk : List.length (firstn k (record_bytes r)) = k) by (rewrite length_firstn; lia).
  rewrite recover_segment_log by (auto; constructor; auto; lia).
  rewrite Hst. cbn [bindO]. unfold settle, kept. rewrite Lk.
  rewrite (proj2 (Nat.ltb_lt k 4)) by lia. reflexivity.
Qed.

Lemma short_tail_then_append rs k r r' rest st :
  Forall record_ok rs -> (1 <= k <= 3)%nat -> replay rs recovered_new = Ok st ->
  exists e, recover (dir_from 0 [(log_bytes rs ++ firstn k (record_bytes r)) ++ record_bytes r' ++ rest]) = Err e
    /\ code e = WalCorrupted.
Proof.
  intros HF Hk Hst. rewrite recover_one_segment, <- app_assoc.
  assert (Em : firstn k (record_bytes r) = firstn k NBF_MAGIC).
  { unfold record_bytes, body_bytes. rewrite <- app_assoc.
    assert (k = 1 \/ k = 2 \/ k = 3)%nat as [-> |[-> | ->]] by lia; reflexivity. }
  rewrite Em. destruct (short_magic_then_record k r' rest Hk) as (e & He & Hc).
  set (bad := (firstn k NBF_MAGIC ++ record_bytes r' ++ rest)%list) in *.
  destruct (recover_loop_corrupt (S (List.length (log_bytes rs ++ bad))) (segment_path 0) 0 rs bad recovered_new e
    HF He ltac:(congruence) (Nat.lt_succ_diag_r _) ltac:(now rewrite Hst)) as [off Hloop].
  exists (corruption (segment_path 0) off e). split; [|reflexivity].
  unfold recover_segment. destruct (log_bytes rs ++ bad)%list as [|b l] eqn:E.
  - exfalso. apply app_eq_nil in E as [_ E]. subst bad. apply app_eq_nil in E as [_ E].
    apply app_eq_nil in E as [E _]. pose proof (record_bytes_length r') as L. rewrite E in L. cbn in L. lia.
  - rewrite Hloop. reflexivity.
Qed.
End Durability.
