(* ===== verification/Fault.v ===== *)
(** [nova-testkit/src/fault.rs]: faults put into the files of the log, and what reading
    a damaged record gives. *)

From stdpp Require Import list.
From S2P Require Export Checksum Durability.

(** ** The fault injector

    Each operation opens the file at a path, which fails when there is none: [None] is an
    [io::Error]. *)

Module FaultInjector.
(** [FaultInjector::truncate_tail]: the new length is a saturating subtraction. *)
Definition truncate_tail (path : string) (n : Z) (d : gmap string bytes) : option (gmap string bytes) :=
  file ← d !! path;
  let len := Z.of_nat (List.length file) in
  let new_len := if len <? n then 0 else len - n in
  Some (<[path := firstn (Z.to_nat new_len) file]> d).

(** [b[0] ^= 0xFF]. *)
Definition flip (b : byte) : byte := byte_of_Z (Z.lxor (Z_of_byte b) 0xFF).

(** [FaultInjector::flip_byte_at]: reading past the end fails. *)
Definition flip_byte_at (path : string) (offset : Z) (d : gmap string bytes) : option (gmap string bytes) :=
  file ← d !! path;
  b ← file !! Z.to_nat offset;
  Some (<[path := <[Z.to_nat offset := flip b]> file]> d).

(** [FaultInjector::append_garbage]. *)
Definition append_garbage (path : string) (garbage : bytes) (d : gmap string bytes) : option (gmap string bytes) :=
  file ← d !! path;
  Some (<[path := (file ++ garbage)%list]> d).
End FaultInjector.

Import FaultInjector.

(** ** A flipped byte *)

Lemma flip_value b : Z_of_byte (flip b) = 255 - Z_of_byte b.
Proof. destruct b; reflexivity. Qed.

Lemma flip_neq b : flip b <> b.
Proof. destruct b; discriminate. Qed.

(** [l'] is [l] with one byte flipped. *)
Inductive flipped : bytes -> bytes -> Prop :=
| flipped_intro a x b : flipped (a ++ x :: b) (a ++ flip x :: b).

Lemma flipped_one_byte l l' : flipped l l' -> one_byte l l'.
Proof. intros [a x b]. constructor. intros E. now apply (flip_neq x). Qed.

Lemma flipped_insert l k b : l !! k = Some b -> flipped l (<[k := flip b]> l).
Proof.
  intros H. rewrite <- (take_drop_middle l k b H) at 1. rewrite insert_take_drop by now apply lookup_lt_Some in H.
  constructor.
Qed.

(** A flip in a text breaks its encoding: the flipped byte is of another class than the
    byte it was, and the bytes around it are no longer the characters they were. *)
Lemma utf8_encode_char_cases c :
  is_scalar c = true ->
  exists b t, utf8_encode_char c = b :: t /\ Forall (fun x => is_cont (Z_of_byte x) = true) t
    /\ match t with
       | [] => Z_of_byte b < 0x80
       | [_] => 0xC2 <= Z_of_byte b <= 0xDF
       | [_; _] => 0xE0 <= Z_of_byte b <= 0xEF
       | [_; _; _] => 0xF0 <= Z_of_byte b <= 0xF4
       | _ => False
       end.
Proof.
  intros Hc.
  assert (B : 0 <= c <= 0x10FFFF) by (unfold is_scalar in Hc; apply orb_true_iff in Hc; destruct Hc; bool_facts; lia).
  unfold utf8_encode_char. repeat case_if; bool_facts; (do 2 eexists; split; [reflexivity|]);
    (split; [repeat (constructor; [rewrite Z_of_byte_of_Z_small by (Z.to_euclidean_division_equations; lia); solve_zb|]); constructor
            |rewrite Z_of_byte_of_Z_small by (Z.to_euclidean_division_equations; lia); Z.to_euclidean_division_equations; lia]).
Qed.

Lemma utf8_decode_starts l cs :
  utf8_decode l = Some cs -> match l with b :: _ => is_cont (Z_of_byte b) = false | [] => True end.
Proof.
  destruct l as [|b l]; intros H; [exact I|]. apply utf8_decode_cons_inv in H as (c & cs' & l' & _ & _ & Hc & E).
  destruct (utf8_encode_char_cases c Hc) as (b' & t & Ec & _ & Hb). rewrite Ec in E. injection E as <- _.
  destruct t as [|? [|? [|? [|]]]]; [..|easy]; solve_zb.
Qed.

(** A byte that is no character's first byte ends the decoding. *)
Lemma utf8_decode_cont b l : is_cont (Z_of_byte b) = true -> utf8_decode (b :: l) = None.
Proof.
  intros H. destruct (utf8_decode (b :: l)) as [cs|] eqn:E; [|reflexivity]. apply utf8_decode_starts in E. congruence.
Qed.

Lemma utf8_decode_ascii b l : Z_of_byte b < 0x80 -> utf8_decode (b :: l) = cons (Z_of_byte b) <$> utf8_decode l.
Proof. intros H. cbn [utf8_decode]. now rewrite (proj2 (Z.ltb_lt _ _)) by lia. Qed.

(** A first byte that asks for more bytes, before something that is none of them. *)
Lemma utf8_decode_lead b l :
  0x80 <= Z_of_byte b -> match l with b1 :: _ => is_cont (Z_of_byte b1) = false | [] => True end ->
  utf8_decode (b :: l) = None.
Proof.
  intros Hb Hl. cbn [utf8_decode]. rewrite (proj2 (Z.ltb_ge _ _)) by lia. destruct l as [|b1 l]; [reflexivity|].
  rewrite Hl, !andb_false_r. destruct l as [|b2 l]; [reflexivity|]. cbn [andb]. now destruct l as [|b3 l].
Qed.

(** A character with one of its bytes flipped, before anything that can follow it. *)
Lemma utf8_decode_flipped_char c a x k l cs :
  is_scalar c = true -> utf8_encode_char c = (a ++ x :: k)%list -> utf8_decode l = Some cs ->
  utf8_decode (a ++ flip x :: k ++ l) = None.
Proof.
  intros Hc E Hl. apply utf8_decode_starts in Hl. destruct (utf8_encode_char_cases c Hc) as (h & t & Ec & Ht & Hh).
  rewrite Ec in E. assert (F : Z_of_byte (flip x) = 255 - Z_of_byte x) by apply flip_value.
  destruct a as [|h' a]; injection E as -> ->.
  - destruct k as [|y k]; cbn [app] in *.
    + apply utf8_decode_lead; [lia|exact Hl].
    + inversion Ht; subst. rewrite utf8_decode_ascii by (destruct k as [|? [|? [|]]]; lia).
      now rewrite utf8_decode_cont.
  - apply Forall_app in Ht as [Ha Hk]. inversion Hk as [|? ? Hx _]; subst.
    assert (Nx : is_cont (Z_of_byte (flip x)) = false) by (rewrite F; unfold is_cont in Hx; bool_facts; solve_zb).
    cbn [app]. destruct a as [|y [|z [|w a]]]; cbn [app] in *.
    + apply utf8_decode_lead; [destruct k as [|? [|? [|]]]; lia|exact Nx].
    + cbn [utf8_decode]. rewrite Nx.
      rewrite (proj2 (Z.ltb_ge _ _)) by (destruct k as [|? [|]]; lia).
      rewrite (proj2 (Z.leb_gt _ 0xDF)) by (destruct k as [|? [|]]; lia). rewrite !andb_false_r. cbn [andb].
      now destruct (k ++ l)%list.
    + cbn [utf8_decode]. rewrite Nx. destruct k as [|]; [|now destruct Hh].
      rewrite (proj2 (Z.ltb_ge (Z_of_byte h') 0x80)) by lia.
      rewrite (proj2 (Z.leb_gt (Z_of_byte h') 0xDF)), (proj2 (Z.leb_gt (Z_of_byte h') 0xEF)) by lia.
      rewrite !andb_false_r. reflexivity.
    + exfalso. destruct a; exact Hh.
Qed.

Lemma flipped_text_is_invalid l l' : flipped l l' -> utf8_valid l = true -> utf8_valid l' = false.
Proof.
  intros [a x b]. clear. unfold utf8_valid. destruct (utf8_decode (a ++ x :: b)) as [cs|] eqn:E; [|discriminate]. intros _.
  enough (utf8_decode (a ++ flip x :: b) = None) as -> by reflexivity. revert a E.
  induction cs as [|c cs IH]; intros a E.
  - apply utf8_decode_inv in E as [_ E]. now destruct a.
  - assert (exists h t, (a ++ x :: b)%list = h :: t) as (h & t & El) by (destruct a; cbn [app]; eauto).
    rewrite El in E. apply utf8_decode_cons_inv in E as (c' & cs' & l' & [= <- <-] & Hl & Hc & Eh). rewrite <- El in Eh.
    assert (IH' : forall k, l' = (k ++ x :: b)%list -> utf8_decode ((utf8_encode_char c ++ k) ++ flip x :: b) = None).
    { intros k ->. now rewrite <- app_assoc, utf8_decode_encode_char, IH by assumption. }
    apply app_eq_inv in Eh as [(k & -> & E2)|(k & Ec & E2)]; [now apply IH'|].
    destruct k as [|y k]; cbn [app] in E2.
    + rewrite app_nil_r in Ec. rewrite <- Ec, <- (app_nil_r (utf8_encode_char c)). now apply IH'.
    + injection E2 as <- ->. eapply utf8_decode_flipped_char; eauto.
Qed.

(** ** Reading a damaged record *)

Section Damage.
Import NbfRecord.
Context {C : CrcLib} {CL : CrcLaws C}.

(** The bytes of a record from its parts: the 28 bytes of the header, namespace,
    collection, identifier, payload and checksum. *)
Definition raw_record (magic h n c i p s : bytes) : bytes :=
  magic ++ h ++ write_u16 (Z.of_nat (List.length n)) ++ n ++ write_u16 (Z.of_nat (List.length c)) ++ c
    ++ write_u16 (Z.of_nat (List.length i)) ++ i ++ write_u32 (Z.of_nat (List.length p)) ++ p ++ s.

(** What the checksum is computed over, the identifier trimmed. *)
Definition raw_covered (h n c i did p : bytes) : bytes :=
  NBF_MAGIC ++ h ++ write_u16 (Z.of_nat (List.length n)) ++ n ++ write_u16 (Z.of_nat (List.length c)) ++ c
    ++ write_u16 (Z.of_nat (List.length i)) ++ did ++ write_u32 (Z.of_nat (List.length p)) ++ p.

Definition not_torn {A} (x : result A) : Prop := exists e, x = Err e /\ code e <> TornWriteDetected.

Lemma not_torn_intro {A} e : code e <> TornWriteDetected -> not_torn (Err e : result A).
Proof. intros H. now exists e. Qed.

Lemma not_torn_bind {A B} (x : result A) (k : A -> result B) : not_torn x -> not_torn (bindO x k).
Proof. intros (e & -> & H). now exists e. Qed.

Lemma decode_header_not_torn h : List.length h = 28%nat -> (exists x, NbfRecord.decode_header h = Ok x) \/ not_torn (decode_header h).
Proof.
  intros L. unfold NbfRecord.decode_header.
  destruct (read_be 2 h) as [[v r1]|]; cbn [bindO]; [|right; now eexists].
  destruct (negb _); [right; now eexists|].
  destruct (read_be 1 r1) as [[t r2]|]; cbn [bindO]; [|right; now eexists].
  unfold record_type_from_u8. repeat (case_if; cbn [bindO]); try (right; now eexists);
  (destruct (read_be 1 r2) as [[f r3]|]; cbn [bindO]; [|right; now eexists];
   destruct (read_be 8 r3) as [[q r4]|]; cbn [bindO]; [|right; now eexists];
   destruct (read_be 8 r4) as [[x r5]|]; cbn [bindO]; [|right; now eexists];
   destruct (read_be 8 r5) as [[ts r6]|]; cbn [bindO]; [left; eauto|right; now eexists]).
Qed.

Lemma doc_id_new_code s e : DocId.new s = Err e -> code e = InvalidQuery.
Proof. unfold DocId.new. repeat case_if; intros [= <-]; reflexivity. Qed.

Lemma doc_id_new_total s : DocId.new s <> Panic.
Proof. unfold DocId.new. repeat case_if; discriminate. Qed.

Abbreviation short l := (Z.of_nat (List.length l) <= u16_max).

Lemma decode_str_raw a b c l rest :
  short l ->
  NbfRecord.decode_str a b c (write_u16 (Z.of_nat (List.length l)) ++ l ++ rest)
  = match from_utf8 l with
    | Some s => Ok (Z.of_nat (List.length l), s, rest)
    | None => Err (wal_corrupted c)
    end.
Proof.
  intros H. unfold NbfRecord.decode_str, write_u16.
  rewrite read_be_app by (change (256 ^ Z.of_nat 2) with 65536; unfold u16_max in H; lia).
  now rewrite read_exact_app by lia.
Qed.

(** Bytes with the lengths of a record are refused, and not as a torn write, unless the
    magic is right, the texts are UTF-8 and the checksum is that of the bytes. *)
Lemma decode_raw magic h n c i p s rest :
  List.length magic = 4%nat -> List.length h = 28%nat -> short n -> short c -> short i ->
  Z.of_nat (List.length p) <= MAX_PAYLOAD -> List.length s = 4%nat ->
  not_torn (decode (raw_record magic h n c i p s ++ rest))
  \/ (magic = NBF_MAGIC /\ utf8_valid n = true /\ utf8_valid c = true /\ utf8_valid i = true
      /\ exists did, DocId.new (from_bytes i) = Ok did
           /\ be_combine s = crc32 (raw_covered h n c i (as_bytes did) p)).
Proof.
  intros Lm Lh Ln Lc Li Lp Ls. unfold raw_record, NbfRecord.decode. rewrite <- !app_assoc.
  rewrite read_exact_app by exact Lm. unfold bytes_eqb at 1. case_decide as Em; [|left; now apply not_torn_intro]. subst magic.
  cbn [negb]. rewrite read_exact_app by exact Lh.
  destruct (decode_header_not_torn h Lh) as [[[[[[ty fl] sq] tx] ts] ->]|T]; [cbn [bindO]|left; now apply not_torn_bind].
  rewrite decode_str_raw by exact Ln. destruct (from_utf8 n) as [ns|] eqn:En; [cbn [bindO]|left; now apply not_torn_intro].
  rewrite decode_str_raw by exact Lc. destruct (from_utf8 c) as [co|] eqn:Ec; [cbn [bindO]|left; now apply not_torn_intro].
  rewrite decode_str_raw by exact Li. destruct (from_utf8 i) as [di|] eqn:Ei; [cbn [bindO]|left; now apply not_torn_intro].
  apply from_utf8_inv in En as [En Vn], Ec as [Ec Vc], Ei as [Ei Vi].
  unfold valid_str in *. rewrite En in Vn. rewrite Ec in Vc. rewrite Ei in Vi.
  destruct (DocId.new di) as [did|e|] eqn:Ed; cbn [bindO];
    [|left; apply not_torn_intro; now rewrite (doc_id_new_code di e Ed)|now apply doc_id_new_total in Ed].
  unfold write_u32 at 1. rewrite read_be_app by (change (256 ^ Z.of_nat 4) with 4294967296; unfold MAX_PAYLOAD in *; lia).
  rewrite (proj2 (Z.ltb_ge _ _)) by exact Lp. rewrite Nat2Z.id, read_exact_app by reflexivity.
  unfold read_be. rewrite read_exact_app by exact Ls. cbn zeta.
  destruct (be_combine s =? _) eqn:Es; cbn [negb]; [|left; now apply not_torn_intro]. right.
  split; [reflexivity|]. split; [exact Vn|]. split; [exact Vc|]. split; [exact Vi|].
  rewrite <- Ei, from_as_bytes. exists did. split; [exact Ed|]. apply Z.eqb_eq in Es. rewrite Es.
  unfold raw_covered. rewrite En, Ec, Ei. reflexivity.
Qed.

Lemma raw_record_self r :
  record_bytes r = raw_record NBF_MAGIC (header_bytes r) (as_bytes (namespace r)) (as_bytes (collection r))
                     (as_bytes (document_id r)) (payload r) (write_u32 (crc32 (body_bytes r))).
Proof. unfold record_bytes, body_bytes, raw_record, encode_str. now rewrite <- !app_assoc. Qed.

Lemma raw_covered_self r :
  body_bytes r = raw_covered (header_bytes r) (as_bytes (namespace r)) (as_bytes (collection r))
                   (as_bytes (document_id r)) (as_bytes (document_id r)) (payload r).
Proof. unfold body_bytes, raw_covered, encode_str. now rewrite <- !app_assoc. Qed.

(** The parts of a record that are not lengths. *)
Definition record_parts (r : NbfRecord.t) : list bytes :=
  [NBF_MAGIC; header_bytes r; as_bytes (namespace r); as_bytes (collection r); as_bytes (document_id r);
   payload r; write_u32 (crc32 (body_bytes r))].

Inductive flipped_part : list bytes -> list bytes -> Prop :=
| flipped_here l l' ls : flipped l l' -> flipped_part (l :: ls) (l' :: ls)
| flipped_there l ls ls' : flipped_part ls ls' -> flipped_part (l :: ls) (l :: ls').

(** A record with one byte flipped, anywhere but in its length fields. *)
Inductive damaged (r : NbfRecord.t) : bytes -> Prop :=
| damaged_intro m h n c i p s :
    flipped_part (record_parts r) [m; h; n; c; i; p; s] -> damaged r (raw_record m h n c i p s).

Lemma flipped_length l l' : flipped l l' -> List.length l' = List.length l.
Proof. intros H. symmetry. now apply one_byte_length, flipped_one_byte. Qed.

(** A change of one byte in the covered bytes changes the checksum. *)
Lemma covered_changes {CD : CrcDetects C} r l : one_byte (body_bytes r) l -> be_combine (write_u32 (crc32 (body_bytes r))) <> crc32 l.
Proof.
  intros H. unfold write_u32. rewrite be_combine_split_small by apply crc32_range. now apply crc32_detects.
Qed.

Lemma decode_damaged {CD : CrcDetects C} r l rest : record_ok r -> damaged r l -> not_torn (decode (l ++ rest)).
Proof.
  intros (_ & _ & _ & _ & Vn & Ln & Vc & Lc & Hid & Lp) D. pose proof (doc_id_bounds _ Hid) as [Bi Vi].
  unfold str_len, u16_max in *.
  assert (Ls : List.length (write_u32 (crc32 (body_bytes r))) = 4%nat) by reflexivity.
  destruct D as [m h n c i p s F]. unfold record_parts in F.
  assert (H : List.length m = 4%nat /\ List.length h = 28%nat /\ List.length n = List.length (as_bytes (namespace r))
    /\ List.length c = List.length (as_bytes (collection r)) /\ List.length i = List.length (as_bytes (document_id r))
    /\ List.length p = List.length (payload r) /\ List.length s = 4%nat).
  { repeat match goal with H : flipped_part _ _ |- _ => inversion H; subst; clear H end;
      match goal with H : flipped _ _ |- _ => apply flipped_length in H; rewrite ?H end; repeat split. }
  destruct H as (Lm & Lh & En & Ec & Ei & Ep & Es).
  destruct (decode_raw m h n c i p s rest) as [T|(Em & Vn' & Vc' & Vi' & did & Hd & E)]; unfold u16_max;
    rewrite ?En, ?Ec, ?Ei, ?Ep; try (assumption || lia).
  exfalso. inversion F as [? ? ? F0|? ? ? F0]; subst; clear F.
  { now apply flipped_one_byte, one_byte_neq in F0. }
  inversion F0 as [? ? ? F1|? ? ? F1]; subst; clear F0.
  { rewrite from_as_bytes, Hid in Hd. injection Hd as <-. revert E. apply covered_changes. rewrite raw_covered_self.
    unfold raw_covered. apply (one_byte_app NBF_MAGIC). now apply flipped_one_byte. }
  inversion F1 as [? ? ? F2|? ? ? F2]; subst; clear F1.
  { apply flipped_text_is_invalid in F2; [congruence|exact Vn]. }
  inversion F2 as [? ? ? F3|? ? ? F3]; subst; clear F2.
  { apply flipped_text_is_invalid in F3; [congruence|exact Vc]. }
  inversion F3 as [? ? ? F4|? ? ? F4]; subst; clear F3.
  { apply flipped_text_is_invalid in F4; [congruence|exact Vi]. }
  rewrite from_as_bytes, Hid in Hd. injection Hd as <-.
  inversion F4 as [? ? ? F5|? ? ? F5]; subst; clear F4.
  - revert E. apply covered_changes. rewrite raw_covered_self. unfold raw_covered. rewrite Ep, !app_assoc.
    rewrite <- (app_nil_r (payload r)), <- (app_nil_r p). apply one_byte_app. now apply flipped_one_byte.
  - inversion F5 as [? ? ? F6|? ? ? F6]; subst; [|inversion F6]. rewrite <- raw_covered_self in E.
    apply flipped_one_byte, one_byte_neq in F6. apply F6. rewrite <- E. unfold write_u32. now rewrite be_split_combine_n.
Qed.

(** Where the ten bytes of the lengths are. *)
Definition length_fields (r : NbfRecord.t) : list nat :=
  let ns := 32%nat in
  let coll := (ns + 2 + List.length (as_bytes (namespace r)))%nat in
  let did := (coll + 2 + List.length (as_bytes (collection r)))%nat in
  let pl := (did + 2 + List.length (as_bytes (document_id r)))%nat in
  (seq ns 2 ++ seq coll 2 ++ seq did 2 ++ seq pl 4)%list.

Lemma insert_app_split {A} (l1 l2 : list A) o x y :
  (l1 ++ l2)%list !! o = Some x ->
  (l1 !! o = Some x /\ (o < List.length l1)%nat /\ <[o := y]> (l1 ++ l2)%list = (<[o := y]> l1 ++ l2)%list)
  \/ ((List.length l1 <= o)%nat /\ l2 !! (o - List.length l1)%nat = Some x
      /\ <[o := y]> (l1 ++ l2)%list = (l1 ++ <[(o - List.length l1)%nat := y]> l2)%list).
Proof.
  intros H. destruct (Nat.lt_ge_cases o (List.length l1)) as [L|L].
  - left. rewrite lookup_app_l in H by exact L. split; [exact H|]. split; [exact L|]. now apply insert_app_l.
  - right. rewrite lookup_app_r in H by exact L. split; [exact L|]. split; [exact H|]. now apply insert_app_r_alt.
Qed.

Lemma flip_damages r o b :
  record_bytes r !! o = Some b -> o ∉ length_fields r -> damaged r (<[o := flip b]> (record_bytes r)).
Proof.
  unfold length_fields. cbn zeta. rewrite !not_elem_of_app, !elem_of_seq. intros H (N1 & N2 & N3 & N4).
  rewrite raw_record_self in *. unfold raw_record in *.
  pose proof (length_header r) as Lh.
  assert (L2 : forall z, List.length (write_u16 z) = 2%nat) by reflexivity.
  assert (L4 : forall z, List.length (write_u32 z) = 4%nat) by reflexivity.
  assert (Lm : List.length NBF_MAGIC = 4%nat) by reflexivity.
  assert (D : forall m h n c i p s, List.length n = List.length (as_bytes (namespace r)) ->
    List.length c = List.length (as_bytes (collection r)) -> List.length i = List.length (as_bytes (document_id r)) ->
    List.length p = List.length (payload r) -> flipped_part (record_parts r) [m; h; n; c; i; p; s] ->
    damaged r (m ++ h ++ write_u16 (Z.of_nat (List.length (as_bytes (namespace r)))) ++ n
      ++ write_u16 (Z.of_nat (List.length (as_bytes (collection r)))) ++ c
      ++ write_u16 (Z.of_nat (List.length (as_bytes (document_id r)))) ++ i
      ++ write_u32 (Z.of_nat (List.length (payload r))) ++ p ++ s)).
  { intros m h n c i p s <- <- <- <- F. now apply damaged_intro. }
  repeat (let L := fresh "L" in apply (insert_app_split _ _ _ _ (flip b)) in H as [(H & L & ->)|(L & H & ->)];
          rewrite ?Lm, ?Lh, ?L2, ?L4 in L;
          [try (exfalso; lia); apply D; rewrite ?length_insert; try reflexivity;
           repeat (solve [apply flipped_here; now apply flipped_insert] || apply flipped_there)|]).
  apply D; try reflexivity. do 6 apply flipped_there. apply flipped_here. now apply flipped_insert.
Qed.
End Damage.

(** ** Starting on a damaged log *)

Section DamagedLog.
Context {C : CrcLib} {CL : CrcLaws C} {U : UuidLib} {J : JsonLib}.

(** A directory that holds exactly these segments of whole records, all of which replay. *)
Record holds (segs : list (list NbfRecord.t)) (d : gmap string bytes) : Prop := {
  holds_dir : d = dir_from 0 (List.map log_bytes segs);
  holds_records : Forall record_ok (List.concat segs);
  holds_size : Z.of_nat (List.length segs) <= u64_max + 1;
  holds_replay : is_ok (replay (List.concat segs) recovered_new) = true;
}.

(** Whether a record replays does not depend on the state. *)
Lemma replay_record_ok_any r st st' : is_ok (replay_record r st) = true -> is_ok (replay_record r st') = true.
Proof.
  unfold replay_record, apply_record_to_state. destruct (NbfRecord.record_type r); cbn; try reflexivity;
    now destruct (NbfRecord.document_from_payload r).
Qed.

Lemma replay_ok_forall rs st :
  is_ok (replay rs st) = true <-> Forall (fun r => is_ok (replay_record r recovered_new) = true) rs.
Proof.
  revert st. induction rs as [|r rs IH]; intros st; cbn [replay]; [split; constructor|]. rewrite Forall_cons. split.
  - intros H. destruct (replay_record r st) as [st'| |] eqn:E; [|discriminate..].
    split; [apply (replay_record_ok_any r st); now rewrite E|now apply (IH st')].
  - intros [Hr H]. apply (replay_record_ok_any r _ st) in Hr. destruct (replay_record r st) as [st'| |]; [|discriminate..].
    now apply (IH st').
Qed.

(** Replaying the segments before some others. *)
Lemma recover_segments_whole closed i more d st :
  Forall record_ok (List.concat closed) ->
  (forall k c, List.map log_bytes closed !! k = Some c -> d !! segment_path (i + Z.of_nat k) = Some c) ->
  recover_segments (seqZ i (Z.of_nat (List.length closed)) ++ more) d st
  = let? st' := replay (List.concat closed) st in recover_segments more d st'.
Proof.
  revert i st. induction closed as [|c closed IH]; intros i st HF Hd; [reflexivity|]. cbn [List.length].
  rewrite seqZ_cons by lia. replace (Z.pred (Z.of_nat (S (List.length closed)))) with (Z.of_nat (List.length closed)) by lia.
  cbn [List.map List.concat app recover_segments] in *.
  pose proof (Hd 0%nat _ eq_refl) as G. cbn [Z.of_nat] in G. rewrite Z.add_0_r in G. rewrite G.
  apply Forall_app in HF as [HF1 HF2].
  rewrite <- (app_nil_r (log_bytes c)), recover_segment_log by (assumption || apply tail_nil).
  unfold kept, settle. cbn [List.length Nat.ltb Nat.leb]. rewrite app_nil_r, replay_app, !bindO_assoc.
  destruct (replay c st) as [st1| |]; cbn [bindO]; try reflexivity.
  rewrite insert_id by assumption. replace (Z.succ i) with (i + 1) by lia. apply IH; [assumption|].
  intros k c' Hk. replace (i + 1 + Z.of_nat k) with (i + Z.of_nat (S k)) by lia. now apply Hd.
Qed.

(** A directory in which one segment has other content: the segments before it are
    replayed, then that content, then the rest. *)
Lemma recover_changed closed later content :
  let d := dir_from 0 (List.map log_bytes closed ++ content :: List.map log_bytes later) in
  Forall record_ok (List.concat closed) -> Z.of_nat (List.length closed + S (List.length later)) <= u64_max + 1 ->
  recover d
  = let? st := replay (List.concat closed) recovered_new in
    let? (st, content') := recover_segment (segment_path (Z.of_nat (List.length closed))) content st in
    recover_segments (seqZ (Z.of_nat (S (List.length closed))) (Z.of_nat (List.length later)))
      (<[segment_path (Z.of_nat (List.length closed)) := content']> d) st.
Proof.
  intros d HF Hn. unfold recover.
  assert (L : List.length (List.map log_bytes closed ++ content :: List.map log_bytes later)
    = (List.length closed + S (List.length later))%nat) by (rewrite length_app; cbn [List.length]; now rewrite !length_map).
  unfold d. rewrite discover_dir_from by (rewrite L; lia). fold d. rewrite L.
  rewrite Nat2Z.inj_add, seqZ_app by lia.
  assert (Hd : forall k c, (List.map log_bytes closed ++ content :: List.map log_bytes later) !! k = Some c ->
    d !! segment_path (0 + Z.of_nat k) = Some c).
  { intros k c Hk. unfold d. pose proof (lookup_lt_Some _ _ _ Hk). rewrite dir_from_lookup; [exact Hk|lia|assumption]. }
  rewrite recover_segments_whole; [|assumption|].
  - destruct (replay (List.concat closed) recovered_new) as [st| |]; cbn [bindO]; try reflexivity.
    assert (G : d !! segment_path (Z.of_nat (List.length closed)) = Some content).
    { rewrite <- (Z.add_0_l (Z.of_nat _)). apply Hd. rewrite <- (length_map log_bytes closed). now apply list_lookup_middle. }
    rewrite seqZ_cons, Z.add_0_l by lia. cbn [recover_segments]. rewrite G.
    replace (Z.succ (Z.of_nat (List.length closed))) with (Z.of_nat (S (List.length closed))) by lia.
    replace (Z.pred (Z.of_nat (S (List.length later)))) with (Z.of_nat (List.length later)) by lia. reflexivity.
  - intros k c Hk. apply Hd. now apply lookup_app_l_Some.
Qed.

Lemma dir_from_insert i k cs c :
  0 <= i -> i + Z.of_nat (List.length cs) <= u64_max + 1 -> (k < List.length cs)%nat ->
  <[segment_path (i + Z.of_nat k) := c]> (dir_from i cs) = dir_from i (<[k := c]> cs).
Proof.
  revert i k. induction cs as [|c0 cs IH]; intros i k Hi Hn Hk; cbn [List.length] in *; [lia|].
  destruct k as [|k]; cbn [dir_from insert list_insert].
  - rewrite Z.add_0_r. apply insert_insert_eq.
  - rewrite insert_insert_ne by (intros E; apply segment_path_inj in E; lia). f_equal.
    replace (i + Z.of_nat (S k)) with (i + 1 + Z.of_nat k) by lia. apply IH; lia.
Qed.

(** Where a record of the log is. *)
Definition record_at (segs : list (list NbfRecord.t)) (k : nat) (pre : list NbfRecord.t) (r : NbfRecord.t)
    (post : list NbfRecord.t) : Prop := segs !! k = Some (pre ++ r :: post)%list.

Definition offset_at (pre : list NbfRecord.t) (o : nat) : Z := Z.of_nat (List.length (log_bytes pre) + o).

(** Every byte of the log is a byte of one of its records. *)
Lemma byte_of_record rs off :
  (off < List.length (log_bytes rs))%nat ->
  exists pre r post o, rs = (pre ++ r :: post)%list /\ off = (List.length (log_bytes pre) + o)%nat
    /\ (o < List.length (record_bytes r))%nat.
Proof.
  revert off. induction rs as [|r rs IH]; intros off; cbn [log_bytes List.map List.concat List.length]; [lia|].
  fold (log_bytes rs). rewrite length_app. intros H. destruct (Nat.lt_ge_cases off (List.length (record_bytes r))) as [L|L].
  - exists [], r, rs, off. now repeat split.
  - destruct (IH (off - List.length (record_bytes r))%nat ltac:(lia)) as (pre & r' & post & o & -> & E & Lo).
    exists (r :: pre), r', post, o. split; [reflexivity|]. split; [|exact Lo].
    cbn [log_bytes List.map List.concat]. fold (log_bytes pre). rewrite length_app. lia.
Qed.

Lemma dir_from_inv i cs path c :
  dir_from i cs !! path = Some c -> exists k, path = segment_path (i + Z.of_nat k) /\ cs !! k = Some c.
Proof.
  revert i. induction cs as [|c0 cs IH]; intros i; cbn [dir_from]; [now rewrite lookup_empty|].
  intros [[<- ->]|[_ H]]%lookup_insert_Some.
  - exists 0%nat. now rewrite Z.add_0_r.
  - apply IH in H as (k & -> & Hk). exists (S k). split; [f_equal; lia|exact Hk].
Qed.

Lemma holds_byte segs d path file off :
  holds segs d -> d !! path = Some file -> 0 <= off < Z.of_nat (List.length file) ->
  exists k pre r post o, path = segment_path (Z.of_nat k) /\ record_at segs k pre r post /\ off = offset_at pre o
    /\ (o < List.length (record_bytes r))%nat.
Proof.
  intros [-> _ _ _] H Ho. apply dir_from_inv in H as (k & -> & Hk).
  change (List.map log_bytes) with (fmap (M := list) log_bytes) in Hk. rewrite list_lookup_fmap in Hk.
  destruct (segs !! k) as [rs|] eqn:E; [|discriminate]. injection Hk as <-.
  destruct (byte_of_record rs (Z.to_nat off) ltac:(lia)) as (pre & r & post & o & -> & Eo & Lo).
  exists k, pre, r, post, o. split; [f_equal; lia|]. split; [exact E|]. split; [unfold offset_at; lia|exact Lo].
Qed.

Lemma log_bytes_cons r rs : log_bytes (r :: rs) = (record_bytes r ++ log_bytes rs)%list.
Proof. reflexivity. Qed.

(** Flipping byte [o] of record [r] of segment [k]. *)
Lemma flip_in_record segs d k pre r post o :
  holds segs d -> record_at segs k pre r post -> (o < List.length (record_bytes r))%nat ->
  exists b closed later, record_bytes r !! o = Some b
    /\ segs = (closed ++ (pre ++ r :: post) :: later)%list /\ List.length closed = k
    /\ flip_byte_at (segment_path (Z.of_nat k)) (offset_at pre o) d
       = Some (dir_from 0 (List.map log_bytes closed
                 ++ (log_bytes pre ++ <[o := flip b]> (record_bytes r) ++ log_bytes post) :: List.map log_bytes later)).
Proof.
  intros [-> HF Hn _] Hk Ho. destruct (lookup_lt_is_Some_2 _ _ Ho) as [b Hb]. unfold record_at in Hk.
  pose proof (lookup_lt_Some _ _ _ Hk) as Lk. pose proof (take_drop_middle _ _ _ Hk) as E.
  exists b, (take k segs), (drop (S k) segs). split; [exact Hb|]. split; [now symmetry|]. split; [rewrite length_take; lia|].
  unfold flip_byte_at. rewrite <- (Z.add_0_l (Z.of_nat k)) at 1. rewrite dir_from_lookup by (rewrite length_map; lia).
  change (List.map log_bytes) with (fmap (M := list) log_bytes). rewrite list_lookup_fmap, Hk. cbn [fmap option_fmap option_map mbind option_bind].
  unfold offset_at. rewrite Nat2Z.id, log_bytes_app, log_bytes_cons.
  rewrite lookup_app_r, Nat.add_comm, Nat.add_sub, lookup_app_l, Hb by lia. cbn [mbind option_bind]. f_equal.
  rewrite <- (Z.add_0_l (Z.of_nat k)), dir_from_insert by (rewrite ?length_fmap; lia). f_equal.
  rewrite insert_app_r_alt, Nat.add_sub, insert_app_l by lia.
  rewrite <- E at 1. rewrite fmap_app, fmap_cons, insert_app_r_alt by (rewrite length_fmap, length_take; lia).
  rewrite length_fmap, length_take, Nat.min_l, Nat.sub_diag by lia. reflexivity.
Qed.

(** A segment that goes on with damaged bytes stops the recovery. *)
Lemma recover_stops closed pre bad later e :
  Forall record_ok (List.concat closed) -> Forall record_ok pre ->
  is_ok (replay (List.concat closed ++ pre) recovered_new) = true ->
  Z.of_nat (List.length closed + S (List.length later)) <= u64_max + 1 ->
  NbfRecord.decode bad = Err e -> code e <> TornWriteDetected -> (4 <= List.length bad)%nat ->
  exists e', recover (dir_from 0 (List.map log_bytes closed ++ (log_bytes pre ++ bad) :: List.map log_bytes later)) = Err e'
    /\ code e' = WalCorrupted.
Proof.
  intros HF1 HF2 HR Hn He Hc Hl. rewrite recover_changed by (assumption || lia).
  apply replay_ok_forall, Forall_app in HR as [R1 R2]. pose proof (proj2 (replay_ok_forall _ recovered_new) R1) as O1.
  destruct (replay (List.concat closed) recovered_new) as [st| |]; [|discriminate..]. cbn [bindO].
  destruct (recover_loop_corrupt (S (List.length (log_bytes pre ++ bad))) (segment_path (Z.of_nat (List.length closed))) 0
    pre bad st e HF2 He Hc ltac:(lia) (proj2 (replay_ok_forall _ st) R2)) as [off Hloop].
  exists (corruption (segment_path (Z.of_nat (List.length closed))) off e). split; [|reflexivity].
  unfold recover_segment. destruct (log_bytes pre ++ bad)%list as [|x l] eqn:El.
  - exfalso. apply (f_equal (@List.length byte)) in El. rewrite length_app in El. cbn [List.length] in El. lia.
  - rewrite Hloop. reflexivity.
Qed.

(** A flipped byte outside the length fields stops the recovery. *)
Lemma flip_is_caught {CD : CrcDetects C} segs d k pre r post o :
  holds segs d -> record_at segs k pre r post -> (o < List.length (record_bytes r))%nat -> o ∉ length_fields r ->
  exists d', flip_byte_at (segment_path (Z.of_nat k)) (offset_at pre o) d = Some d'
    /\ exists e, recover d' = Err e /\ code e = WalCorrupted.
Proof.
  intros H Hk Ho No. destruct (flip_in_record _ _ _ _ _ _ _ H Hk Ho) as (b & closed & later & Hb & -> & <- & E).
  destruct H as [_ HF Hn HR]. rewrite List.concat_app in HF, HR. cbn [List.concat] in HF, HR. rewrite length_app in Hn. cbn [List.length] in Hn.
  rewrite !Forall_app, Forall_cons in HF. destruct HF as (HF1 & (HF2 & Hr & _) & _).
  apply replay_ok_forall in HR. rewrite !Forall_app in HR. destruct HR as (R1 & (R2 & _) & _).
  destruct (decode_damaged r _ (log_bytes post) Hr (flip_damages r o b Hb No)) as (e & He & Hc).
  eexists. split; [exact E|]. eapply recover_stops; eauto.
  - apply replay_ok_forall. now apply Forall_app.
  - pose proof (record_bytes_length r). rewrite length_app, length_insert. lia.
Qed.

(** ** A flipped length *)

(** The high byte of a short length: the length read exceeds what is left, as if the
    record had been cut. *)
Lemma flip_high_byte z b : 0 <= z < 256 -> write_u16 z !! 0%nat = Some b -> <[0%nat := flip b]> (write_u16 z) = write_u16 (65280 + z).
Proof.
  intros Hz H. assert (E : forall y, write_u16 y = [byte_of_Z (y / 256); byte_of_Z (y / 1)]) by reflexivity.
  rewrite E in H |- *. injection H as <-. cbn [insert list_insert]. rewrite E, !Z.div_1_r.
  change 65280 with (255 * 256). rewrite (Z.add_comm _ z), Z.div_add, Z.div_small by lia. f_equal. f_equal.
  apply Z_of_byte_inj. now rewrite !Z_of_byte_of_Z, Z.mod_add.
Qed.

Lemma decode_long_namespace r rest :
  record_ok r -> str_len (NbfRecord.namespace r) < 256 ->
  Z.of_nat (List.length (record_bytes r ++ rest)) < 65280 ->
  forall b, record_bytes r !! 32%nat = Some b -> is_torn (NbfRecord.decode (<[32%nat := flip b]> (record_bytes r) ++ rest)).
Proof.
  intros Hr Hns Hl b Hb. rewrite length_app in Hl. rewrite raw_record_self in *. unfold raw_record in *.
  assert (Lh : List.length (NBF_MAGIC ++ header_bytes r) = 32%nat) by reflexivity.
  rewrite app_assoc in Hb |- *. rewrite lookup_app_r, Lh, Nat.sub_diag, lookup_app_l in Hb by (rewrite ?Lh; cbn; lia).
  rewrite insert_app_r_alt, Lh, Nat.sub_diag, insert_app_l by (rewrite ?Lh; cbn; lia).
  rewrite (flip_high_byte _ b) by (assumption || (unfold str_len in Hns; lia)).
  unfold NbfRecord.decode. rewrite <- !app_assoc. rewrite read_exact_app by reflexivity.
  change (bytes_eqb NBF_MAGIC NBF_MAGIC) with true. cbn [negb]. rewrite read_exact_app by apply length_header.
  rewrite decode_header_ok by assumption. cbn [bindO]. apply is_torn_bind. unfold NbfRecord.decode_str.
  unfold str_len in Hns. unfold write_u16 at 1. rewrite read_be_app by (change (256 ^ Z.of_nat 2) with 65536; lia).
  rewrite read_exact_short; [eexists; split; reflexivity|]. rewrite !length_app in *. lia.
Qed.

Lemma replay_record_count_torn r st : replay_record r (count_torn st) = mapO count_torn (replay_record r st).
Proof.
  unfold replay_record, apply_record_to_state. destruct (NbfRecord.record_type r); cbn; try reflexivity;
    now destruct (NbfRecord.document_from_payload r).
Qed.

Lemma replay_count_torn rs st : replay rs (count_torn st) = mapO count_torn (replay rs st).
Proof.
  revert st. induction rs as [|r rs IH]; intros st; [reflexivity|]. cbn [replay]. rewrite replay_record_count_torn.
  destruct (replay_record r st) as [st'| |]; cbn [mapO bindO]; [apply IH|reflexivity..].
Qed.

(** A log whose segment after [closed] goes on, after [pre], with bytes read as a torn
    write: the segment is cut there, and the segments after it are replayed. *)
Lemma recover_cut closed pre bad later :
  Forall record_ok (List.concat closed) -> Forall record_ok pre -> Forall record_ok (List.concat later) ->
  is_torn (NbfRecord.decode bad) -> (4 <= List.length bad)%nat ->
  Z.of_nat (List.length closed + S (List.length later)) <= u64_max + 1 ->
  recover (dir_from 0 (List.map log_bytes closed ++ (log_bytes pre ++ bad) :: List.map log_bytes later))
  = let? st := replay (List.concat closed ++ pre ++ List.concat later) recovered_new in
    Ok (count_torn st, dir_from 0 (List.map log_bytes (closed ++ pre :: later))).
Proof.
  intros HF1 HF2 HF3 HT HL Hn. rewrite recover_changed by (assumption || lia). rewrite replay_app.
  destruct (replay (List.concat closed) recovered_new) as [st| |]; cbn [bindO]; try reflexivity.
  assert (L4 : (List.length bad <? 4)%nat = false) by now apply Nat.ltb_ge.
  rewrite recover_segment_end; [|exact HF2|unfold ends_log; now rewrite L4].
  rewrite replay_app, bindO_assoc. destruct (replay pre st) as [st1| |]; cbn [bindO]; try reflexivity.
  unfold settle, kept. rewrite L4, app_nil_r.
  assert (L : List.length (List.map log_bytes closed ++ (log_bytes pre ++ bad)%list :: List.map log_bytes later)
    = (List.length closed + S (List.length later))%nat) by (rewrite length_app; cbn [List.length]; now rewrite !length_map).
  rewrite <- (Z.add_0_l (Z.of_nat (List.length closed))), dir_from_insert by lia.
  rewrite insert_app_r_alt, length_map, Nat.sub_diag by now rewrite length_map. cbn [insert list_insert].
  set (d := dir_from 0 _). rewrite <- (app_nil_r (seqZ _ _)).
  rewrite recover_segments_whole; [|exact HF3|].
  - rewrite replay_count_torn. cbn [recover_segments]. destruct (replay (List.concat later) st1); cbn [bindO mapO]; try reflexivity.
    do 2 f_equal. unfold d. now rewrite List.map_app.
  - intros k c Hk. unfold d. replace (Z.of_nat (S (List.length closed)) + Z.of_nat k) with (0 + Z.of_nat (List.length closed + S k)) by lia.
    pose proof (lookup_lt_Some _ _ _ Hk) as Lk. rewrite length_map in Lk.
    rewrite dir_from_lookup by (rewrite ?length_app, ?length_map; cbn [List.length]; rewrite ?length_map; lia).
    rewrite lookup_app_r by (rewrite length_map; lia). rewrite length_map.
    replace (List.length closed + S k - List.length closed)%nat with (S k) by lia. exact Hk.
Qed.

(** The high byte of a namespace's length flipped: the record and all that follow it in
    its segment are dropped. *)
Lemma flip_of_a_length segs d k pre r post :
  holds segs d -> record_at segs k pre r post -> str_len (NbfRecord.namespace r) < 256 ->
  Z.of_nat (List.length (log_bytes (r :: post))) < 65280 ->
  exists d' st, flip_byte_at (segment_path (Z.of_nat k)) (offset_at pre 32) d = Some d'
    /\ replay (List.concat (<[k := pre]> segs)) recovered_new = Ok st
    /\ recover d' = Ok (count_torn st, dir_from 0 (List.map log_bytes (<[k := pre]> segs))).
Proof.
  intros H Hk Hns Hlen. pose proof (record_bytes_length r) as L32.
  destruct (flip_in_record _ _ _ _ _ _ _ H Hk L32) as (b & closed & later & Hb & -> & <- & E).
  destruct H as [_ HF Hn HR]. rewrite List.concat_app in HF, HR. cbn [List.concat] in HF, HR. rewrite length_app in Hn. cbn [List.length] in Hn.
  rewrite !Forall_app, Forall_cons in HF. destruct HF as (HF1 & (HF2 & Hr & _) & HF3).
  apply replay_ok_forall in HR. rewrite !Forall_app in HR. destruct HR as (R1 & (R2 & _) & R3).
  rewrite insert_app_r_alt, Nat.sub_diag by lia. cbn [insert list_insert]. rewrite List.concat_app. cbn [List.concat].
  assert (O : is_ok (replay (List.concat closed ++ pre ++ List.concat later) recovered_new) = true).
  { apply replay_ok_forall. rewrite !Forall_app. now repeat split. }
  destruct (replay (List.concat closed ++ pre ++ List.concat later) recovered_new) as [st| |] eqn:Er; [|discriminate O..].
  eexists _, st. split; [exact E|]. split; [reflexivity|]. rewrite recover_cut, Er; try assumption; [reflexivity|..].
  - apply decode_long_namespace; assumption.
  - rewrite length_app, length_insert. lia.
Qed.

(** ** A file cut short *)

(** Cutting bytes off the last segment loses the records the cut touches, and no other. *)
Lemma truncate_last closed opened n d :
  holds (closed ++ [opened]) d -> 0 <= n ->
  exists survivors lost tail d', opened = (survivors ++ lost)%list
    /\ match lost with
       | [] => n = 0 \/ opened = []
       | _ :: rest => Z.of_nat (List.length (log_bytes rest)) < n
       end
    /\ truncate_tail (segment_path (Z.of_nat (List.length closed))) n d = Some d'
    /\ recover d' = let? st := replay (List.concat closed ++ survivors) recovered_new in
         Ok (settle tail st, dir_from 0 (List.map log_bytes closed ++ [log_bytes survivors ++ kept tail])).
Proof.
  intros [-> HF Hn _] H0. rewrite List.map_app. cbn [List.map].
  rewrite List.concat_app in HF. cbn [List.concat] in HF. rewrite app_nil_r in HF. rewrite length_app in Hn. cbn [List.length] in Hn.
  set (len := Z.of_nat (List.length (log_bytes opened))).
  assert (Hkeep : exists keep, Z.to_nat (if len <? n then 0 else len - n) = keep /\ (keep <= List.length (log_bytes opened))%nat
    /\ (Z.of_nat keep = len - n \/ keep = 0%nat /\ len < n)).
  { eexists. split; [reflexivity|]. unfold len. case_if; bool_facts; lia. }
  destruct Hkeep as (keep & Ek & Hkeep & Hn').
  destruct (prefix_of_blocks record_bytes opened (firstn keep (log_bytes opened)) (skipn keep (log_bytes opened))
    (firstn_skipn _ _)) as (s & lost & tail & -> & E & HW). fold (log_bytes s) in E.
  pose proof HF as HF'. rewrite app_assoc in HF'. apply Forall_app in HF' as [HF1 HF2].
  assert (HT : tail_of tail).
  { destruct lost as [|r lost]; [subst; apply tail_nil|]. destruct HW as (j & Hj & ->). inversion HF2; subst. now constructor. }
  exists s, lost, tail, (dir_from 0 (List.map log_bytes closed ++ [(log_bytes s ++ tail)%list])). split; [reflexivity|].
  assert (EL : keep = (List.length (log_bytes s) + List.length tail)%nat).
  { rewrite <- length_app, <- E, length_firstn. lia. }
  split; [|split].
  - unfold len in Hn'. rewrite log_bytes_app, length_app in Hn', Hkeep. destruct lost as [|r lost].
    + subst tail. cbn [log_bytes List.map List.concat List.length] in *. rewrite app_nil_r. destruct s as [|r s]; [now right|left].
      rewrite log_bytes_cons, length_app in *. pose proof (record_bytes_length r). lia.
    + destruct HW as (j & Hj & ->). rewrite length_firstn in EL. rewrite log_bytes_cons, length_app in Hn', Hkeep. lia.
  - unfold truncate_tail. rewrite <- (Z.add_0_l (Z.of_nat _)).
    rewrite dir_from_lookup by (rewrite ?length_app, ?length_map; cbn [List.length]; lia).
    rewrite <- (length_map log_bytes closed) at 1. rewrite list_lookup_middle by reflexivity.
    cbn [mbind option_bind]. fold len. rewrite Ek, E. f_equal. rewrite <- (length_map log_bytes closed).
    apply dir_from_replace. rewrite length_map. lia.
  - apply recover_log; [exact HF1|exact HT|lia].
Qed.

(** ** Bytes appended *)

Lemma append_to_last closed opened garbage d :
  holds (closed ++ [opened]) d -> bytes_eqb (firstn 4 garbage) NBF_MAGIC = false -> (4 <= List.length garbage)%nat ->
  exists d', append_garbage (segment_path (Z.of_nat (List.length closed))) garbage d = Some d'
    /\ exists e, recover d' = Err e /\ code e = WalCorrupted.
Proof.
  intros [-> HF Hn HR] Hg Hl. rewrite List.map_app. cbn [List.map].
  rewrite List.concat_app in HF, HR. cbn [List.concat] in HF, HR. rewrite app_nil_r in HF, HR.
  rewrite length_app in Hn. cbn [List.length] in Hn. apply Forall_app in HF as [HF1 HF2].
  assert (A : append_garbage (segment_path (Z.of_nat (List.length closed))) garbage (dir_from 0 (List.map log_bytes closed ++ [log_bytes opened]))
    = Some (dir_from 0 (List.map log_bytes closed ++ [(log_bytes opened ++ garbage)%list]))).
  { unfold append_garbage. rewrite <- (Z.add_0_l (Z.of_nat _)).
    rewrite dir_from_lookup by (rewrite ?length_app, ?length_map; cbn [List.length]; lia).
    rewrite <- (length_map log_bytes closed) at 1. rewrite list_lookup_middle by reflexivity.
    cbn [mbind option_bind]. f_equal. rewrite <- (length_map log_bytes closed). apply dir_from_replace. rewrite length_map. lia. }
  assert (D : exists e, NbfRecord.decode garbage = Err e /\ code e <> TornWriteDetected).
  { unfold NbfRecord.decode, read_exact at 1. rewrite (proj2 (Nat.leb_le _ _)) by exact Hl. rewrite Hg. cbn [negb].
    eexists. split; [reflexivity|discriminate]. }
  destruct D as (e & He & Hc). eexists. split; [exact A|].
  apply (recover_stops closed opened garbage [] e); try assumption.
Qed.
End DamagedLog.
