(* ===== verification/Snapshot.v ===== *)
(** [nova-storage/src/snapshot.rs]: point-in-time snapshots of the collections.

    The snapshot directory is a finite map from file names to contents, absent until
    the first snapshot; identifiers are names without path separators.  File
    operations succeed.  [serde_json::to_vec_pretty] is external like [to_vec]. *)

From S2P Require Export Recovery.

Class PrettyJson := json_to_vec_pretty : Json -> bytes.

Class PrettyLaws `{JsonLib} (P : PrettyJson) : Prop :=
  json_parse_pretty : forall j, text_safe j = true -> json_from_slice (json_to_vec_pretty j) = Some j.

Record SnapshotMetadata := {
  meta_id : string;
  meta_timestamp : Z;
  meta_database_version : string;
  meta_storage_version : Z;
  meta_document_count : Z;
  meta_size_bytes : Z;
  meta_checksum : Z;
}.

(** ** Hash tables filled by a loop, and their JSON *)

(** [insert] of every pair, the last one of a key wins. *)
Definition collect_map `{Countable K} {V} (l : list (K * V)) : gmap K V :=
  fold_left (fun m p => <[p.1 := p.2]> m) l ∅.

Definition json_of_map `{HashOrder} {V} (f : V -> Json) (m : gmap string V) : Json :=
  JObject (List.map (fun p => (p.1, f p.2)) (hash_order (map_to_list m))).

Definition map_of_json {V} (f : Json -> option V) (j : Json) : option (gmap string V) :=
  match j with
  | JObject m => collect_map <$> mapM (fun p : string * Json => v ← f p.2; Some (p.1, v)) m
  | _ => None
  end.

(** ** Names *)

Definition flat_key (key : CollectionKey) : string := (key.1 ++ "::" ++ key.2)%string.

(** [key_str.split("::")], as the first part and the others. *)
Fixpoint split_colons (s : string) : string * list string :=
  match s with
  | EmptyString => (EmptyString, [])
  | String ":" (String ":" s') => let (p, ps) := split_colons s' in (EmptyString, p :: ps)
  | String a s' => let (p, ps) := split_colons s' in (String a p, ps)
  end.

Fixpoint ends_with (suffix s : string) : bool :=
  String.eqb s suffix || match s with String _ s' => ends_with suffix s' | EmptyString => false end.

Definition data_name (snapshot_id : string) : string := (snapshot_id ++ ".snap")%string.
Definition meta_name (snapshot_id : string) : string := (snapshot_id ++ ".meta.json")%string.

(** [env!("CARGO_PKG_VERSION")]. *)
Definition package_version : string := "0.1.1".

Module SnapshotManager.
Section Snapshot.
Context {C : CrcLib} {U : UuidLib} {J : JsonLib} {PJ : PrettyJson} {HO : HashOrder}.

Definition json_of_metadata (m : SnapshotMetadata) : Json :=
  JObject [("id", JString (meta_id m)); ("timestamp", JNumber (num_of_i64 (meta_timestamp m)));
           ("database_version", JString (meta_database_version m));
           ("storage_version", JNumber (PosInt (meta_storage_version m)));
           ("document_count", JNumber (PosInt (meta_document_count m)));
           ("size_bytes", JNumber (PosInt (meta_size_bytes m)));
           ("checksum", JNumber (PosInt (meta_checksum m)))]%string.

(** An unsigned integer no larger than [top]. *)
Definition json_uint (top : Z) (j : Json) : option Z :=
  n ← json_u64 j; if n <=? top then Some n else None.

Definition metadata_of_fields (ji jt jv js jd jb jc : option Json) : option SnapshotMetadata :=
  i ← ji ≫= json_str; t ← jt ≫= json_i64; v ← jv ≫= json_str; s ← js ≫= json_uint u16_max;
  d ← jd ≫= json_u64; b ← jb ≫= json_u64; c ← jc ≫= json_uint u32_max;
  Some {| meta_id := i; meta_timestamp := t; meta_database_version := v; meta_storage_version := s;
          meta_document_count := d; meta_size_bytes := b; meta_checksum := c |}.

Definition metadata_of_json (j : Json) : option SnapshotMetadata :=
  match j with
  | JObject m =>
    metadata_of_fields (json_member "id" m) (json_member "timestamp" m) (json_member "database_version" m)
      (json_member "storage_version" m) (json_member "document_count" m) (json_member "size_bytes" m)
      (json_member "checksum" m)
  | JArray [ji; jt; jv; js; jd; jb; jc] =>
    metadata_of_fields (Some ji) (Some jt) (Some jv) (Some js) (Some jd) (Some jb) (Some jc)
  | _ => None
  end.

(** [SnapshotData]. *)
Abbreviation SnapshotData := (gmap string (gmap string Document)).

Definition json_of_data (data : SnapshotData) : Json :=
  JObject [("collections", json_of_map (json_of_map json_of_document) data)]%string.

Definition data_of_json (j : Json) : option SnapshotData :=
  match j with
  | JObject m => json_member "collections" m ≫= map_of_json (map_of_json document_of_json)
  | JArray [jc] => map_of_json (map_of_json document_of_json) jc
  | _ => None
  end.

(** The loop of [create] over the collections, and over the documents of one. *)
Definition string_doc_map (doc_map : DocumentStore) : gmap string Document :=
  collect_map (hash_order (map_to_list doc_map)).

Definition flat_collections (collections : gmap CollectionKey DocumentStore) : SnapshotData :=
  collect_map (List.map (fun p => (flat_key p.1, string_doc_map p.2)) (hash_order (map_to_list collections))).

Definition doc_count (collections : gmap CollectionKey DocumentStore) : Z :=
  fold_left (fun n p => n + Z.of_nat (size p.2)) (hash_order (map_to_list collections)) 0.

Definition snapshot_bytes (collections : gmap CollectionKey DocumentStore) : bytes :=
  json_to_vec (json_of_data (flat_collections collections)).

Definition create (now : Z) (dir : option (gmap string bytes)) (snapshot_id : string)
    (collections : gmap CollectionKey DocumentStore) : option (gmap string bytes) * result SnapshotMetadata :=
  let files := default ∅ dir in
  let raw_bytes := snapshot_bytes collections in
  let meta := {| meta_id := snapshot_id; meta_timestamp := now; meta_database_version := package_version;
                 meta_storage_version := NBF_VERSION; meta_document_count := doc_count collections;
                 meta_size_bytes := Z.of_nat (List.length raw_bytes); meta_checksum := crc32 raw_bytes |} in
  let files := <[data_name snapshot_id := raw_bytes]> files in
  let files := <[meta_name snapshot_id := json_to_vec_pretty (json_of_metadata meta)]> files in
  (Some files, Ok meta).

(** [list]. *)
Definition list_snapshots (dir : option (gmap string bytes)) : result (list SnapshotMetadata) :=
  match dir with
  | None => Ok []
  | Some files =>
    let snapshots :=
      omap (fun p : string * bytes =>
              if ends_with ".meta.json" p.1 then json_from_slice p.2 ≫= metadata_of_json else None)
           (hash_order (map_to_list files)) in
    Ok (sort_by (fun a b => meta_timestamp b ?= meta_timestamp a) snapshots)
  end.

(** The loop of [restore] over the deserialised collections: a key that does not
    split in two is skipped, like an identifier [DocumentId::new] refuses. *)
Definition restored_docs (doc_map : gmap string Document) : DocumentStore :=
  collect_map (omap (fun p => match DocId.new p.1 with Ok doc_id => Some (doc_id, p.2) | _ => None end)
                    (hash_order (map_to_list doc_map))).

Definition restored (data : SnapshotData) : gmap CollectionKey DocumentStore :=
  collect_map (omap (fun p => match split_colons p.1 with
                              | (ns, [coll]) => Some ((ns, coll), restored_docs p.2)
                              | _ => None
                              end)
                    (hash_order (map_to_list data))).

Definition restore (dir : option (gmap string bytes)) (snapshot_id : string)
    : result (SnapshotMetadata * gmap CollectionKey DocumentStore) :=
  let files := default ∅ dir in
  match files !! meta_name snapshot_id, files !! data_name snapshot_id with
  | Some meta_bytes, Some raw_bytes =>
    match json_from_slice meta_bytes ≫= metadata_of_json with
    | None => Err (storage ("Corrupt snapshot metadata: " ++ json_error_text meta_bytes))
    | Some meta =>
      let calculated := crc32 raw_bytes in
      if negb (calculated =? meta_checksum meta) then
        Err (checksum_mismatch (meta_checksum meta) calculated)
      else
        match json_from_slice raw_bytes ≫= data_of_json with
        | None => Err (storage ("Failed to deserialize snapshot: " ++ json_error_text raw_bytes))
        | Some payload => Ok (meta, restored payload)
        end
    end
  | _, _ => Err (Errors.new SnapshotFailed ("Snapshot '" ++ snapshot_id ++ "' does not exist")%string)
  end.
End Snapshot.
End SnapshotManager.
