(* ===== verification/Protocol.v ===== *)
(** [nova-protocol/src/frame.rs] and [codec.rs]: NVP frames and the stream codec. *)

From S2P Require Export Nbf.

Definition NVP_MAGIC : bytes := [x4e; x56; x50; x31].
Definition NVP_VERSION : Z := 1.
Definition NVP_HEADER_SIZE : nat := 20.
Definition NVP_CHECKSUM_SIZE : nat := 4.
Definition MAX_FRAME_PAYLOAD_SIZE : Z := 16 * 1024 * 1024.

Inductive FrameType := FRequest | FResponse | FEvent | FError | FPing | FPong.

#[export] Instance FrameType_eq_dec : EqDecision FrameType.
Proof. solve_decision. Defined.

Definition frame_type_as_u8 (t : FrameType) : Z :=
  match t with
  | FRequest => 0x01
  | FResponse => 0x02
  | FEvent => 0x03
  | FError => 0x04
  | FPing => 0x05
  | FPong => 0x06
  end.

(** [FrameType::from_u8]. *)
Definition frame_type_from_u8 (b : Z) : result FrameType :=
  if b =? 0x01 then Ok FRequest
  else if b =? 0x02 then Ok FResponse
  else if b =? 0x03 then Ok FEvent
  else if b =? 0x04 then Ok FError
  else if b =? 0x05 then Ok FPing
  else if b =? 0x06 then Ok FPong
  else Err (protocol ("Unknown NVP frame type: 0x" ++ fmt_hex true 2 b)).

(** The derived [Debug] text. *)
Definition frame_type_debug (t : FrameType) : string :=
  match t with
  | FRequest => "Request"
  | FResponse => "Response"
  | FEvent => "Event"
  | FError => "Error"
  | FPing => "Ping"
  | FPong => "Pong"
  end.

Module NvpFrame.
Record t := { frame_type : FrameType; flags : Z; request_id : Z; payload : bytes }.

Definition new (ty : FrameType) (rid : Z) (pl : bytes) : t :=
  {| frame_type := ty; flags := 0; request_id := rid; payload := pl |}.

Definition ping (rid : Z) : t := new FPing rid [].
Definition pong (rid : Z) : t := new FPong rid [].

Section Codec.
Context {C : CrcLib}.

Definition payload_len (f : t) : Z := Z.of_nat (List.length (payload f)).

(** [NvpFrame::encode]; the buffer is a vector, so the writes succeed. *)
Definition encode (f : t) : result bytes :=
  if MAX_FRAME_PAYLOAD_SIZE <? payload_len f then
    Err (Errors.new FrameTooLarge ("Payload size " ++ fmt_int (payload_len f)
           ++ " bytes exceeds maximum allowed " ++ fmt_int MAX_FRAME_PAYLOAD_SIZE ++ " bytes"))
  else
    let buf := (NVP_MAGIC ++ write_u16 NVP_VERSION ++ write_u8 (frame_type_as_u8 (frame_type f))
                ++ write_u8 (flags f) ++ write_u64 (request_id f)
                ++ write_u32 (payload_len f) ++ payload f)%list in
    Ok (buf ++ write_u32 (crc32 buf))%list.

(** The sixteen bytes after the magic, through a cursor. *)
Definition decode_header (header : bytes) : result (FrameType * Z * Z * Z) :=
  let io {A} (o : option A) : result A :=
    match o with Some a => Ok a | None => Err (protocol eof_text) end in
  let? (version, r) := io (read_be 2 header) in
  if negb (version =? NVP_VERSION) then
    Err (protocol ("Unsupported NVP version: " ++ fmt_int version))
  else
    let? (ty_byte, r) := io (read_be 1 r) in
    let? ty := frame_type_from_u8 ty_byte in
    let? (fl, r) := io (read_be 1 r) in
    let? (rid, r) := io (read_be 8 r) in
    let? (len, r) := io (read_be 4 r) in
    Ok (ty, fl, rid, len).

(** [NvpFrame::decode_from_slice]: the frame and the number of bytes it took. *)
Definition decode_from_slice (src : bytes) : result (option (t * nat)) :=
  if (List.length src <? NVP_HEADER_SIZE)%nat then Ok None
  else if negb (bytes_eqb (firstn 4 src) NVP_MAGIC) then
    Err (with_details ProtocolViolation "Invalid NVP magic bytes"
           ("Expected " ++ fmt_debug_bytes NVP_MAGIC ++ ", found " ++ fmt_debug_bytes (firstn 4 src)))
  else
    let? (ty, fl, rid, len) := decode_header (firstn 16 (skipn 4 src)) in
    if MAX_FRAME_PAYLOAD_SIZE <? len then
      Err (Errors.new FrameTooLarge ("Oversized frame: declared length " ++ fmt_int len
             ++ " exceeds limit " ++ fmt_int MAX_FRAME_PAYLOAD_SIZE))
    else
      let payload_len := Z.to_nat len in
      let total_frame_len := (NVP_HEADER_SIZE + payload_len + NVP_CHECKSUM_SIZE)%nat in
      if (List.length src <? total_frame_len)%nat then Ok None
      else
        let pl := firstn payload_len (skipn NVP_HEADER_SIZE src) in
        match read_be 4 (skipn (NVP_HEADER_SIZE + payload_len) src) with
        | None => Err (protocol eof_text)
        | Some (expected_checksum, _) =>
          let calculated_checksum := crc32 (firstn (NVP_HEADER_SIZE + payload_len) src) in
          if negb (expected_checksum =? calculated_checksum) then
            Err (checksum_mismatch expected_checksum calculated_checksum)
          else
            Ok (Some ({| frame_type := ty; flags := fl; request_id := rid; payload := pl |},
                      total_frame_len))
        end.
End Codec.
End NvpFrame.

(** ** [codec.rs] *)

Module NvpCodec.
Section Codec.
Context {C : CrcLib}.

(** [Decoder::decode]: the frame and what is left in the buffer; the error is
    the text of the [io::Error]. *)
Definition decode (src : bytes) : bytes * outcome string (option NvpFrame.t) :=
  match NvpFrame.decode_from_slice src with
  | Ok (Some (frame, bytes_consumed)) => (skipn bytes_consumed src, Ok (Some frame))
  | Ok None => (src, Ok None)
  | Err e => (src, Err (error_to_string e))
  | Panic => (src, Panic)
  end.

(** [Encoder::encode]. *)
Definition encode (item : NvpFrame.t) (dst : bytes) : bytes * outcome string unit :=
  match NvpFrame.encode item with
  | Ok b => ((dst ++ b)%list, Ok tt)
  | Err e => (dst, Err (error_to_string e))
  | Panic => (dst, Panic)
  end.

(** The use of the decoder by a framed stream: after every chunk that arrives,
    decode until the buffer holds no whole frame.  Every frame takes at least
    one byte, so the length of the buffer is enough fuel. *)
Fixpoint drain (fuel : nat) (buf : bytes) : bytes * outcome string (list NvpFrame.t) :=
  match fuel with
  | O => (buf, Ok [])
  | S fuel' =>
    match decode buf with
    | (buf', Ok (Some f)) =>
      let (buf', r) := drain fuel' buf' in (buf', mapO (cons f) r)
    | (buf', Ok None) => (buf', Ok [])
    | (buf', Err e) => (buf', Err e)
    | (buf', Panic) => (buf', Panic)
    end
  end.

Fixpoint read_chunks (buf : bytes) (chunks : list bytes) : bytes * outcome string (list NvpFrame.t) :=
  match chunks with
  | [] => (buf, Ok [])
  | c :: chunks' =>
    match drain (S (List.length (buf ++ c))) (buf ++ c) with
    | (buf', Ok fs) =>
      let (buf', r) := read_chunks buf' chunks' in (buf', mapO (app fs) r)
    | (buf', Err e) => (buf', Err e)
    | (buf', Panic) => (buf', Panic)
    end
  end.
End Codec.
End NvpCodec.

(** ** Laws *)

Section FrameLaws.
Context {C : CrcLib} {CL : CrcLaws C}.
Import NvpFrame.

(** Frames within the widths of the header fields and the payload limit. *)
Definition frame_ok (f : t) : Prop :=
  0 <= flags f <= u8_max /\ in_u64 (request_id f) = true /\ payload_len f <= MAX_FRAME_PAYLOAD_SIZE.

Definition header16 (f : t) : bytes :=
  write_u16 NVP_VERSION ++ write_u8 (frame_type_as_u8 (frame_type f)) ++ write_u8 (flags f)
    ++ write_u64 (request_id f) ++ write_u32 (payload_len f).

Definition frame_body (f : t) : bytes := NVP_MAGIC ++ header16 f ++ payload f.

Definition wire_bytes (f : t) : bytes := frame_body f ++ write_u32 (crc32 (frame_body f)).

Lemma frame_encode_ok f : frame_ok f -> encode f = Ok (wire_bytes f).
Proof.
  intros (_ & _ & H). unfold encode. rewrite (proj2 (Z.ltb_ge _ _)) by lia.
  unfold wire_bytes, frame_body, header16. now rewrite <- !app_assoc.
Qed.

Lemma length_header16 f : List.length (header16 f) = 16%nat.
Proof. reflexivity. Qed.

Lemma length_frame_body f : List.length (frame_body f) = (20 + List.length (payload f))%nat.
Proof. unfold frame_body. now rewrite !length_app, length_header16. Qed.

Lemma length_wire f : List.length (wire_bytes f) = (24 + List.length (payload f))%nat.
Proof. unfold wire_bytes. rewrite length_app, length_frame_body. cbn. lia. Qed.

Lemma frame_type_roundtrip ty : frame_type_from_u8 (frame_type_as_u8 ty) = Ok ty.
Proof. now destruct ty. Qed.

Lemma frame_type_range ty : 0 <= frame_type_as_u8 ty < 256.
Proof. destruct ty; cbn; lia. Qed.

Lemma frame_type_from_u8_inv b ty : frame_type_from_u8 b = Ok ty -> b = frame_type_as_u8 ty.
Proof.
  unfold frame_type_from_u8. repeat (case_if; [intros [= <-]; now apply Z.eqb_eq|]). discriminate.
Qed.

Lemma frame_header_ok f :
  frame_ok f -> decode_header (header16 f) = Ok (frame_type f, flags f, request_id f, payload_len f).
Proof.
  intros (Hf & Hr & Hp). unfold in_u64, u64_max, u8_max in *. bool_facts.
  unfold decode_header, header16, write_u16, write_u8, write_u64, write_u32.
  rewrite read_be_app by (unfold NVP_VERSION; change (256 ^ Z.of_nat 2) with 65536; lia).
  cbn [bindO]. rewrite Z.eqb_refl. cbn [negb].
  rewrite read_be_app by (apply frame_type_range). cbn [bindO].
  rewrite frame_type_roundtrip. cbn [bindO].
  rewrite read_be_app by (change (256 ^ Z.of_nat 1) with 256; lia). cbn [bindO].
  rewrite read_be_app by (change (256 ^ Z.of_nat 8) with 18446744073709551616; lia). cbn [bindO].
  rewrite <- (app_nil_r (be_split 4 (payload_len f))).
  rewrite read_be_app; [reflexivity|].
  change (256 ^ Z.of_nat 4) with 4294967296. unfold payload_len, MAX_FRAME_PAYLOAD_SIZE in *. lia.
Qed.

(** What decoding does with a whole header, whatever follows it. *)
Lemma decode_after_header f y :
  frame_ok f ->
  decode_from_slice (NVP_MAGIC ++ header16 f ++ y)
  = let n := List.length (payload f) in
    if (List.length y <? n + 4)%nat then Ok None
    else match read_be 4 (skipn n y) with
         | None => Err (protocol eof_text)
         | Some (expected, _) =>
           let calculated := crc32 (NVP_MAGIC ++ header16 f ++ firstn n y) in
           if negb (expected =? calculated) then Err (checksum_mismatch expected calculated)
           else Ok (Some ({| frame_type := frame_type f; flags := flags f; request_id := request_id f;
                             payload := firstn n y |}, (24 + n)%nat))
         end.
Proof.
  intros Hf. pose proof Hf as (_ & _ & Hp). unfold decode_from_slice, NVP_HEADER_SIZE, NVP_CHECKSUM_SIZE.
  rewrite !length_app, length_header16. change (List.length NVP_MAGIC) with 4%nat.
  rewrite (proj2 (Nat.ltb_ge _ _)) by lia.
  change (firstn 4 (NVP_MAGIC ++ ?z)) with NVP_MAGIC. change (skipn 4 (NVP_MAGIC ++ ?z)) with z.
  change (bytes_eqb NVP_MAGIC NVP_MAGIC) with true. cbn [negb].
  rewrite firstn_app, length_header16, Nat.sub_diag, firstn_O, app_nil_r.
  rewrite (firstn_all2 (header16 f)) by (now rewrite length_header16).
  rewrite frame_header_ok by assumption. cbn [bindO]. rewrite (proj2 (Z.ltb_ge _ _)) by lia.
  unfold payload_len. rewrite Nat2Z.id. set (n := List.length (payload f)). cbn zeta.
  assert (S20 : forall k, skipn (20 + k) (NVP_MAGIC ++ header16 f ++ y) = skipn k y).
  { intros k. rewrite app_assoc, skipn_app, skipn_all2 by (rewrite length_app, length_header16; cbn; lia).
    rewrite length_app, length_header16. cbn [app List.length NVP_MAGIC]. f_equal. lia. }
  assert (F20 : forall k, firstn (20 + k) (NVP_MAGIC ++ header16 f ++ y) = (NVP_MAGIC ++ header16 f ++ firstn k y)%list).
  { intros k. rewrite app_assoc, firstn_app, firstn_all2 by (rewrite length_app, length_header16; cbn; lia).
    rewrite length_app, length_header16, <- app_assoc. cbn [List.length NVP_MAGIC]. do 3 f_equal. lia. }
  rewrite (S20 n), (F20 n). pose proof (S20 0%nat) as S0. cbn [skipn] in S0. change (20 + 0)%nat with 20%nat in S0.
  rewrite S0. clear S20 F20 S0.
  replace (4 + (16 + List.length y) <? 20 + n + 4)%nat with (List.length y <? n + 4)%nat
    by (destruct (Nat.ltb_spec (List.length y) (n + 4)), (Nat.ltb_spec (4 + (16 + List.length y)) (20 + n + 4)); lia || reflexivity).
  destruct (List.length y <? n + 4)%nat; [reflexivity|].
  destruct (read_be 4 (skipn n y)) as [[e r]|]; [|reflexivity].
  replace (20 + n + 4)%nat with (24 + n)%nat by lia. reflexivity.
Qed.

Lemma read_crc f rest :
  read_be 4 (write_u32 (crc32 (frame_body f)) ++ rest) = Some (crc32 (frame_body f), rest).
Proof.
  apply read_be_app. pose proof (crc32_range (frame_body f)). change (256 ^ Z.of_nat 4) with (2 ^ 32). lia.
Qed.

Lemma frame_decode_ok f rest :
  frame_ok f -> decode_from_slice (wire_bytes f ++ rest) = Ok (Some (f, List.length (wire_bytes f))).
Proof.
  intros Hf. unfold wire_bytes at 1, frame_body at 1. rewrite <- !app_assoc.
  rewrite decode_after_header by assumption. cbn zeta. rewrite !length_app. change (List.length (write_u32 ?z)) with 4%nat.
  rewrite (proj2 (Nat.ltb_ge _ _)) by lia.
  rewrite skipn_app, skipn_all, Nat.sub_diag, app_nil_l, skipn_O, read_crc.
  rewrite firstn_app, firstn_all, Nat.sub_diag, firstn_O, app_nil_r.
  fold (frame_body f). rewrite Z.eqb_refl, length_wire. now destruct f.
Qed.

Lemma frame_decode_prefix f n :
  frame_ok f -> (n < List.length (wire_bytes f))%nat ->
  decode_from_slice (firstn n (wire_bytes f)) = Ok None.
Proof.
  intros Hf Hn. rewrite length_wire in Hn. destruct (Nat.lt_ge_cases n 20) as [L|L].
  - unfold decode_from_slice. rewrite (proj2 (Nat.ltb_lt _ _)); [reflexivity|].
    rewrite length_firstn. unfold NVP_HEADER_SIZE. lia.
  - unfold wire_bytes at 1, frame_body at 1. rewrite <- !app_assoc.
    rewrite app_assoc, firstn_app, firstn_all2 by (rewrite length_app, length_header16; cbn; lia).
    rewrite length_app, length_header16, <- app_assoc. cbn [List.length NVP_MAGIC].
    rewrite decode_after_header by assumption. cbn zeta.
    rewrite (proj2 (Nat.ltb_lt _ _)); [reflexivity|]. rewrite length_firstn. lia.
Qed.

Lemma frame_header_inv h ty fl rid len :
  List.length h = 16%nat -> decode_header h = Ok (ty, fl, rid, len) ->
  h = (write_u16 NVP_VERSION ++ write_u8 (frame_type_as_u8 ty) ++ write_u8 fl ++ write_u64 rid
       ++ write_u32 len)%list
  /\ 0 <= fl < 2 ^ 8 /\ 0 <= rid < 2 ^ 64 /\ 0 <= len < 2 ^ 32.
Proof.
  unfold decode_header. intros Hlen H.
  destruct (read_be 2 h) as [[v r1]|] eqn:E1; [|discriminate]. cbn [bindO] in H.
  destruct (v =? NVP_VERSION) eqn:Ev; [|discriminate]. cbn [negb] in H.
  destruct (read_be 1 r1) as [[bt r2]|] eqn:E2; [|discriminate]. cbn [bindO] in H.
  destruct (frame_type_from_u8 bt) as [ty'| |] eqn:Et; try discriminate. cbn [bindO] in H.
  destruct (read_be 1 r2) as [[fl' r3]|] eqn:E3; [|discriminate]. cbn [bindO] in H.
  destruct (read_be 8 r3) as [[rid' r4]|] eqn:E4; [|discriminate]. cbn [bindO] in H.
  destruct (read_be 4 r4) as [[len' r5]|] eqn:E5; [|discriminate]. cbn [bindO] in H.
  injection H as <- <- <- <-. apply Z.eqb_eq in Ev as ->. apply frame_type_from_u8_inv in Et as ->.
  apply read_be_inv in E1 as [-> _], E2 as [-> _], E3 as [-> B3], E4 as [-> B4], E5 as [-> B5].
  rewrite !length_app, !length_be_split in Hlen. destruct r5; [|cbn in Hlen; lia].
  rewrite app_nil_r. split; [reflexivity|]. repeat split; apply B3 || apply B4 || apply B5.
Qed.

Lemma frame_decode_inv src f n :
  decode_from_slice src = Ok (Some (f, n)) ->
  frame_ok f /\ exists rest, src = (wire_bytes f ++ rest)%list /\ n = List.length (wire_bytes f).
Proof.
  intros H. assert (L : (20 <= List.length src)%nat).
  { unfold decode_from_slice in H. destruct (Nat.ltb_spec (List.length src) NVP_HEADER_SIZE); [discriminate|assumption]. }
  rewrite <- (firstn_skipn 4 src), <- (firstn_skipn 16 (skipn 4 src)) in H.
  rewrite <- (firstn_skipn 4 src), <- (firstn_skipn 16 (skipn 4 src)).
  set (h := firstn 16 (skipn 4 src)) in *. set (y := skipn 16 (skipn 4 src)) in *.
  assert (Lh : List.length h = 16%nat) by (subst h; rewrite length_firstn, length_skipn; lia).
  assert (Lm : List.length (firstn 4 src) = 4%nat) by (rewrite length_firstn; lia).
  set (m := firstn 4 src) in *. clearbody m h y.
  assert (Em : m = NVP_MAGIC /\ exists ty fl rid len, decode_header h = Ok (ty, fl, rid, len)
              /\ len <= MAX_FRAME_PAYLOAD_SIZE).
  { unfold decode_from_slice in H. rewrite (proj2 (Nat.ltb_ge _ _)) in H by (rewrite !length_app, Lm, Lh; unfold NVP_HEADER_SIZE; lia).
    rewrite (firstn_prefix 4 m), (skipn_prefix 4 m), (firstn_prefix 16 h) in H by assumption.
    destruct (bytes_eqb m NVP_MAGIC) eqn:E; [|discriminate]. cbn [negb] in H.
    unfold bytes_eqb in E. case_decide; [|discriminate]. split; [assumption|].
    inv_ok H. destruct r as [[[ty fl] rid] len]. exists ty, fl, rid, len. split; [assumption|].
    destruct (MAX_FRAME_PAYLOAD_SIZE <? len) eqn:El; [discriminate|]. now apply Z.ltb_ge in El. }
  destruct Em as (-> & ty & fl & rid & len & Eh & Hlen).
  apply frame_header_inv in Eh as (-> & Bf & Br & Bl); [|assumption].
  set (f0 := {| frame_type := ty; flags := fl; request_id := rid; payload := repeat x00 (Z.to_nat len) |}).
  assert (Hlen0 : payload_len f0 = len).
  { unfold payload_len, f0. cbn [payload]. rewrite repeat_length. lia. }
  assert (Hok : frame_ok f0).
  { unfold frame_ok. rewrite Hlen0. cbn [flags request_id f0]. unfold u8_max, in_u64, u64_max.
    change (2 ^ 8) with 256 in Bf. change (2 ^ 64) with 18446744073709551616 in Br.
    split; [lia|]. split; [apply andb_true_iff; split; apply Z.leb_le; lia|assumption]. }
  assert (Eh : header16 f0 = (write_u16 NVP_VERSION ++ write_u8 (frame_type_as_u8 ty) ++ write_u8 fl
               ++ write_u64 rid ++ write_u32 len)%list) by (unfold header16; now rewrite Hlen0).
  rewrite <- Eh in *. clear Eh Lh. rewrite (decode_after_header f0 y Hok) in H. cbn zeta in H.
  assert (Ln : List.length (payload f0) = Z.to_nat len) by apply repeat_length.
  rewrite Ln in H. destruct (Nat.ltb_spec (List.length y) (Z.to_nat len + 4)) as [|Ly]; [discriminate|].
  destruct (read_be 4 (skipn (Z.to_nat len) y)) as [[e r]|] eqn:Er; [|discriminate].
  destruct (e =? _) eqn:Ee in H; [|discriminate]. cbn [negb] in H. injection H as <- <-.
  apply Z.eqb_eq in Ee. apply read_be_inv in Er as [Ey Be].
  set (f := {| frame_type := ty; flags := fl; request_id := rid; payload := firstn (Z.to_nat len) y |}).
  assert (Lp : List.length (payload f) = Z.to_nat len) by (cbn; rewrite length_firstn; lia).
  assert (Ef : header16 f = header16 f0).
  { unfold header16. rewrite Hlen0. unfold payload_len. rewrite Lp. rewrite Z2Nat.id by lia. reflexivity. }
  split.
  - destruct Hok as (A & B & D). split; [exact A|]. split; [exact B|]. unfold payload_len. rewrite Lp. lia.
  - exists r. split; [|rewrite length_wire, Lp; reflexivity].
    assert (Fb : frame_body f = (NVP_MAGIC ++ header16 f0 ++ firstn (Z.to_nat len) y)%list)
      by (unfold frame_body; now rewrite Ef).
    unfold wire_bytes. rewrite Fb, <- Ee, <- !app_assoc. do 2 f_equal.
    rewrite <- (firstn_skipn (Z.to_nat len) y) at 1. rewrite Ey. reflexivity.
Qed.
End FrameLaws.

(** ** The stream *)

Section StreamLaws.
Context {C : CrcLib} {CL : CrcLaws C}.

Definition stream_bytes (fs : list NvpFrame.t) : bytes := List.concat (List.map wire_bytes fs).

(** A buffer that holds no whole frame of [fs] yet. *)
Definition waiting (fs : list NvpFrame.t) (buf : bytes) : Prop :=
  match fs with
  | [] => buf = []
  | f :: _ => exists k, (k < List.length (wire_bytes f))%nat /\ buf = firstn k (wire_bytes f)
  end.

Lemma waiting_decode fs buf :
  Forall frame_ok fs -> waiting fs buf -> NvpFrame.decode_from_slice buf = Ok None.
Proof.
  intros HF HW. destruct fs as [|f fs]; cbn in HW; [now subst|].
  destruct HW as (k & Hk & ->). inversion HF; subst. now apply frame_decode_prefix.
Qed.

Lemma drain_ok fuel fs1 fs2 tail :
  Forall frame_ok fs1 -> Forall frame_ok fs2 -> waiting fs2 tail ->
  (List.length (stream_bytes fs1 ++ tail) < fuel)%nat ->
  NvpCodec.drain fuel (stream_bytes fs1 ++ tail) = (tail, Ok fs1).
Proof.
  intros H1 H2 HW. revert fuel. induction H1 as [|f fs1 Hf H1 IH]; intros [|fuel] L; cbn [NvpCodec.drain]; try lia.
  - unfold NvpCodec.decode. cbn [stream_bytes List.map List.concat app]. now rewrite (waiting_decode fs2).
  - unfold stream_bytes in *. cbn [List.map List.concat] in *. rewrite <- app_assoc in *.
    unfold NvpCodec.decode. rewrite frame_decode_ok by assumption.
    rewrite skipn_prefix by reflexivity. rewrite length_app, length_wire in L.
    rewrite IH by lia. reflexivity.
Qed.

(** However the network cuts the stream, the codec delivers the frames that were
    sent, in order, and nothing else. *)
Lemma read_chunks_ok chunks fs buf :
  Forall frame_ok fs -> waiting fs buf -> (buf ++ List.concat chunks = stream_bytes fs)%list ->
  NvpCodec.read_chunks buf chunks = ([], Ok fs).
Proof.
  revert fs buf. induction chunks as [|c chunks IH]; intros fs buf HF HW H; cbn [NvpCodec.read_chunks List.concat] in *.
  - rewrite app_nil_r in H. destruct fs as [|f fs]; cbn in HW; [now subst|].
    destruct HW as (k & Hk & ->). apply (f_equal (@List.length byte)) in H.
    unfold stream_bytes in H. cbn in H. rewrite length_app, length_firstn in H. lia.
  - rewrite app_assoc in H. destruct (prefix_of_blocks wire_bytes fs _ _ H) as (fs1 & fs2 & tail & -> & E & HW2).
    apply Forall_app in HF as [HF1 HF2]. fold (stream_bytes fs1) in E. rewrite E.
    rewrite (drain_ok _ fs1 fs2) by (assumption || (destruct fs2; assumption) || lia).
    unfold stream_bytes in H. rewrite E, List.map_app, List.concat_app, <- app_assoc in H.
    apply app_inv_head in H. now rewrite (IH fs2).
Qed.
End StreamLaws.
