(* ===== verification/Payload.v ===== *)
(** [nova-protocol/src/frame.rs]: the payloads of frames, requests, responses and
    events, written and read back. *)

From S2P Require Export Protocol.

(** ** The enums and their derived JSON forms

    The derived JSON forms of the request and response enums: a unit variant is a
    string, any other variant an object with one entry. *)

Inductive RequestPayload :=
| RQuery (nql : string)
| RWatch (nql : string)
| RUnwatch (subscription_id : Z)
| RAuth (token : string)
| RPing.

Inductive ResponsePayload :=
| PSuccess (message : string) (affected : Z)
| PRecords (documents : list Document) (count : Z)
| PCount (n : Z)
| PExists (b : bool)
| PWatchAck (subscription_id : Z)
| PError (e : NovaError)
| PPong.

Section Payloads.
Context {U : UuidLib} {J : JsonLib}.
Local Open Scope string_scope.

Definition json_of_request (r : RequestPayload) : Json :=
  match r with
  | RQuery nql => JObject [("Query", JObject [("nql", JString nql)])]
  | RWatch nql => JObject [("Watch", JObject [("nql", JString nql)])]
  | RUnwatch n => JObject [("Unwatch", JObject [("subscription_id", JNumber (PosInt n))])]
  | RAuth t => JObject [("Auth", JObject [("token", JString t)])]
  | RPing => JString "Ping"
  end.

(** The content of a struct variant with one field: an object in which the field
    occurs once, or an array of one element. *)
Definition one_field (k : string) (j : Json) : option Json :=
  match j with
  | JObject m => json_member k m
  | JArray [j'] => Some j'
  | _ => None
  end.

Definition request_of_json (j : Json) : option RequestPayload :=
  match j with
  | JString s => if String.eqb s "Ping" then Some RPing else None
  | JObject [(tag, content)] =>
    if String.eqb tag "Query" then RQuery <$> (one_field "nql" content ≫= json_str)
    else if String.eqb tag "Watch" then RWatch <$> (one_field "nql" content ≫= json_str)
    else if String.eqb tag "Unwatch" then RUnwatch <$> (one_field "subscription_id" content ≫= json_u64)
    else if String.eqb tag "Auth" then RAuth <$> (one_field "token" content ≫= json_str)
    else if String.eqb tag "Ping" then match content with JNull => Some RPing | _ => None end
    else None
  | _ => None
  end.

(** The derived name of an error code. *)
Definition error_code_name (c : ErrorCode) : string :=
  match c with
  | DocumentNotFound => "DocumentNotFound"
  | CollectionNotFound => "CollectionNotFound"
  | NamespaceNotFound => "NamespaceNotFound"
  | DocumentAlreadyExists => "DocumentAlreadyExists"
  | IndexAlreadyExists => "IndexAlreadyExists"
  | IndexNotFound => "IndexNotFound"
  | InvalidQuery => "InvalidQuery"
  | ParseError => "ParseError"
  | TypeError => "TypeError"
  | StorageError => "StorageError"
  | WalCorrupted => "WalCorrupted"
  | TornWriteDetected => "TornWriteDetected"
  | ChecksumMismatch => "ChecksumMismatch"
  | TransactionAborted => "TransactionAborted"
  | TransactionActive => "TransactionActive"
  | NoActiveTransaction => "NoActiveTransaction"
  | ProtocolViolation => "ProtocolViolation"
  | FrameTooLarge => "FrameTooLarge"
  | AuthenticationFailed => "AuthenticationFailed"
  | PermissionDenied => "PermissionDenied"
  | ConnectionLimitExceeded => "ConnectionLimitExceeded"
  | BufferOverflow => "BufferOverflow"
  | SnapshotFailed => "SnapshotFailed"
  | InternalError => "InternalError"
  end.

Definition json_of_error (e : NovaError) : Json :=
  JObject [("code", JString (error_code_name (code e))); ("message", JString (message e));
           ("details", match details e with Some d => JString d | None => JNull end)].

Definition json_of_response (r : ResponsePayload) : Json :=
  match r with
  | PSuccess m n => JObject [("Success", JObject [("message", JString m); ("affected", JNumber (PosInt n))])]
  | PRecords ds n =>
    JObject [("Records", JObject [("documents", JArray (List.map json_of_document ds));
                                  ("count", JNumber (PosInt n))])]
  | PCount n => JObject [("Count", JNumber (PosInt n))]
  | PExists b => JObject [("Exists", JBool b)]
  | PWatchAck n => JObject [("WatchAck", JObject [("subscription_id", JNumber (PosInt n))])]
  | PError e => JObject [("Error", json_of_error e)]
  | PPong => JString "Pong"
  end.

Definition event_type_name (t : EventType) : string :=
  match t with
  | Create => "Create"
  | Document.Update => "Update"
  | Document.Delete => "Delete"
  | Expire => "Expire"
  | IndexCreated => "IndexCreated"
  | IndexDropped => "IndexDropped"
  | Snapshot => "Snapshot"
  end.

Definition json_opt {A} (f : A -> Json) (o : option A) : Json :=
  match o with Some a => f a | None => JNull end.

Definition json_of_event (e : DataEvent) : Json :=
  JObject [("sequence", JNumber (PosInt (ev_sequence e)));
           ("event_type", JString (event_type_name (ev_type e)));
           ("namespace", JString (ev_namespace e)); ("collection", JString (ev_collection e));
           ("document_id", JString (ev_document_id e));
           ("before", json_opt json_of_document (ev_before e));
           ("after", json_opt json_of_document (ev_after e));
           ("timestamp", JNumber (num_of_i64 (ev_timestamp e)));
           ("tx_id", json_opt (fun n => JNumber (PosInt n)) (ev_tx_id e))].

(** The derived readers.  A unit variant is its name, or an object that maps the name
    to null. *)
Definition unit_variant {A} (of_name : string -> option A) (j : Json) : option A :=
  match j with
  | JString s => of_name s
  | JObject [(s, JNull)] => of_name s
  | _ => None
  end.

Definition error_codes : list ErrorCode :=
  [DocumentNotFound; CollectionNotFound; NamespaceNotFound; DocumentAlreadyExists; IndexAlreadyExists;
   IndexNotFound; InvalidQuery; ParseError; TypeError; StorageError; WalCorrupted; TornWriteDetected;
   ChecksumMismatch; TransactionAborted; TransactionActive; NoActiveTransaction; ProtocolViolation;
   FrameTooLarge; AuthenticationFailed; PermissionDenied; ConnectionLimitExceeded; BufferOverflow;
   SnapshotFailed; InternalError].

Definition error_code_of_name (s : string) : option ErrorCode :=
  List.find (fun c => String.eqb (error_code_name c) s) error_codes.

Definition event_types : list EventType :=
  [Create; Document.Update; Document.Delete; Expire; IndexCreated; IndexDropped; Snapshot].

Definition event_type_of_name (s : string) : option EventType :=
  List.find (fun t => String.eqb (event_type_name t) s) event_types.

(** A field of type [Option]: absent or null is [None]; it may not occur twice. *)
Definition of_json_opt {A} (f : Json -> option A) (j : Json) : option (option A) :=
  match j with JNull => Some None | _ => Some <$> f j end.

Definition opt_member {A} (f : Json -> option A) (k : string) (m : list (string * Json)) : option (option A) :=
  match List.filter (fun p => String.eqb p.1 k) m with
  | [] => Some None
  | [(_, j)] => of_json_opt f j
  | _ => None
  end.

Definition error_of_json (j : Json) : option NovaError :=
  match j with
  | JObject m =>
    c ← json_member "code" m ≫= unit_variant error_code_of_name;
    t ← json_member "message" m ≫= json_str;
    d ← opt_member json_str "details" m;
    Some {| code := c; message := t; details := d |}
  | JArray [jc; jt; jd] =>
    c ← unit_variant error_code_of_name jc; t ← json_str jt; d ← of_json_opt json_str jd;
    Some {| code := c; message := t; details := d |}
  | _ => None
  end.

(** The content of a struct variant with two fields. *)
Definition two_fields (k k' : string) (j : Json) : option (Json * Json) :=
  match j with
  | JObject m => a ← json_member k m; b ← json_member k' m; Some (a, b)
  | JArray [a; b] => Some (a, b)
  | _ => None
  end.

Definition json_list {A} (f : Json -> option A) (j : Json) : option (list A) :=
  match j with JArray l => mapM f l | _ => None end.

Definition json_bool (j : Json) : option bool := match j with JBool b => Some b | _ => None end.

Definition response_of_json (j : Json) : option ResponsePayload :=
  match j with
  | JString s => if String.eqb s "Pong" then Some PPong else None
  | JObject [(tag, content)] =>
    if String.eqb tag "Success" then
      '(m, n) ← two_fields "message" "affected" content; m ← json_str m; n ← json_u64 n; Some (PSuccess m n)
    else if String.eqb tag "Records" then
      '(ds, n) ← two_fields "documents" "count" content;
      ds ← json_list document_of_json ds; n ← json_u64 n; Some (PRecords ds n)
    else if String.eqb tag "Count" then PCount <$> json_u64 content
    else if String.eqb tag "Exists" then PExists <$> json_bool content
    else if String.eqb tag "WatchAck" then PWatchAck <$> (one_field "subscription_id" content ≫= json_u64)
    else if String.eqb tag "Error" then PError <$> error_of_json content
    else if String.eqb tag "Pong" then match content with JNull => Some PPong | _ => None end
    else None
  | _ => None
  end.

(** The fields of an event, each read once; the optional ones may be absent. *)
Definition event_of_fields (js jt jn jc ji ju : option Json) (b a : option (option Document))
    (tx : option (option Z)) : option DataEvent :=
  s ← js ≫= json_u64; t ← jt ≫= unit_variant event_type_of_name; n ← jn ≫= json_str; c ← jc ≫= json_str;
  i ← ji ≫= json_str; b ← b; a ← a; u ← ju ≫= json_i64; tx ← tx;
  Some {| ev_sequence := s; ev_type := t; ev_namespace := n; ev_collection := c; ev_document_id := i;
          ev_before := b; ev_after := a; ev_timestamp := u; ev_tx_id := tx |}.

Definition event_of_json (j : Json) : option DataEvent :=
  match j with
  | JObject m =>
    event_of_fields (json_member "sequence" m) (json_member "event_type" m) (json_member "namespace" m)
      (json_member "collection" m) (json_member "document_id" m) (json_member "timestamp" m)
      (opt_member document_of_json "before" m) (opt_member document_of_json "after" m)
      (opt_member json_u64 "tx_id" m)
  | JArray [js; jt; jn; jc; ji; jb; ja; ju; jx] =>
    event_of_fields (Some js) (Some jt) (Some jn) (Some jc) (Some ji) (Some ju)
      (of_json_opt document_of_json jb) (of_json_opt document_of_json ja) (of_json_opt json_u64 jx)
  | _ => None
  end.

(** [RequestPayload::to_bytes], [from_bytes], [ResponsePayload::to_bytes], [from_bytes],
    [event_to_bytes] and [event_from_bytes]. *)
Definition request_to_bytes (r : RequestPayload) : result bytes := Ok (json_to_vec (json_of_request r)).

Definition request_from_bytes (b : bytes) : result RequestPayload :=
  match json_from_slice b ≫= request_of_json with
  | Some r => Ok r
  | None => Err (protocol ("Invalid request payload: " ++ json_error_text b))
  end.

Definition response_to_bytes (r : ResponsePayload) : result bytes := Ok (json_to_vec (json_of_response r)).

Definition event_to_bytes (e : DataEvent) : result bytes := Ok (json_to_vec (json_of_event e)).

Definition response_from_bytes (b : bytes) : result ResponsePayload :=
  match json_from_slice b ≫= response_of_json with
  | Some r => Ok r
  | None => Err (protocol ("Invalid response payload: " ++ json_error_text b))
  end.

Definition event_from_bytes (b : bytes) : result DataEvent :=
  match json_from_slice b ≫= event_of_json with
  | Some e => Ok e
  | None => Err (protocol ("Invalid event payload: " ++ json_error_text b))
  end.

(** ** Requests are read back *)

Lemma request_json_roundtrip r : request_of_json (json_of_request r) = Some r.
Proof. now destruct r. Qed.

(** Requests a client can hold: UTF-8 strings, 64-bit identifiers. *)
Definition request_ok (r : RequestPayload) : bool :=
  match r with
  | RQuery s | RWatch s | RAuth s => valid_str s
  | RUnwatch n => in_u64 n
  | RPing => true
  end.

Lemma request_text_safe r : request_ok r = true -> text_safe (json_of_request r) = true.
Proof.
  destruct r; unfold text_safe; cbn [request_ok json_of_request json_plain num_ok json_depth forallb List.map fmap fst snd fold_right];
    intros H; rewrite ?H; reflexivity.
Qed.

Lemma request_bytes_roundtrip {JL : JsonLaws J} r :
  request_ok r = true -> bindO (request_to_bytes r) request_from_bytes = Ok r.
Proof.
  intros H. unfold request_to_bytes, request_from_bytes. cbn [bindO].
  rewrite json_parse_print by now apply request_text_safe. cbn. now rewrite request_json_roundtrip.
Qed.

(** ** Responses and events are read back *)

(** Documents that fit in a response: JSON determines them and they are not nested too
    deep for the parser. *)
Definition doc_sendable (d : Document) : bool :=
  doc_native d && json_plain (json_of_document d) && (json_depth (json_of_document d) <? 124)%nat.

Definition opt_all {A} (f : A -> bool) (o : option A) : bool :=
  match o with Some a => f a | None => true end.

Definition error_ok (e : NovaError) : bool := valid_str (message e) && opt_all valid_str (details e).

Definition response_ok (r : ResponsePayload) : bool :=
  match r with
  | PSuccess m n => valid_str m && in_u64 n
  | PRecords ds n => forallb doc_sendable ds && in_u64 n
  | PCount n | PWatchAck n => in_u64 n
  | PError e => error_ok e
  | PExists _ | PPong => true
  end.

Definition event_ok (e : DataEvent) : bool :=
  in_u64 (ev_sequence e) && valid_str (ev_namespace e) && valid_str (ev_collection e)
  && valid_str (ev_document_id e) && opt_all doc_sendable (ev_before e) && opt_all doc_sendable (ev_after e)
  && in_i64 (ev_timestamp e) && opt_all in_u64 (ev_tx_id e).

Lemma error_code_of_name_ok c : error_code_of_name (error_code_name c) = Some c.
Proof. now destruct c. Qed.

Lemma event_type_of_name_ok t : event_type_of_name (event_type_name t) = Some t.
Proof. now destruct t. Qed.

Lemma valid_error_code_name c : valid_str (error_code_name c) = true.
Proof. now destruct c. Qed.

Lemma valid_event_type_name t : valid_str (event_type_name t) = true.
Proof. now destruct t. Qed.

Lemma of_json_opt_ok {A} (f : A -> Json) (g : Json -> option A) o :
  (forall a, o = Some a -> g (f a) = Some a /\ f a <> JNull) -> of_json_opt g (json_opt f o) = Some o.
Proof.
  intros H. destruct o as [a|]; [|reflexivity]. destruct (H a eq_refl) as [E N]. cbn [json_opt].
  unfold of_json_opt. destruct (f a); try congruence; now rewrite E.
Qed.

Lemma error_json_roundtrip e : error_of_json (json_of_error e) = Some e.
Proof. now destruct e as [[] m [d|]]. Qed.

Lemma doc_sendable_roundtrip {UL : UuidLaws U} d :
  doc_sendable d = true -> document_of_json (json_of_document d) = Some d.
Proof. unfold doc_sendable. intros H. bool_facts. now apply document_json_roundtrip. Qed.

Lemma documents_json_roundtrip {UL : UuidLaws U} ds :
  forallb doc_sendable ds = true -> mapM document_of_json (List.map json_of_document ds) = Some ds.
Proof.
  induction ds as [|d ds IH]; [reflexivity|]. cbn [forallb List.map mapM]. intros H. bool_facts.
  rewrite doc_sendable_roundtrip by assumption. cbn [mbind option_bind]. now rewrite IH.
Qed.

Lemma response_json_roundtrip {UL : UuidLaws U} r :
  response_ok r = true -> response_of_json (json_of_response r) = Some r.
Proof.
  destruct r; intros H; try reflexivity.
  - cbn in H. bool_facts. cbn. unfold json_list. now rewrite documents_json_roundtrip.
  - cbn [json_of_response response_of_json String.eqb Ascii.eqb Bool.eqb]. now rewrite error_json_roundtrip.
Qed.

Lemma fold_max_bound {A} (f : A -> nat) l n :
  (forall x, In x l -> (f x <= n)%nat) -> (fold_right (fun x m => Nat.max (f x) m) 0%nat l <= n)%nat.
Proof.
  intros H. induction l as [|x l IH]; cbn [fold_right]; [lia|].
  pose proof (H x (or_introl eq_refl)). specialize (IH (fun y Hy => H y (or_intror Hy))). lia.
Qed.

Lemma doc_sendable_facts d :
  doc_sendable d = true -> json_plain (json_of_document d) = true /\ (json_depth (json_of_document d) <= 123)%nat.
Proof. unfold doc_sendable. intros H. bool_facts. apply Nat.ltb_lt in H0. split; [assumption|lia]. Qed.

#[local] Arguments in_u64 : simpl never.
#[local] Arguments in_i64 : simpl never.
#[local] Arguments valid_str : simpl never.
#[local] Arguments json_of_document : simpl never.
#[local] Arguments num_of_i64 : simpl never.
#[local] Arguments error_code_name : simpl never.
#[local] Arguments event_type_name : simpl never.

(** Compute the shape of a JSON form and use what is known of its leaves. *)
Ltac json_shape :=
  repeat match goal with
  | |- context [valid_str (String ?a ?s)] => replace (valid_str (String a s)) with true by (vm_compute; reflexivity)
  | |- context [bool_decide (NoDup (?x :: ?l))] =>
    replace (bool_decide (NoDup (x :: l))) with true by (vm_compute; reflexivity)
  end;
  rewrite ?valid_error_code_name, ?valid_event_type_name, ?num_of_i64_ok by assumption;
  repeat match goal with E : ?b = true |- _ => rewrite E; clear E end;
  rewrite ?andb_true_l, ?andb_true_r; try reflexivity.

Lemma response_text_safe r : response_ok r = true -> text_safe (json_of_response r) = true.
Proof.
  intros H. apply andb_true_iff. destruct r as [m n|ds n|n|b|n|[c m d]|]; cbn in H; unfold error_ok in H; cbn in H;
    bool_facts; [|rewrite forallb_forall in H|..]; (split; [|apply Nat.ltb_lt]); cbn; json_shape; try lia.
  - apply forallb_forall. intros j (d & <- & Hd)%in_map_iff. apply doc_sendable_facts. auto.
  - assert (L : (fold_right (fun x m => Nat.max (json_depth x) m) 0%nat (List.map json_of_document ds) <= 123)%nat).
    { apply (fold_max_bound json_depth). intros j (d & <- & Hd)%in_map_iff. apply doc_sendable_facts. auto. }
    lia.
  - destruct d; cbn in *; json_shape.
  - destruct d; cbn; lia.
Qed.

Lemma response_bytes_roundtrip {UL : UuidLaws U} {JL : JsonLaws J} r :
  response_ok r = true -> bindO (response_to_bytes r) response_from_bytes = Ok r.
Proof.
  intros H. unfold response_to_bytes, response_from_bytes. cbn [bindO].
  rewrite json_parse_print by now apply response_text_safe. cbn [mbind option_bind].
  now rewrite response_json_roundtrip.
Qed.

Lemma event_json_roundtrip {UL : UuidLaws U} e : event_ok e = true -> event_of_json (json_of_event e) = Some e.
Proof.
  intros H. destruct e as [s t n c i b a u x]. unfold event_ok in H. cbn in H. bool_facts.
  unfold json_of_event, event_of_json. cbn [ev_sequence ev_type ev_namespace ev_collection ev_document_id
    ev_before ev_after ev_timestamp ev_tx_id].
  unfold json_member, opt_member. cbn [List.filter fst String.eqb Ascii.eqb Bool.eqb].
  rewrite !of_json_opt_ok; [|now split|intros d ->; split; [now apply doc_sendable_roundtrip|discriminate]..].
  unfold event_of_fields. cbn [mbind option_bind json_u64 json_str unit_variant json_i64].
  rewrite event_type_of_name_ok. cbn [mbind option_bind]. now rewrite num_as_i64_of_i64.
Qed.

Lemma doc_opt_safe o :
  opt_all doc_sendable o = true ->
  json_plain (json_opt json_of_document o) = true /\ (json_depth (json_opt json_of_document o) <= 123)%nat.
Proof. destruct o; cbn [opt_all json_opt]; [apply doc_sendable_facts|]. intros _. split; [reflexivity|cbn; lia]. Qed.

Lemma event_text_safe e : event_ok e = true -> text_safe (json_of_event e) = true.
Proof.
  intros H. destruct e as [s t n c i b a u x]. unfold event_ok in H. cbn in H. bool_facts.
  destruct (doc_opt_safe b) as [Pb Db]; [assumption|]. destruct (doc_opt_safe a) as [Pa Da]; [assumption|].
  apply andb_true_iff. split; [|apply Nat.ltb_lt]; cbn.
  - json_shape. destruct x; cbn in *; json_shape; unfold num_of_i64; now destruct (u <? 0)%Z.
  - destruct x; cbn; lia.
Qed.

Lemma event_bytes_roundtrip {UL : UuidLaws U} {JL : JsonLaws J} e :
  event_ok e = true -> bindO (event_to_bytes e) event_from_bytes = Ok e.
Proof.
  intros H. unfold event_to_bytes, event_from_bytes. cbn [bindO].
  rewrite json_parse_print by now apply event_text_safe. cbn [mbind option_bind].
  now rewrite event_json_roundtrip.
Qed.
End Payloads.
