(* ===== verification/Client.v ===== *)
(** [nova-client/src/client.rs] and [stream.rs]: the client library.

    A call of [send_request] or [register_watch] goes through several awaits, between
    which other tasks run, so each is split at its awaits: it takes a number, enters
    itself in the tables, and queues its frame.  The background tasks are the writing
    of one queued frame and the treatment of one frame read.  A oneshot channel is what
    was sent into it, if anything; the channel of a watch is the events sent into it and
    not received yet. *)

From S2P Require Export Payload.

Module Client.
Inductive Phase :=
| Numbered                    (* has taken a request identifier *)
| Watching                    (* entered in the table of watchers *)
| Registered                  (* entered in the table of pending requests *)
| Sent                        (* the frame is queued, the reply is awaited *)
| Failed (e : NovaError).

Record Call := {
  call_id : Z;
  call_req : RequestPayload;
  phase : Phase;
  reply : option (result ResponsePayload);
  stream : list DataEvent;
  stream_open : bool;
}.

Record t := {
  next_req_id : Z;
  calls : list Call;
  pending : gmap Z nat;       (* request identifiers to the calls that wait *)
  watchers : gmap Z nat;      (* subscriptions to the calls that made them *)
  tx : list NvpFrame.t;       (* queued for the write task *)
  writing : bool;             (* the write task is running *)
  wire : list NvpFrame.t;     (* everything the write task has sent *)
  reading : bool;             (* the read task is running *)
}.

(** The state [connect_internal] builds once the socket is open. *)
Definition connected : t :=
  {| next_req_id := 1; calls := []; pending := ∅; watchers := ∅; tx := []; writing := true; wire := [];
     reading := true |}.

Definition tx_capacity : nat := 512.
Definition stream_capacity : nat := 256.

Definition set_phase (p : Phase) (k : Call) : Call :=
  {| call_id := call_id k; call_req := call_req k; phase := p; reply := reply k; stream := stream k;
     stream_open := stream_open k |}.
Definition set_reply (r : result ResponsePayload) (k : Call) : Call :=
  {| call_id := call_id k; call_req := call_req k; phase := phase k; reply := Some r; stream := stream k;
     stream_open := stream_open k |}.
Definition set_stream (evs : list DataEvent) (open : bool) (k : Call) : Call :=
  {| call_id := call_id k; call_req := call_req k; phase := phase k; reply := reply k; stream := evs;
     stream_open := open |}.

Definition set_calls (ks : list Call) (c : t) : t :=
  {| next_req_id := next_req_id c; calls := ks; pending := pending c; watchers := watchers c; tx := tx c;
     writing := writing c; wire := wire c; reading := reading c |}.
Definition set_pending (m : gmap Z nat) (c : t) : t :=
  {| next_req_id := next_req_id c; calls := calls c; pending := m; watchers := watchers c; tx := tx c;
     writing := writing c; wire := wire c; reading := reading c |}.
Definition set_watchers (m : gmap Z nat) (c : t) : t :=
  {| next_req_id := next_req_id c; calls := calls c; pending := pending c; watchers := m; tx := tx c;
     writing := writing c; wire := wire c; reading := reading c |}.
Definition set_output (q : list NvpFrame.t) (running : bool) (sent : list NvpFrame.t) (c : t) : t :=
  {| next_req_id := next_req_id c; calls := calls c; pending := pending c; watchers := watchers c; tx := q;
     writing := running; wire := sent; reading := reading c |}.

Definition on_call (i : nat) (f : Call -> Call) (c : t) : t := set_calls (alter f i (calls c)) c.

Definition is_watch (r : RequestPayload) : bool := match r with RWatch _ => true | _ => false end.

Section Client.
Context {U : UuidLib} {J : JsonLib}.

(** [next_req_id.fetch_add(1)]: the first step of [send_request] and [register_watch]. *)
Definition begin (req : RequestPayload) (c : t) : t :=
  {| next_req_id := wrap_u64 (next_req_id c + 1);
     calls := calls c ++ [{| call_id := next_req_id c; call_req := req; phase := Numbered; reply := None;
                             stream := []; stream_open := true |}];
     pending := pending c; watchers := watchers c; tx := tx c; writing := writing c; wire := wire c;
     reading := reading c |}.

(** [watchers.insert(req_id, stream_tx)]. *)
Definition subscribe (i : nat) (c : t) : t :=
  match calls c !! i with
  | Some k =>
    match phase k, is_watch (call_req k) with
    | Numbered, true => on_call i (set_phase Watching) (set_watchers (<[call_id k := i]> (watchers c)) c)
    | _, _ => c
    end
  | None => c
  end.

(** What a call awaiting its reply is told when its sender is dropped. *)
Definition dropped_reply (req : RequestPayload) : result ResponsePayload :=
  Err (protocol (if is_watch req then "Server closed before acknowledging WATCH"
                 else "Server dropped connection before replying")).

(** [pending.insert(req_id, resp_tx)]: a sender that was there is dropped. *)
Definition register (i : nat) (c : t) : t :=
  let insert k :=
    let c := match pending c !! call_id k with
             | Some j => on_call j (fun k' => set_reply (dropped_reply (call_req k')) k') c
             | None => c
             end in
    on_call i (set_phase Registered) (set_pending (<[call_id k := i]> (pending c)) c) in
  match calls c !! i with
  | Some k =>
    match phase k, is_watch (call_req k) with
    | Numbered, false | Watching, _ => insert k
    | _, _ => c
    end
  | None => c
  end.

Definition request_frame (k : Call) : NvpFrame.t :=
  NvpFrame.new FRequest (call_id k) (json_to_vec (json_of_request (call_req k))).

Definition dispatch_error (req : RequestPayload) : NovaError :=
  protocol (if is_watch req then "Failed to send watch: channel closed"
            else "Failed to dispatch request: channel closed").

(** [self.tx.send(frame)]: waits while the queue is full, fails when the write task has
    ended.  A watch that fails drops its stream; its entries stay in the tables. *)
Definition dispatch (i : nat) (c : t) : t :=
  match calls c !! i with
  | Some k =>
    match phase k with
    | Registered =>
      if writing c then
        if (List.length (tx c) <? tx_capacity)%nat then
          on_call i (set_phase Sent) (set_output (tx c ++ [request_frame k]) true (wire c) c)
        else c
      else on_call i (fun k => set_stream (stream k) false (set_phase (Failed (dispatch_error (call_req k))) k)) c
    | _ => c
    end
  | None => c
  end.
End Client.

Section Tasks.
Context {C : CrcLib} {U : UuidLib} {J : JsonLib}.

(** One turn of the write task: a frame the codec refuses ends it. *)
Definition write_one (c : t) : t :=
  match writing c, tx c with
  | true, f :: q =>
    match NvpFrame.encode f with
    | Ok _ => set_output q true (wire c ++ [f]) c
    | _ => set_output [] false (wire c) c
    end
  | _, _ => c
  end.

(** The write task ends on a device error. *)
Definition write_fails (c : t) : t := set_output [] false (wire c) c.

(** What the read task sends to the waiting call. *)
Definition reply_of_frame (frame : NvpFrame.t) : result ResponsePayload :=
  match NvpFrame.frame_type frame with
  | FResponse => response_from_bytes (NvpFrame.payload frame)
  | FError =>
    let? resp := response_from_bytes (NvpFrame.payload frame) in
    match resp with
    | PError e => Err e
    | _ => Err (protocol "Unknown error format")
    end
  | _ => Ok PPong
  end.

Definition complete (frame : NvpFrame.t) (c : t) : t :=
  let req_id := NvpFrame.request_id frame in
  match pending c !! req_id with
  | Some i => on_call i (set_reply (reply_of_frame frame)) (set_pending (delete req_id (pending c)) c)
  | None => c
  end.

(** One turn of the read task; [None] while the stream the event goes to is full. *)
Definition read_frame (frame : NvpFrame.t) (c : t) : option t :=
  match NvpFrame.frame_type frame with
  | FResponse | FError | FPong => Some (complete frame c)
  | FEvent =>
    match watchers c !! NvpFrame.request_id frame with
    | Some i =>
      match event_from_bytes (NvpFrame.payload frame), calls c !! i with
      | Ok event, Some k =>
        if stream_open k then
          if (List.length (stream k) <? stream_capacity)%nat
          then Some (on_call i (fun k => set_stream (stream k ++ [event]) true k) c)
          else None
        else Some c
      | _, _ => Some c
      end
    | None => Some c
    end
  | FRequest | FPing => Some c
  end.

(** The read task ends, on a framing error or at the end of the stream.  The tables
    stay. *)
Definition read_ends (c : t) : t :=
  {| next_req_id := next_req_id c; calls := calls c; pending := pending c; watchers := watchers c; tx := tx c;
     writing := writing c; wire := wire c; reading := false |}.
End Tasks.

(** [EventStream::next] when an event is there, and dropping the stream. *)
Definition next_event (i : nat) (c : t) : option (DataEvent * t) :=
  match calls c !! i with
  | Some k =>
    match stream k with
    | ev :: evs => Some (ev, on_call i (set_stream evs (stream_open k)) c)
    | [] => None
    end
  | None => None
  end.

Definition drop_stream (i : nat) (c : t) : t := on_call i (set_stream [] false) c.

(** ** What the caller gets *)

(** [send_request]; [None] while it waits. *)
Definition outcome_of (k : Call) : option (result ResponsePayload) :=
  match phase k with
  | Failed e => Some (Err e)
  | Sent => reply k
  | _ => None
  end.

(** The derived [Debug] text of a response is an argument. *)
Definition watch_result (debug : ResponsePayload -> string) (r : result ResponsePayload) : result unit :=
  let? resp := r in
  match resp with
  | PWatchAck _ => Ok tt
  | other => Err (protocol ("Unexpected watch response: " ++ debug other))
  end.

Definition auth_result (r : result ResponsePayload) : result unit :=
  let? resp := r in
  match resp with
  | PSuccess _ _ => Ok tt
  | _ => Err (Errors.new AuthenticationFailed "Auth failed")
  end.

Definition ping_result (r : result ResponsePayload) : result unit :=
  let? resp := r in
  match resp with
  | PPong => Ok tt
  | _ => Err (protocol "Invalid ping response")
  end.
End Client.
