(* ===== verification/ClientLaws.v ===== *)
(** The tables of the client: what every interleaving of calls, writes and reads keeps
    true of them. *)

From S2P Require Export Client.

Import Client.

Section ClientLaws.
Context {C : CrcLib} {U : UuidLib} {J : JsonLib}.

(** The call has reached the table of pending requests. *)
Definition registered (p : Phase) : bool :=
  match p with Numbered | Watching => false | _ => true end.

(** A frame that completes a call, as opposed to an event. *)
Definition is_reply (f : NvpFrame.t) : bool :=
  match NvpFrame.frame_type f with FEvent => false | _ => true end.

Definition outgoing (c : t) : list NvpFrame.t := wire c ++ tx c.

(** The state of the client after it read the replies [seen]: identifiers number the
    calls from one, each frame belongs to one call, and a call waits in the table until
    a reply with its identifier has been read, whose content is what it got. *)
Record client_ok (seen : list NvpFrame.t) (c : t) : Prop := {
  ok_next : next_req_id c = wrap_u64 (Z.of_nat (List.length (calls c)) + 1);
  ok_ids : forall i k, calls c !! i = Some k -> call_id k = Z.of_nat i + 1 /\ request_ok (call_req k) = true;
  ok_frames : forall f, f ∈ outgoing c ->
    exists i k, calls c !! i = Some k /\ phase k = Sent /\ f = request_frame k;
  ok_once : NoDup (NvpFrame.request_id <$> outgoing c);
  ok_sent : forall i k, calls c !! i = Some k -> phase k = Sent -> writing c = true ->
    request_frame k ∈ outgoing c;
  ok_pending : forall n i, pending c !! n = Some i <->
    exists k, calls c !! i = Some k /\ call_id k = n /\ registered (phase k) = true /\ reply k = None;
  ok_fresh : forall i k, calls c !! i = Some k -> registered (phase k) = false -> reply k = None;
  ok_reply : forall i k r, calls c !! i = Some k -> reply k = Some r ->
    exists g, g ∈ seen /\ NvpFrame.request_id g = call_id k /\ r = reply_of_frame g;
  ok_read : forall i k g, calls c !! i = Some k -> g ∈ seen -> NvpFrame.request_id g = call_id k ->
    reply k <> None;
  ok_seen : forall g, g ∈ seen -> exists i k, calls c !! i = Some k /\ NvpFrame.request_id g = call_id k;
}.

Lemma connected_ok : client_ok [] connected.
Proof.
  constructor; cbn; try (intros; rewrite ?lookup_nil, ?lookup_empty in *; discriminate).
  - reflexivity.
  - intros f Hf. now apply elem_of_nil in Hf.
  - constructor.
  - intros n i. rewrite lookup_empty. split; [discriminate|]. now intros (k & H & _).
  - intros g Hg. now apply elem_of_nil in Hg.
Qed.

(** ** Changing one call *)

(** A change that the invariant does not see. *)
Definition quiet (f : Call -> Call) : Prop :=
  forall k, call_id (f k) = call_id k /\ call_req (f k) = call_req k /\ phase (f k) = phase k
    /\ reply (f k) = reply k.

Lemma calls_on_call i f c j :
  calls (on_call i f c) !! j = if decide (i = j) then f <$> calls c !! j else calls c !! j.
Proof. unfold on_call. cbn. rewrite list_lookup_alter. case_decide; now subst. Qed.

(** Look a call up after a change of call [i], and get back the call it was. *)
Ltac at_call :=
  repeat match goal with
  | H : calls (on_call _ _ _) !! _ = Some _ |- _ => rewrite calls_on_call in H; cbn in H
  | H : (if decide ?P then _ else _) = Some _ |- _ => case_decide; subst
  | H : ?f <$> ?o = Some _ |- _ => apply fmap_Some in H as (? & ? & ->)
  end.

Lemma quiet_ok seen c i f : quiet f -> client_ok seen c -> client_ok seen (on_call i f c).
Proof.
  intros Q [N I F O S P R A D E].
  assert (G : forall j k, calls c !! j = Some k -> exists k', calls (on_call i f c) !! j = Some k'
    /\ call_id k' = call_id k /\ call_req k' = call_req k /\ phase k' = phase k /\ reply k' = reply k).
  { intros j k H. rewrite calls_on_call. case_decide; [|now exists k]. rewrite H. exists (f k).
    destruct (Q k) as (? & ? & ? & ?). repeat split; assumption. }
  assert (L : forall j k', calls (on_call i f c) !! j = Some k' -> exists k, calls c !! j = Some k
    /\ call_id k' = call_id k /\ call_req k' = call_req k /\ phase k' = phase k /\ reply k' = reply k).
  { intros j k' H. at_call; [|now exists k']. exists x. destruct (Q x) as (? & ? & ? & ?). repeat split; assumption. }
  assert (Fr : forall k k', call_id k' = call_id k -> call_req k' = call_req k -> request_frame k' = request_frame k).
  { intros k k' H1 H2. unfold request_frame. now rewrite H1, H2. }
  constructor.
  - cbn. now rewrite length_alter.
  - intros j k' (k & H & -> & -> & _)%L. eauto.
  - intros g Hg. destruct (F g Hg) as (j & k & H & Hp & ->). destruct (G j k H) as (k' & H' & E1 & E2 & E3 & _).
    exists j, k'. rewrite (Fr k k') by assumption. repeat split; congruence.
  - exact O.
  - intros j k' (k & H & E1 & E2 & E3 & _)%L Hp W. rewrite (Fr k k') by assumption. apply (S j); congruence || assumption.
  - intros n j. change (pending (on_call i f c)) with (pending c). rewrite P. split.
    + intros (k & H & H1 & H2 & H3). destruct (G j k H) as (k' & H' & E1 & _ & E3 & E4). exists k'.
      repeat split; congruence.
    + intros (k' & (k & H & E1 & _ & E3 & E4)%L & H1 & H2 & H3). exists k. repeat split; congruence.
  - intros j k' (k & H & _ & _ & E3 & ->)%L Hr. apply (R j k H). congruence.
  - intros j k' r (k & H & E1 & _ & _ & E4)%L Hr. rewrite E1. apply (A j k r H). congruence.
  - intros j k' g (k & H & E1 & _ & _ & ->)%L Hg Hi. apply (D j k g H Hg). congruence.
  - intros g Hg. destruct (E g Hg) as (j & k & H & Hi). destruct (G j k H) as (k' & H' & E1 & _). exists j, k'.
    split; congruence.
Qed.

(** ** The steps of a call *)

Lemma length_calls_on_call i f c : List.length (calls (on_call i f c)) = List.length (calls c).
Proof. apply length_alter. Qed.

Lemma next_exact seen c :
  client_ok seen c -> Z.of_nat (List.length (calls c)) < u64_max -> next_req_id c = Z.of_nat (List.length (calls c)) + 1.
Proof. intros K L. rewrite (ok_next _ _ K). unfold wrap_u64, u64_max in *. apply Z.mod_small. lia. Qed.

Lemma begin_ok seen req c :
  request_ok req = true -> Z.of_nat (List.length (calls c)) < u64_max ->
  client_ok seen c -> client_ok seen (begin req c).
Proof.
  intros Hr L K. pose proof (next_exact _ _ K L) as Hn. destruct K as [N I F O S P R A D E].
  assert (G : forall j k, calls c !! j = Some k -> calls (begin req c) !! j = Some k).
  { intros j k H. cbn. apply lookup_app_l_Some, H. }
  assert (X : forall j k, calls (begin req c) !! j = Some k -> calls c !! j = Some k \/
    (j = List.length (calls c) /\ call_id k = Z.of_nat j + 1 /\ call_req k = req /\ phase k = Numbered /\ reply k = None)).
  { intros j k H. cbn in H. apply lookup_app_Some in H as [H|[Hj H]]; [now left|right].
    apply list_lookup_singleton_Some in H as [Hj' <-]. assert (j = List.length (calls c)) as -> by lia.
    cbn. rewrite Hn. repeat split. }
  constructor.
  - cbn. rewrite length_app, Hn. cbn. f_equal. lia.
  - intros j k [H|(-> & -> & -> & _)]%X; [eauto|]. now split.
  - intros f Hf. destruct (F f Hf) as (j & k & H & Hp & ->). exists j, k. auto.
  - exact O.
  - intros j k [H|(-> & _ & _ & Hp & _)]%X Hs W; [eauto|congruence].
  - intros n j. change (pending (begin req c)) with (pending c). rewrite P. split.
    + intros (k & H & ?). exists k. auto.
    + intros (k & [H|(-> & _ & _ & Hp & _)]%X & H1 & H2 & H3); [exists k; auto|]. now rewrite Hp in H2.
  - intros j k [H|(-> & _ & _ & _ & Hp)]%X Hs; eauto.
  - intros j k r [H|(-> & _ & _ & _ & Hp)]%X Hs; [eauto|congruence].
  - intros j k g [H|(-> & Hi & _)]%X Hg Hs; [eauto|].
    destruct (E g Hg) as (j' & k' & H' & Hi'). destruct (I _ _ H') as [Hk' _].
    apply lookup_lt_Some in H'. lia.
  - intros g Hg. destruct (E g Hg) as (j & k & H & Hi). exists j, k. auto.
Qed.

(** Calls keep their identifiers apart. *)
Lemma same_id seen c i j k k' :
  client_ok seen c -> calls c !! i = Some k -> calls c !! j = Some k' -> call_id k = call_id k' -> i = j.
Proof. intros K Hi Hj E. destruct (ok_ids _ _ K _ _ Hi), (ok_ids _ _ K _ _ Hj). lia. Qed.

Lemma not_pending seen c i k :
  client_ok seen c -> calls c !! i = Some k -> registered (phase k) = false -> pending c !! call_id k = None.
Proof.
  intros K H Hp. destruct (pending c !! call_id k) as [j|] eqn:G; [|reflexivity].
  apply (ok_pending _ _ K) in G as (k' & H' & Hi & Hr & _).
  assert (i = j) as -> by (eapply same_id; eauto). congruence.
Qed.

(** A step of call [i] to another phase that is neither sent nor unregistered again. *)
Lemma phase_ok seen c i k p m :
  client_ok seen c -> calls c !! i = Some k -> registered (phase k) = false -> p <> Sent ->
  m = (if registered p then <[call_id k := i]> (pending c) else pending c) ->
  client_ok seen (on_call i (set_phase p) (set_pending m c)).
Proof.
  intros K Hk Hq Hp ->. pose proof (not_pending _ _ _ _ K Hk Hq) as Hn.
  pose proof (ok_fresh _ _ K _ _ Hk Hq) as Hf.
  pose proof (fun j k' H => same_id seen c i j k k' K Hk H) as Hs. destruct K as [N I F O S P R A D E].
  assert (Q : phase k <> Sent) by (intros Q; now rewrite Q in Hq).
  constructor; try exact O.
  - now rewrite length_calls_on_call.
  - intros j k' H. at_call; cbn; eauto.
  - intros f Hf'. destruct (F f Hf') as (j & k' & H & Hp' & ->). exists j, k'. split; [|auto].
    rewrite calls_on_call. cbn. case_decide; [|assumption]. subst. congruence.
  - intros j k' H Hp' W. at_call; cbn in *; [congruence|]. eapply S; eauto.
  - intros n j. match goal with |- pending (on_call _ _ ?c') !! _ = _ <-> _ =>
      change (pending (on_call i (set_phase p) c')) with (pending c') end. cbn [pending set_pending].
    destruct (registered p) eqn:Er.
    + destruct (decide (n = call_id k)) as [->|Nn].
      * rewrite lookup_insert_eq. split.
        -- intros [= <-]. exists (set_phase p k). rewrite calls_on_call, decide_True by reflexivity. cbn.
           rewrite Hk. auto.
        -- intros (k' & H & Hi & _). at_call; [reflexivity|]. f_equal. apply (Hs j k'); congruence.
      * rewrite lookup_insert_ne by congruence. rewrite P. split; intros (k' & H & H1 & H2 & H3).
        -- exists k'. rewrite calls_on_call. cbn. case_decide; [|auto]. subst. congruence.
        -- at_call; cbn in *; [congruence|]. exists k'. auto.
    + rewrite P. split; intros (k' & H & H1 & H2 & H3).
      * exists k'. rewrite calls_on_call. cbn. case_decide; [|auto]. subst. congruence.
      * at_call; cbn in *; [congruence|]. exists k'. auto.
  - intros j k' H Hp'. at_call; cbn in *; [|eauto]. congruence.
  - intros j k' r H Hr. at_call; cbn in *; eauto.
  - intros j k' g H Hg Hi. at_call; cbn in *; eauto.
  - intros g Hg. destruct (E g Hg) as (j & k' & H & Hi). destruct (decide (i = j)) as [->|].
    + exists j, (set_phase p k'). rewrite calls_on_call, decide_True by reflexivity. cbn. now rewrite H.
    + exists j, k'. rewrite calls_on_call, decide_False by assumption. auto.
Qed.

Lemma watchers_ok seen c m : client_ok seen c -> client_ok seen (set_watchers m c).
Proof. now intros []. Qed.

Lemma set_pending_same c : set_pending (pending c) c = c.
Proof. now destruct c. Qed.

Lemma subscribe_ok seen i c : client_ok seen c -> client_ok seen (subscribe i c).
Proof.
  intros K. unfold subscribe. destruct (calls c !! i) as [k|] eqn:Hk; [|exact K].
  destruct (phase k) eqn:Hp; try exact K. destruct (is_watch (call_req k)); [|exact K].
  pose proof (phase_ok seen (set_watchers (<[call_id k := i]> (watchers c)) c) i k Watching (pending c)) as G.
  apply G; [now apply watchers_ok|exact Hk|now rewrite Hp|discriminate|reflexivity].
Qed.

Lemma register_ok seen i c : client_ok seen c -> client_ok seen (register i c).
Proof.
  intros K. unfold register. destruct (calls c !! i) as [k|] eqn:Hk; [|exact K].
  assert (G : registered (phase k) = false -> client_ok seen
    (on_call i (set_phase Registered) (set_pending (<[call_id k := i]> (pending c)) c))).
  { intros Hp. now apply phase_ok with k. }
  destruct (phase k) eqn:Hp; try exact K; [destruct (is_watch (call_req k)); [exact K|]|];
    rewrite (not_pending seen c i k) by (assumption || now rewrite Hp); now apply G.
Qed.

(** Calls that are not the one at hand send other frames. *)
Lemma frame_fresh seen c i k :
  client_ok seen c -> calls c !! i = Some k -> phase k <> Sent ->
  ~ call_id k ∈ NvpFrame.request_id <$> outgoing c.
Proof.
  intros K Hk Hp (f & Hi & Hf)%list_elem_of_fmap. destruct (ok_frames _ _ K f Hf) as (j & k' & H' & Hs & ->).
  assert (i = j) as -> by (eapply same_id; eauto). congruence.
Qed.

(** A registered call that sends its frame, or gives up. *)
Lemma settle_ok seen c i k f p :
  client_ok seen c -> calls c !! i = Some k -> phase k = Registered -> registered p = true ->
  call_id (f k) = call_id k -> call_req (f k) = call_req k -> phase (f k) = p -> reply (f k) = reply k ->
  client_ok seen (on_call i f (match p with Sent => set_output (tx c ++ [request_frame k]) (writing c) (wire c) c
                               | _ => c end)).
Proof.
  intros K Hk Hq Hr E1 E2 E3 E4. pose proof (frame_fresh _ _ _ _ K Hk) as Hn.
  pose proof (fun j k' H => same_id seen c i j k k' K Hk H) as Hs. destruct K as [N I F O S P R A D E].
  set (c1 := match p with Sent => _ | _ => c end).
  assert (Ec : calls c1 = calls c) by (now destruct p). assert (Ep : pending c1 = pending c) by (now destruct p).
  assert (En : next_req_id c1 = next_req_id c) by (now destruct p). assert (Ew : writing c1 = writing c) by (now destruct p).
  assert (Eo : outgoing c1 = (outgoing c ++ match p with Sent => [request_frame k] | _ => [] end)%list).
  { destruct p; rewrite ?app_nil_r; try reflexivity. unfold outgoing. cbn. now rewrite app_assoc. }
  assert (L : forall j, calls (on_call i f c1) !! j = if decide (i = j) then f <$> calls c !! j else calls c !! j).
  { intros j. now rewrite calls_on_call, Ec. }
  assert (Fr : request_frame (f k) = request_frame k).
  { unfold request_frame. now rewrite E1, E2. }
  assert (X : forall j k', calls (on_call i f c1) !! j = Some k' ->
    (j = i /\ k' = f k) \/ (i <> j /\ calls c !! j = Some k')).
  { intros j k' H. rewrite L in H. case_decide; [left|right; auto]. subst. rewrite Hk in H. cbn in H. split; congruence. }
  assert (G : calls (on_call i f c1) !! i = Some (f k)) by (rewrite L, decide_True, Hk by reflexivity; reflexivity).
  assert (G' : forall j k', i <> j -> calls c !! j = Some k' -> calls (on_call i f c1) !! j = Some k').
  { intros j k' Hj H. now rewrite L, decide_False. }
  constructor; change (outgoing (on_call i f c1)) with (outgoing c1); change (pending (on_call i f c1)) with (pending c1);
    change (writing (on_call i f c1)) with (writing c1); change (next_req_id (on_call i f c1)) with (next_req_id c1);
    rewrite ?length_calls_on_call, ?Ec, ?Ep, ?En, ?Ew, ?Eo.
  - assumption.
  - intros j k' [(-> & ->)|(Hj & H)]%X; [rewrite E1, E2|]; eauto.
  - intros g [Hg|Hg]%elem_of_app.
    + destruct (F g Hg) as (j & k' & H & Hp' & ->). exists j, k'. split; [apply G'; [|assumption]|auto]. congruence.
    + exists i, (f k). destruct p; try (now apply elem_of_nil in Hg). apply list_elem_of_singleton in Hg as ->. auto.
  - rewrite fmap_app. apply NoDup_app. split; [exact O|]. split; [|destruct p; cbn; auto using NoDup_nil_2, NoDup_singleton].
    intros n Hin. destruct p; cbn; try apply not_elem_of_nil. rewrite list_elem_of_singleton. intros ->.
    apply Hn; [now rewrite Hq|exact Hin].
  - intros j k' [(-> & ->)|(Hj & H)]%X Hp' W; apply elem_of_app; [right|left; eauto].
    rewrite Fr. rewrite E3 in Hp'. rewrite Hp'. now apply list_elem_of_singleton.
  - intros n j. rewrite P. split.
    + intros (k' & H & H1 & H2 & H3). destruct (decide (i = j)) as [->|Hj]; [|exists k'; auto].
      exists (f k). rewrite E1, E3, E4. rewrite Hk in H. injection H as <-. auto.
    + intros (k' & [(-> & ->)|(Hj & H)]%X & H1 & H2 & H3); [|exists k'; auto].
      exists k. rewrite Hq. rewrite E1 in H1. rewrite E4 in H3. auto.
  - intros j k' [(-> & ->)|(Hj & H)]%X Hp'; [congruence|eauto].
  - intros j k' r [(-> & ->)|(Hj & H)]%X Hr'; [rewrite E1; rewrite E4 in Hr'|]; eauto.
  - intros j k' g [(-> & ->)|(Hj & H)]%X Hg Hi; [rewrite E4; rewrite E1 in Hi|]; eauto.
  - intros g Hg. destruct (E g Hg) as (j & k' & H & Hi). destruct (decide (i = j)) as [->|Hj]; [|exists j, k'; auto].
    exists j, (f k). rewrite Hk in H. injection H as <-. rewrite E1. auto.
Qed.

Lemma dispatch_ok seen i c : client_ok seen c -> client_ok seen (dispatch i c).
Proof.
  intros K. unfold dispatch. destruct (calls c !! i) as [k|] eqn:Hk; [|exact K].
  destruct (phase k) eqn:Hp; try exact K. destruct (writing c) eqn:W.
  - case_match; [|exact K]. rewrite <- W. now apply (settle_ok seen c i k (set_phase Sent) Sent).
  - now apply (settle_ok seen c i k _ (Failed (dispatch_error (call_req k)))).
Qed.

(** ** The write task *)

Lemma output_ok seen c q b w :
  client_ok seen c -> (b = true -> writing c = true /\ w ++ q = outgoing c)%list ->
  (exists rest, outgoing c = (w ++ q) ++ rest)%list -> client_ok seen (set_output q b w c).
Proof.
  intros [N I F O S P R A D E] Hb [rest Hr].
  assert (Eo : outgoing (set_output q b w c) = (w ++ q)%list) by reflexivity.
  constructor; try assumption.
  - intros f Hf. apply F. rewrite Hr. apply elem_of_app. now left.
  - rewrite Hr, fmap_app in O. now apply NoDup_app in O as [O _].
  - intros i k Hk Hp W. cbn in W. subst b. destruct (Hb eq_refl) as [W E']. rewrite Eo, E'. eauto.
Qed.

Lemma write_one_ok seen c : client_ok seen c -> client_ok seen (write_one c).
Proof.
  intros K. unfold write_one. destruct (writing c) eqn:W; [|exact K]. destruct (tx c) as [|f q] eqn:T; [exact K|].
  assert (Eo : outgoing c = ((wire c ++ [f]) ++ q)%list) by (unfold outgoing; now rewrite T, <- app_assoc).
  destruct (NvpFrame.encode f); apply output_ok; try assumption; try discriminate.
  - now rewrite Eo.
  - exists []. now rewrite app_nil_r.
  - exists (f :: q). unfold outgoing. now rewrite T, app_nil_r.
  - exists (f :: q). unfold outgoing. now rewrite T, app_nil_r.
Qed.

Lemma write_fails_ok seen c : client_ok seen c -> client_ok seen (write_fails c).
Proof.
  intros K. apply output_ok; [exact K|discriminate|]. exists (tx c). unfold outgoing. now rewrite app_nil_r.
Qed.

(** ** The read task *)

Lemma read_ends_ok seen c : client_ok seen c -> client_ok seen (read_ends c).
Proof. now intros []. Qed.

(** A reply to a call that no reply has been read for completes that call, and no
    other. *)
Lemma complete_ok seen c g i k :
  client_ok seen c -> calls c !! i = Some k -> registered (phase k) = true -> NvpFrame.request_id g = call_id k ->
  ~ NvpFrame.request_id g ∈ NvpFrame.request_id <$> seen ->
  client_ok (seen ++ [g]) (complete g c).
Proof.
  intros K Hk Hp Hi Hn.
  assert (Hr : reply k = None).
  { destruct (reply k) as [r|] eqn:Er; [|reflexivity]. destruct (ok_reply _ _ K _ _ _ Hk Er) as (g' & Hg' & Hi' & _).
    destruct Hn. rewrite Hi, <- Hi'. apply list_elem_of_fmap. eauto. }
  assert (G : pending c !! NvpFrame.request_id g = Some i) by (apply (ok_pending _ _ K); exists k; auto).
  unfold complete. rewrite G. set (c' := on_call _ _ _).
  pose proof (fun j k' H => same_id seen c i j k k' K Hk H) as Hs. destruct K as [N I F O S P R A D E].
  assert (L : forall j, calls c' !! j = if decide (i = j) then set_reply (reply_of_frame g) <$> calls c !! j else calls c !! j).
  { intros j. apply (calls_on_call i _ (set_pending (delete (NvpFrame.request_id g) (pending c)) c)). }
  assert (X : forall j k', calls c' !! j = Some k' ->
    (j = i /\ k' = set_reply (reply_of_frame g) k) \/ (i <> j /\ calls c !! j = Some k')).
  { intros j k' H. rewrite L in H. case_decide; [left|right; auto]. subst. rewrite Hk in H. cbn in H. split; congruence. }
  assert (Y : forall j k', calls c !! j = Some k' -> exists k'', calls c' !! j = Some k'' /\ call_id k'' = call_id k'
    /\ phase k'' = phase k' /\ request_frame k'' = request_frame k').
  { intros j k' H. rewrite L. case_decide; rewrite H; eexists; split; [reflexivity|auto|reflexivity|auto]. }
  constructor.
  - unfold c'. now rewrite length_calls_on_call.
  - intros j k' [(-> & ->)|(Hj & H)]%X; cbn; eauto.
  - intros f Hf. destruct (F f Hf) as (j & k' & H & Hp' & ->). destruct (Y j k' H) as (k'' & H' & _ & E2 & E3).
    exists j, k''. rewrite E3. repeat split; congruence.
  - exact O.
  - intros j k' [(-> & ->)|(Hj & H)]%X Hp' W; [apply (S i k)|apply (S j k')]; assumption.
  - intros n j. change (pending c') with (delete (NvpFrame.request_id g) (pending c)).
    destruct (decide (n = NvpFrame.request_id g)) as [->|Nn].
    + rewrite lookup_delete_eq. split; [discriminate|].
      intros (k' & [(-> & ->)|(Hj & H)]%X & H1 & H2 & H3); [discriminate|]. destruct Hj. apply (Hs j k' H). congruence.
    + rewrite lookup_delete_ne by congruence. rewrite P. split; intros (k' & H & H1 & H2 & H3).
      * exists k'. rewrite L. case_decide; [|auto]. subst. congruence.
      * apply X in H as [(-> & ->)|(Hj & H)]; [discriminate|]. exists k'. auto.
  - intros j k' [(-> & ->)|(Hj & H)]%X Hp'; [cbn in Hp'; congruence|eauto].
  - intros j k' r [(-> & ->)|(Hj & H)]%X Hr'.
    + injection Hr' as <-. exists g. rewrite elem_of_app, list_elem_of_singleton. auto.
    + destruct (A j k' r H Hr') as (g' & Hg' & ?). exists g'. rewrite elem_of_app. auto.
  - intros j k' g' [(-> & ->)|(Hj & H)]%X Hg Hi'; [discriminate|]. apply elem_of_app in Hg as [Hg|Hg]; [eauto|].
    apply list_elem_of_singleton in Hg as ->. destruct Hj. apply (Hs j k' H). congruence.
  - intros g' [Hg|Hg]%elem_of_app.
    + destruct (E g' Hg) as (j & k' & H & Hi'). destruct (Y j k' H) as (k'' & H' & E1 & _). exists j, k''.
      split; congruence.
    + apply list_elem_of_singleton in Hg as ->. destruct (Y i k Hk) as (k'' & H' & E1 & _). exists i, k''.
      split; congruence.
Qed.

Lemma set_stream_ok seen c i evs b : client_ok seen c -> client_ok seen (on_call i (set_stream evs b) c).
Proof. apply quiet_ok. now intros k. Qed.

Lemma read_event_ok seen c g c' :
  client_ok seen c -> is_reply g = false -> read_frame g c = Some c' -> client_ok seen c'.
Proof.
  intros K Hg H. unfold is_reply in Hg. unfold read_frame in H. destruct (NvpFrame.frame_type g); try discriminate.
  destruct (watchers c !! _) as [i|]; [|now injection H as <-].
  destruct (event_from_bytes _) as [ev|er|]; [|now injection H as <-..].
  destruct (calls c !! i) as [k|]; [|now injection H as <-].
  destruct (stream_open k); [|now injection H as <-]. case_match; [|discriminate]. injection H as <-.
  apply quiet_ok; [now intros x|exact K].
Qed.

Lemma next_event_ok seen c i ev c' :
  client_ok seen c -> next_event i c = Some (ev, c') -> client_ok seen c'.
Proof.
  unfold next_event. intros K H. destruct (calls c !! i) as [k|]; [|discriminate].
  destruct (stream k) as [|ev' evs]; [discriminate|]. injection H as <- <-. now apply set_stream_ok.
Qed.

Lemma drop_stream_ok seen c i : client_ok seen c -> client_ok seen (drop_stream i c).
Proof. apply set_stream_ok. Qed.

(** ** What the tables promise at rest *)

(** A call whose frame is on the wire, and whose reply has been read, has it. *)
Lemma replied seen c i k g :
  client_ok seen c -> calls c !! i = Some k -> g ∈ seen -> NvpFrame.request_id g = call_id k ->
  exists r, reply k = Some r.
Proof.
  intros K Hk Hg Hi. pose proof (ok_read _ _ K _ _ _ Hk Hg Hi). destruct (reply k); [eauto|congruence].
Qed.
End ClientLaws.
