(* ===== verification/Collection.v ===== *)
(** [nova-client/src/collection.rs]: the NQL text a collection handle writes for each
    operation, and what it makes of the response.

    The derived [Debug] text of an unexpected response is an argument. *)

From S2P Require Export Client.

Module CollectionHandle.
Local Open Scope string_scope.

Section Queries.
Context {U : UuidLib} {J : JsonLib}.

(** [serde_json::to_string] of the fields of a document. *)
Definition fields_json (d : Document) : string :=
  from_bytes (json_to_vec (JObject (List.map (fun p => (p.1, json_of_value p.2)) (fields d)))).

(** [String::pop]. *)
Definition pop (s : string) : string := string_of_chars (removelast (chars s)).

Definition insert_nql (coll : string) (d : Document) : string :=
  let json_str := fields_json d in
  let id_part := quote ++ "_id" ++ quote ++ ": " ++ quote ++ id d ++ quote in
  let fields_inner :=
    if String.eqb json_str "{}" then "{" ++ id_part ++ "}" else pop (trim json_str) ++ ", " ++ id_part ++ "}" in
  "INSERT INTO " ++ coll ++ " VALUES (" ++ fields_inner ++ ")".
End Queries.

Definition where_clause (filter : option string) : string :=
  match filter with Some f => " WHERE " ++ f | None => "" end.

Definition find_nql (coll filter : string) : string := "FIND " ++ coll ++ where_clause (Some filter).
Definition find_all_nql (coll : string) : string := "FIND " ++ coll.
Definition find_by_id_nql (coll doc_id : string) : string :=
  "FIND " ++ coll ++ " WHERE id == " ++ quote ++ doc_id ++ quote.
Definition update_nql (coll filter set_clause : string) : string :=
  "UPDATE " ++ coll ++ " SET " ++ set_clause ++ where_clause (Some filter).
Definition remove_nql (coll filter : string) : string := "REMOVE " ++ coll ++ where_clause (Some filter).
Definition count_nql (coll : string) (filter : option string) : string := "COUNT " ++ coll ++ where_clause filter.
Definition exists_nql (coll filter : string) : string := "EXISTS " ++ coll ++ where_clause (Some filter).
Definition create_index_nql (coll field index_type : string) : string :=
  "CREATE INDEX " ++ coll ++ "." ++ field ++ " TYPE " ++ index_type.
Definition drop_index_nql (coll field : string) : string := "DROP INDEX " ++ coll ++ "." ++ field.
Definition watch_nql (coll : string) (filter : option string) : string := "WATCH " ++ coll ++ where_clause filter.

(** ** What the methods make of the response *)

Section Results.
Variable debug : ResponsePayload -> string.

Definition unexpected {A} (what : string) (resp : ResponsePayload) : result A :=
  Err (protocol ("Unexpected " ++ what ++ " response: " ++ debug resp)).

Definition insert_result (d : Document) (resp : ResponsePayload) : result Document :=
  match resp with
  | PRecords (first :: _) _ => Ok first
  | PSuccess _ _ => Ok d
  | other => unexpected "insert" other
  end.

Definition documents_result (what : string) (resp : ResponsePayload) : result (list Document) :=
  match resp with PRecords documents _ => Ok documents | other => unexpected what other end.

Definition find_result : ResponsePayload -> result (list Document) := documents_result "find".
Definition find_all_result : ResponsePayload -> result (list Document) := documents_result "find_all".

Definition find_by_id_result (resp : ResponsePayload) : result (option Document) :=
  match resp with PRecords documents _ => Ok (last documents) | other => unexpected "find_by_id" other end.

Definition affected_result (what : string) (resp : ResponsePayload) : result Z :=
  match resp with PSuccess _ affected => Ok affected | other => unexpected what other end.

Definition update_result : ResponsePayload -> result Z := affected_result "update".
Definition remove_result : ResponsePayload -> result Z := affected_result "remove".

Definition count_result (resp : ResponsePayload) : result Z :=
  match resp with PCount c => Ok c | other => unexpected "count" other end.

Definition exists_result (resp : ResponsePayload) : result bool :=
  match resp with PExists b => Ok b | other => unexpected "exists" other end.

Definition unit_result (what : string) (resp : ResponsePayload) : result unit :=
  match resp with PSuccess _ _ => Ok tt | other => unexpected what other end.

Definition create_index_result : ResponsePayload -> result unit := unit_result "create_index".
Definition drop_index_result : ResponsePayload -> result unit := unit_result "drop_index".
End Results.
End CollectionHandle.
