(* ===== verification/StorageProps.v ===== *)
(** Properties of the storage engine: the record format, the write-ahead log and
    crash recovery, with the inputs on which they are applied. *)

From stdpp Require Import sorting.
From S2P Require Export Durability Samples.

Import WriteAheadLog.
#[local] Arguments record_bytes : simpl never.

(** ** The record format *)

(** C22: [NbfRecord::encode] writes every well-formed record, and
    [NbfRecord::decode] reads it back from the front of any input, leaving exactly
    the bytes after it. *)
Theorem nbf_roundtrip {C : CrcLib} {CL : CrcLaws C} r rest :
  record_ok r ->
  exists b, NbfRecord.encode r = Ok b /\ NbfRecord.decode (b ++ rest) = Ok (Some (r, rest)).
Proof. intros Hr. exists (record_bytes r). auto using encode_ok, decode_ok. Qed.

Definition sample_record : NbfRecord.t :=
  make_record 7 1700000000000000 Insert "default" "users" "u1" (as_bytes "{}") (Some 3).

Lemma sample_record_ok : record_ok sample_record.
Proof. unfold record_ok. cbn. repeat split; try reflexivity; easy. Defined.

Lemma nbf_roundtrip_witness :
  record_ok sample_record
  /\ exists b, @NbfRecord.encode ieee_crc sample_record = Ok b
       /\ @NbfRecord.decode ieee_crc (b ++ [x4e]) = Ok (Some (sample_record, [x4e])).
Proof.
  split; [exact sample_record_ok|].
  exact (@nbf_roundtrip ieee_crc ieee_crc_laws sample_record [x4e] sample_record_ok).
Defined.

(** C8: a record cut short anywhere, as a crash in the middle of a write leaves it,
    never decodes: within the four magic bytes the decoder reports a clean end of
    file, after them a torn write. *)
Theorem nbf_torn_write_detected {C : CrcLib} {CL : CrcLaws C} r b n :
  record_ok r -> NbfRecord.encode r = Ok b -> (n < List.length b)%nat ->
  if (n <? 4)%nat then NbfRecord.decode (firstn n b) = Ok None
  else exists e, NbfRecord.decode (firstn n b) = Err e /\ code e = TornWriteDetected.
Proof.
  intros Hr He Hn. rewrite encode_ok in He by assumption. injection He as <-.
  exact (decode_torn r n Hr Hn).
Qed.

Lemma nbf_torn_write_witness :
  @NbfRecord.encode ieee_crc sample_record = Ok (@record_bytes ieee_crc sample_record)
  /\ exists e, @NbfRecord.decode ieee_crc (firstn 40 (@record_bytes ieee_crc sample_record)) = Err e
       /\ code e = TornWriteDetected.
Proof.
  split; [exact (encode_ok sample_record sample_record_ok)|].
  exact (@nbf_torn_write_detected ieee_crc ieee_crc_laws sample_record _ 40 sample_record_ok
    (encode_ok sample_record sample_record_ok) ltac:(vm_compute; lia)).
Defined.

(** C23: whatever bytes it is given, when [NbfRecord::decode] accepts a record the
    record is well formed (identifier, UTF-8 texts, payload limit), the bytes it
    consumed are the frame of that record with a matching checksum, at least 41 of
    them, and another continuation would have been decoded alike. *)
Theorem nbf_decode_sound {C : CrcLib} {CL : CrcLaws C} input r rest :
  NbfRecord.decode input = Ok (Some (r, rest)) ->
  record_ok r
  /\ (exists raw, DocId.new raw = Ok (NbfRecord.document_id r)
       /\ input = (frame_bytes r raw ++ rest)%list)
  /\ (40 < List.length input - List.length rest)%nat
  /\ forall rest', NbfRecord.decode (firstn (List.length input - List.length rest) input ++ rest')
                   = Ok (Some (r, rest')).
Proof.
  intros H. destruct (decode_inv _ _ _ H) as (Hr & raw & Hraw & E).
  split; [assumption|]. split; [exists raw; split; [apply Hraw|assumption]|].
  destruct (decode_local _ _ _ H) as (used & E' & L & Hloc). rewrite E', length_app.
  replace (List.length used + List.length rest - List.length rest)%nat with (List.length used) by lia.
  rewrite firstn_prefix by reflexivity. auto.
Qed.

Lemma nbf_decode_sound_witness :
  let input := (@record_bytes ieee_crc sample_record ++ [x00])%list in
  @NbfRecord.decode ieee_crc input = Ok (Some (sample_record, [x00])) /\ record_ok sample_record.
Proof.
  intros input. assert (H : @NbfRecord.decode ieee_crc input = Ok (Some (sample_record, [x00])))
    by (vm_compute; reflexivity).
  split; [exact H|]. exact (proj1 (@nbf_decode_sound ieee_crc ieee_crc_laws _ _ _ H)).
Defined.

(** ** The log across restarts *)

(** C4: with [SyncMode::Always], over any number of server lives (recover, open the log,
    append, flush, rotate) each of which ends by a stop or by the death of the process
    inside an append, of whose record the files have got any first bytes: recovery replays
    exactly the records whose [append] returned, and those that a dying append had written
    in full, in the order they were written; and when every life ended by a stop it leaves
    the directory as it is.  Deaths after one to three bytes of a record are left out: they
    make the log unreadable, see [short_torn_tail_poisons_the_log]. *)
Theorem wal_durable {C : CrcLib} {CL : CrcLaws C} {U : UuidLib} {J : JsonLib} limit lives d log :
  Forall life_ok lives -> Z.of_nat (life_ops lives) <= u64_max ->
  run_lives limit lives ∅ = Ok (d, log) ->
  exists tail d',
    recover d = (let? st := replay (List.map entry_record log) recovered_new in Ok (settle tail st, d'))
    /\ (forallb stops lives = true -> tail = [] /\ d' = d).
Proof.
  intros HF Hn H.
  destruct (run_lives_stored limit lives ∅ d [] log 0 [] HF) as (tail & HS & Ht); [|exact H|].
  { left. split; [reflexivity|]. apply stored_empty. lia. }
  destruct (recover_stored_torn _ _ _ _ _ HS) as (d' & _ & E & Ed). exists tail, d'. split; [exact E|].
  intros Hs. specialize (Ht Hs eq_refl). auto.
Qed.

Definition sample_put (i : string) : WalOp :=
  OpAppend 5 Insert "default" "users" i
    (@json_to_vec sample_json (@json_of_document sample_uuid (Doc.set_fields (Doc.with_id 9 i) [])))
    None.

Definition sample_torn_first : NbfRecord.t :=
  make_record 1 5 Delete "default" "users" "a" [] None.

Lemma sample_torn_first_ok : record_ok sample_torn_first.
Proof. unfold record_ok. cbn. repeat split; try reflexivity; easy. Defined.

(** Two lives; the segment limit is small enough for rotations. *)
Definition sample_sessions : list (list WalOp) :=
  [[sample_put "a"; OpFlush; sample_put "b"]; [sample_put "c"; OpRotate; sample_put "d"]].

Definition sample_run : result (gmap string bytes * list NbfRecord.t) :=
  @run_sessions ieee_crc sample_uuid sample_json 700 sample_sessions ∅.

Lemma sample_run_ok :
  match sample_run with
  | Ok (d, rs) => List.length rs = 4%nat /\ size d = 6%nat
  | _ => False
  end.
Proof. vm_compute. split; reflexivity. Defined.

Lemma sample_sessions_ok : Forall (Forall op_ok) sample_sessions.
Proof. repeat constructor; vm_compute; reflexivity. Defined.

Definition sample_death (i : string) (k : nat) : Ending :=
  match sample_put i with
  | OpAppend now ty ns coll i pl tx => Died now ty ns coll i pl tx k
  | _ => Stopped
  end.

(** Two records, and 40 bytes of a third; a record, and all bytes of one nobody was told
    of; a last record. *)
Definition sample_lives : list (list WalOp * Ending) :=
  [([sample_put "a"; OpFlush; sample_put "b"], sample_death "x" 40);
   ([sample_put "c"], sample_death "y" 10000); ([OpRotate; sample_put "d"], Stopped)].

Lemma sample_lives_ok : Forall life_ok sample_lives.
Proof. repeat constructor; cbn; (vm_compute; reflexivity) || (right; vm_compute; lia). Defined.

Lemma wal_durable_witness :
  match @run_lives ieee_crc sample_uuid sample_json 700 sample_lives ∅ with
  | Ok (d, log) =>
    List.map (fun x => match x with Acknowledged r => (NbfRecord.document_id r, true) | Unanswered r => (NbfRecord.document_id r, false) end) log
      = [("a", true); ("b", true); ("c", true); ("y", false); ("d", true)]%string
    /\ exists tail d', @recover ieee_crc sample_uuid sample_json d
         = (let? st := @replay sample_uuid sample_json (List.map entry_record log) recovered_new in Ok (settle tail st, d'))
  | _ => False
  end.
Proof.
  assert (K : match @run_lives ieee_crc sample_uuid sample_json 700 sample_lives ∅ with
    | Ok (_, log) => List.map (fun x => match x with Acknowledged r => (NbfRecord.document_id r, true) | Unanswered r => (NbfRecord.document_id r, false) end) log
        = [("a", true); ("b", true); ("c", true); ("y", false); ("d", true)]%string
    | _ => False end) by (vm_compute; reflexivity).
  destruct (@run_lives ieee_crc sample_uuid sample_json 700 sample_lives ∅) as [[d log]| |] eqn:E; [|exact K..].
  split; [exact K|].
  destruct (@wal_durable ieee_crc ieee_crc_laws sample_uuid sample_json 700 sample_lives d log sample_lives_ok) as (tail & d' & R & _).
  - vm_compute. discriminate.
  - exact E.
  - exists tail, d'. exact R.
Defined.

(** C24: server lives that end by a stop leave the log in order: sequence numbers increase strictly
    over all segments and all restarts, every segment holds whole records, and no
    segment exceeds the size limit unless it holds a single record. *)
Theorem wal_layout {C : CrcLib} {CL : CrcLaws C} {U : UuidLib} {J : JsonLib} limit sessions d acked :
  Forall (Forall op_ok) sessions -> Z.of_nat (total_ops sessions) <= u64_max -> sessions <> [] ->
  run_sessions limit sessions ∅ = Ok (d, acked) ->
  StronglySorted Z.lt (List.map NbfRecord.sequence acked)
  /\ exists segments, (d = ∅ /\ acked = [] \/ d = dir_from 0 (List.map log_bytes segments))
     /\ List.concat segments = acked
     /\ Forall (fun rs => Z.of_nat (List.length (log_bytes rs)) <= limit \/ (List.length rs <= 1)%nat) segments.
Proof.
  intros HF Hn Hne H.
  destruct (run_sessions_stored limit sessions ∅ d [] acked 0 HF) as (closed & opened & Hd & E & _ & HS & HW & _);
    [apply stored_empty; lia|assumption|].
  split; [assumption|]. exists (closed ++ [opened])%list. cbn [app] in E. subst acked.
  split; [|split; [rewrite List.concat_app; cbn; now rewrite app_nil_r|assumption]].
  destruct Hd as [->|(-> & -> & ->)]; [right; now rewrite List.map_app|left; now split].
Qed.

Lemma wal_layout_witness :
  match sample_run with
  | Ok (d, rs) => StronglySorted Z.lt (List.map NbfRecord.sequence rs)
  | _ => False
  end.
Proof.
  pose proof sample_run_ok as K. destruct sample_run as [[d rs]| |] eqn:E; [|exact K..].
  refine (proj1 (@wal_layout ieee_crc ieee_crc_laws sample_uuid sample_json 700 sample_sessions d rs
    sample_sessions_ok _ _ E)); [vm_compute; discriminate|discriminate].
Defined.

(** C5: a crash loses at most a suffix.  After any run, in either sync mode, let the
    process die so that a prefix [p] of the bytes still in the write buffer reaches
    the file: recovery replays a prefix of the acknowledged records, and with
    [SyncMode::Always] all of them. *)
Theorem crash_keeps_a_prefix {C : CrcLib} {CL : CrcLaws C} {U : UuidLib} {J : JsonLib}
    mode limit ops w acked p q :
  Forall op_ok ops -> Z.of_nat (List.length ops) <= u64_max ->
  run_wal ops (open ∅ mode limit) = (w, acked) -> active_buf w = (p ++ q)%list ->
  exists survivors lost tail d,
    acked = (survivors ++ lost)%list
    /\ (q = [] -> lost = []) /\ (mode = SyncAlways -> lost = [])
    /\ recover (dir (file_append p w))
       = let? st := replay survivors recovered_new in Ok (settle tail st, d).
Proof.
  intros HF Hn Hrun Hpq.
  pose proof (open_inv limit ∅ [] (List.length ops + 0) mode recovered_new) as O. cbn zeta in O.
  destruct O as ((closed & opened & disk & I & E0) & B & SB & A & M & L);
    [apply stored_empty; lia|reflexivity|].
  assert (Ew : set_sequence (max_sequence recovered_new) (open ∅ mode limit) = open ∅ mode limit) by reflexivity.
  rewrite Ew in *. pose proof (run_wal_inv ops 0 _ _ _ _ HF I B SB) as R. rewrite Hrun in R.
  destruct R as (B' & _ & M' & _ & (closed' & opened' & disk' & I' & E') & A').
  rewrite E0 in E'. cbn [app] in E'.
  destruct (crash_prefix w closed' opened' disk' p q 0 I' B' Hpq) as (s & lost & tail & -> & _ & Hq & Hrec).
  exists (List.concat closed' ++ s)%list, lost, tail, (dir_from 0 (List.map log_bytes closed' ++ [log_bytes s ++ kept tail])).
  split; [now rewrite <- app_assoc|]. split; [intros X; apply Hq, X|]. split; [|exact Hrec].
  intros X. apply Hq. assert (active_buf w = []) as Eb by (apply A'; congruence).
  rewrite Eb in Hpq. symmetry in Hpq. now apply app_eq_nil in Hpq.
Qed.

Definition sample_buffered : t * list NbfRecord.t :=
  @run_wal ieee_crc [sample_put "a"; OpFlush; sample_put "b"] (open ∅ SyncNone 100000).

Lemma crash_keeps_a_prefix_witness :
  let (w, acked) := sample_buffered in
  exists survivors lost tail d,
    acked = (survivors ++ lost)%list
    /\ @recover ieee_crc sample_uuid sample_json (dir (file_append (firstn 50 (active_buf w)) w))
       = let? st := @replay sample_uuid sample_json survivors recovered_new in Ok (settle tail st, d).
Proof.
  unfold sample_buffered. destruct (@run_wal ieee_crc _ _) as [w acked] eqn:E.
  destruct (@crash_keeps_a_prefix ieee_crc ieee_crc_laws sample_uuid sample_json SyncNone 100000
    [sample_put "a"; OpFlush; sample_put "b"] w acked (firstn 50 (active_buf w)) (skipn 50 (active_buf w)))
    as (s & l & tail & d & H1 & _ & _ & H2).
  - repeat constructor; vm_compute; reflexivity.
  - vm_compute. discriminate.
  - exact E.
  - symmetry. apply firstn_skipn.
  - exists s, l, tail, d. split; [exact H1|exact H2].
Defined.

(** C7: recovery is idempotent on every directory, also on one with foreign or damaged
    files, or with several names for one segment: running it again on what it left reaches
    the same collections, sequence number and record count, truncates nothing and changes
    no file. *)
Theorem recovery_idempotent {C : CrcLib} {CL : CrcLaws C} {U : UuidLib} {J : JsonLib} d st d' :
  recover d = Ok (st, d') ->
  exists st', recover d' = Ok (st', d')
    /\ collections st' = collections st /\ max_sequence st' = max_sequence st
    /\ records_replayed st' = records_replayed st /\ torn_tails_truncated st' = 0.
Proof.
  intros H. destruct (recover_again d st d' H) as (st' & E & (E1 & E2 & E3) & T). eauto 8.
Qed.

(** One record and the first 30 bytes of another. *)
Definition torn_dir : gmap string bytes :=
  dir_from 0 [(@record_bytes ieee_crc sample_torn_first ++ firstn 30 (@record_bytes ieee_crc sample_record))%list].

Lemma recovery_idempotent_witness :
  match @recover ieee_crc sample_uuid sample_json torn_dir with
  | Ok (st, d') =>
    torn_tails_truncated st = 1
    /\ exists st', @recover ieee_crc sample_uuid sample_json d' = Ok (st', d')
         /\ torn_tails_truncated st' = 0
  | _ => False
  end.
Proof.
  assert (K : match @recover ieee_crc sample_uuid sample_json torn_dir with
              | Ok (st, _) => torn_tails_truncated st = 1 | _ => False end) by (vm_compute; reflexivity).
  destruct (@recover ieee_crc sample_uuid sample_json torn_dir) as [[st d']| |] eqn:E; [|exact K..].
  split; [exact K|].
  destruct (@recovery_idempotent ieee_crc ieee_crc_laws sample_uuid sample_json torn_dir st d')
    as (st' & H & _ & _ & _ & T).
  - exact E.
  - exists st'. split; [exact H|exact T].
Defined.

(** A torn tail of one to three bytes is neither truncated nor counted by
    recovery (the decoder takes it for the end of the file), and the next record
    appended after the restart is written behind it: from then on recovery fails
    with [WalCorrupted].  The records acknowledged after the restart, and the
    database, are lost to the server although nothing but a torn write happened. *)
Theorem short_torn_tail_poisons_the_log {C : CrcLib} {CL : CrcLaws C} {U : UuidLib} {J : JsonLib}
    rs r k st limit now ty ns coll i pl tx w' seq :
  Forall record_ok rs -> record_ok r -> (1 <= k <= 3)%nat -> replay rs recovered_new = Ok st ->
  op_ok (OpAppend now ty ns coll i pl tx) ->
  let d := dir_from 0 [log_bytes rs ++ firstn k (record_bytes r)] in
  append NoFault now ty ns coll i pl tx (set_sequence (max_sequence st) (open d SyncAlways limit)) = (w', Ok seq) ->
  current_segment_index w' = 0 ->
  recover d = Ok (st, d) /\ exists e, recover (dir w') = Err e /\ code e = WalCorrupted.
Proof.
  intros HF Hr Hk Hst Hop d Happ Hidx. split; [apply short_tail_recover; auto; lia|].
  destruct (append_one_segment _ limit now ty ns coll i pl tx _ w' seq Hop Happ Hidx) as (r' & Hr' & ->).
  rewrite <- (app_nil_r (record_bytes r')). now apply short_tail_then_append with (st := st).
Qed.

Lemma short_torn_tail_witness :
  let d := dir_from 0 [@log_bytes ieee_crc [sample_torn_first] ++ firstn 2 (@record_bytes ieee_crc sample_record)] in
  match @replay sample_uuid sample_json [sample_torn_first] recovered_new with
  | Ok st =>
    match @append ieee_crc NoFault 9 Insert "default" "users" "b" [] None
            (set_sequence (max_sequence st) (open d SyncAlways 16777216)) with
    | (w', Ok _) => exists e, @recover ieee_crc sample_uuid sample_json (dir w') = Err e /\ code e = WalCorrupted
    | _ => False
    end
  | _ => False
  end.
Proof.
  intros d.
  destruct (@replay sample_uuid sample_json [sample_torn_first] recovered_new) as [st| |] eqn:Er;
    [|vm_compute in Er; discriminate Er..].
  destruct (@append ieee_crc NoFault 9 Insert "default" "users" "b" [] None
    (set_sequence (max_sequence st) (open d SyncAlways 16777216))) as [w' [seq| |]] eqn:Ea.
  - refine (proj2 (@short_torn_tail_poisons_the_log ieee_crc ieee_crc_laws sample_uuid sample_json
      [sample_torn_first] sample_record 2 st 16777216 9 Insert "default" "users" "b" [] None w' seq
      _ sample_record_ok _ Er _ Ea _)).
    + constructor; [exact sample_torn_first_ok|constructor].
    + lia.
    + vm_compute. repeat split; reflexivity.
    + change w' with (fst (w', (Ok seq : result Z))). rewrite <- Ea. vm_compute in Er. injection Er as <-.
      vm_compute. reflexivity.
  - exfalso. vm_compute in Er. injection Er as <-. vm_compute in Ea. discriminate Ea.
  - exfalso. vm_compute in Er. injection Er as <-. vm_compute in Ea. discriminate Ea.
Defined.

(** Every 64-bit segment index is read back from the file name the log gives
    it, so different segments have different files, and a directory of numbered
    segments is discovered in the order in which it was written. *)
Theorem segment_names_roundtrip i contents :
  0 <= i -> i + Z.of_nat (List.length contents) <= u64_max + 1 ->
  (forall j, 0 <= j <= u64_max -> (wal_stem (segment_path j) ≫= parse_u64) = Some j)
  /\ discover_segments (dir_from i contents) = seqZ i (Z.of_nat (List.length contents)).
Proof. intros Hi Hn. split; [apply segment_index_path|now apply discover_dir_from]. Qed.

Lemma segment_names_roundtrip_witness :
  (wal_stem (segment_path 12345678901234567890) ≫= parse_u64) = Some 12345678901234567890
  /\ discover_segments (dir_from 9 [[]; []; []]) = [9; 10; 11].
Proof.
  destruct (segment_names_roundtrip 9 [[]; []; []]) as [H1 H2].
  - lia.
  - cbn. unfold u64_max. lia.
  - split; [apply H1; unfold u64_max; lia|exact H2].
Defined.
