(* ===== verification/SnapshotProps.v ===== *)
(** Snapshots: what is created can be listed and restored, and what is damaged is
    refused. *)

From S2P Require Export Snapshot Samples Segments.

Import SnapshotManager.

(** ** Hash tables *)

Lemma collect_map_list `{Countable K} {V} (l : list (K * V)) :
  NoDup l.*1 -> collect_map l = list_to_map l.
Proof.
  intros HN. unfold collect_map. rewrite <- (rev_involutive l) at 1.
  rewrite <- fold_left_rev_right, rev_involutive.
  transitivity (list_to_map (M := gmap K V) (rev l)).
  - clear HN. induction (rev l) as [|[k v] r IH]; cbn; [reflexivity|]. now rewrite <- IH.
  - apply list_to_map_proper; [|symmetry; apply Permutation_rev]. rewrite <- Permutation_rev. exact HN.
Qed.

Section HashTables.
Context {HO : HashOrder} {HL : HashOrderLaws HO}.

Lemma NoDup_hash_keys `{Countable K} {V} (m : gmap K V) : NoDup (hash_order (map_to_list m)).*1.
Proof. rewrite hash_order_perm. apply NoDup_fst_map_to_list. Qed.

(** Filling a table from another one's entries, in any order, copies it. *)
Lemma collect_map_order `{Countable K} {V} (m : gmap K V) : collect_map (hash_order (map_to_list m)) = m.
Proof.
  rewrite collect_map_list by apply NoDup_hash_keys.
  rewrite <- (list_to_map_to_list m) at 2. apply list_to_map_proper; [apply NoDup_hash_keys|apply hash_order_perm].
Qed.

(** The same with entries renamed, changed or left out: no two kept entries may get
    the same new key. *)
Lemma collect_map_omap `{Countable K, Countable L} {V W} (g : K * V -> option (L * W)) (m : gmap K V) l w :
  (forall k v k' v' x y z, m !! k = Some v -> m !! k' = Some v' ->
     g (k, v) = Some (x, y) -> g (k', v') = Some (x, z) -> k = k') ->
  collect_map (omap g (hash_order (map_to_list m))) !! l = Some w
  <-> exists k v, m !! k = Some v /\ g (k, v) = Some (l, w).
Proof.
  intros Hinj. assert (HN : NoDup (omap g (hash_order (map_to_list m))).*1).
  { assert (HF : forall p, p ∈ hash_order (map_to_list m) -> m !! p.1 = Some p.2).
    { intros [k v] Hin. now rewrite elem_of_hash_order, elem_of_map_to_list in Hin. }
    pose proof (NoDup_hash_keys m) as HK. induction (hash_order (map_to_list m)) as [|[k v] r IH]; cbn; [constructor|].
    cbn in HK. apply NoDup_cons in HK as [Hp HK].
    assert (IH' : NoDup (omap g r).*1) by (apply IH; [intros q Hq; apply HF; now right|assumption]).
    destruct (g (k, v)) as [[x y]|] eqn:Eg; [|exact IH']. cbn. constructor; [|exact IH'].
    intros Hin. apply list_elem_of_fmap in Hin as ([x' z] & -> & Hin). apply list_elem_of_omap in Hin as ([k' v'] & Hq & Eq).
    apply Hp. apply list_elem_of_fmap. exists (k', v'). split; [|assumption]. cbn.
    apply (Hinj k v k' v' x' y z); [apply (HF (k, v)); now left|apply (HF (k', v')); now right|assumption..]. }
  rewrite collect_map_list by assumption. rewrite <- elem_of_list_to_map by assumption.
  rewrite list_elem_of_omap. split.
  - intros ([k v] & Hin & E). rewrite elem_of_hash_order, elem_of_map_to_list in Hin. now exists k, v.
  - intros (k & v & Hk & E). exists (k, v). now rewrite elem_of_hash_order, elem_of_map_to_list.
Qed.

(** A table printed as a JSON object is read back. *)
Lemma map_json_roundtrip {V} (f : V -> Json) (g : Json -> option V) (m : gmap string V) :
  (forall k v, m !! k = Some v -> g (f v) = Some v) -> map_of_json g (json_of_map f m) = Some m.
Proof.
  intros Hg. unfold map_of_json, json_of_map.
  assert (E : forall l, Forall (fun p : string * V => g (f p.2) = Some p.2) l ->
    mapM (fun p : string * Json => v ← g p.2; Some (p.1, v)) (List.map (fun p => (p.1, f p.2)) l) = Some l).
  { induction 1 as [|[k v] l Hp _ IH]; cbn; [reflexivity|]. cbn in Hp. rewrite Hp. cbn. cbn in IH. now rewrite IH. }
  rewrite E; [cbn; f_equal; apply collect_map_order|].
  apply Forall_forall. intros [k v] Hin. rewrite elem_of_hash_order, elem_of_map_to_list in Hin. exact (Hg k v Hin).
Qed.
End HashTables.

Lemma map_omap {A B} (f : A -> B) (l : list A) : List.map f l = omap (fun x => Some (f x)) l.
Proof. induction l as [|x l IH]; cbn; [reflexivity|]. now rewrite IH. Qed.

(** ** Names *)

Fixpoint no_colon (s : string) : bool :=
  match s with
  | EmptyString => true
  | String a s' => negb (Ascii.eqb a ":") && no_colon s'
  end.

Lemma split_colons_other a s :
  negb (Ascii.eqb a ":") = true -> split_colons (String a s) = let (p, ps) := split_colons s in (String a p, ps).
Proof.
  intros Ha. apply negb_true_iff, Ascii.eqb_neq in Ha.
  destruct a as [[] [] [] [] [] [] [] []]; try reflexivity. now destruct Ha.
Qed.

Lemma split_no_colon s : no_colon s = true -> split_colons s = (s, []).
Proof.
  induction s as [|a s IH]; [reflexivity|]. cbn [no_colon]. intros H. apply andb_true_iff in H as [Ha Hs].
  now rewrite split_colons_other, IH by assumption.
Qed.

Lemma split_flat_key ns coll :
  no_colon ns = true -> no_colon coll = true -> split_colons (flat_key (ns, coll)) = (ns, [coll]).
Proof.
  intros Hn Hc. unfold flat_key, fst, snd. induction ns as [|a s IH].
  - change (("" ++ "::" ++ coll)%string) with (String ":" (String ":" coll)). cbn [split_colons]. now rewrite split_no_colon.
  - cbn [no_colon] in Hn. apply andb_true_iff in Hn as [Ha Hs].
    change ((String a s ++ "::" ++ coll)%string) with (String a (s ++ "::" ++ coll)).
    now rewrite split_colons_other, IH by assumption.
Qed.

Lemma ends_with_append suffix s : ends_with suffix (s ++ suffix) = true.
Proof.
  induction s as [|a s IH].
  - change (("" ++ suffix)%string) with suffix. destruct suffix; cbn [ends_with]; now rewrite String.eqb_refl.
  - change ((String a s ++ suffix)%string) with (String a (s ++ suffix)). cbn [ends_with]. now rewrite IH, orb_true_r.
Qed.

(** A data file is not a metadata file. *)
Lemma data_name_not_meta i j : data_name i <> meta_name j.
Proof.
  unfold data_name, meta_name. intros E. assert (ends_with ".snap" (j ++ ".meta.json") = true) as H.
  { rewrite <- E. apply ends_with_append. }
  clear E. induction j as [|a j IH]; [discriminate H|].
  change ((String a j ++ ".meta.json")%string) with (String a (j ++ ".meta.json")) in H. cbn [ends_with] in H.
  apply orb_true_iff in H as [H|H]; [|now apply IH].
  apply String.eqb_eq in H. apply (f_equal String.length) in H. cbn [String.length] in H.
  rewrite string_length_append in H. cbn in H. lia.
Qed.

(** ** Collections a snapshot can hold *)

Section Laws.
Context {C : CrcLib} {CL : CrcLaws C} {U : UuidLib} {UL : UuidLaws U} {J : JsonLib} {JL : JsonLaws J}
  {PJ : PrettyJson} {PL : PrettyLaws PJ} {HO : HashOrder} {HL : HashOrderLaws HO}.

(** Documents whose JSON form determines them, no deeper than the parser reads them
    inside the snapshot; the three objects around a document count. *)
Definition doc_snapshotable (i : DocumentId) (d : Document) : Prop :=
  valid_str i = true /\ DocId.new i = Ok i /\ doc_native d = true
  /\ json_plain (json_of_document d) = true /\ (json_depth (json_of_document d) < 125)%nat.

Definition name_snapshotable (key : CollectionKey) : Prop :=
  no_colon key.1 = true /\ no_colon key.2 = true /\ valid_str (flat_key key) = true.

Definition snapshotable (collections : gmap CollectionKey DocumentStore) : Prop :=
  forall key docs, collections !! key = Some docs ->
    name_snapshotable key /\ forall i d, docs !! i = Some d -> doc_snapshotable i d.

Lemma flat_key_inj key key' :
  name_snapshotable key -> name_snapshotable key' -> flat_key key = flat_key key' -> key = key'.
Proof.
  destruct key as [n c], key' as [n' c']. intros (H1 & H2 & _) (H1' & H2' & _) E. cbn [fst snd] in *.
  pose proof (split_flat_key n c H1 H2) as S1. rewrite E, split_flat_key in S1 by assumption. now injection S1 as -> ->.
Qed.

Lemma flat_lookup collections k docs :
  snapshotable collections ->
  flat_collections collections !! k = Some docs <-> exists key, flat_key key = k /\ collections !! key = Some docs.
Proof.
  intros HS. unfold flat_collections. rewrite map_omap, collect_map_omap.
  - unfold string_doc_map. split.
    + intros (key & v & Hk & E). cbn in E. rewrite collect_map_order in E. injection E as <- <-. now exists key.
    + intros (key & <- & Hk). exists key, docs. split; [assumption|]. cbn. now rewrite collect_map_order.
  - intros key v key' v' x y z Hk Hk' E E'. cbn in E, E'. injection E as <- _. injection E' as E' _.
    apply flat_key_inj; [apply (HS key v Hk)|apply (HS key' v' Hk')|now symmetry].
Qed.

Lemma restored_docs_id (docs : DocumentStore) :
  (forall i d, docs !! i = Some d -> DocId.new i = Ok i) -> restored_docs docs = docs.
Proof.
  intros Hd. apply map_eq. intros i. apply option_eq. intros d. unfold restored_docs. rewrite collect_map_omap; cbn.
  - split.
    + intros (k & v & Hk & E). rewrite (Hd k v Hk) in E. now injection E as <- <-.
    + intros Hi. exists i, d. now rewrite (Hd i d Hi).
  - intros k v k' v' x y z Hk Hk' E E'. rewrite (Hd k v Hk) in E. rewrite (Hd k' v' Hk') in E'. congruence.
Qed.

(** Flattening and restoring the names cancel out. *)
Lemma restored_flat collections : snapshotable collections -> restored (flat_collections collections) = collections.
Proof.
  intros HS. assert (G : forall k docs, flat_collections collections !! k = Some docs ->
    exists ns coll, k = flat_key (ns, coll) /\ split_colons k = (ns, [coll]) /\ collections !! (ns, coll) = Some docs
                    /\ restored_docs docs = docs).
  { intros k docs Hk. apply flat_lookup in Hk as ([ns coll] & <- & Hk); [|assumption]. exists ns, coll.
    destruct (HS _ _ Hk) as [(N1 & N2 & _) Hd]. split_and!; [reflexivity|now apply split_flat_key|assumption|].
    apply restored_docs_id. intros i d Hi. apply (Hd i d Hi). }
  apply map_eq. intros [ns coll]. apply option_eq. intros docs. unfold restored. rewrite collect_map_omap; cbn [fst snd].
  - split.
    + intros (k & v & Hk & E). destruct (G k v Hk) as (n & c & _ & Es & Hc & Er). rewrite Es, Er in E. now injection E as <- <- <-.
    + intros Hk. exists (flat_key (ns, coll)), docs. assert (Hf : flat_collections collections !! flat_key (ns, coll) = Some docs)
        by (apply flat_lookup; eauto).
      split; [assumption|]. destruct (G _ _ Hf) as (n & c & E & Es & _ & Er). destruct (HS _ _ Hk) as [(N1 & N2 & _) _].
      now rewrite split_flat_key, Er by assumption.
  - intros k v k' v' x y z Hk Hk' E E'. destruct (G k v Hk) as (n & c & -> & Es & _). destruct (G k' v' Hk') as (n' & c' & -> & Es' & _).
    rewrite Es in E. rewrite Es' in E'. congruence.
Qed.

(** ** The text of a snapshot *)

Lemma json_of_map_plain {V} (f : V -> Json) (m : gmap string V) :
  (forall k v, m !! k = Some v -> valid_str k = true /\ json_plain (f v) = true) -> json_plain (json_of_map f m) = true.
Proof.
  intros Hm. cbn [json_of_map json_plain]. apply andb_true_iff. split.
  - apply bool_decide_eq_true. change (NoDup (List.map fst (List.map (fun p : string * V => (p.1, f p.2)) (hash_order (map_to_list m))))).
    rewrite List.map_map. apply NoDup_hash_keys.
  - rewrite forallb_forall. intros p Hin. apply in_map_iff in Hin as ([k v] & <- & Hin).
    apply list_elem_of_In in Hin. rewrite elem_of_hash_order, elem_of_map_to_list in Hin.
    cbn. now apply andb_true_iff, Hm.
Qed.

Lemma json_of_map_depth {V} (f : V -> Json) (m : gmap string V) n :
  (forall k v, m !! k = Some v -> (json_depth (f v) <= n)%nat) -> (json_depth (json_of_map f m) <= S n)%nat.
Proof.
  intros Hm. cbn [json_of_map json_depth]. apply le_n_S.
  assert (HF : Forall (fun p : string * V => (json_depth (f p.2) <= n)%nat) (hash_order (map_to_list m))).
  { apply Forall_forall. intros [k v] Hin. rewrite elem_of_hash_order, elem_of_map_to_list in Hin. exact (Hm k v Hin). }
  induction HF as [|p l Hp _ IH]; cbn; lia.
Qed.

Lemma flat_doc collections k docs i d :
  snapshotable collections -> flat_collections collections !! k = Some docs -> docs !! i = Some d ->
  valid_str k = true /\ doc_snapshotable i d.
Proof.
  intros HS Hk Hi. apply flat_lookup in Hk as (key & <- & Hk); [|assumption].
  destruct (HS key docs Hk) as [(_ & _ & Hv) Hd]. split; [assumption|now apply Hd].
Qed.

Lemma data_text_safe collections : snapshotable collections -> text_safe (json_of_data (flat_collections collections)) = true.
Proof.
  intros HS. unfold text_safe. apply andb_true_iff. split.
  - unfold json_of_data. cbn [json_plain forallb fst snd]. rewrite json_of_map_plain; [reflexivity|].
    intros k docs Hk. split.
    + apply flat_lookup in Hk as (key & <- & Hk); [|assumption]. apply (HS key docs Hk).
    + apply json_of_map_plain. intros i d Hi. pose proof (flat_doc _ _ _ _ _ HS Hk Hi) as (_ & V & _ & _ & P & _). now split.
  - apply Nat.ltb_lt. assert (H : (json_depth (json_of_map (json_of_map json_of_document) (flat_collections collections)) <= 126)%nat).
    { apply json_of_map_depth. intros k docs Hk. apply json_of_map_depth. intros i d Hi.
      pose proof (flat_doc _ _ _ _ _ HS Hk Hi) as (_ & _ & _ & _ & _ & P). lia. }
    unfold json_of_data. cbn [json_depth fold_right snd]. lia.
Qed.

Lemma data_roundtrip collections :
  snapshotable collections ->
  (json_from_slice (snapshot_bytes collections) ≫= data_of_json) = Some (flat_collections collections).
Proof.
  intros HS. unfold snapshot_bytes. rewrite json_parse_print by now apply data_text_safe.
  cbn [mbind option_bind data_of_json json_of_data]. cbn [json_member List.filter fst String.eqb Ascii.eqb Bool.eqb].
  cbn. apply map_json_roundtrip. intros k docs Hk. apply map_json_roundtrip. intros i d Hi.
  apply document_json_roundtrip. pose proof (flat_doc _ _ _ _ _ HS Hk Hi) as (_ & _ & _ & N & _). exact N.
Qed.

Definition metadata_ok (m : SnapshotMetadata) : bool :=
  valid_str (meta_id m) && in_i64 (meta_timestamp m) && valid_str (meta_database_version m)
  && (0 <=? meta_storage_version m) && (meta_storage_version m <=? u16_max) && in_u64 (meta_document_count m)
  && in_u64 (meta_size_bytes m) && (0 <=? meta_checksum m) && (meta_checksum m <=? u32_max).

Lemma metadata_roundtrip m :
  metadata_ok m = true -> (json_from_slice (json_to_vec_pretty (json_of_metadata m)) ≫= metadata_of_json) = Some m.
Proof.
  unfold metadata_ok. intros H. bool_facts. destruct m as [i t v s d b c]. cbn in *. rewrite json_parse_pretty.
  - cbn. rewrite num_as_i64_of_i64 by assumption. unfold json_uint. cbn.
    rewrite !(proj2 (Z.leb_le _ _)) by assumption. reflexivity.
  - unfold text_safe. apply andb_true_iff. split; [|reflexivity]. cbn.
    repeat match goal with E : valid_str _ = true |- _ => rewrite E; clear E end.
    unfold num_of_i64, in_i64, in_u64, i64_min, u16_max, u32_max, u64_max in *. bool_facts.
    destruct (t <? 0) eqn:Et; bool_facts; cbn; unfold in_u64, u64_max, i64_min, i64_max in *; repeat (apply andb_true_iff; split); first [lia|reflexivity].
Qed.

(** ** Creating and restoring *)

Lemma doc_count_nonneg collections : 0 <= doc_count collections.
Proof.
  unfold doc_count. enough (G : forall l n, 0 <= n -> 0 <= fold_left (fun n (p : CollectionKey * DocumentStore) => n + Z.of_nat (size p.2)) l n)
    by now apply G.
  induction l as [|p l IH]; intros n Hn; [exact Hn|]. cbn [fold_left]. apply IH. lia.
Qed.

(** What [create] records about a snapshot. *)
Definition metadata_for (now : Z) (i : string) (collections : gmap CollectionKey DocumentStore) : SnapshotMetadata :=
  {| meta_id := i; meta_timestamp := now; meta_database_version := package_version;
     meta_storage_version := NBF_VERSION; meta_document_count := doc_count collections;
     meta_size_bytes := Z.of_nat (List.length (snapshot_bytes collections));
     meta_checksum := crc32 (snapshot_bytes collections) |}.

Lemma metadata_for_ok now i collections :
  valid_str i = true -> in_i64 now = true -> doc_count collections <= u64_max ->
  Z.of_nat (List.length (snapshot_bytes collections)) <= u64_max -> metadata_ok (metadata_for now i collections) = true.
Proof.
  intros Hi Hn Hd Hl. unfold metadata_ok, metadata_for. cbn.
  pose proof (doc_count_nonneg collections). pose proof (crc32_range (snapshot_bytes collections)).
  unfold in_u64, u32_max. rewrite Hi, Hn. cbn. rewrite !(proj2 (Z.leb_le _ _)) by lia. reflexivity.
Qed.

Lemma name_inj suffix (i j : string) : (i ++ suffix = j ++ suffix)%string -> i = j.
Proof.
  revert j. induction i as [|a i IH]; intros [|b j] E; [reflexivity| | |].
  - apply (f_equal String.length) in E. rewrite !string_length_append in E. cbn [String.length] in E. lia.
  - apply (f_equal String.length) in E. rewrite !string_length_append in E. cbn [String.length] in E. lia.
  - change (String a (i ++ suffix) = String b (j ++ suffix)) in E. injection E as -> E. now rewrite (IH j E).
Qed.

(** C25: a snapshot can be restored.  After [create], [restore] of the identifier gives
    back exactly the collections, in whatever order the hash tables are iterated, and
    the metadata with the number of documents; [list] shows it; the other snapshots of
    the directory are as they were; and once the data file is replaced by one with
    another CRC, [restore] reports the mismatch. *)
Theorem snapshot_roundtrip now dir i collections :
  snapshotable collections -> valid_str i = true -> in_i64 now = true -> doc_count collections <= u64_max ->
  Z.of_nat (List.length (snapshot_bytes collections)) <= u64_max ->
  exists files meta, create now dir i collections = (Some files, Ok meta)
    /\ restore (Some files) i = Ok (meta, collections)
    /\ meta_document_count meta = doc_count collections
    /\ (exists l, list_snapshots (Some files) = Ok l /\ meta ∈ l)
    /\ (forall j, j <> i -> restore (Some files) j = restore dir j)
    /\ (forall damaged, crc32 damaged <> crc32 (snapshot_bytes collections) ->
         restore (Some (<[data_name i := damaged]> files)) i
         = Err (checksum_mismatch (meta_checksum meta) (crc32 damaged))).
Proof.
  intros HS Hi Hn Hd Hl. set (files0 := default ∅ dir). set (raw := snapshot_bytes collections).
  set (meta := metadata_for now i collections). set (mb := json_to_vec_pretty (json_of_metadata meta)).
  pose proof (metadata_roundtrip meta (metadata_for_ok now i collections Hi Hn Hd Hl)) as RM. fold mb in RM.
  exists (<[meta_name i := mb]> (<[data_name i := raw]> files0)), meta.
  split; [reflexivity|]. assert (N : data_name i <> meta_name i) by apply data_name_not_meta.
  split; [|split; [reflexivity|split; [|split]]].
  - unfold restore. cbn [from_option Datatypes.id]. rewrite lookup_insert_eq, lookup_insert_ne, lookup_insert_eq by congruence.
    rewrite RM. cbn [meta metadata_for meta_checksum]. fold raw. rewrite Z.eqb_refl. cbn [negb].
    unfold raw. rewrite data_roundtrip by assumption. now rewrite restored_flat.
  - unfold list_snapshots. eexists. split; [reflexivity|]. rewrite sort_by_perm. apply list_elem_of_omap.
    exists (meta_name i, mb). split; [|cbn [fst snd]; unfold meta_name; now rewrite ends_with_append].
    rewrite elem_of_hash_order, elem_of_map_to_list. apply lookup_insert_eq.
  - intros j Hj. unfold restore. cbn [from_option Datatypes.id]. fold files0.
    rewrite (lookup_insert_ne _ (meta_name i) (meta_name j)) by (intros E; apply Hj; symmetry; exact (name_inj _ _ _ E)).
    rewrite (lookup_insert_ne _ (data_name i) (meta_name j)) by apply data_name_not_meta.
    rewrite (lookup_insert_ne _ (meta_name i) (data_name j)) by (intros E; symmetry in E; now apply data_name_not_meta in E).
    rewrite (lookup_insert_ne _ (data_name i) (data_name j)) by (intros E; apply Hj; symmetry; exact (name_inj _ _ _ E)).
    reflexivity.
  - intros damaged Hc. unfold restore. cbn [from_option Datatypes.id].
    rewrite lookup_insert_ne, !lookup_insert_eq by congruence. rewrite RM. cbn [meta metadata_for meta_checksum]. fold raw.
    rewrite (proj2 (Z.eqb_neq _ _)) by assumption. reflexivity.
Qed.
End Laws.

(** ** On a sample *)

#[local] Existing Instances ieee_crc ieee_crc_laws sample_uuid sample_uuid_laws sample_json sample_json_laws
  order_reversed order_reversed_laws.

#[local] Instance pretty_as_is : PrettyJson := json_to_vec.

#[local] Instance pretty_as_is_laws : PrettyLaws pretty_as_is.
Proof. intros j Hj. apply json_parse_print, Hj. Qed.

Definition two_collections : gmap CollectionKey DocumentStore :=
  <[("default", "users") := {["u1" := sample_doc]}]> {[("default", "orders") := ∅]}%string.

Lemma two_collections_ok : snapshotable two_collections.
Proof.
  intros key docs H. unfold two_collections in H.
  apply lookup_insert_Some in H as [[<- <-]|[_ H]].
  - split; [split_and!; vm_compute; reflexivity|]. intros i d Hi. apply lookup_singleton_Some in Hi as [<- <-].
    split_and!; try (vm_compute; reflexivity). apply Nat.ltb_lt. vm_compute. reflexivity.
  - apply lookup_singleton_Some in H as [<- <-]. split; [split_and!; vm_compute; reflexivity|]. intros i d Hi.
    now rewrite lookup_empty in Hi.
Qed.

Lemma snapshot_roundtrip_witness :
  exists files meta, create 5 None "snap_01" two_collections = (Some files, Ok meta)
    /\ restore (Some files) "snap_01" = Ok (meta, two_collections) /\ meta_document_count meta = 1.
Proof.
  destruct (snapshot_roundtrip 5 None "snap_01" two_collections two_collections_ok) as (files & meta & E & R & D & _);
    [reflexivity|reflexivity|vm_compute; discriminate|vm_compute; discriminate|].
  exists files, meta. split; [exact E|]. split; [exact R|]. rewrite D. vm_compute. reflexivity.
Defined.

(** A name with colons is lost or changed: the collection [a::b] of the namespace [x]
    is not restored, ["b"] of ["a:"] comes back as [":b"] of ["a"]. *)
Example colons_in_names :
  split_colons (flat_key ("x", "a::b")) = ("x", ["a"; "b"])
  /\ split_colons (flat_key ("a:", "b")) = ("a", [":b"]).
Proof. split; reflexivity. Qed.
