(* ===== verification/ValueProps.v ===== *)
(** Properties of values, document identifiers and documents. *)

From S2P Require Export Document Nbf Samples.

(** ** Order, equality and hash *)

(** C40: on values whose integers are exact as floats the ordering is a total preorder;
    on those of them that hold no NaN and no negative zero ([ordinary]) its equivalence is
    equality.  (Zero and negative zero are equal and ordered.) *)
Theorem value_order_lawful x y z :
  exact_ints x = true -> exact_ints y = true -> exact_ints z = true ->
  value_cmp y x = CompOpp (value_cmp x y)
  /\ (value_cmp x y <> Gt -> value_cmp y z <> Gt -> value_cmp x z <> Gt)
  /\ (ordinary x = true -> ordinary y = true -> value_cmp x y = Eq <-> value_eqb x y = true).
Proof.
  intros Hx Hy Hz. split; [apply value_cmp_sym|]. split.
  - now apply (ord_trans (OrdOn := value_cmp_ord)).
  - intros Ox Oy. split; apply value_eqb_iff; assumption.
Qed.

Definition nested : Value := VObject [("a", VArray [VInt 1; VFloat 4607182418800017408]); ("b", VNull)]%string.

Lemma value_order_lawful_witness :
  value_cmp (VString "x") nested = CompOpp (value_cmp nested (VString "x"))
  /\ (value_cmp nested nested = Eq <-> value_eqb nested nested = true).
Proof.
  split.
  - exact (proj1 (value_order_lawful nested (VString "x") VNull eq_refl eq_refl eq_refl)).
  - exact (proj2 (proj2 (value_order_lawful nested nested nested eq_refl eq_refl eq_refl)) eq_refl eq_refl).
Defined.

(** Past 2^53 the ordering that is meant to be total is not transitive, and equal
    values hash differently: 2^53+1 and 2^53 both equal the float 2^53 and differ from
    each other. *)
Theorem value_order_breaks_past_two53 :
  let big := VInt 9007199254740993 in
  let flt := VFloat (f64_of_i64 9007199254740992) in
  let small := VInt 9007199254740992 in
  value_cmp big flt = Eq /\ value_cmp flt small = Eq /\ value_cmp big small = Gt
  /\ value_eqb big flt = true /\ value_hash big <> value_hash flt.
Proof. vm_compute. repeat split; discriminate. Qed.

(** Equal values hash equally, as a hash map needs, as long as integers are within
    2^53 and every NaN is the canonical one. *)
Theorem equal_values_hash_equally x y :
  hash_ok x = true -> hash_ok y = true -> value_eqb x y = true -> value_hash x = value_hash y.
Proof. apply value_hash_eq. Qed.

Lemma equal_values_hash_equally_witness :
  value_hash (VArray [VInt 1]) = value_hash (VArray [VFloat 4607182418800017408]).
Proof. apply (equal_values_hash_equally (VArray [VInt 1]) (VArray [VFloat 4607182418800017408])); reflexivity. Defined.

(** ** JSON *)

(** A value that JSON represents (no bytes, no timestamp, finite floats, no text
    that reads as a UUID) survives the conversion to JSON and back; any other value is
    normalised by one round trip, and further ones change nothing. *)
Theorem value_json_normalises {U : UuidLib} {UL : UuidLaws U} v :
  value_ok v = true ->
  let w := value_of_json (json_of_value v) in
  json_native w = true /\ value_of_json (json_of_value w) = w /\ (json_native v = true -> w = v).
Proof.
  intros Hv w. assert (Hw : json_native w = true) by (apply value_of_json_native, json_of_value_ok, Hv).
  split; [exact Hw|]. split; [now apply json_roundtrip|apply json_roundtrip].
Qed.

Lemma value_json_normalises_witness :
  @value_of_json sample_uuid (@json_of_value sample_uuid nested) = nested.
Proof.
  exact (proj2 (proj2 (@value_json_normalises sample_uuid sample_uuid_laws nested eq_refl)) eq_refl).
Defined.

(** ** Documents *)

(** [DocumentId::new] accepts exactly the texts that trim to 1 to 256 bytes, gives
    the trimmed text, and accepts it again unchanged. *)
Theorem document_id_new_spec s :
  match DocId.new s with
  | Ok i => i = trim s /\ 0 < str_len i <= 256 /\ DocId.new i = Ok i
  | Err e => code e = InvalidQuery /\ (str_len (trim s) = 0 \/ 256 < str_len (trim s))
  | Panic => False
  end.
Proof.
  destruct (DocId.new s) as [i|e|] eqn:E.
  - pose proof (DocId.new_Ok _ _ E) as [H1 H2]. split; [exact H1|]. split; [exact H2|]. eapply DocId.new_fix, E.
  - unfold DocId.new in E. repeat (case_match; try discriminate); injection E as <-; bool_facts; auto.
  - unfold DocId.new in E. repeat case_match; discriminate.
Qed.

(** The payload of a log record gives back the document it was made from: identifier,
    version, times and every field, for a document of JSON values whose text the JSON
    library reads back. *)
Theorem document_payload_roundtrip {U : UuidLib} {UL : UuidLaws U} {J : JsonLib} {JL : JsonLaws J} d r :
  doc_native d = true -> text_safe (json_of_document d) = true ->
  NbfRecord.payload_from_document d = Ok (NbfRecord.payload r) ->
  NbfRecord.document_from_payload r = Ok d.
Proof.
  unfold NbfRecord.payload_from_document, NbfRecord.document_from_payload. intros Hn Ht [= <-].
  rewrite json_parse_print by assumption. cbn [mbind option_bind]. now rewrite document_json_roundtrip.
Qed.

Definition sample_payload_record : NbfRecord.t :=
  {| NbfRecord.sequence := 1; NbfRecord.record_type := Insert; NbfRecord.flags := 0; NbfRecord.tx_id := None;
     NbfRecord.timestamp := 5; NbfRecord.namespace := "default"; NbfRecord.collection := "users";
     NbfRecord.document_id := "u1";
     NbfRecord.payload := @json_to_vec sample_json (@json_of_document sample_uuid sample_doc) |}%string.

Lemma document_payload_roundtrip_witness :
  @NbfRecord.document_from_payload sample_uuid sample_json sample_payload_record = Ok sample_doc.
Proof.
  apply (@document_payload_roundtrip sample_uuid sample_uuid_laws sample_json sample_json_laws sample_doc
    sample_payload_record); vm_compute; reflexivity.
Defined.
