(* ===== verification/ProtocolProps.v ===== *)
(** Properties of the wire protocol. *)

From S2P Require Export Payload Samples.

#[local] Arguments wire_bytes : simpl never.

Section ProtocolProps.
Context {C : CrcLib} {CL : CrcLaws C}.

(** Every frame within the limits is encoded; decoding finds it at the front of
    any input and reports its length, and asks for more input on every proper prefix. *)
Theorem frame_roundtrip f :
  frame_ok f ->
  exists b, NvpFrame.encode f = Ok b
    /\ (forall rest, NvpFrame.decode_from_slice (b ++ rest) = Ok (Some (f, List.length b)))
    /\ forall n, (n < List.length b)%nat -> NvpFrame.decode_from_slice (firstn n b) = Ok None.
Proof.
  intros H. exists (wire_bytes f). split; [now apply frame_encode_ok|].
  split; intros; [now apply frame_decode_ok|now apply frame_decode_prefix].
Qed.

(** A frame is decoded only from its own encoding: the input starts with the
    bytes [encode] writes for it, within all limits. *)
Theorem frame_decode_sound src f n :
  NvpFrame.decode_from_slice src = Ok (Some (f, n)) ->
  frame_ok f /\ NvpFrame.encode f = Ok (firstn n src) /\ (n <= List.length src)%nat.
Proof.
  intros H. destruct (frame_decode_inv src f n H) as (Hf & rest & -> & ->).
  split; [exact Hf|]. rewrite firstn_prefix by reflexivity. split; [now apply frame_encode_ok|].
  rewrite length_app. lia.
Qed.

(** C32: however the network cuts the bytes of a sequence of frames, the codec delivers
    those frames, in order, and ends with an empty buffer. *)
Theorem stream_reassembles_frames fs chunks :
  Forall frame_ok fs ->
  (List.concat chunks = List.concat (List.map wire_bytes fs))%list ->
  NvpCodec.read_chunks [] chunks = ([], Ok fs).
Proof.
  intros HF H. apply read_chunks_ok; [exact HF| |exact H].
  destruct fs as [|f fs]; [reflexivity|]. exists 0%nat. split; [|reflexivity].
  rewrite length_wire. lia.
Qed.
End ProtocolProps.

(** C33: requests, responses and events are read back from their bytes: valid text,
    machine integers, and documents that JSON determines and that are not nested too
    deep for the parser. *)
Theorem payloads_read_back {U : UuidLib} {UL : UuidLaws U} {J : JsonLib} {JL : JsonLaws J} r p e :
  request_ok r = true -> response_ok p = true -> event_ok e = true ->
  (let? b := request_to_bytes r in request_from_bytes b) = Ok r
  /\ (let? b := response_to_bytes p in response_from_bytes b) = Ok p
  /\ (let? b := event_to_bytes e in event_from_bytes b) = Ok e.
Proof.
  intros Hr Hp He.
  split; [now apply request_bytes_roundtrip|split; [now apply response_bytes_roundtrip|now apply event_bytes_roundtrip]].
Qed.

(** ** On sample frames *)

Definition sample_frame : NvpFrame.t := NvpFrame.new FRequest 7 (as_bytes "{}").

Lemma sample_frame_ok : frame_ok sample_frame.
Proof. unfold frame_ok. vm_compute. repeat split; discriminate. Qed.

Lemma sample_ping_ok : frame_ok (NvpFrame.ping 8).
Proof. unfold frame_ok. vm_compute. repeat split; discriminate. Qed.

Lemma frame_roundtrip_witness :
  exists b, @NvpFrame.encode ieee_crc sample_frame = Ok b
    /\ (forall rest, @NvpFrame.decode_from_slice ieee_crc (b ++ rest) = Ok (Some (sample_frame, List.length b)))
    /\ forall n, (n < List.length b)%nat -> @NvpFrame.decode_from_slice ieee_crc (firstn n b) = Ok None.
Proof. exact (@frame_roundtrip ieee_crc ieee_crc_laws sample_frame sample_frame_ok). Defined.

Lemma frame_decode_sound_witness :
  let src := (@wire_bytes ieee_crc sample_frame ++ [x00; x01])%list in
  frame_ok sample_frame /\ @NvpFrame.encode ieee_crc sample_frame = Ok (firstn 26 src) /\ (26 <= List.length src)%nat.
Proof.
  intros src. apply (@frame_decode_sound ieee_crc src sample_frame 26). vm_compute. reflexivity.
Defined.

Lemma stream_reassembles_frames_witness :
  let fs := [sample_frame; NvpFrame.ping 8] in
  let bs := List.concat (List.map (@wire_bytes ieee_crc) fs) in
  @NvpCodec.read_chunks ieee_crc [] [firstn 3 bs; firstn 40 (skipn 3 bs); []; skipn 43 bs] = ([], Ok fs).
Proof.
  intros fs bs. apply (@stream_reassembles_frames ieee_crc ieee_crc_laws fs).
  - apply List.Forall_cons; [exact sample_frame_ok|]. apply List.Forall_cons; [exact sample_ping_ok|constructor].
  - vm_compute. reflexivity.
Defined.

Definition sample_event : DataEvent :=
  event_new 50 7 Create "default" "users" "u1" None (Some sample_doc) None.

Lemma payloads_read_back_witness :
  (let? b := @event_to_bytes sample_uuid sample_json sample_event in @event_from_bytes sample_uuid sample_json b)
    = Ok sample_event
  /\ (let? b := @response_to_bytes sample_uuid sample_json (PRecords [sample_doc] 1) in
      @response_from_bytes sample_uuid sample_json b) = Ok (PRecords [sample_doc] 1).
Proof.
  destruct (@payloads_read_back sample_uuid sample_uuid_laws sample_json sample_json_laws (RQuery "FIND users")
    (PRecords [sample_doc] 1) sample_event eq_refl) as (_ & Hp & He); [vm_compute; reflexivity..|].
  split; [exact He|exact Hp].
Defined.
