(* ===== verification/Index.v ===== *)
(** [nova-index]: the hash index, the ordered index and the index manager, with the
    interface they share and the laws its clients rely on. *)

From S2P Require Export Document.

(** ** [traits.rs] *)

Inductive IndexType := PrimaryKey | Hash | Ordered.

#[export] Instance IndexType_eq_dec : EqDecision IndexType.
Proof. solve_decision. Defined.

Inductive IndexError :=
| DuplicateKey (name : string)
| ScanNotSupported (name : string)
| KeyNotFound (name : string)
| TypeMismatch (field expected found : string).

Inductive Bound := Included (v : Value) | Excluded (v : Value) | Unbounded.

Record IndexRange := { range_start : Bound; range_end : Bound }.

Module Range.
Definition all : IndexRange := {| range_start := Unbounded; range_end := Unbounded |}.
Definition exact (v : Value) : IndexRange :=
  {| range_start := Included v; range_end := Included v |}.
Definition from_inclusive (v : Value) : IndexRange :=
  {| range_start := Included v; range_end := Unbounded |}.
Definition to_inclusive (v : Value) : IndexRange :=
  {| range_start := Unbounded; range_end := Included v |}.
Definition between_inclusive (s e : Value) : IndexRange :=
  {| range_start := Included s; range_end := Included e |}.

(** What [BTreeMap::range] selects. *)
Definition above (b : Bound) (k : Value) : bool :=
  match b with
  | Included s => match value_cmp s k with Gt => false | _ => true end
  | Excluded s => match value_cmp s k with Lt => true | _ => false end
  | Unbounded => true
  end.

Definition below (b : Bound) (k : Value) : bool :=
  match b with
  | Included e => match value_cmp k e with Gt => false | _ => true end
  | Excluded e => match value_cmp k e with Lt => true | _ => false end
  | Unbounded => true
  end.

Definition contains (r : IndexRange) (k : Value) : bool :=
  above (range_start r) k && below (range_end r) k.

(** The two cases in which [BTreeMap::range] panics. *)
Definition invalid (r : IndexRange) : bool :=
  match range_start r, range_end r with
  | Excluded s, Excluded e => value_eqb s e || match value_cmp s e with Gt => true | _ => false end
  | Included s, Included e | Included s, Excluded e | Excluded s, Included e =>
    match value_cmp s e with Gt => true | _ => false end
  | _, _ => false
  end.
End Range.

(** The trait.  [insert] and [remove] may fail; [scan] may fail or panic. *)
Class Index (T : Type) := {
  index_name : T -> string;
  index_field : T -> string;
  index_type : T -> IndexType;
  index_insert : Value -> DocumentId -> T -> outcome IndexError T;
  index_remove : Value -> DocumentId -> T -> outcome IndexError T;
  index_lookup : Value -> T -> list DocumentId;
  index_scan : IndexRange -> T -> outcome IndexError (list DocumentId);
  index_len : T -> nat;
  index_clear : T -> T;
}.

(** [is_empty], the provided method. *)
Definition index_is_empty `{Index T} (i : T) : bool := Nat.eqb (index_len i) 0.

(** ** [hash.rs]

    [HashMap<Value, HashSet<DocumentId>>] is the list of its entries; a key finds
    an entry whose key makes the same calls on the hasher and is equal.  (The
    standard library leaves the behaviour open when equal keys hash differently.) *)

#[export] Instance HashWrite_eq_dec : EqDecision HashWrite.
Proof. solve_decision. Defined.

Definition key_match (k k' : Value) : bool :=
  bool_decide (value_hash k = value_hash k') && value_eqb k k'.

Section AssocMap.
Context {K V : Type} (eqb : K -> K -> bool).

Fixpoint am_get (k : K) (m : list (K * V)) : option V :=
  match m with
  | [] => None
  | (k', v) :: m' => if eqb k k' then Some v else am_get k m'
  end.

Fixpoint am_put (k : K) (v : V) (m : list (K * V)) : list (K * V) :=
  match m with
  | [] => [(k, v)]
  | (k', v') :: m' => if eqb k k' then (k', v) :: m' else (k', v') :: am_put k v m'
  end.

Fixpoint am_remove (k : K) (m : list (K * V)) : list (K * V) :=
  match m with
  | [] => []
  | (k', v') :: m' => if eqb k k' then m' else (k', v') :: am_remove k m'
  end.
End AssocMap.

Module HashIndex.
Record t := { name : string; field : string; entries : list (Value * gset DocumentId) }.

Definition new (n f : string) : t := {| name := n; field := f; entries := [] |}.

Definition set_entries (es : list (Value * gset DocumentId)) (i : t) : t :=
  {| name := name i; field := field i; entries := es |}.

Definition insert (key : Value) (doc_id : DocumentId) (i : t) : outcome IndexError t :=
  let set := default ∅ (am_get key_match key (entries i)) in
  Ok (set_entries (am_put key_match key ({[doc_id]} ∪ set) (entries i)) i).

Definition remove (key : Value) (doc_id : DocumentId) (i : t) : outcome IndexError t :=
  match am_get key_match key (entries i) with
  | Some set =>
    let set := set ∖ {[doc_id]} in
    let es := am_put key_match key set (entries i) in
    Ok (set_entries (if decide (set = ∅) then am_remove key_match key es else es) i)
  | None => Ok i
  end.

Definition lookup `{HashOrder} (key : Value) (i : t) : list DocumentId :=
  match am_get key_match key (entries i) with
  | Some set => hash_order (elements set)
  | None => []
  end.

Definition scan (_ : IndexRange) (i : t) : outcome IndexError (list DocumentId) :=
  Err (ScanNotSupported (name i)).

Definition len (i : t) : nat := sum_list_with (fun p => size p.2) (entries i).

Definition clear (i : t) : t := set_entries [] i.
End HashIndex.

#[export] Instance hash_index `{HashOrder} : Index HashIndex.t := {|
  index_name := HashIndex.name;
  index_field := HashIndex.field;
  index_type := fun _ => Hash;
  index_insert := HashIndex.insert;
  index_remove := HashIndex.remove;
  index_lookup := HashIndex.lookup;
  index_scan := HashIndex.scan;
  index_len := HashIndex.len;
  index_clear := HashIndex.clear;
|}.

(** ** [ordered.rs]

    [BTreeMap<Value, BTreeSet<DocumentId>>]: the sorted list of the entries, a set
    of identifiers as the sorted list of its elements. *)

Abbreviation IdSet := (list (DocumentId * unit)).

Definition ids_of (s : IdSet) : list DocumentId := List.map fst s.

Module OrderedIndex.
Record t := { name : string; field : string; entries : list (Value * IdSet) }.

Definition new (n f : string) : t := {| name := n; field := f; entries := [] |}.

Definition set_entries (es : list (Value * IdSet)) (i : t) : t :=
  {| name := name i; field := field i; entries := es |}.

Definition insert (key : Value) (doc_id : DocumentId) (i : t) : outcome IndexError t :=
  let set := default [] (bt_get value_cmp key (entries i)) in
  Ok (set_entries (bt_insert value_cmp key (bt_insert str_cmp doc_id tt set) (entries i)) i).

Definition remove (key : Value) (doc_id : DocumentId) (i : t) : outcome IndexError t :=
  match bt_get value_cmp key (entries i) with
  | Some set =>
    let set := bt_remove str_cmp doc_id set in
    let es := bt_insert value_cmp key set (entries i) in
    Ok (set_entries (match set with [] => bt_remove value_cmp key es | _ => es end) i)
  | None => Ok i
  end.

Definition lookup (key : Value) (i : t) : list DocumentId :=
  match bt_get value_cmp key (entries i) with
  | Some set => ids_of set
  | None => []
  end.

Definition scan (range : IndexRange) (i : t) : outcome IndexError (list DocumentId) :=
  match entries i with
  | [] => Ok []
  | _ =>
    if Range.invalid range then Panic
    else Ok (List.concat (List.map (fun p => ids_of p.2)
               (List.filter (fun p => Range.contains range p.1) (entries i))))
  end.

Definition len (i : t) : nat := sum_list_with (fun p => List.length p.2) (entries i).

Definition clear (i : t) : t := set_entries [] i.
End OrderedIndex.

#[export] Instance ordered_index : Index OrderedIndex.t := {|
  index_name := OrderedIndex.name;
  index_field := OrderedIndex.field;
  index_type := fun _ => Ordered;
  index_insert := OrderedIndex.insert;
  index_remove := OrderedIndex.remove;
  index_lookup := OrderedIndex.lookup;
  index_scan := OrderedIndex.scan;
  index_len := OrderedIndex.len;
  index_clear := OrderedIndex.clear;
|}.

(** [Box<dyn Index>]. *)
Inductive DynIndex := HashIdx (i : HashIndex.t) | OrderedIdx (i : OrderedIndex.t).

#[export] Instance dyn_index `{HashOrder} : Index DynIndex := {|
  index_name := fun d => match d with HashIdx i => index_name i | OrderedIdx i => index_name i end;
  index_field := fun d => match d with HashIdx i => index_field i | OrderedIdx i => index_field i end;
  index_type := fun d => match d with HashIdx i => index_type i | OrderedIdx i => index_type i end;
  index_insert := fun k id d =>
    match d with
    | HashIdx i => mapO HashIdx (index_insert k id i)
    | OrderedIdx i => mapO OrderedIdx (index_insert k id i)
    end;
  index_remove := fun k id d =>
    match d with
    | HashIdx i => mapO HashIdx (index_remove k id i)
    | OrderedIdx i => mapO OrderedIdx (index_remove k id i)
    end;
  index_lookup := fun k d =>
    match d with HashIdx i => index_lookup k i | OrderedIdx i => index_lookup k i end;
  index_scan := fun r d =>
    match d with HashIdx i => index_scan r i | OrderedIdx i => index_scan r i end;
  index_len := fun d => match d with HashIdx i => index_len i | OrderedIdx i => index_len i end;
  index_clear := fun d =>
    match d with HashIdx i => HashIdx (index_clear i) | OrderedIdx i => OrderedIdx (index_clear i) end;
|}.

(** ** Laws *)

Definition ord_key (v : Value) : Prop := ordinary v = true.

#[export] Instance ord_key_cmp : OrdOn ord_key value_cmp.
Proof.
  split.
  - intros x y _ _. apply value_cmp_sym.
  - intros x y z Hx Hy Hz. apply (ord_trans (OrdOn := value_cmp_ord)); now apply ordinary_exact.
Qed.

Lemma ordinary_hash_ok v : ordinary v = true -> hash_ok v = true.
Proof.
  induction v as [| | | | | |l IH|m IH| |] using value_ind'; cbn; auto.
  - unfold ordinary_f64. intros H. bool_facts. apply andb_true_iff. split; [assumption|].
    now apply orb_true_iff; left; apply negb_true_iff.
  - rewrite !forallb_forall. rewrite List.Forall_forall in IH. auto.
  - rewrite !forallb_forall. rewrite List.Forall_forall in IH. auto.
Qed.

Lemma key_match_iff k k' :
  ord_key k -> ord_key k' -> key_match k k' = true <-> value_cmp k k' = Eq.
Proof.
  unfold ord_key, key_match. intros Hk Hk'. rewrite andb_true_iff, bool_decide_eq_true.
  rewrite value_eqb_iff by assumption. split; [easy|]. intros E. split; [|assumption].
  apply value_hash_eq; auto using ordinary_hash_ok. now apply value_cmp_eqb.
Qed.

Section AssocLaws.
Context {K V : Type} (eqb : K -> K -> bool) {P : K -> Prop} {cmp : K -> K -> comparison}
  {O : OrdOn P cmp} (Heq : forall x y, P x -> P y -> eqb x y = true <-> cmp x y = Eq).

Definition am_wf (m : list (K * V)) : Prop :=
  Forall (fun p => P p.1) m /\ ForallOrdPairs (fun p q => eqb p.1 q.1 = false) m.

Lemma am_wf_cons_inv p m :
  am_wf (p :: m) -> P p.1 /\ Forall (fun q => eqb p.1 q.1 = false) m /\ am_wf m.
Proof. intros [A B]. inversion A; inversion B; subst. repeat split; auto. Qed.

Lemma am_wf_cons p m :
  P p.1 -> Forall (fun q => eqb p.1 q.1 = false) m -> am_wf m -> am_wf (p :: m).
Proof. intros A B [C D]. split; constructor; auto. Qed.

Lemma eqb_trans_l x y z : P x -> P y -> P z -> eqb x y = true -> eqb x z = eqb y z.
Proof.
  intros Hx Hy Hz E. apply Heq in E; [|assumption..]. apply eq_true_iff_eq.
  rewrite !Heq by assumption. now rewrite (ord_eq_l (P := P) x y z).
Qed.

Lemma eqb_sym x y : P x -> P y -> eqb x y = eqb y x.
Proof.
  intros Hx Hy. apply eq_true_iff_eq. rewrite !Heq by assumption.
  split; apply (ord_eq_sym (P := P)); assumption.
Qed.

Lemma am_get_none k (m : list (K * V)) : Forall (fun q => eqb k q.1 = false) m -> am_get eqb k m = None.
Proof. induction 1 as [|[k' v] m H _ IH]; cbn in *; [reflexivity|]. now rewrite H. Qed.

Lemma am_put_Forall (Q : K * V -> Prop) k v (m : list (K * V)) :
  Forall Q m -> Q (k, v) -> (forall k' v', Q (k', v') -> Q (k', v)) -> Forall Q (am_put eqb k v m).
Proof.
  intros HF Hk HQ. induction HF as [|[k' v'] m H HF' IH]; cbn; [auto|].
  destruct (eqb k k'); constructor; eauto.
Qed.

Lemma am_remove_Forall (Q : K * V -> Prop) k (m : list (K * V)) : Forall Q m -> Forall Q (am_remove eqb k m).
Proof. induction 1 as [|[k' v'] m H ? IH]; cbn; [auto|]. destruct (eqb k k'); auto. Qed.

Lemma am_put_wf k v (m : list (K * V)) : P k -> am_wf m -> am_wf (am_put eqb k v m).
Proof.
  intros Hk. induction m as [|[k' v'] m IH]; intros Hm; cbn; [now repeat constructor|].
  apply am_wf_cons_inv in Hm as (Hk' & HF & Hm). destruct (eqb k k') eqn:E.
  - now apply am_wf_cons.
  - apply am_wf_cons; auto. apply am_put_Forall; cbn in *; auto. now rewrite eqb_sym.
Qed.

Lemma am_remove_wf k (m : list (K * V)) : am_wf m -> am_wf (am_remove eqb k m).
Proof.
  induction m as [|[k' v'] m IH]; intros Hm; cbn; [assumption|].
  apply am_wf_cons_inv in Hm as (Hk' & HF & Hm). destruct (eqb k k'); [assumption|].
  apply am_wf_cons; auto using am_remove_Forall.
Qed.

Lemma am_get_put k k' v (m : list (K * V)) :
  P k -> P k' -> am_wf m ->
  am_get eqb k' (am_put eqb k v m) = if eqb k' k then Some v else am_get eqb k' m.
Proof.
  intros Hk Hk'. induction m as [|[k1 v1] m IH]; intros Hm; cbn; [reflexivity|].
  apply am_wf_cons_inv in Hm as (Hk1 & HF & Hm). cbn in *. destruct (eqb k k1) eqn:E; cbn.
  - rewrite (eqb_sym k' k1), <- (eqb_trans_l k k1 k'), (eqb_sym k k') by assumption.
    now destruct (eqb k' k).
  - destruct (eqb k' k1) eqn:E1; [|auto]. destruct (eqb k' k) eqn:E2; [|reflexivity].
    rewrite (eqb_trans_l k' k k1) in E1 by assumption. congruence.
Qed.

Lemma am_get_remove k k' (m : list (K * V)) :
  P k -> P k' -> am_wf m ->
  am_get eqb k' (am_remove eqb k m) = if eqb k' k then None else am_get eqb k' m.
Proof.
  intros Hk Hk'. induction m as [|[k1 v1] m IH]; intros Hm; cbn; [now destruct (eqb k' k)|].
  apply am_wf_cons_inv in Hm as (Hk1 & HF & Hm). cbn in *. destruct (eqb k k1) eqn:E; cbn.
  - rewrite (eqb_sym k' k1), <- (eqb_trans_l k k1 k'), (eqb_sym k k') by assumption.
    destruct (eqb k' k) eqn:E2; [|reflexivity]. apply am_get_none.
    destruct Hm as [HP _]. clear IH. induction HF as [|[k2 v2] m H _ IH]; [constructor|].
    inversion HP; subst. constructor; [|auto]. cbn in *.
    rewrite (eqb_trans_l k' k), (eqb_trans_l k k1) by assumption. assumption.
  - destruct (eqb k' k1) eqn:E1; [|auto]. destruct (eqb k' k) eqn:E2; [|reflexivity].
    rewrite (eqb_trans_l k' k k1) in E1 by assumption. congruence.
Qed.
End AssocLaws.

Definition range_ok (r : IndexRange) : Prop :=
  match range_start r with Included v | Excluded v => ord_key v | Unbounded => True end
  /\ match range_end r with Included v | Excluded v => ord_key v | Unbounded => True end.

Lemma contains_eq_key r k k' :
  range_ok r -> ord_key k -> ord_key k' -> value_cmp k k' = Eq ->
  Range.contains r k = Range.contains r k'.
Proof.
  intros [H1 H2] Hk Hk' E. unfold Range.contains. f_equal.
  - unfold Range.above. destruct (range_start r) as [s|s|]; [| |reflexivity];
      now rewrite (ord_eq_r (P := ord_key) k k' s).
  - unfold Range.below. destruct (range_end r) as [s|s|]; [| |reflexivity];
      now rewrite (ord_eq_l (P := ord_key) k k' s).
Qed.

(** What an index promises its clients, on ordinary keys: an identifier is found
    under a key exactly when it was inserted under an equal key and not removed
    since. *)
Class IndexLaws (T : Type) `{Index T} (wf : T -> Prop) : Prop := {
  index_clear_ok : forall i, wf (index_clear i) /\ forall k, index_lookup k (index_clear i) = [];
  index_insert_ok : forall i k id, wf i -> ord_key k -> exists i',
    index_insert k id i = Ok i' /\ wf i'
    /\ index_name i' = index_name i /\ index_field i' = index_field i /\ index_type i' = index_type i
    /\ forall k' id', ord_key k' ->
         id' ∈ index_lookup k' i' <-> (value_cmp k' k = Eq /\ id' = id) \/ id' ∈ index_lookup k' i;
  index_remove_ok : forall i k id, wf i -> ord_key k -> exists i',
    index_remove k id i = Ok i' /\ wf i'
    /\ index_name i' = index_name i /\ index_field i' = index_field i /\ index_type i' = index_type i
    /\ forall k' id', ord_key k' ->
         id' ∈ index_lookup k' i' <-> ~ (value_cmp k' k = Eq /\ id' = id) /\ id' ∈ index_lookup k' i;
  index_lookup_nodup : forall i k, wf i -> ord_key k -> NoDup (index_lookup k i);
  index_scan_ok : forall i r, wf i -> index_type i = Ordered -> range_ok r -> Range.invalid r = false ->
    exists ids, index_scan r i = Ok ids
      /\ (forall id, id ∈ ids <-> exists k, ord_key k /\ Range.contains r k = true /\ id ∈ index_lookup k i)
      /\ ((forall k k' id, ord_key k -> ord_key k' -> id ∈ index_lookup k i -> id ∈ index_lookup k' i ->
             value_cmp k k' = Eq) -> NoDup ids);
  index_scan_unsupported : forall i r, index_type i <> Ordered ->
    index_scan r i = Err (ScanNotSupported (index_name i));
}.

Lemma am_get_eq_key k k' (m : list (Value * gset DocumentId)) :
  ord_key k -> ord_key k' -> am_wf key_match (P := ord_key) m -> value_cmp k k' = Eq ->
  am_get key_match k m = am_get key_match k' m.
Proof.
  intros Hk Hk' [HF _] E. induction HF as [|[k1 v1] m H1 _ IH]; cbn in *; [reflexivity|].
  rewrite (eqb_trans_l key_match key_match_iff k k' k1), IH; auto. now apply key_match_iff.
Qed.

Section HashLaws.
Context `{HashOrderLaws}.

Definition hash_wf (i : HashIndex.t) : Prop := am_wf key_match (P := ord_key) (HashIndex.entries i).

Definition hash_ids (k : Value) (i : HashIndex.t) : gset DocumentId :=
  default ∅ (am_get key_match k (HashIndex.entries i)).

Lemma elem_of_hash_lookup id k i : id ∈ HashIndex.lookup k i <-> id ∈ hash_ids k i.
Proof.
  unfold HashIndex.lookup, hash_ids. destruct (am_get _ _ _) as [s|]; cbn.
  - now rewrite elem_of_hash_order, elem_of_elements.
  - split; intros E; [inversion E|set_solver].
Qed.

Lemma hash_insert_laws i k id :
  hash_wf i -> ord_key k -> exists i',
    HashIndex.insert k id i = Ok i' /\ hash_wf i'
    /\ HashIndex.name i' = HashIndex.name i /\ HashIndex.field i' = HashIndex.field i
    /\ forall k' id', ord_key k' ->
         id' ∈ HashIndex.lookup k' i' <-> (value_cmp k' k = Eq /\ id' = id) \/ id' ∈ HashIndex.lookup k' i.
Proof.
  intros Hi Hk. eexists. split; [reflexivity|].
  split; [now apply (am_put_wf key_match key_match_iff)|]. split; [reflexivity|]. split; [reflexivity|].
  intros k' id' Hk'. rewrite !elem_of_hash_lookup. unfold hash_ids. cbn.
  rewrite (am_get_put key_match key_match_iff) by assumption.
  destruct (key_match k' k) eqn:E; cbn.
  - apply key_match_iff in E as E'; auto. rewrite (am_get_eq_key k' k) by assumption. set_solver.
  - assert (value_cmp k' k <> Eq) by (intros X; apply key_match_iff in X; auto; congruence). naive_solver.
Qed.

Lemma hash_remove_laws i k id :
  hash_wf i -> ord_key k -> exists i',
    HashIndex.remove k id i = Ok i' /\ hash_wf i'
    /\ HashIndex.name i' = HashIndex.name i /\ HashIndex.field i' = HashIndex.field i
    /\ forall k' id', ord_key k' ->
         id' ∈ HashIndex.lookup k' i' <-> ~ (value_cmp k' k = Eq /\ id' = id) /\ id' ∈ HashIndex.lookup k' i.
Proof.
  intros Hi Hk. unfold HashIndex.remove.
  destruct (am_get key_match k (HashIndex.entries i)) as [s|] eqn:G.
  - assert (W : am_wf key_match (P := ord_key) (am_put key_match k (s ∖ {[id]}) (HashIndex.entries i)))
      by now apply (am_put_wf key_match key_match_iff).
    eexists. split; [reflexivity|]. split; [unfold hash_wf; cbn; destruct (decide _); auto using am_remove_wf|].
    split; [reflexivity|]. split; [reflexivity|].
    intros k' id' Hk'. rewrite !elem_of_hash_lookup. unfold hash_ids. cbn.
    assert (N : key_match k' k = false -> value_cmp k' k <> Eq)
      by (intros F X; apply key_match_iff in X; auto; congruence).
    destruct (decide (s ∖ {[id]} = ∅)) as [D|D];
      rewrite ?(am_get_remove key_match key_match_iff) by assumption;
      rewrite (am_get_put key_match key_match_iff) by assumption;
      (destruct (key_match k' k) eqn:E; [|specialize (N eq_refl); naive_solver]);
      apply key_match_iff in E as E'; auto; rewrite (am_get_eq_key k' k), G by assumption; cbn; set_solver.
  - exists i. split; [reflexivity|]. split; [assumption|]. split; [reflexivity|]. split; [reflexivity|].
    intros k' id' Hk'. rewrite !elem_of_hash_lookup. unfold hash_ids.
    split; [|easy]. intros Hin. split; [|assumption]. intros [E ->].
    rewrite (am_get_eq_key k' k), G in Hin by assumption. set_solver.
Qed.

Lemma hash_lookup_nodup i k : NoDup (HashIndex.lookup k i).
Proof.
  unfold HashIndex.lookup. destruct (am_get _ _ _); [|constructor].
  apply NoDup_hash_order, NoDup_elements.
Qed.

#[export] Instance hash_index_laws : IndexLaws HashIndex.t hash_wf.
Proof.
  split.
  - intros i. split; [split; constructor|reflexivity].
  - intros i k id Hi Hk. destruct (hash_insert_laws i k id Hi Hk) as (i' & ? & ? & ? & ? & ?). eauto 10.
  - intros i k id Hi Hk. destruct (hash_remove_laws i k id Hi Hk) as (i' & ? & ? & ? & ? & ?). eauto 10.
  - intros i k _ _. apply hash_lookup_nodup.
  - discriminate.
  - reflexivity.
Qed.
End HashLaws.

Section OrderedLaws.
Abbreviation T := (fun _ : string => True).

Definition ordered_wf (i : OrderedIndex.t) : Prop :=
  bt_wf value_cmp ord_key (OrderedIndex.entries i)
  /\ Forall (fun p => bt_wf str_cmp T p.2) (OrderedIndex.entries i).

Definition ordered_ids (k : Value) (i : OrderedIndex.t) : IdSet :=
  default [] (bt_get value_cmp k (OrderedIndex.entries i)).

Lemma ordered_lookup_ids k i : OrderedIndex.lookup k i = ids_of (ordered_ids k i).
Proof. unfold OrderedIndex.lookup, ordered_ids. now destruct (bt_get _ _ _). Qed.

Lemma elem_of_ids id (s : IdSet) :
  bt_wf str_cmp T s -> id ∈ ids_of s <-> bt_get str_cmp id s = Some tt.
Proof.
  intros W. unfold ids_of. rewrite list_elem_of_In, List.in_map_iff. split.
  - intros ([x []] & <- & Hin). now apply (bt_In_get str_cmp (P := T)).
  - intros G. apply bt_get_Some_In in G as (k' & Hin & E).
    apply str_cmp_eq in E as <-. now exists (id, tt).
Qed.

Lemma NoDup_keys {K V} (cmp : K -> K -> comparison) (P : K -> Prop) {O : OrdOn P cmp} (m : list (K * V)) :
  bt_wf cmp P m -> NoDup (List.map fst m).
Proof.
  induction m as [|[k v] m IH]; intros W; cbn; [constructor|].
  apply bt_wf_cons_inv in W as (Hk & Hm & HL). constructor; [|auto].
  rewrite list_elem_of_In, List.in_map_iff. intros ([k' v'] & E & Hin). cbn in E. subst.
  rewrite List.Forall_forall in HL. specialize (HL _ Hin). cbn in HL.
  rewrite (ord_refl (P := P) k) in HL by assumption. discriminate.
Qed.

Lemma ordered_ids_wf i k : ordered_wf i -> bt_wf str_cmp T (ordered_ids k i).
Proof.
  intros [_ HF]. unfold ordered_ids. destruct (bt_get _ _ _) as [s|] eqn:G; [|apply bt_wf_nil].
  apply bt_get_Some_In in G as (k' & Hin & _). rewrite List.Forall_forall in HF. apply (HF _ Hin).
Qed.

Lemma values_insert {K V} (cmp : K -> K -> comparison) (Q : V -> Prop) k v (m : list (K * V)) :
  Q v -> Forall (fun p => Q p.2) m -> Forall (fun p => Q p.2) (bt_insert cmp k v m).
Proof.
  intros Hv. induction 1 as [|[k' v'] m H HF IH]; cbn; [auto|]. destruct (cmp k k'); auto.
Qed.

Lemma ordered_insert_laws i k id :
  ordered_wf i -> ord_key k -> exists i',
    OrderedIndex.insert k id i = Ok i' /\ ordered_wf i'
    /\ OrderedIndex.name i' = OrderedIndex.name i /\ OrderedIndex.field i' = OrderedIndex.field i
    /\ forall k' id', ord_key k' ->
         id' ∈ OrderedIndex.lookup k' i' <-> (value_cmp k' k = Eq /\ id' = id) \/ id' ∈ OrderedIndex.lookup k' i.
Proof.
  intros Hi Hk. pose proof (ordered_ids_wf i k Hi) as Wk. destruct Hi as [W HF].
  eexists. split; [reflexivity|].
  assert (W' : ordered_wf (OrderedIndex.set_entries (bt_insert value_cmp k
    (bt_insert str_cmp id tt (ordered_ids k i)) (OrderedIndex.entries i)) i)).
  { split; cbn; [apply (bt_insert_wf value_cmp (P := ord_key)); assumption|].
    apply values_insert; [|assumption]. apply (bt_insert_wf str_cmp (P := T)); [easy|assumption]. }
  split; [exact W'|]. split; [reflexivity|]. split; [reflexivity|].
  intros k' id' Hk'. rewrite !ordered_lookup_ids.
  rewrite (elem_of_ids id' _ (ordered_ids_wf _ k' W')), elem_of_ids by (apply ordered_ids_wf; split; assumption).
  unfold ordered_ids at 1. cbn. rewrite (bt_get_insert value_cmp (P := ord_key)) by assumption.
  destruct (value_cmp k' k) eqn:E; cbn; [|naive_solver..].
  fold (ordered_ids k i). rewrite (bt_get_insert str_cmp (P := T)) by (auto || easy).
  assert (Eids : ordered_ids k' i = ordered_ids k i).
  { unfold ordered_ids. now rewrite (bt_get_eq_key value_cmp (P := ord_key) k' k). }
  rewrite Eids. destruct (str_cmp id' id) eqn:F.
  - apply str_cmp_eq in F as ->. tauto.
  - split; [auto|]. intros [[_ ->]|]; [|assumption]. rewrite (proj2 (str_cmp_eq id id) eq_refl) in F. discriminate.
  - split; [auto|]. intros [[_ ->]|]; [|assumption]. rewrite (proj2 (str_cmp_eq id id) eq_refl) in F. discriminate.
Qed.

Lemma ordered_remove_laws i k id :
  ordered_wf i -> ord_key k -> exists i',
    OrderedIndex.remove k id i = Ok i' /\ ordered_wf i'
    /\ OrderedIndex.name i' = OrderedIndex.name i /\ OrderedIndex.field i' = OrderedIndex.field i
    /\ forall k' id', ord_key k' ->
         id' ∈ OrderedIndex.lookup k' i' <-> ~ (value_cmp k' k = Eq /\ id' = id) /\ id' ∈ OrderedIndex.lookup k' i.
Proof.
  intros Hi Hk. pose proof (ordered_ids_wf i k Hi) as Wk. pose proof Hi as [W HF].
  assert (Eids : forall k', ord_key k' -> value_cmp k' k = Eq -> ordered_ids k' i = ordered_ids k i).
  { intros k' Hk' E. unfold ordered_ids. now rewrite (bt_get_eq_key value_cmp (P := ord_key) k' k). }
  unfold OrderedIndex.remove. destruct (bt_get value_cmp k (OrderedIndex.entries i)) as [s|] eqn:G.
  - assert (ordered_ids k i = s) as Es by (unfold ordered_ids; now rewrite G).
    rewrite Es in Wk, Eids. set (s' := bt_remove str_cmp id s).
    assert (Ws' : bt_wf str_cmp T s') by (apply bt_remove_wf; assumption).
    set (es := bt_insert value_cmp k s' (OrderedIndex.entries i)).
    assert (We : bt_wf value_cmp ord_key es) by (apply (bt_insert_wf value_cmp (P := ord_key)); assumption).
    assert (Fe : Forall (fun p => bt_wf str_cmp T p.2) es) by now apply values_insert.
    set (es' := match s' with [] => bt_remove value_cmp k es | _ => es end).
    assert (W' : ordered_wf (OrderedIndex.set_entries es' i)).
    { unfold ordered_wf. cbn. subst es'. destruct s'; [|split; assumption]. split; [apply bt_remove_wf; assumption|apply Forall_remove; assumption]. }
    eexists. split; [reflexivity|]. split; [exact W'|]. split; [reflexivity|]. split; [reflexivity|].
    intros k' id' Hk'. rewrite !ordered_lookup_ids.
    rewrite (elem_of_ids id' _ (ordered_ids_wf _ k' W')), elem_of_ids by now apply ordered_ids_wf.
    assert (Eo : ordered_ids k' (OrderedIndex.set_entries es' i)
                 = match value_cmp k' k with Eq => s' | _ => ordered_ids k' i end).
    { unfold ordered_ids at 1. cbn. subst es'. destruct s' as [|x s'];
        rewrite ?(bt_get_remove value_cmp (P := ord_key)) by assumption; unfold es;
        rewrite (bt_get_insert value_cmp (P := ord_key)) by assumption; now destruct (value_cmp k' k). }
    rewrite Eo. destruct (value_cmp k' k) eqn:E; [|naive_solver..].
    rewrite (Eids k') by assumption. unfold s'. rewrite (bt_get_remove str_cmp (P := T)) by (auto || easy).
    destruct (str_cmp id' id) eqn:F.
    + apply str_cmp_eq in F as ->. split; [discriminate|]. naive_solver.
    + split; [|easy]. intros Hg. split; [|assumption]. intros [_ ->].
      rewrite (proj2 (str_cmp_eq id id) eq_refl) in F. discriminate.
    + split; [|easy]. intros Hg. split; [|assumption]. intros [_ ->].
      rewrite (proj2 (str_cmp_eq id id) eq_refl) in F. discriminate.
  - exists i. split; [reflexivity|]. split; [assumption|]. split; [reflexivity|]. split; [reflexivity|].
    intros k' id' Hk'. split; [|easy]. intros Hin. split; [|assumption]. intros [E ->].
    rewrite ordered_lookup_ids, Eids in Hin by assumption. unfold ordered_ids in Hin. rewrite G in Hin. inversion Hin.
Qed.

(** The identifiers a scan collects from a run of entries. *)
Definition scan_entries (r : IndexRange) (es : list (Value * IdSet)) : list DocumentId :=
  List.concat (List.map (fun p => ids_of p.2) (List.filter (fun p => Range.contains r p.1) es)).

Lemma elem_of_scan r es id :
  id ∈ scan_entries r es <-> exists k s, In (k, s) es /\ Range.contains r k = true /\ id ∈ ids_of s.
Proof.
  unfold scan_entries. rewrite list_elem_of_In, in_concat. split.
  - intros (l & Hl & Hid). apply List.in_map_iff in Hl as ([k s] & <- & Hp).
    apply filter_In in Hp as [Hin Hc]. exists k, s. now rewrite list_elem_of_In.
  - intros (k & s & Hin & Hc & Hid). exists (ids_of s). split; [|now apply list_elem_of_In].
    apply List.in_map_iff. exists (k, s). split; [reflexivity|]. now apply filter_In.
Qed.

Lemma NoDup_scan r es :
  bt_wf value_cmp ord_key es -> Forall (fun p => bt_wf str_cmp T p.2) es ->
  (forall k s k' s' id, In (k, s) es -> In (k', s') es -> id ∈ ids_of s -> id ∈ ids_of s' -> value_cmp k k' = Eq) ->
  NoDup (scan_entries r es).
Proof.
  induction es as [|[k s] es IH]; intros W HF HU; [constructor|].
  apply bt_wf_cons_inv in W as (Hk & W & HL). inversion HF as [|? ? Ws HF']; subst; clear HF.
  assert (NoDup (scan_entries r es)) as N by (apply IH; eauto using in_cons).
  unfold scan_entries. cbn. destruct (Range.contains r k) eqn:Ec; [|exact N]. cbn.
  apply NoDup_app. split; [now apply (NoDup_keys str_cmp T)|]. split; [|exact N].
  intros id Hid Hin. apply elem_of_scan in Hin as (k' & s' & Hin & _ & Hid').
  assert (value_cmp k k' = Eq) as E by (eapply HU; eauto using in_eq, in_cons).
  rewrite List.Forall_forall in HL. specialize (HL _ Hin). cbn in HL. congruence.
Qed.

Lemma ordered_entry i k s :
  ordered_wf i -> In (k, s) (OrderedIndex.entries i) -> ord_key k /\ OrderedIndex.lookup k i = ids_of s.
Proof.
  intros [W HF] Hin. split.
  - destruct W as [_ HP]. rewrite List.Forall_forall in HP. apply (HP _ Hin).
  - unfold OrderedIndex.lookup. now rewrite (bt_In_get value_cmp (P := ord_key) k s).
Qed.

Lemma ordered_scan_laws i r :
  ordered_wf i -> range_ok r -> Range.invalid r = false ->
  exists ids, OrderedIndex.scan r i = Ok ids
    /\ (forall id, id ∈ ids <-> exists k, ord_key k /\ Range.contains r k = true /\ id ∈ OrderedIndex.lookup k i)
    /\ ((forall k k' id, ord_key k -> ord_key k' -> id ∈ OrderedIndex.lookup k i ->
           id ∈ OrderedIndex.lookup k' i -> value_cmp k k' = Eq) -> NoDup ids).
Proof.
  intros Wi Hr Hv. exists (scan_entries r (OrderedIndex.entries i)). split; [|split].
  - unfold OrderedIndex.scan. rewrite Hv. now destruct (OrderedIndex.entries i).
  - intros id. rewrite elem_of_scan. split.
    + intros (k & s & Hin & Hc & Hid). destruct (ordered_entry i k s Wi Hin) as [Hk El].
      exists k. now rewrite El.
    + intros (k & Hk & Hc & Hid). unfold OrderedIndex.lookup in Hid.
      destruct (bt_get value_cmp k _) as [s|] eqn:G; [|inversion Hid].
      apply bt_get_Some_In in G as (k' & Hin & E). destruct (ordered_entry i k' s Wi Hin) as [Hk' _].
      exists k', s. rewrite <- (contains_eq_key r k k') by assumption. auto.
  - intros HU. destruct (Wi) as [W HF]. apply NoDup_scan; auto. intros k s k' s' id Hin Hin' Hid Hid'.
    destruct (ordered_entry i k s Wi Hin) as [Hk E], (ordered_entry i k' s' Wi Hin') as [Hk' E'].
    apply (HU k k' id); auto; congruence.
Qed.

#[export] Instance ordered_index_laws : IndexLaws OrderedIndex.t ordered_wf.
Proof.
  split.
  - intros i. split; [split; [apply bt_wf_nil|constructor]|reflexivity].
  - intros i k id Hi Hk. destruct (ordered_insert_laws i k id Hi Hk) as (i' & ? & ? & ? & ? & ?). eauto 10.
  - intros i k id Hi Hk. destruct (ordered_remove_laws i k id Hi Hk) as (i' & ? & ? & ? & ? & ?). eauto 10.
  - intros i k Hi Hk. cbn. rewrite ordered_lookup_ids. apply (NoDup_keys str_cmp T). now apply ordered_ids_wf.
  - intros i r Hi _. now apply ordered_scan_laws.
  - intros i r H. now destruct H.
Qed.
End OrderedLaws.

(** A boxed index keeps the promises of what is in the box. *)
Definition dyn_wf (d : DynIndex) : Prop :=
  match d with HashIdx i => hash_wf i | OrderedIdx i => ordered_wf i end.

#[export] Instance dyn_index_laws `{HashOrderLaws} : IndexLaws DynIndex dyn_wf.
Proof.
  split.
  - intros [i|i]; [apply (index_clear_ok (T := HashIndex.t))|apply (index_clear_ok (T := OrderedIndex.t))].
  - intros [i|i] k id Hi Hk; cbn in Hi.
    + destruct (hash_insert_laws i k id Hi Hk) as (i' & E & W & N & F & L).
      exists (HashIdx i'). split; [exact (f_equal (mapO HashIdx) E)|]. cbn. auto 10.
    + destruct (ordered_insert_laws i k id Hi Hk) as (i' & E & W & N & F & L).
      exists (OrderedIdx i'). split; [exact (f_equal (mapO OrderedIdx) E)|]. cbn. auto 10.
  - intros [i|i] k id Hi Hk; cbn in Hi.
    + destruct (hash_remove_laws i k id Hi Hk) as (i' & E & W & N & F & L).
      exists (HashIdx i'). split; [exact (f_equal (mapO HashIdx) E)|]. cbn. auto 10.
    + destruct (ordered_remove_laws i k id Hi Hk) as (i' & E & W & N & F & L).
      exists (OrderedIdx i'). split; [exact (f_equal (mapO OrderedIdx) E)|]. cbn. auto 10.
  - intros [i|i] k Hi Hk; [apply hash_lookup_nodup|now apply (index_lookup_nodup (T := OrderedIndex.t))].
  - intros [i|i] r Hi Ht; [discriminate|]. now apply ordered_scan_laws.
  - intros [i|i] r Ht; [reflexivity|]. now destruct Ht.
Qed.
