(* ===== verification/Manager.v ===== *)
(** [nova-index/src/manager.rs]: the indexes of a collection, and the invariant that
    ties them to the documents of the collection. *)

From S2P Require Export Index.

(** The field value an index, a filter and a sort look at. *)
Record IndexInfo := {
  info_name : string; info_field : string; info_type : IndexType; info_entries : nat;
}.

Module IndexManager.
(** [HashMap<String, Box<dyn Index>>]. *)
Abbreviation t := (gmap string DynIndex).

Section Ops.
Context {HO : HashOrder}.

Definition new : t := ∅.

Definition add_index (index : DynIndex) (m : t) : t := <[index_name index := index]> m.

Definition drop_index (name : string) (m : t) : t * bool :=
  (delete name m, match m !! name with Some _ => true | None => false end).

Definition get (name : string) (m : t) : option DynIndex := m !! name.

Definition values (m : t) : list DynIndex := List.map snd (hash_order (map_to_list m)).

Definition find_index_for_field (field : string) (m : t) : option DynIndex :=
  List.find (fun idx => String.eqb (index_field idx) field) (values m).

(** A loop over [values_mut] whose body may return early with an error: the
    indexes already visited keep their changes. *)
Fixpoint each_mut (body : DynIndex -> outcome IndexError DynIndex) (names : list string) (m : t)
    : t * outcome IndexError unit :=
  match names with
  | [] => (m, Ok tt)
  | n :: names' =>
    match m !! n with
    | Some idx =>
      match body idx with
      | Ok idx' => each_mut body names' (<[n := idx']> m)
      | Err e => (m, Err e)
      | Panic => (m, Panic)
      end
    | None => each_mut body names' m
    end
  end.

Definition names (m : t) : list string := List.map fst (hash_order (map_to_list m)).

Definition insert_step (doc : Document) (idx : DynIndex) : outcome IndexError DynIndex :=
  match Doc.lookup doc (index_field idx) with
  | Some val => index_insert val (id doc) idx
  | None => Ok idx
  end.

Definition on_insert (doc : Document) (m : t) : t * outcome IndexError unit :=
  each_mut (insert_step doc) (names m) m.

Definition opt_value_eqb (a b : option Value) : bool :=
  match a, b with
  | Some x, Some y => value_eqb x y
  | None, None => true
  | _, _ => false
  end.

Definition update_step (before after : Document) (idx : DynIndex) : outcome IndexError DynIndex :=
  let old_val := Doc.lookup before (index_field idx) in
  let new_val := Doc.lookup after (index_field idx) in
  if opt_value_eqb old_val new_val then Ok idx
  else
    let? idx := match old_val with
                | Some val => index_remove val (id before) idx
                | None => Ok idx
                end in
    match new_val with
    | Some val => index_insert val (id after) idx
    | None => Ok idx
    end.

Definition on_update (before after : Document) (m : t) : t * outcome IndexError unit :=
  each_mut (update_step before after) (names m) m.

Definition remove_step (doc : Document) (idx : DynIndex) : outcome IndexError DynIndex :=
  match Doc.lookup doc (index_field idx) with
  | Some val => index_remove val (id doc) idx
  | None => Ok idx
  end.

Definition on_remove (doc : Document) (m : t) : t * outcome IndexError unit :=
  each_mut (remove_step doc) (names m) m.

Fixpoint insert_all (docs : list Document) (m : t) : t * outcome IndexError unit :=
  match docs with
  | [] => (m, Ok tt)
  | doc :: docs' =>
    match on_insert doc m with
    | (m, Ok _) => insert_all docs' m
    | (m, Err e) => (m, Err e)
    | (m, Panic) => (m, Panic)
    end
  end.

Definition rebuild (docs : list Document) (m : t) : t * outcome IndexError unit :=
  insert_all docs (index_clear <$> m).

Definition list_indexes (m : t) : list IndexInfo :=
  List.map (fun idx => {| info_name := index_name idx; info_field := index_field idx;
                          info_type := index_type idx; info_entries := index_len idx |}) (values m).
End Ops.
End IndexManager.

(** ** Laws *)

Import IndexManager.

Section ManagerLaws.
Context {HO : HashOrder} {HL : HashOrderLaws HO}.

Lemma elem_of_names n (m : t) : n ∈ names m <-> exists idx, m !! n = Some idx.
Proof.
  unfold names. rewrite list_elem_of_In, List.in_map_iff. split.
  - intros ([n' idx] & <- & Hin). rewrite <- list_elem_of_In, elem_of_hash_order in Hin.
    apply elem_of_map_to_list in Hin. eauto.
  - intros [idx E]. exists (n, idx). split; [reflexivity|].
    rewrite <- list_elem_of_In, elem_of_hash_order. now apply elem_of_map_to_list.
Qed.

Lemma NoDup_names (m : t) : NoDup (names m).
Proof.
  unfold names. change (NoDup (fst <$> hash_order (map_to_list m))).
  rewrite (hash_order_perm _ (map_to_list m)). apply NoDup_fst_map_to_list.
Qed.

Lemma elem_of_values idx (m : t) : idx ∈ values m <-> exists n, m !! n = Some idx.
Proof.
  unfold values. rewrite list_elem_of_In, List.in_map_iff. split.
  - intros ([n idx'] & <- & Hin). rewrite <- list_elem_of_In, elem_of_hash_order in Hin.
    apply elem_of_map_to_list in Hin. eauto.
  - intros [n E]. exists (n, idx). split; [reflexivity|].
    rewrite <- list_elem_of_In, elem_of_hash_order. now apply elem_of_map_to_list.
Qed.

(** When the body never fails, the loop applies it to every index, in whatever
    order the table is visited. *)
Lemma each_mut_spec body ns (m : t) :
  NoDup ns -> (forall n idx, n ∈ ns -> m !! n = Some idx -> exists idx', body idx = Ok idx') ->
  exists m', each_mut body ns m = (m', Ok tt)
    /\ (forall n, n ∉ ns -> m' !! n = m !! n)
    /\ (forall n, n ∈ ns -> match m !! n with
          | Some idx => exists idx', body idx = Ok idx' /\ m' !! n = Some idx'
          | None => m' !! n = None
          end).
Proof.
  intros N. revert m. induction N as [|n ns Hn N IH]; intros m Hok; cbn.
  - exists m. repeat split; auto. intros n H. inversion H.
  - destruct (m !! n) as [idx|] eqn:E.
    + destruct (Hok n idx) as [idx' Ei]; [set_solver|assumption|]. rewrite Ei.
      destruct (IH (<[n := idx']> m)) as (m' & Em & Hout & Hin).
      { intros k i Hk Hi. rewrite lookup_insert_ne in Hi by set_solver. apply (Hok k i); set_solver. }
      exists m'. split; [exact Em|]. split.
      * intros k Hk. rewrite Hout by set_solver. apply lookup_insert_ne. set_solver.
      * intros k Hk. destruct (decide (k = n)) as [->|Nk].
        -- rewrite E. exists idx'. rewrite Hout by assumption. now rewrite lookup_insert_eq.
        -- specialize (Hin k ltac:(set_solver)). now rewrite lookup_insert_ne in Hin by congruence.
    + destruct (IH m) as (m' & Em & Hout & Hin); [intros; apply (Hok n0 idx); set_solver|].
      exists m'. split; [exact Em|]. split; [intros; apply Hout; set_solver|].
      intros k Hk. destruct (decide (k = n)) as [->|Nk]; [rewrite E, Hout; auto|apply Hin; set_solver].
Qed.

Lemma each_mut_all body (m : t) :
  (forall n idx, m !! n = Some idx -> exists idx', body idx = Ok idx') ->
  exists m', each_mut body (names m) m = (m', Ok tt)
    /\ forall n, match m !! n with
         | Some idx => exists idx', body idx = Ok idx' /\ m' !! n = Some idx'
         | None => m' !! n = None
         end.
Proof.
  intros Hok. destruct (each_mut_spec body (names m) m (NoDup_names m)) as (m' & E & Hout & Hin); [eauto|].
  exists m'. split; [exact E|]. intros n. destruct (decide (n ∈ names m)) as [D|D]; [now apply Hin|].
  rewrite Hout by assumption. destruct (m !! n) as [idx|] eqn:G; [|reflexivity].
  destruct D. apply elem_of_names. eauto.
Qed.
End ManagerLaws.

(** ** Consistency with the documents

    An index represents the partial map [slots] from identifiers to the value each
    document has at the indexed field. *)

Abbreviation slots := (DocumentId -> option Value).

Definition slot_set (i : DocumentId) (v : option Value) (s : slots) : slots :=
  fun j => if decide (j = i) then v else s j.

Lemma walk_path_ordinary parts v w :
  ordinary v = true -> walk_path v parts = Some w -> ordinary w = true.
Proof.
  revert v. induction parts as [|p parts IH]; intros v Hv H; cbn in H; [now injection H as <-|].
  destruct v; try discriminate. destruct (obj_get p m) as [u|] eqn:G; [|discriminate].
  apply (IH u); [|assumption]. apply bt_get_Some_In in G as (k' & Hin & _).
  cbn in Hv. rewrite forallb_forall in Hv. apply (Hv _ Hin).
Qed.

Definition doc_ordinary (d : Document) : bool := forallb (fun p => ordinary p.2) (fields d).

Lemma lookup_ordinary d f v : doc_ordinary d = true -> Doc.lookup d f = Some v -> ord_key v.
Proof.
  unfold doc_ordinary, Doc.lookup, Doc.get_path. intros Hd H. rewrite forallb_forall in Hd.
  assert (Hget : forall k u, obj_get k (fields d) = Some u -> ordinary u = true).
  { intros k u G. apply bt_get_Some_In in G as (k' & Hin & _). apply (Hd _ Hin). }
  destruct (_ || _); [eapply Hget, H|].
  destruct (split_dot f) as [|p ps]; [eapply Hget, H|].
  destruct (obj_get p (fields d)) as [u|] eqn:G; [|eapply Hget, H].
  destruct (walk_path u ps) as [w|] eqn:W; [|eapply Hget, H].
  injection H as <-. eapply walk_path_ordinary; [|exact W]. eauto.
Qed.

Section Represents.
Context {HO : HashOrder} {HL : HashOrderLaws HO}.

Definition represents (idx : DynIndex) (s : slots) : Prop :=
  dyn_wf idx
  /\ (forall j v, s j = Some v -> ord_key v)
  /\ forall k j, ord_key k -> j ∈ index_lookup k idx <-> exists v, s j = Some v /\ value_cmp k v = Eq.

Lemma represents_ext idx (s s' : slots) :
  (forall j, s j = s' j) -> represents idx s -> represents idx s'.
Proof.
  intros E (W & O & R). split; [assumption|]. split; [intros j v; rewrite <- E; apply O|].
  intros k j Hk. rewrite <- E. now apply R.
Qed.

Lemma represents_empty idx : represents (index_clear idx) (fun _ => None).
Proof.
  destruct (index_clear_ok idx) as [W E]. split; [exact W|]. split; [discriminate|].
  intros k j _. rewrite E. split; [intros X; inversion X|intros (v & ? & _); discriminate].
Qed.

(** Values of an equal kind represent alike. *)
Lemma represents_equiv idx s i v v' :
  represents idx s -> s i = Some v -> ord_key v' -> value_cmp v v' = Eq ->
  represents idx (slot_set i (Some v') s).
Proof.
  intros (W & O & R) Hs Hv' E. pose proof (O _ _ Hs) as Hv. split; [assumption|]. split.
  - unfold slot_set. intros j u. destruct (decide (j = i)); [now intros [= <-]|apply O].
  - intros k j Hk. rewrite R by assumption. unfold slot_set. destruct (decide (j = i)) as [->|]; [|reflexivity].
    rewrite Hs. split; intros (u & [= <-] & Eu); eexists; (split; [reflexivity|]).
    + now rewrite <- (ord_eq_r (P := ord_key) v v' k).
    + now rewrite (ord_eq_r (P := ord_key) v v' k).
Qed.

Lemma represents_insert idx s i v :
  represents idx s -> s i = None -> ord_key v ->
  exists idx', index_insert v i idx = Ok idx' /\ represents idx' (slot_set i (Some v) s)
    /\ index_name idx' = index_name idx /\ index_field idx' = index_field idx
    /\ index_type idx' = index_type idx.
Proof.
  intros (W & O & R) Hs Hv. destruct (index_insert_ok idx v i W Hv) as (idx' & E & W' & N & F & Ty & L).
  exists idx'. split; [assumption|]. split; [|auto]. split; [assumption|]. split.
  - unfold slot_set. intros j u. destruct (decide (j = i)); [now intros [= <-]|apply O].
  - intros k j Hk. rewrite L, R by assumption. unfold slot_set. destruct (decide (j = i)) as [->|D].
    + rewrite Hs. split; [intros [[Ec _]|(u & ? & _)]; [eauto|discriminate]|].
      intros (u & [= <-] & Ec). auto.
    + split; [intros [[_ ?]|X]; [congruence|exact X]|auto].
Qed.

Lemma represents_remove idx s i v :
  represents idx s -> s i = Some v ->
  exists idx', index_remove v i idx = Ok idx' /\ represents idx' (slot_set i None s)
    /\ index_name idx' = index_name idx /\ index_field idx' = index_field idx
    /\ index_type idx' = index_type idx.
Proof.
  intros (W & O & R) Hs. pose proof (O _ _ Hs) as Hv.
  destruct (index_remove_ok idx v i W Hv) as (idx' & E & W' & N & F & Ty & L).
  exists idx'. split; [assumption|]. split; [|auto]. split; [assumption|]. split.
  - unfold slot_set. intros j u. destruct (decide (j = i)); [discriminate|apply O].
  - intros k j Hk. rewrite L, R by assumption. unfold slot_set. destruct (decide (j = i)) as [->|D].
    + split; [|intros (u & ? & _); discriminate]. intros (NE & u & Hu & Ec). destruct NE.
      split; [congruence|reflexivity].
    + split; [easy|]. intros X. split; [intros [_ ?]; congruence|exact X].
Qed.

(** The value each document of a store has at a field. *)
Definition slots_of (store : gmap DocumentId Document) (f : string) : slots :=
  fun j => store !! j ≫= fun d => Doc.lookup d f.

Lemma slots_of_insert store f d :
  forall j, slots_of (<[id d := d]> store) f j = slot_set (id d) (Doc.lookup d f) (slots_of store f) j.
Proof.
  intros j. unfold slots_of, slot_set. destruct (decide (j = id d)) as [->|D].
  - now rewrite lookup_insert_eq.
  - now rewrite lookup_insert_ne by congruence.
Qed.

Lemma slots_of_delete store f i :
  forall j, slots_of (delete i store) f j = slot_set i None (slots_of store f) j.
Proof.
  intros j. unfold slots_of, slot_set. destruct (decide (j = i)) as [->|D].
  - now rewrite lookup_delete_eq.
  - now rewrite lookup_delete_ne by congruence.
Qed.

Lemma slot_set_same i v s : s i = v -> forall j, s j = slot_set i v s j.
Proof. intros E j. unfold slot_set. destruct (decide (j = i)) as [->|]; congruence. Qed.

Lemma slot_set_twice i v v' s : forall j, slot_set i v (slot_set i v' s) j = slot_set i v s j.
Proof. intros j. unfold slot_set. now destruct (decide (j = i)). Qed.

(** ** The three notifications, index by index *)

Definition same_index (idx idx' : DynIndex) : Prop :=
  index_name idx' = index_name idx /\ index_field idx' = index_field idx
  /\ index_type idx' = index_type idx.

Definition indexes_store (store : gmap DocumentId Document) (idx : DynIndex) : Prop :=
  represents idx (slots_of store (index_field idx)).

Lemma insert_step_ok store d idx :
  indexes_store store idx -> store !! id d = None -> doc_ordinary d = true ->
  exists idx', insert_step d idx = Ok idx' /\ indexes_store (<[id d := d]> store) idx' /\ same_index idx idx'.
Proof.
  intros R Hn Hd. unfold insert_step. set (f := index_field idx).
  assert (Hs : slots_of store f (id d) = None) by (unfold slots_of; now rewrite Hn).
  destruct (Doc.lookup d f) as [v|] eqn:Ev.
  - destruct (represents_insert idx _ (id d) v R Hs) as (idx' & E & R' & N & F & Ty);
      [now apply (lookup_ordinary d f)|].
    exists idx'. split; [assumption|]. split; [|now repeat split]. unfold indexes_store. rewrite F.
    eapply represents_ext; [|exact R']. intros j. fold f. now rewrite slots_of_insert, Ev.
  - exists idx. split; [reflexivity|]. split; [|now repeat split].
    eapply represents_ext; [|exact R]. intros j. fold f. rewrite slots_of_insert, Ev.
    now apply slot_set_same.
Qed.

Lemma remove_step_ok store d idx :
  indexes_store store idx -> store !! id d = Some d ->
  exists idx', remove_step d idx = Ok idx' /\ indexes_store (delete (id d) store) idx' /\ same_index idx idx'.
Proof.
  intros R Hd. unfold remove_step. set (f := index_field idx).
  assert (Hs : slots_of store f (id d) = Doc.lookup d f) by (unfold slots_of; now rewrite Hd).
  destruct (Doc.lookup d f) as [v|] eqn:Ev.
  - destruct (represents_remove idx _ (id d) v R Hs) as (idx' & E & R' & N & F & Ty).
    exists idx'. split; [assumption|]. split; [|now repeat split]. unfold indexes_store. rewrite F.
    eapply represents_ext; [|exact R']. intros j. fold f. now rewrite slots_of_delete.
  - exists idx. split; [reflexivity|]. split; [|now repeat split].
    eapply represents_ext; [|exact R]. intros j. fold f. rewrite slots_of_delete. now apply slot_set_same.
Qed.

Lemma update_step_ok store before after idx :
  indexes_store store idx -> store !! id before = Some before -> id after = id before ->
  doc_ordinary after = true ->
  exists idx', update_step before after idx = Ok idx'
    /\ indexes_store (<[id after := after]> store) idx' /\ same_index idx idx'.
Proof.
  intros R Hb Hid Ha. unfold update_step. set (f := index_field idx).
  assert (Hs : slots_of store f (id before) = Doc.lookup before f) by (unfold slots_of; now rewrite Hb).
  assert (Hnew : forall v, Doc.lookup after f = Some v -> ord_key v) by (intros; now apply (lookup_ordinary after f)).
  assert (Ext : forall idx', index_field idx' = f ->
    represents idx' (slot_set (id before) (Doc.lookup after f) (slots_of store f)) ->
    indexes_store (<[id after := after]> store) idx').
  { intros idx' F R'. unfold indexes_store. rewrite F. eapply represents_ext; [|exact R'].
    intros j. now rewrite slots_of_insert, Hid. }
  destruct (opt_value_eqb (Doc.lookup before f) (Doc.lookup after f)) eqn:Eo.
  - exists idx. split; [reflexivity|]. split; [|now repeat split]. apply Ext; [reflexivity|].
    destruct (Doc.lookup before f) as [v|] eqn:E1, (Doc.lookup after f) as [v'|] eqn:E2; try discriminate Eo.
    + apply represents_equiv with v; auto. destruct R as (_ & O & _).
      apply value_eqb_cmp; [apply (O _ _ Hs)|now apply Hnew|exact Eo].
    + eapply represents_ext; [|exact R]. now apply slot_set_same.
  - assert (Hrem : exists idx1, match Doc.lookup before f with Some val => index_remove val (id before) idx | None => Ok idx end
        = Ok idx1 /\ represents idx1 (slot_set (id before) None (slots_of store f)) /\ same_index idx idx1).
    { destruct (Doc.lookup before f) as [v|] eqn:E1.
      - destruct (represents_remove idx _ (id before) v R Hs) as (idx1 & E & R1 & N & F & Ty).
        exists idx1. split; [assumption|]. split; [assumption|now repeat split].
      - exists idx. split; [reflexivity|]. split; [|now repeat split].
        eapply represents_ext; [|exact R]. now apply slot_set_same. }
    destruct Hrem as (idx1 & E1 & R1 & N1 & F1 & T1). rewrite E1. cbn [bindO].
    destruct (Doc.lookup after f) as [v'|] eqn:E2.
    + destruct (represents_insert idx1 _ (id before) v' R1) as (idx2 & E & R2 & N & F & Ty);
        [unfold slot_set; now rewrite decide_True|now apply Hnew|].
      exists idx2. rewrite Hid. split; [assumption|]. split; [|repeat split; congruence].
      rewrite <- Hid. apply Ext; [exact (eq_trans F F1)|]. eapply represents_ext; [|exact R2]. apply slot_set_twice.
    + exists idx1. split; [reflexivity|]. split; [|now repeat split]. now apply Ext.
Qed.
End Represents.

(** ** The manager as a whole *)

Section ManagerInvariant.
Context {HO : HashOrder} {HL : HashOrderLaws HO}.

Definition named (m : t) : Prop := forall n idx, m !! n = Some idx -> index_name idx = n.

(** Every index is registered under its name and represents the documents. *)
Definition manager_ok (store : gmap DocumentId Document) (m : t) : Prop :=
  named m /\ forall n idx, m !! n = Some idx -> indexes_store store idx.

Lemma manager_ok_new store : manager_ok store new.
Proof. split; intros n idx; unfold new; rewrite lookup_empty; discriminate. Qed.

(** One lemma for the three notifications, whatever is known of each index. *)
Lemma notify_all body (P Q : DynIndex -> Prop) (m : t) :
  named m -> (forall n idx, m !! n = Some idx -> P idx) ->
  (forall idx, P idx -> exists idx', body idx = Ok idx' /\ Q idx' /\ same_index idx idx') ->
  exists m', each_mut body (names m) m = (m', Ok tt) /\ named m' /\ (forall n idx, m' !! n = Some idx -> Q idx)
    /\ forall n, match m !! n with
         | Some idx => exists idx', m' !! n = Some idx' /\ same_index idx idx'
         | None => m' !! n = None
         end.
Proof.
  intros N R H. destruct (each_mut_all body m) as (m' & E & S).
  { intros n idx G. destruct (H idx (R _ _ G)) as (idx' & ? & _). eauto. }
  exists m'. split; [exact E|].
  assert (S' : forall n, match m !! n with
      | Some idx => exists idx', m' !! n = Some idx' /\ same_index idx idx' /\ Q idx'
      | None => m' !! n = None end).
  { intros n. specialize (S n). destruct (m !! n) as [idx|] eqn:G; [|assumption].
    destruct S as (idx' & Ei & G'). destruct (H idx (R _ _ G)) as (idx2 & Ei2 & R2 & S2).
    rewrite Ei in Ei2. injection Ei2 as <-. eauto. }
  split; [|split].
  - intros n idx' G. specialize (S' n). destruct (m !! n) as [idx|] eqn:G0; [|congruence].
    destruct S' as (idx2 & G2 & (Nn & _) & _). rewrite G in G2. injection G2 as <-. rewrite Nn. eapply N, G0.
  - intros n idx' G. specialize (S' n). destruct (m !! n) as [idx|] eqn:G0; [|congruence].
    destruct S' as (idx2 & G2 & _ & R2). rewrite G in G2. now injection G2 as <-.
  - intros n. specialize (S' n). destruct (m !! n); [|assumption]. destruct S' as (idx' & ? & ? & _). eauto.
Qed.

Lemma notify_ok body store store' (m : t) :
  manager_ok store m ->
  (forall idx, indexes_store store idx ->
    exists idx', body idx = Ok idx' /\ indexes_store store' idx' /\ same_index idx idx') ->
  exists m', each_mut body (names m) m = (m', Ok tt) /\ manager_ok store' m'
    /\ forall n, match m !! n with
         | Some idx => exists idx', m' !! n = Some idx' /\ same_index idx idx'
         | None => m' !! n = None
         end.
Proof.
  intros [N R] H. destruct (notify_all body (indexes_store store) (indexes_store store') m N R H) as (m' & E & N' & R' & S).
  exists m'. split; [exact E|]. split; [now split|exact S].
Qed.

Lemma on_insert_ok store d (m : t) :
  manager_ok store m -> store !! id d = None -> doc_ordinary d = true ->
  exists m', on_insert d m = (m', Ok tt) /\ manager_ok (<[id d := d]> store) m'.
Proof.
  intros M Hn Hd. destruct (notify_ok (insert_step d) store (<[id d := d]> store) m M) as (m' & ? & ? & _); [|eauto].
  intros idx R. now apply insert_step_ok.
Qed.

Lemma on_remove_ok store d (m : t) :
  manager_ok store m -> store !! id d = Some d ->
  exists m', on_remove d m = (m', Ok tt) /\ manager_ok (delete (id d) store) m'.
Proof.
  intros M Hd. destruct (notify_ok (remove_step d) store (delete (id d) store) m M) as (m' & ? & ? & _); [|eauto].
  intros idx R. now apply remove_step_ok.
Qed.

Lemma on_update_ok store before after (m : t) :
  manager_ok store m -> store !! id before = Some before -> id after = id before ->
  doc_ordinary after = true ->
  exists m', on_update before after m = (m', Ok tt) /\ manager_ok (<[id after := after]> store) m'.
Proof.
  intros M Hb Hid Ha.
  destruct (notify_ok (update_step before after) store (<[id after := after]> store) m M) as (m' & ? & ? & _); [|eauto].
  intros idx R. now apply update_step_ok.
Qed.

Lemma add_index_ok store idx (m : t) :
  manager_ok store m -> indexes_store store idx -> manager_ok store (add_index idx m).
Proof.
  intros [N R] Hi. unfold add_index. split; intros n i; rewrite lookup_insert_Some;
    intros [[<- <-]|[_ G]]; eauto.
Qed.

Lemma drop_index_ok store n (m : t) : manager_ok store m -> manager_ok store (drop_index n m).1.
Proof. intros [N R]. split; intros k i; cbn; rewrite lookup_delete_Some; intros [_ G]; [apply (N _ _ G)|apply (R _ _ G)]. Qed.

Lemma find_index_Some field (m : t) idx :
  find_index_for_field field m = Some idx -> index_field idx = field /\ exists n, m !! n = Some idx.
Proof.
  unfold find_index_for_field. intros H. apply List.find_some in H as [Hin E].
  apply String.eqb_eq in E. split; [assumption|]. apply elem_of_values. now apply list_elem_of_In.
Qed.

Lemma find_index_None field (m : t) n idx :
  find_index_for_field field m = None -> m !! n = Some idx -> index_field idx <> field.
Proof.
  unfold find_index_for_field. intros H G. pose proof (List.find_none _ _ H idx) as X.
  assert (In idx (values m)) as Hin by (apply list_elem_of_In, elem_of_values; eauto).
  specialize (X Hin). now apply String.eqb_neq in X.
Qed.

Lemma add_docs_lookup (docs : list Document) (st : gmap DocumentId Document) j :
  NoDup (List.map id docs) ->
  fold_left (fun s d => <[id d := d]> s) docs st !! j
  = match List.find (fun d => String.eqb (id d) j) docs with Some d => Some d | None => st !! j end.
Proof.
  revert st. induction docs as [|d docs IH]; intros st N; cbn in *; [reflexivity|].
  apply NoDup_cons in N as [Hn N]. rewrite IH by assumption.
  destruct (String.eqb_spec (id d) j) as [Ej|D]; [subst j|].
  - destruct (List.find _ docs) as [d'|] eqn:F; [|now rewrite lookup_insert_eq].
    apply List.find_some in F as [Hin E]. apply String.eqb_eq in E. destruct Hn. rewrite <- E.
    apply list_elem_of_In. now apply List.in_map.
  - now rewrite lookup_insert_ne by assumption.
Qed.

Lemma insert_all_ok docs store (m : t) :
  manager_ok store m -> NoDup (List.map id docs) ->
  Forall (fun d => doc_ordinary d = true /\ store !! id d = None) docs ->
  exists m', insert_all docs m = (m', Ok tt)
    /\ manager_ok (fold_left (fun s d => <[id d := d]> s) docs store) m'.
Proof.
  revert store m. induction docs as [|d docs IH]; intros store m M N HF; cbn in *; [eauto|].
  apply NoDup_cons in N as [Hn N]. inversion HF as [|? ? [Hd Hs] HF']; subst.
  destruct (on_insert_ok store d m M Hs Hd) as (m1 & E & M1). rewrite E.
  apply IH; auto. rewrite List.Forall_forall in *. intros d' Hin. destruct (HF' _ Hin) as [A B].
  split; [assumption|]. rewrite lookup_insert_ne; [assumption|]. intros E'. destruct Hn. rewrite E'.
  apply list_elem_of_In. now apply List.in_map.
Qed.

(** The documents of a store, in the order the table is visited. *)
Definition store_values (store : gmap DocumentId Document) : list Document :=
  List.map snd (hash_order (map_to_list store)).

(** Documents are stored under their identifiers. *)
Definition store_ok (store : gmap DocumentId Document) : Prop :=
  forall i d, store !! i = Some d -> id d = i /\ doc_ordinary d = true.

Lemma elem_of_store_values store d :
  d ∈ store_values store <-> exists i, store !! i = Some d.
Proof.
  unfold store_values. rewrite list_elem_of_In, List.in_map_iff. split.
  - intros ([i d'] & <- & Hin). rewrite <- list_elem_of_In, elem_of_hash_order in Hin.
    apply elem_of_map_to_list in Hin. eauto.
  - intros [i E]. exists (i, d). split; [reflexivity|].
    rewrite <- list_elem_of_In, elem_of_hash_order. now apply elem_of_map_to_list.
Qed.

Lemma store_values_ids store :
  store_ok store -> List.map id (store_values store) = List.map fst (hash_order (map_to_list store)).
Proof.
  intros S. unfold store_values. rewrite List.map_map. apply List.map_ext_in.
  intros [i d] Hin. cbn. rewrite <- list_elem_of_In, elem_of_hash_order in Hin.
  apply elem_of_map_to_list in Hin. now apply S in Hin.
Qed.

Lemma NoDup_store_ids (store : gmap DocumentId Document) :
  NoDup (List.map fst (hash_order (map_to_list store))).
Proof.
  change (NoDup (fst <$> hash_order (map_to_list store))).
  rewrite (hash_order_perm _ (map_to_list store)). apply NoDup_fst_map_to_list.
Qed.

Lemma rebuild_ok store (m : t) :
  store_ok store -> named m ->
  exists m', rebuild (store_values store) m = (m', Ok tt) /\ manager_ok store m'.
Proof.
  intros S N. unfold rebuild.
  assert (M0 : manager_ok ∅ (index_clear <$> m)).
  { split; intros n idx; rewrite lookup_fmap_Some; intros (idx0 & <- & G).
    - rewrite <- (N _ _ G). now destruct idx0.
    - eapply represents_ext; [|apply represents_empty]. intros j. unfold slots_of. now rewrite lookup_empty. }
  destruct (insert_all_ok (store_values store) ∅ _ M0) as (m' & E & M').
  - rewrite store_values_ids by assumption. apply NoDup_store_ids.
  - apply List.Forall_forall. intros d Hd. apply list_elem_of_In, elem_of_store_values in Hd as [i G].
    rewrite lookup_empty. now apply S in G.
  - exists m'. split; [exact E|].
    replace store with (fold_left (fun s d => <[id d := d]> s) (store_values store) (∅ : gmap DocumentId Document)); [exact M'|].
    apply map_eq. intros j. rewrite add_docs_lookup by (rewrite store_values_ids by assumption; apply NoDup_store_ids).
    rewrite lookup_empty. destruct (List.find _ _) as [d|] eqn:F.
    + apply List.find_some in F as [Hin Ej]. apply String.eqb_eq in Ej.
      apply list_elem_of_In, elem_of_store_values in Hin as [i G]. apply S in G as G'. destruct G' as [<- _]. congruence.
    + destruct (store !! j) as [d|] eqn:G; [|reflexivity].
      assert (d ∈ store_values store) as Hin by (apply elem_of_store_values; eauto).
      apply list_elem_of_In in Hin. pose proof (List.find_none _ _ F d Hin) as X.
      destruct (S _ _ G) as [E1 _]. cbn in X. rewrite E1, String.eqb_refl in X. discriminate.
Qed.
End ManagerInvariant.
