(* ===== verification/Covers.v ===== *)
(** Indexes that may hold more than the documents say: what remains true of them when an
    insert adds its entries late.

    An index covers the documents of a collection when it finds each of them under the
    value of its field, except those for which a document still to be indexed, in [late],
    has an equal value. *)

From S2P Require Export Manager.

Import IndexManager.

Section Covers.
Context {HO : HashOrder} {HL : HashOrderLaws HO}.

(** An identifier is found under every key equal to its value. *)
Definition found (idx : DynIndex) (j : DocumentId) (v : Value) : Prop :=
  forall k, ord_key k -> value_cmp k v = Eq -> j ∈ index_lookup k idx.

(** A document of [late] will add the identifier under an equal value. *)
Definition owed (late : list Document) (f : string) (j : DocumentId) (v : Value) : Prop :=
  exists d u, d ∈ late /\ id d = j /\ Doc.lookup d f = Some u /\ value_cmp u v = Eq.

Definition covers (idx : DynIndex) (s : slots) (late : list Document) : Prop :=
  dyn_wf idx /\ forall j v, s j = Some v -> ord_key v /\ (found idx j v \/ owed late (index_field idx) j v).

Lemma represents_covers idx s late : represents idx s -> covers idx s late.
Proof.
  intros (W & O & R). split; [exact W|]. intros j v Hs. split; [now apply (O j)|left].
  intros k Hk E. apply R; [exact Hk|]. now exists v.
Qed.

Definition docs_ordinary (late : list Document) : Prop := forall d, d ∈ late -> doc_ordinary d = true.

(** Another value equal to the one found. *)
Lemma found_eq idx j v w : ord_key v -> ord_key w -> value_cmp v w = Eq -> found idx j v -> found idx j w.
Proof.
  intros Hv Hw E F k Hk Ek. apply F; [exact Hk|]. now rewrite (ord_eq_r (P := ord_key) v w k).
Qed.

Lemma owed_eq late f j v w :
  docs_ordinary late -> ord_key v -> ord_key w -> value_cmp v w = Eq -> owed late f j v -> owed late f j w.
Proof.
  intros Hl Hv Hw E (d & u & Hd & Hj & Hu & Eu). exists d, u. split; [exact Hd|]. split; [exact Hj|]. split; [exact Hu|].
  assert (ord_key u) by (apply (lookup_ordinary d f); auto). now rewrite <- (ord_eq_r (P := ord_key) v w u).
Qed.

(** ** Inserting into an index and removing from it *)

Lemma insert_finds idx i v : dyn_wf idx -> ord_key v ->
  exists idx', index_insert v i idx = Ok idx' /\ dyn_wf idx' /\ same_index idx idx' /\ found idx' i v
    /\ forall j w, found idx j w -> found idx' j w.
Proof.
  intros W Hv. destruct (index_insert_ok idx v i W Hv) as (idx' & E & W' & N & F & Ty & L).
  exists idx'. split; [exact E|]. split; [exact W'|]. split; [now split_and!|]. split.
  - intros k Hk Ek. apply L; [exact Hk|]. now left.
  - intros j w H k Hk Ek. apply L; [exact Hk|]. right. now apply H.
Qed.

Lemma remove_keeps idx i v : dyn_wf idx -> ord_key v ->
  exists idx', index_remove v i idx = Ok idx' /\ dyn_wf idx' /\ same_index idx idx'
    /\ forall j w, j <> i -> found idx j w -> found idx' j w.
Proof.
  intros W Hv. destruct (index_remove_ok idx v i W Hv) as (idx' & E & W' & N & F & Ty & L).
  exists idx'. split; [exact E|]. split; [exact W'|]. split; [now split_and!|].
  intros j w D H k Hk Ek. apply L; [exact Hk|]. split; [now intros [_ ?]|now apply H].
Qed.

(** ** The notifications, index by index *)

Definition covers_store (store : gmap DocumentId Document) (late : list Document) (idx : DynIndex) : Prop :=
  covers idx (slots_of store (index_field idx)) late.

Lemma same_index_trans a b c : same_index a b -> same_index b c -> same_index a c.
Proof. intros (A & B & D) (A' & B' & D'). split_and!; congruence. Qed.

(** The late entries of a document. *)
Lemma late_step_covers store late late' d idx :
  covers_store store late idx -> doc_ordinary d = true -> (forall x, x ∈ late -> x = d \/ x ∈ late') ->
  exists idx', insert_step d idx = Ok idx' /\ covers_store store late' idx' /\ same_index idx idx'.
Proof.
  intros [W R] Hd Hl. unfold insert_step. set (f := index_field idx) in *.
  destruct (Doc.lookup d f) as [v|] eqn:Ev.
  - destruct (insert_finds idx (id d) v W (lookup_ordinary d f v Hd Ev)) as (idx' & E & W' & S & F & K).
    exists idx'. split; [exact E|]. split; [|exact S]. destruct S as (_ & Sf & _). split; [exact W'|].
    rewrite Sf. fold f. intros j w Hs. destruct (R j w Hs) as [Hw H]. split; [exact Hw|].
    destruct H as [H|(x & u & Hx & Hj & Hu & Eu)]; [left; now apply K|].
    destruct (Hl x Hx) as [->|Hx']; [left|right; exists x, u; now split_and!].
    assert (v = u) as -> by congruence. subst j.
    now apply (found_eq idx' _ u w); [apply (lookup_ordinary d f)| | |].
  - exists idx. split; [reflexivity|]. split; [|now split_and!]. split; [exact W|]. fold f. intros j w Hs.
    destruct (R j w Hs) as [Hw [H|(x & u & Hx & Hj & Hu & Eu)]]; (split; [exact Hw|]); [now left|right].
    destruct (Hl x Hx) as [->|Hx']; [congruence|]. exists x, u. now split_and!.
Qed.

(** A document stored and not yet indexed. *)
Lemma store_covers store late late' d idx :
  covers_store store late idx -> doc_ordinary d = true -> d ∈ late' -> (forall x, x ∈ late -> x ∈ late') ->
  covers_store (<[id d := d]> store) late' idx.
Proof.
  intros [W R] Hd Hin Hl. split; [exact W|]. intros j v. rewrite slots_of_insert. unfold slot_set. case_decide as D.
  - subst j. intros Ev. pose proof (lookup_ordinary d _ v Hd Ev) as Hv. split; [exact Hv|right].
    exists d, v. split_and!; auto. now apply (ord_refl (P := ord_key)).
  - intros Hs. destruct (R j v Hs) as [Hv [H|(x & u & Hx & H)]]; (split; [exact Hv|]); [now left|right]. exists x, u. auto.
Qed.

Lemma remove_step_covers store late d idx :
  covers_store store late idx -> doc_ordinary d = true ->
  exists idx', remove_step d idx = Ok idx' /\ covers_store (delete (id d) store) late idx' /\ same_index idx idx'.
Proof.
  intros [W R] Hd. unfold remove_step. set (f := index_field idx) in *.
  assert (G : forall idx', dyn_wf idx' -> same_index idx idx' -> (forall j w, j <> id d -> found idx j w -> found idx' j w) ->
    covers_store (delete (id d) store) late idx').
  { intros idx' W' (_ & Sf & _) K. split; [exact W'|]. rewrite Sf. fold f. intros j w. rewrite slots_of_delete. unfold slot_set.
    case_decide as D; [discriminate|]. intros Hs. destruct (R j w Hs) as [Hw [H|H]]; (split; [exact Hw|]); [left; now apply K|now right]. }
  destruct (Doc.lookup d f) as [v|] eqn:Ev.
  - destruct (remove_keeps idx (id d) v W (lookup_ordinary d f v Hd Ev)) as (idx' & E & W' & S & K). exists idx'. auto.
  - exists idx. split; [reflexivity|]. split; [|now split_and!]. apply G; [exact W|now split_and!|auto].
Qed.

Lemma update_step_covers store late before after idx :
  covers_store store late idx -> docs_ordinary late -> store !! id before = Some before -> id after = id before ->
  doc_ordinary before = true -> doc_ordinary after = true ->
  exists idx', update_step before after idx = Ok idx' /\ covers_store (<[id after := after]> store) late idx' /\ same_index idx idx'.
Proof.
  intros [W R] Hl Hb Hid Ob Oa. unfold update_step. set (f := index_field idx) in *.
  assert (Hs : slots_of store f (id before) = Doc.lookup before f) by (unfold slots_of; now rewrite Hb).
  assert (G : forall idx', dyn_wf idx' -> same_index idx idx' ->
    (forall j w, j <> id before -> found idx j w -> found idx' j w) ->
    (forall w, Doc.lookup after f = Some w -> found idx' (id before) w \/ owed late f (id before) w) ->
    covers_store (<[id after := after]> store) late idx').
  { intros idx' W' (_ & Sf & _) K Kn. split; [exact W'|]. rewrite Sf. fold f. intros j w. rewrite slots_of_insert, Hid. unfold slot_set.
    case_decide as D; [subst j|]; intros Hw.
    - split; [now apply (lookup_ordinary after f)|now apply Kn].
    - destruct (R j w Hw) as [Ow [H|H]]; (split; [exact Ow|]); [left; now apply K|now right]. }
  destruct (opt_value_eqb (Doc.lookup before f) (Doc.lookup after f)) eqn:Eo.
  - exists idx. split; [reflexivity|]. split; [|now split_and!]. apply G; [exact W|now split_and!|auto|]. intros w Hw. rewrite Hw in Eo.
    destruct (Doc.lookup before f) as [v|] eqn:Ev; [|discriminate]. destruct (R (id before) v Hs) as [Ov H].
    pose proof (lookup_ordinary after f w Oa Hw) as Ow. apply value_eqb_cmp in Eo; [|exact Ov|exact Ow].
    destruct H as [H|H]; [left; now apply (found_eq idx _ v w)|right; now apply (owed_eq late f _ v w)].
  - assert (Hrem : exists idx1, match Doc.lookup before f with Some val => index_remove val (id before) idx | None => Ok idx end = Ok idx1
      /\ dyn_wf idx1 /\ same_index idx idx1 /\ forall j w, j <> id before -> found idx j w -> found idx1 j w).
    { destruct (Doc.lookup before f) as [v|] eqn:E1; [now apply remove_keeps, (lookup_ordinary before f)|].
      exists idx. split; [reflexivity|]. split; [exact W|]. split; [now split_and!|auto]. }
    destruct Hrem as (idx1 & E1 & W1 & S1 & K1). rewrite E1. cbn [bindO].
    destruct (Doc.lookup after f) as [v'|] eqn:E2.
    + destruct (insert_finds idx1 (id after) v' W1 (lookup_ordinary after f v' Oa E2)) as (idx2 & E & W2 & S2 & F2 & K2).
      exists idx2. split; [exact E|]. pose proof (same_index_trans _ _ _ S1 S2) as S. split; [|exact S].
      apply G; [exact W2|exact S|auto|]. intros w [= <-]. left. rewrite <- Hid. exact F2.
    + exists idx1. split; [reflexivity|]. split; [|exact S1]. apply G; [exact W1|exact S1|exact K1|discriminate].
Qed.

(** ** The manager as a whole *)

Definition manager_covers (store : gmap DocumentId Document) (late : list Document) (m : t) : Prop :=
  named m /\ forall n idx, m !! n = Some idx -> covers_store store late idx.

Lemma manager_ok_covers store late m : manager_ok store m -> manager_covers store late m.
Proof. intros [N R]. split; [exact N|]. intros n idx G. now apply represents_covers, (R n). Qed.

Lemma manager_late_covers store late late' d m :
  manager_covers store late m -> doc_ordinary d = true -> (forall x, x ∈ late -> x = d \/ x ∈ late') ->
  exists m', on_insert d m = (m', Ok tt) /\ manager_covers store late' m'.
Proof.
  intros [N R] Hd Hl. destruct (notify_all (insert_step d) (covers_store store late) (covers_store store late') m N R) as (m' & E & N' & R' & _).
  - intros idx H. now apply (late_step_covers store late).
  - exists m'. split; [exact E|now split].
Qed.

Lemma manager_store_covers store late late' d m :
  manager_covers store late m -> doc_ordinary d = true -> d ∈ late' -> (forall x, x ∈ late -> x ∈ late') ->
  manager_covers (<[id d := d]> store) late' m.
Proof. intros [N R] Hd Hin Hl. split; [exact N|]. intros n idx G. apply (store_covers store late); eauto. Qed.

Lemma manager_remove_covers store late d m :
  manager_covers store late m -> doc_ordinary d = true ->
  exists m', on_remove d m = (m', Ok tt) /\ manager_covers (delete (id d) store) late m'.
Proof.
  intros [N R] Hd. destruct (notify_all (remove_step d) (covers_store store late) (covers_store (delete (id d) store) late) m N R) as (m' & E & N' & R' & _).
  - intros idx H. now apply remove_step_covers.
  - exists m'. split; [exact E|now split].
Qed.

Lemma manager_update_covers store late before after m :
  manager_covers store late m -> docs_ordinary late -> store !! id before = Some before -> id after = id before ->
  doc_ordinary before = true -> doc_ordinary after = true ->
  exists m', on_update before after m = (m', Ok tt) /\ manager_covers (<[id after := after]> store) late m'.
Proof.
  intros [N R] Hl Hb Hid Ob Oa.
  destruct (notify_all (update_step before after) (covers_store store late) (covers_store (<[id after := after]> store) late) m N R) as (m' & E & N' & R' & _).
  - intros idx H. now apply update_step_covers.
  - exists m'. split; [exact E|now split].
Qed.

Lemma manager_more_covers store late late' m :
  manager_covers store late m -> (forall x, x ∈ late -> x ∈ late') -> manager_covers store late' m.
Proof.
  intros [N R] Hl. split; [exact N|]. intros n idx G. destruct (R n idx G) as [W C]. split; [exact W|]. intros j v Hs.
  destruct (C j v Hs) as [Hv [H|(d & u & Hd & H)]]; (split; [exact Hv|]); [now left|right]. exists d, u. auto.
Qed.

Lemma manager_add_covers store late idx m :
  manager_covers store late m -> covers_store store late idx -> manager_covers store late (add_index idx m).
Proof.
  intros [N R] H. split; intros n i; unfold add_index; rewrite lookup_insert_Some; intros [[<- <-]|[_ G]]; eauto.
Qed.

Lemma manager_drop_covers store late n m : manager_covers store late m -> manager_covers store late (drop_index n m).1.
Proof. intros [N R]. split; intros k i; cbn; rewrite lookup_delete_Some; intros [_ G]; [apply (N _ _ G)|apply (R _ _ G)]. Qed.
End Covers.
