(* ===== verification/Ast.v ===== *)
(** [nova-query/src/ast.rs]: the syntax of NQL. *)

From S2P Require Export Index.

Inductive BinaryOp :=
| Eq_ | NotEq | Gt_ | GtEq | Lt_ | LtEq | And | Or | Plus | Minus | Multiply | Divide | Modulo.

#[export] Instance BinaryOp_eq_dec : EqDecision BinaryOp.
Proof. solve_decision. Defined.

Inductive UnaryOp := Not | Negate.

#[export] Instance UnaryOp_eq_dec : EqDecision UnaryOp.
Proof. solve_decision. Defined.

#[warnings="-register-all"]
Inductive Expr :=
| ELiteral (v : Value)
| EField (path : string)
| EBinary (op : BinaryOp) (left right : Expr)
| EUnary (op : UnaryOp) (expr : Expr)
| EIn (expr : Expr) (list : list Expr)
| EBetween (expr min max : Expr).

Section ExprInd.
Context (Q : Expr -> Prop).
Context (HLit : forall v, Q (ELiteral v)) (HField : forall p, Q (EField p))
  (HBin : forall op l r, Q l -> Q r -> Q (EBinary op l r))
  (HUn : forall op e, Q e -> Q (EUnary op e))
  (HIn : forall e l, Q e -> Forall Q l -> Q (EIn e l))
  (HBetween : forall e mn mx, Q e -> Q mn -> Q mx -> Q (EBetween e mn mx)).

Fixpoint expr_ind' (e : Expr) : Q e :=
  match e with
  | ELiteral v => HLit v
  | EField p => HField p
  | EBinary op l r => HBin op l r (expr_ind' l) (expr_ind' r)
  | EUnary op e => HUn op e (expr_ind' e)
  | EIn e l =>
    HIn e l (expr_ind' e) ((fix go l : Forall Q l :=
      match l with
      | [] => @List.Forall_nil _ _
      | x :: l' => @List.Forall_cons _ _ _ _ (expr_ind' x) (go l')
      end) l)
  | EBetween e mn mx => HBetween e mn mx (expr_ind' e) (expr_ind' mn) (expr_ind' mx)
  end.
End ExprInd.

Record Assignment := { as_field : string; as_expr : Expr }.

Inductive SortDirection := Asc | Desc.

#[export] Instance SortDirection_eq_dec : EqDecision SortDirection.
Proof. solve_decision. Defined.

Record SortClause := { sort_field : string; sort_direction : SortDirection }.

Inductive Statement :=
| SFind (collection : string) (filter : option Expr) (sort : option SortClause)
    (limit offset : option Z)
| SInsert (collection : string) (document : Document)
| SUpdate (collection : string) (assignments : list Assignment) (filter : option Expr)
| SRemove (collection : string) (filter : option Expr)
| SWatch (collection : string) (filter : option Expr)
| SCount (collection : string) (filter : option Expr)
| SExists (collection : string) (filter : option Expr)
| SCreateIndex (collection field : string) (index_type : IndexType)
| SDropIndex (collection field : string)
| SBegin | SCommit | SRollback.

(** What NQL can say after LIMIT and OFFSET: a literal that is not negative. *)
Definition nql_usize (o : option Z) : Prop := match o with Some z => 0 <= z <= i64_max | None => True end.
