(* ===== verification/Evaluator.v ===== *)
(** [nova-query/src/evaluator.rs]: expressions over a document. *)

From S2P Require Export Ast.

(** The bits of a NaN that arithmetic produces; the language leaves them open. *)
Class ArithNan := arith_nan : Z.

Section Evaluator.
Context {B : Build} {N : ArithNan}.

Definition is_truthy (v : Value) : bool :=
  match v with
  | VNull => false
  | VBool b => b
  | VInt i => negb (i =? 0)
  | VFloat f => negb (f64_eqb f 0) && negb (f64_is_nan f)
  | VString s => match s with EmptyString => false | _ => true end
  | VBytes b => match b with [] => false | _ => true end
  | VArray a => match a with [] => false | _ => true end
  | VObject o => match o with [] => false | _ => true end
  | VTimestamp t => negb (t =? 0)
  | VUuid _ => true
  end.

Definition is_lt (c : comparison) : bool := match c with Lt => true | _ => false end.
Definition is_gt (c : comparison) : bool := match c with Gt => true | _ => false end.
Definition is_eq (c : comparison) : bool := match c with Eq => true | _ => false end.

(** [a / b] and [a % b] on [i64]: the one overflow panics in every profile. *)
Definition div_i64 (a b : Z) : result Z :=
  if (a =? i64_min) && (b =? -1) then Panic else Ok (Z.quot a b).
Definition rem_i64 (a b : Z) : result Z :=
  if (a =? i64_min) && (b =? -1) then Panic else Ok (Z.rem a b).

Definition cannot (op : string) : result Value :=
  Err (invalid_query ("Cannot perform '" ++ op ++ "' on given types")).

(** Two numbers, at least one of them a float. *)
Definition float_op (f : Z -> Z -> Z) (l r : Value) : option Value :=
  match l, r with
  | VFloat a, VFloat b => Some (VFloat (f a b))
  | VInt a, VFloat b => Some (VFloat (f (f64_of_i64 a) b))
  | VFloat a, VInt b => Some (VFloat (f a (f64_of_i64 b)))
  | _, _ => None
  end.

(** The operators that evaluate both sides. *)
Definition eval_op (op : BinaryOp) (l r : Value) : result Value :=
  match op with
  | Eq_ => Ok (VBool (value_eqb l r))
  | NotEq => Ok (VBool (negb (value_eqb l r)))
  | Gt_ => Ok (VBool (is_gt (value_cmp l r)))
  | GtEq => let ord := value_cmp l r in Ok (VBool (is_gt ord || is_eq ord))
  | Lt_ => Ok (VBool (is_lt (value_cmp l r)))
  | LtEq => let ord := value_cmp l r in Ok (VBool (is_lt ord || is_eq ord))
  | Plus =>
    match l, r with
    | VInt a, VInt b => mapO VInt (checked_i64 (a + b))
    | VString a, VString b => Ok (VString (a ++ b))
    | _, _ => match float_op (f64_add arith_nan) l r with Some v => Ok v | None => cannot "+" end
    end
  | Minus =>
    match l, r with
    | VInt a, VInt b => mapO VInt (checked_i64 (a - b))
    | _, _ => match float_op (f64_sub arith_nan) l r with Some v => Ok v | None => cannot "-" end
    end
  | Multiply =>
    match l, r with
    | VInt a, VInt b => mapO VInt (checked_i64 (a * b))
    | _, _ => match float_op (f64_mul arith_nan) l r with Some v => Ok v | None => cannot "*" end
    end
  | Divide =>
    match l, r with
    | VInt a, VInt b =>
      if b =? 0 then Err (invalid_query "Division by zero") else mapO VInt (div_i64 a b)
    | _, _ => match float_op (f64_div arith_nan) l r with Some v => Ok v | None => cannot "/" end
    end
  | Modulo =>
    match l, r with
    | VInt a, VInt b =>
      if b =? 0 then Err (invalid_query "Modulo by zero") else mapO VInt (rem_i64 a b)
    | _, _ => Err (invalid_query "Modulo '%' only supported for integers")
    end
  | And | Or => Panic
  end.

(** [Evaluator::eval]. *)
Fixpoint eval (expr : Expr) (doc : Document) {struct expr} : result Value :=
  match expr with
  | ELiteral v => Ok v
  | EField path =>
    if String.eqb path "id" || String.eqb path "_id" then Ok (VString (id doc))
    else
      match Doc.lookup doc path with
      | Some v => Ok v
      | None => Ok VNull
      end
  | EUnary op e =>
    let? inner := eval e doc in
    match op with
    | Not => Ok (VBool (negb (is_truthy inner)))
    | Negate =>
      match inner with
      | VInt i => mapO VInt (checked_i64 (- i))
      | VFloat f => Ok (VFloat (f64_neg f))
      | other => Err (type_error "numeric" (type_name other))
      end
    end
  | EBinary op l r =>
    match op with
    | And =>
      let? l_val := eval l doc in
      if negb (is_truthy l_val) then Ok (VBool false)
      else let? r_val := eval r doc in Ok (VBool (is_truthy r_val))
    | Or =>
      let? l_val := eval l doc in
      if is_truthy l_val then Ok (VBool true)
      else let? r_val := eval r doc in Ok (VBool (is_truthy r_val))
    | _ =>
      let? l_val := eval l doc in
      let? r_val := eval r doc in
      eval_op op l_val r_val
    end
  | EBetween e mn mx =>
    let? v := eval e doc in
    let? min_val := eval mn doc in
    let? max_val := eval mx doc in
    Ok (VBool (negb (is_lt (value_cmp v min_val)) && negb (is_gt (value_cmp v max_val))))
  | EIn e items =>
    let? v := eval e doc in
    (fix any (items : list Expr) : result Value :=
       match items with
       | [] => Ok (VBool false)
       | item :: items' =>
         let? item_val := eval item doc in
         if value_eqb v item_val then Ok (VBool true) else any items'
       end) items
  end.

Definition matches_filter (filter : option Expr) (doc : Document) : result bool :=
  match filter with
  | Some expr => let? v := eval expr doc in Ok (is_truthy v)
  | None => Ok true
  end.

(** [apply_assignments] works on the document in place: the document it leaves,
    also when it fails, and its result. *)
Fixpoint apply_assignments (now : Z) (doc : Document) (assignments : list Assignment)
    : Document * result unit :=
  match assignments with
  | [] =>
    match Doc.advance_version now doc with
    | Ok doc' => (doc', Ok tt)
    | Err e => (doc, Err e)
    | Panic => (doc, Panic)
    end
  | a :: rest =>
    match eval (as_expr a) doc with
    | Ok v =>
      if String.eqb (as_field a) "id" || String.eqb (as_field a) "_id" then
        (doc, Err (invalid_query "Cannot modify primary key 'id'"))
      else apply_assignments now (Doc.insert doc (as_field a) v).1 rest
    | Err e => (doc, Err e)
    | Panic => (doc, Panic)
    end
  end.
End Evaluator.
