(* ===== verification/Lexer.v ===== *)
(** [nova-query/src/lexer.rs]: from a query text to located tokens.

    The lexer's vector of characters and cursor are the list of the characters from
    the cursor on; [all] is the whole vector where the code looks at its last
    element. *)

From Stdlib Require Import Floats.SpecFloat.
From S2P Require Export Ast.

Record Span := { line : Z; column : Z }.

Inductive TokenKind :=
(* keywords *)
| TFind | TInsert | TInto | TValues | TUpdate | TSet | TRemove | TWatch | TCount | TExists
| TCreate | TDrop | TIndex | TType | TWhere | TSort | TLimit | TOffset | TAsc | TDesc | TAnd
| TOr | TNot | TIn | TBetween | TBegin | TCommit | TRollback | THash | TOrdered | TTrue
| TFalse | TNull
(* literals *)
| TInt (i : Z) | TFloat (f : Z) | TStringLit (s : string) | TIdentifier (s : string)
(* symbols *)
| TEqEq | TEq | TBangEq | TGt | TGtEq | TLt | TLtEq | TAmpAmp | TPipePipe | TBang | TPlus
| TMinus | TStar | TSlash | TPercent | TLParen | TRParen | TLBrace | TRBrace | TLBracket
| TRBracket | TComma | TColon | TDot | TEof.

Record Token := { kind : TokenKind; span : Span }.

(** A character with its line and column. *)
Abbreviation LChar := (Z * Z * Z)%type.

(** Code points of the ASCII characters the lexer names. *)
Definition chr (a : ascii) : Z := Z.of_N (N_of_ascii a).

Definition c_newline : Z := 10.
Definition c_dquote : Z := 34.
Definition c_backslash : Z := 92.

Definition is_ascii_digit (c : Z) : bool := (48 <=? c) && (c <=? 57).

Definition is_ascii_letter (c : Z) : bool :=
  ((65 <=? c) && (c <=? 90)) || ((97 <=? c) && (c <=? 122)).

(** [char::is_alphabetic] and [char::is_numeric] beyond ASCII are the Unicode tables
    of the standard library; on ASCII they are the letters and the digits. *)
Class UnicodeTables := {
  wide_alphabetic : Z -> bool;
  wide_numeric : Z -> bool;
}.

Section Lexer.
Context {UT : UnicodeTables}.

Definition is_alphabetic (c : Z) : bool := if c <? 128 then is_ascii_letter c else wide_alphabetic c.
Definition is_numeric (c : Z) : bool := if c <? 128 then is_ascii_digit c else wide_numeric c.
Definition is_alphanumeric (c : Z) : bool := is_alphabetic c || is_numeric c.

(** [Lexer::new]: number the lines and the columns. *)
Fixpoint locate (ln col : Z) (cs : list Z) : list LChar :=
  match cs with
  | [] => []
  | c :: cs' =>
    (ln, col, c) :: (if c =? c_newline then locate (ln + 1) 1 cs' else locate ln (col + 1) cs')
  end.

Definition lexer_new (source : string) : list LChar := locate 1 1 (chars source).

Definition peek (rest : list LChar) : option Z :=
  match rest with (_, _, c) :: _ => Some c | [] => None end.

Definition current_span (all rest : list LChar) : Span :=
  match rest with
  | (l, c, _) :: _ => {| line := l; column := c |}
  | [] =>
    match last all with
    | Some (l, c, _) => {| line := l; column := c + 1 |}
    | None => {| line := 1; column := 1 |}
    end
  end.

(** The character after the current one satisfies [p]. *)
Definition next_is (p : Z -> bool) (rest : list LChar) : bool :=
  match rest with _ :: (_, _, c) :: _ => p c | _ => false end.

(** Comments run to the end of the line. *)
Fixpoint skip_comment (rest : list LChar) : list LChar :=
  match rest with
  | [] => []
  | (_, _, c) :: rest' => if c =? c_newline then rest' else skip_comment rest'
  end.

Definition unescape (c : Z) : Z :=
  if c =? chr "n" then 10
  else if c =? chr "t" then 9
  else if c =? chr "r" then 13
  else c.

(** The inside of a string literal; [None] when it is not closed. *)
Fixpoint lex_string (quote : Z) (content : list Z) (rest : list LChar) : option (list Z * list LChar) :=
  match rest with
  | [] => None
  | (_, _, c) :: rest' =>
    if c =? quote then Some (content, rest')
    else if c =? c_backslash then
      match rest' with
      | (_, _, escaped) :: rest'' => lex_string quote (content ++ [unescape escaped]) rest''
      | [] => None
      end
    else lex_string quote (content ++ [c]) rest'
  end.

(** Digits, with one dot between two of them. *)
Fixpoint lex_number (has_dot : bool) (rest : list LChar) : list Z * bool * list LChar :=
  match rest with
  | (_, _, c) :: rest' =>
    if is_ascii_digit c then
      let '(ds, dot, r) := lex_number has_dot rest' in (c :: ds, dot, r)
    else if (c =? chr ".") && negb has_dot && (match peek rest' with Some n => is_ascii_digit n | None => false end) then
      let '(ds, dot, r) := lex_number true rest' in (c :: ds, dot, r)
    else ([], has_dot, rest)
  | [] => ([], has_dot, [])
  end.

Fixpoint lex_ident (rest : list LChar) : list Z * list LChar :=
  match rest with
  | (_, _, c) :: rest' =>
    if is_alphanumeric c || (c =? chr "_") then
      let (ident, r) := lex_ident rest' in (c :: ident, r)
    else ([], rest)
  | [] => ([], [])
  end.

(** [str::parse::<i64>] of digits with an optional sign before them. *)
Definition digits_value (ds : list Z) : Z := fold_left (fun acc c => acc * 10 + (c - 48)) ds 0.

Definition parse_i64 (neg : bool) (ds : list Z) : option Z :=
  let v := if neg then - digits_value ds else digits_value ds in
  if in_i64 v then Some v else None.

(** The digits before and after the dot. *)
Fixpoint split_at_dot (cs : list Z) : list Z * list Z :=
  match cs with
  | [] => ([], [])
  | c :: cs' => if c =? chr "." then ([], cs') else let (w, f) := split_at_dot cs' in (c :: w, f)
  end.

(** [str::parse::<f64>] of digits around a dot: the double nearest to the quotient. *)
Definition parse_f64 (neg : bool) (cs : list Z) : Z :=
  let (whole, frac) := split_at_dot cs in
  match digits_value (whole ++ frac), 10 ^ Z.of_nat (List.length frac) with
  | Zpos m, Zpos d => of_sf 0 (SFdiv 53 1024 (S754_finite neg m 0) (S754_finite false d 0))
  | _, _ => of_sf 0 (S754_zero neg)
  end.

(** A number literal; [ch] is the current character. *)
Definition number_token (sp : Span) (ch : Z) (rest : list LChar) : result (TokenKind * list LChar) :=
  let neg := ch =? chr "-" in
  let '(cs, has_dot, r) := lex_number false (if neg then skipn 1 rest else rest) in
  if has_dot then Ok (TFloat (parse_f64 neg cs), r)
  else
    match parse_i64 neg cs with
    | Some i => Ok (TInt i, r)
    | None =>
      let num_str := string_of_chars ((if neg then [ch] else []) ++ cs) in
      Err (parse_error ("Invalid integer literal '" ++ num_str ++ "'")%string (line sp) (column sp))
    end.

(** [str::to_ascii_uppercase]. *)
Definition ascii_upper (a : ascii) : ascii :=
  let n := N_of_ascii a in
  if (97 <=? n)%N && (n <=? 122)%N then ascii_of_N (n - 32) else a.

Fixpoint to_ascii_uppercase (s : string) : string :=
  match s with
  | EmptyString => EmptyString
  | String a s' => String (ascii_upper a) (to_ascii_uppercase s')
  end.

Definition keywords : list (string * TokenKind) :=
  [("FIND", TFind); ("INSERT", TInsert); ("INTO", TInto); ("VALUES", TValues); ("UPDATE", TUpdate);
   ("SET", TSet); ("REMOVE", TRemove); ("WATCH", TWatch); ("COUNT", TCount); ("EXISTS", TExists);
   ("CREATE", TCreate); ("DROP", TDrop); ("INDEX", TIndex); ("TYPE", TType); ("WHERE", TWhere);
   ("SORT", TSort); ("LIMIT", TLimit); ("OFFSET", TOffset); ("ASC", TAsc); ("DESC", TDesc);
   ("AND", TAnd); ("OR", TOr); ("NOT", TNot); ("IN", TIn); ("BETWEEN", TBetween); ("BEGIN", TBegin);
   ("COMMIT", TCommit); ("ROLLBACK", TRollback); ("HASH", THash); ("ORDERED", TOrdered);
   ("TRUE", TTrue); ("FALSE", TFalse); ("NULL", TNull)]%string.

Definition ident_token (ident : string) : TokenKind :=
  match List.find (fun p => String.eqb p.1 (to_ascii_uppercase ident)) keywords with
  | Some (_, k) => k
  | None => TIdentifier ident
  end.

(** Punctuation and symbols of one or two characters. *)
Definition symbol_token (sp : Span) (ch : Z) (rest : list LChar) : result (TokenKind * list LChar) :=
  let after := skipn 1 rest in
  let two (second : Z) (long short : TokenKind) : result (TokenKind * list LChar) :=
    if (match peek after with Some c => c =? second | None => false end) then Ok (long, skipn 1 after)
    else Ok (short, after) in
  let must (second : Z) (long : TokenKind) (msg : string) : result (TokenKind * list LChar) :=
    if (match peek after with Some c => c =? second | None => false end) then Ok (long, skipn 1 after)
    else Err (parse_error msg (line sp) (column sp)) in
  if ch =? chr "=" then two (chr "=") TEqEq TEq
  else if ch =? chr "!" then two (chr "=") TBangEq TBang
  else if ch =? chr ">" then two (chr "=") TGtEq TGt
  else if ch =? chr "<" then two (chr "=") TLtEq TLt
  else if ch =? chr "&" then must (chr "&") TAmpAmp "Unexpected '&', expected '&&'"%string
  else if ch =? chr "|" then must (chr "|") TPipePipe "Unexpected '|', expected '||'"%string
  else if ch =? chr "+" then Ok (TPlus, after)
  else if ch =? chr "-" then Ok (TMinus, after)
  else if ch =? chr "*" then Ok (TStar, after)
  else if ch =? chr "/" then Ok (TSlash, after)
  else if ch =? chr "%" then Ok (TPercent, after)
  else if ch =? chr "(" then Ok (TLParen, after)
  else if ch =? chr ")" then Ok (TRParen, after)
  else if ch =? chr "{" then Ok (TLBrace, after)
  else if ch =? chr "}" then Ok (TRBrace, after)
  else if ch =? chr "[" then Ok (TLBracket, after)
  else if ch =? chr "]" then Ok (TRBracket, after)
  else if ch =? chr "," then Ok (TComma, after)
  else if ch =? chr ":" then Ok (TColon, after)
  else if ch =? chr "." then Ok (TDot, after)
  else Err (parse_error ("Unexpected character: '" ++ string_of_chars [ch] ++ "'")%string (line sp) (column sp)).

Definition is_quote (ch : Z) : bool := (ch =? c_dquote) || (ch =? chr "'").

(** One turn of the loop of [tokenize] at the character [ch]: a token or nothing, and
    the characters left. *)
Definition lex_step (sp : Span) (ch : Z) (rest : list LChar) : result (option TokenKind * list LChar) :=
  if is_whitespace ch then Ok (None, skipn 1 rest)
  else if ((ch =? chr "-") && next_is (Z.eqb (chr "-")) rest) || ((ch =? chr "/") && next_is (Z.eqb (chr "/")) rest)
  then Ok (None, skip_comment rest)
  else if is_quote ch then
    match lex_string ch [] (skipn 1 rest) with
    | Some (content, r) => Ok (Some (TStringLit (string_of_chars content)), r)
    | None => Err (parse_error "Unterminated string literal" (line sp) (column sp))
    end
  else if is_ascii_digit ch || ((ch =? chr "-") && next_is is_ascii_digit rest) then
    let? (k, r) := number_token sp ch rest in Ok (Some k, r)
  else if is_alphabetic ch || (ch =? chr "_") then
    let (ident, r) := lex_ident rest in Ok (Some (ident_token (string_of_chars ident)), r)
  else
    let? (k, r) := symbol_token sp ch rest in Ok (Some k, r).

(** The loop; every turn consumes a character, so one more than their number is
    enough fuel. *)
Fixpoint lex_loop (fuel : nat) (all rest : list LChar) : result (list Token) :=
  match rest with
  | [] => Ok [{| kind := TEof; span := current_span all [] |}]
  | (_, _, ch) :: _ =>
    match fuel with
    | O => Panic
    | S fuel' =>
      let sp := current_span all rest in
      let? (k, r) := lex_step sp ch rest in
      let? ts := lex_loop fuel' all r in
      Ok (match k with Some k => {| kind := k; span := sp |} :: ts | None => ts end)
    end
  end.

Definition tokenize (all : list LChar) : result (list Token) := lex_loop (List.length all) all all.
End Lexer.

(** ** Laws *)

Section LexerLaws.
Context {UT : UnicodeTables}.

Lemma skip_comment_shorter rest : (List.length (skip_comment rest) <= List.length rest)%nat.
Proof. induction rest as [|[[l c] x] rest IH]; cbn [skip_comment List.length]; [lia|]. case_if; lia. Qed.

Lemma lex_string_shorter q content rest s r :
  lex_string q content rest = Some (s, r) -> (List.length r <= List.length rest)%nat.
Proof.
  revert content. induction rest as [rest IH] using (well_founded_induction (well_founded_ltof _ (@List.length LChar))).
  intros content H. destruct rest as [|[[l c] x] rest]; [discriminate|]. cbn [lex_string] in H.
  destruct (x =? q); [injection H as _ <-; cbn; lia|]. destruct (x =? c_backslash).
  - destruct rest as [|[[l' c'] x'] rest]; [discriminate|].
    apply IH in H; [|unfold ltof; cbn; lia]. cbn in *. lia.
  - apply IH in H; [|unfold ltof; cbn; lia]. cbn in *. lia.
Qed.

Lemma lex_number_shorter dot rest ds dot' r :
  lex_number dot rest = (ds, dot', r) -> (List.length ds + List.length r = List.length rest)%nat.
Proof.
  revert dot ds. induction rest as [|[[l c] x] rest IH]; intros dot ds H; cbn [lex_number] in H;
    [now injection H as <- _ <-|].
  destruct (is_ascii_digit x).
  - destruct (lex_number dot rest) as [[ds0 d0] r0] eqn:E. injection H as <- <- <-.
    apply IH in E. cbn. lia.
  - destruct (_ && _).
    + destruct (lex_number true rest) as [[ds0 d0] r0] eqn:E. injection H as <- <- <-.
      apply IH in E. cbn. lia.
    + injection H as <- _ <-. reflexivity.
Qed.

Lemma lex_ident_shorter rest i r :
  lex_ident rest = (i, r) -> (List.length i + List.length r = List.length rest)%nat.
Proof.
  revert i. induction rest as [|[[l c] x] rest IH]; intros i H; cbn [lex_ident] in H; [now injection H as <- <-|].
  destruct (_ || _).
  - destruct (lex_ident rest) as [i0 r0] eqn:E. injection H as <- <-. specialize (IH i0 eq_refl). cbn. lia.
  - injection H as <- <-. reflexivity.
Qed.

(** Every turn of the loop consumes at least one character. *)
Lemma lex_step_shorter sp l c ch rest k r :
  lex_step sp ch ((l, c, ch) :: rest) = Ok (k, r) -> (List.length r <= List.length rest)%nat.
Proof.
  unfold lex_step. intros H. destruct (is_whitespace ch); [now injection H as _ <-|].
  destruct ((ch =? chr "-") && next_is (Z.eqb (chr "-")) _ || _) eqn:Ec.
  { injection H as _ <-. cbn [skip_comment]. case_if; [lia|apply skip_comment_shorter]. }
  destruct (is_quote ch).
  { destruct (lex_string ch [] _) as [[s r0]|] eqn:E; [|discriminate]. injection H as _ <-.
    now apply lex_string_shorter in E. }
  destruct (is_ascii_digit ch || _) eqn:Ed.
  { inv_ok H. destruct r0 as [k0 r0]. injection H as _ <-. unfold number_token in Hr.
    destruct (ch =? chr "-") eqn:Em.
    - change (skipn 1 (_ :: rest)) with rest in Hr. destruct (lex_number false rest) as [[ds dot] r1] eqn:E. apply lex_number_shorter in E.
      cbv beta iota zeta in Hr. destruct dot; [injection Hr as _ <-; lia|]. destruct (parse_i64 _ _); [injection Hr as _ <-; lia|discriminate].
    - rewrite orb_false_r in Ed. destruct (lex_number false _) as [[ds dot] r1] eqn:E.
      pose proof (lex_number_shorter _ _ _ _ _ E) as L. cbn [List.length] in L.
      cbn [lex_number] in E. rewrite Ed in E. destruct (lex_number false rest) as [[ds0 d0] r2]. injection E as <- <- <-.
      cbn [List.length] in L. cbv beta iota zeta in Hr.
      destruct d0; [injection Hr as _ <-; lia|]. destruct (parse_i64 _ _); [injection Hr as _ <-; lia|discriminate]. }
  destruct (is_alphabetic ch || (ch =? chr "_")) eqn:Ea.
  { destruct (lex_ident _) as [i r0] eqn:E. injection H as _ <-.
    pose proof (lex_ident_shorter _ _ _ E) as L. cbn [lex_ident] in E.
    assert (Eb : is_alphanumeric ch || (ch =? chr "_") = true).
    { unfold is_alphanumeric. destruct (is_alphabetic ch), (is_numeric ch), (ch =? chr "_"); easy. }
    rewrite Eb in E. destruct (lex_ident rest) as [i1 r1]. injection E as <- <-. cbn [List.length] in L. lia. }
  inv_ok H. destruct r0 as [k0 r0]. injection H as _ <-. unfold symbol_token in Hr.
  change (skipn 1 (_ :: rest)) with rest in Hr.
  repeat (case_match; try discriminate Hr); injection Hr as _ <-; rewrite ?length_skipn; lia.
Qed.

Lemma lex_loop_total fuel all rest : (List.length rest <= fuel)%nat -> lex_loop fuel all rest <> Panic.
Proof.
  revert rest. induction fuel as [|fuel IH]; intros rest L; (destruct rest as [|[[l c] ch] rest]; [discriminate|]); [cbn in L; lia|].
  cbn [lex_loop]. destruct (lex_step _ ch _) as [[k r]|e|] eqn:E; cbn [bindO]; [|discriminate|].
  - apply lex_step_shorter in E. specialize (IH r ltac:(cbn in L; lia)).
    destruct (lex_loop fuel all r); cbn [bindO]; congruence.
  - exfalso. revert E. unfold lex_step, number_token, symbol_token. repeat case_match; discriminate.
Qed.

Lemma ident_token_kind i : ident_token i <> TEof.
Proof.
  unfold ident_token. destruct (List.find _ keywords) as [[w k]|] eqn:F; [|discriminate].
  apply List.find_some in F as [Hin _].
  assert (HF : Forall (fun p => p.2 <> TEof) keywords) by (repeat constructor; discriminate).
  rewrite List.Forall_forall in HF. exact (HF _ Hin).
Qed.

Lemma lex_step_kind sp ch rest k r : lex_step sp ch rest = Ok (Some k, r) -> k <> TEof.
Proof.
  unfold lex_step. intros H. destruct (is_whitespace ch); [discriminate H|].
  destruct ((ch =? chr "-") && next_is (Z.eqb (chr "-")) _ || _); [discriminate H|].
  destruct (is_quote ch).
  { destruct (lex_string _ _ _) as [[s r0]|]; [|discriminate]. now injection H as <- _. }
  destruct (is_ascii_digit ch || _).
  { inv_ok H. destruct r0 as [k0 r0]. injection H as <- _. unfold number_token in Hr.
    repeat (case_match; try discriminate Hr); now injection Hr as <- _. }
  destruct (is_alphabetic ch || _).
  { destruct (lex_ident _) as [i r0]. injection H as <- _. apply ident_token_kind. }
  inv_ok H. destruct r0 as [k0 r0]. injection H as <- _. unfold symbol_token in Hr.
  repeat (case_match; try discriminate Hr); now injection Hr as <- _.
Qed.

(** The token list ends with the end-of-file token, and has no other. *)
Lemma lex_loop_eof fuel all rest ts :
  lex_loop fuel all rest = Ok ts ->
  exists ts' sp, ts = (ts' ++ [{| kind := TEof; span := sp |}])%list /\ Forall (fun t => kind t <> TEof) ts'.
Proof.
  revert rest ts. induction fuel as [|fuel IH]; intros rest ts H; destruct rest as [|[[l c] ch] rest]; cbn [lex_loop] in H;
    try discriminate; try (injection H as <-; exists [], (current_span all []); now split).
  inv_ok H. destruct r as [k r]. inv_ok H. injection H as <-.
  destruct (IH _ _ Hr0) as (ts' & sp & -> & HF).
  destruct k as [k|]; [|eauto]. exists ({| kind := k; span := current_span all ((l, c, ch) :: rest) |} :: ts'), sp.
  split; [reflexivity|]. constructor; [|exact HF]. cbn [kind].
  exact (lex_step_kind _ _ _ _ _ Hr).
Qed.
End LexerLaws.
