(* ===== verification/Parser.v ===== *)
(** [nova-query/src/parser.rs] and [parse_nql]: from tokens to statements.

    The parser's token vector and cursor are the list of the tokens from the cursor
    on.  [advance] never moves past the last token, so the list stays nonempty once
    it is. *)

From S2P Require Export Lexer.

(** The derived [Debug] text of a token kind, which error messages quote. *)
Class TokenDebug := token_debug : TokenKind -> string.

(** The position of a kind among the constructors.  The parser compares tokens only
    with kinds that carry no payload, where the position decides equality. *)
Definition kind_tag (k : TokenKind) : Z :=
  match k with
  | TFind => 0 | TInsert => 1 | TInto => 2 | TValues => 3 | TUpdate => 4 | TSet => 5 | TRemove => 6
  | TWatch => 7 | TCount => 8 | TExists => 9 | TCreate => 10 | TDrop => 11 | TIndex => 12 | TType => 13
  | TWhere => 14 | TSort => 15 | TLimit => 16 | TOffset => 17 | TAsc => 18 | TDesc => 19 | TAnd => 20
  | TOr => 21 | TNot => 22 | TIn => 23 | TBetween => 24 | TBegin => 25 | TCommit => 26 | TRollback => 27
  | THash => 28 | TOrdered => 29 | TTrue => 30 | TFalse => 31 | TNull => 32 | TInt _ => 33 | TFloat _ => 34
  | TStringLit _ => 35 | TIdentifier _ => 36 | TEqEq => 37 | TEq => 38 | TBangEq => 39 | TGt => 40
  | TGtEq => 41 | TLt => 42 | TLtEq => 43 | TAmpAmp => 44 | TPipePipe => 45 | TBang => 46 | TPlus => 47
  | TMinus => 48 | TStar => 49 | TSlash => 50 | TPercent => 51 | TLParen => 52 | TRParen => 53
  | TLBrace => 54 | TRBrace => 55 | TLBracket => 56 | TRBracket => 57 | TComma => 58 | TColon => 59
  | TDot => 60 | TEof => 61
  end.

Section Parser.
Context {TD : TokenDebug}.

Abbreviation tokens := (list Token).

Definition peek_kind (ts : tokens) : option TokenKind :=
  match ts with t :: _ => Some (kind t) | [] => None end.

Definition span_here (ts : tokens) : Span :=
  match ts with t :: _ => span t | [] => {| line := 1; column := 1 |} end.

Definition advance (ts : tokens) : tokens :=
  match ts with _ :: (_ :: _) as ts' => ts' | _ => ts end.

Definition check (k : TokenKind) (ts : tokens) : bool :=
  match ts with t :: _ => kind_tag (kind t) =? kind_tag k | [] => false end.

Definition match_token (k : TokenKind) (ts : tokens) : bool * tokens :=
  if check k ts then (true, advance ts) else (false, ts).

Definition fail_at {A} (ts : tokens) (msg : string) : result A :=
  Err (parse_error msg (line (span_here ts)) (column (span_here ts))).

Definition found (ts : tokens) : string :=
  match peek_kind ts with Some k => token_debug k | None => EmptyString end.

Definition expect (k : TokenKind) (msg : string) (ts : tokens) : result tokens :=
  if check k ts then Ok (advance ts)
  else fail_at ts (msg ++ " (found '" ++ found ts ++ "')").

Definition expect_identifier (msg : string) (ts : tokens) : result (string * tokens) :=
  match peek_kind ts with
  | Some (TIdentifier s) => Ok (s, advance ts)
  | _ => fail_at ts (msg ++ ", found '" ++ found ts ++ "'")
  end.

Definition parse_usize (msg : string) (ts : tokens) : result (Z * tokens) :=
  match peek_kind ts with
  | Some (TInt i) => if 0 <=? i then Ok (i, advance ts) else fail_at ts msg
  | _ => fail_at ts msg
  end.

(** The loop of [parse_field_path]; a dot and a name at every turn. *)
Fixpoint path_loop (fuel : nat) (path : string) (ts : tokens) : result (string * tokens) :=
  match fuel with
  | O => Panic
  | S fuel' =>
    let (dot, ts) := match_token TDot ts in
    if dot then
      let? (sub, ts) := expect_identifier "Expected nested field identifier after '.'" ts in
      path_loop fuel' (path ++ "." ++ sub)%string ts
    else Ok (path, ts)
  end.

Definition parse_field_path (ts : tokens) : result (string * tokens) :=
  let? (path, ts) := expect_identifier "Expected field name" ts in
  path_loop (S (List.length ts)) path ts.

(** ** Value literals *)

Definition object_key (ts : tokens) : result (string * tokens) :=
  match peek_kind ts with
  | Some (TStringLit s) | Some (TIdentifier s) => Ok (s, advance ts)
  | _ => fail_at ts ("Expected object key string or identifier, found '" ++ found ts ++ "'")
  end.

(** [parse_value_literal] with the loops over array elements and object entries. *)
Fixpoint parse_value (fuel : nat) (ts : tokens) {struct fuel} : result (Value * tokens) :=
  match fuel with
  | O => Panic
  | S fuel' =>
    match peek_kind ts with
    | Some TNull => Ok (VNull, advance ts)
    | Some TTrue => Ok (VBool true, advance ts)
    | Some TFalse => Ok (VBool false, advance ts)
    | Some (TInt i) => Ok (VInt i, advance ts)
    | Some (TFloat f) => Ok (VFloat f, advance ts)
    | Some (TStringLit s) => Ok (VString s, advance ts)
    | Some TLBracket =>
      let ts := advance ts in
      let? (l, ts) := if check TRBracket ts then Ok ([], ts) else array_items fuel' [] ts in
      let? ts := expect TRBracket "Expected ']' closing array" ts in
      Ok (VArray l, ts)
    | Some TLBrace =>
      let ts := advance ts in
      let? (m, ts) := if check TRBrace ts then Ok ([], ts) else object_items fuel' [] ts in
      let? ts := expect TRBrace "Expected '}' closing object" ts in
      Ok (VObject m, ts)
    | _ => fail_at ts ("Expected value literal, found '" ++ found ts ++ "'")
    end
  end
with array_items (fuel : nat) (list : list Value) (ts : tokens) {struct fuel} : result (List.list Value * tokens) :=
  match fuel with
  | O => Panic
  | S fuel' =>
    let? (v, ts) := parse_value fuel' ts in
    let list := (list ++ [v])%list in
    let (comma, ts) := match_token TComma ts in
    if comma then array_items fuel' list ts else Ok (list, ts)
  end
with object_items (fuel : nat) (map : list (string * Value)) (ts : tokens) {struct fuel}
    : result (List.list (string * Value) * tokens) :=
  match fuel with
  | O => Panic
  | S fuel' =>
    let? (key, ts) := object_key ts in
    let? ts := expect TColon "Expected ':' after object key" ts in
    let? (val, ts) := parse_value fuel' ts in
    let map := bt_insert str_cmp key val map in
    let (comma, ts) := match_token TComma ts in
    if comma then object_items fuel' map ts else Ok (map, ts)
  end.

Definition parse_value_literal (ts : tokens) : result (Value * tokens) :=
  parse_value (2 * List.length ts + 1) ts.

(** ** Expressions, one level of precedence after the other

    [expr] is [parse_expr] itself, which nested expressions call. *)

Section Levels.
Context (expr : tokens -> result (Expr * tokens)).

Definition parse_primary (ts : tokens) : result (Expr * tokens) :=
  match peek_kind ts with
  | Some TNull => Ok (ELiteral VNull, advance ts)
  | Some TTrue => Ok (ELiteral (VBool true), advance ts)
  | Some TFalse => Ok (ELiteral (VBool false), advance ts)
  | Some (TInt i) => Ok (ELiteral (VInt i), advance ts)
  | Some (TFloat f) => Ok (ELiteral (VFloat f), advance ts)
  | Some (TStringLit s) => Ok (ELiteral (VString s), advance ts)
  | Some (TIdentifier _) => let? (path, ts) := parse_field_path ts in Ok (EField path, ts)
  | Some TLParen =>
    let? (e, ts) := expr (advance ts) in
    let? ts := expect TRParen "Expected ')' closing expression" ts in
    Ok (e, ts)
  | Some TLBrace | Some TLBracket =>
    let? (v, ts) := parse_value_literal ts in Ok (ELiteral v, ts)
  | _ => fail_at ts ("Expected expression, found '" ++ found ts ++ "'")
  end.

Fixpoint unary_loop (fuel : nat) (ts : tokens) : result (Expr * tokens) :=
  match fuel with
  | O => Panic
  | S fuel' =>
    if check TNot ts || check TBang ts then
      let? (e, ts) := unary_loop fuel' (advance ts) in Ok (EUnary Not e, ts)
    else if check TMinus ts then
      let? (e, ts) := unary_loop fuel' (advance ts) in Ok (EUnary Negate e, ts)
    else parse_primary ts
  end.

Definition parse_unary (ts : tokens) : result (Expr * tokens) := unary_loop (List.length ts) ts.

(** The [while] loops of the four levels of left-associative operators: as long as
    the next token is an operator of the level, read it and an operand. *)
Fixpoint binary_loop (op_of : TokenKind -> option BinaryOp) (operand : tokens -> result (Expr * tokens))
    (fuel : nat) (left : Expr) (ts : tokens) : result (Expr * tokens) :=
  match fuel with
  | O => Panic
  | S fuel' =>
    match peek_kind ts ≫= op_of with
    | Some op =>
      let? (rhs, ts) := operand (advance ts) in
      binary_loop op_of operand fuel' (EBinary op left rhs) ts
    | None => Ok (left, ts)
    end
  end.

Definition binary_level (op_of : TokenKind -> option BinaryOp) (operand : tokens -> result (Expr * tokens))
    (ts : tokens) : result (Expr * tokens) :=
  let? (lhs, ts) := operand ts in binary_loop op_of operand (S (List.length ts)) lhs ts.

Definition mult_op (k : TokenKind) : option BinaryOp :=
  match k with TStar => Some Multiply | TSlash => Some Divide | TPercent => Some Modulo | _ => None end.
Definition add_op (k : TokenKind) : option BinaryOp :=
  match k with TPlus => Some Plus | TMinus => Some Minus | _ => None end.
Definition and_op (k : TokenKind) : option BinaryOp :=
  match k with TAnd | TAmpAmp => Some And | _ => None end.
Definition or_op (k : TokenKind) : option BinaryOp :=
  match k with TOr | TPipePipe => Some Or | _ => None end.

Definition parse_multiplicative : tokens -> result (Expr * tokens) := binary_level mult_op parse_unary.
Definition parse_additive : tokens -> result (Expr * tokens) := binary_level add_op parse_multiplicative.

(** The comparison operators do not associate: at most one is read. *)
Definition cmp_op (k : TokenKind) : option BinaryOp :=
  match k with
  | TEqEq | TEq => Some Eq_ | TBangEq => Some NotEq | TGt => Some Gt_ | TGtEq => Some GtEq
  | TLt => Some Lt_ | TLtEq => Some LtEq | _ => None
  end.

Fixpoint in_items (fuel : nat) (list : list Expr) (ts : tokens) : result (List.list Expr * tokens) :=
  match fuel with
  | O => Panic
  | S fuel' =>
    let? (e, ts) := expr ts in
    let list := (list ++ [e])%list in
    let (comma, ts) := match_token TComma ts in
    if comma then in_items fuel' list ts else Ok (list, ts)
  end.

Definition parse_comparison (ts : tokens) : result (Expr * tokens) :=
  let? (lhs, ts) := parse_additive ts in
  match peek_kind ts ≫= cmp_op with
  | Some op => let? (rhs, ts) := parse_additive (advance ts) in Ok (EBinary op lhs rhs, ts)
  | None =>
    if check TBetween ts then
      let? (mn, ts) := parse_additive (advance ts) in
      let? ts := expect TAnd "Expected AND in BETWEEN expression" ts in
      let? (mx, ts) := parse_additive ts in
      Ok (EBetween lhs mn mx, ts)
    else if check TIn ts then
      let? ts := expect TLParen "Expected '(' after IN" (advance ts) in
      let? (list, ts) := if check TRParen ts then Ok ([], ts) else in_items (List.length ts) [] ts in
      let? ts := expect TRParen "Expected ')' closing IN list" ts in
      Ok (EIn lhs list, ts)
    else Ok (lhs, ts)
  end.

Definition parse_and : tokens -> result (Expr * tokens) := binary_level and_op parse_comparison.
Definition parse_or : tokens -> result (Expr * tokens) := binary_level or_op parse_and.
End Levels.

Fixpoint expr_loop (fuel : nat) (ts : tokens) : result (Expr * tokens) :=
  match fuel with
  | O => Panic
  | S fuel' => parse_or (expr_loop fuel') ts
  end.

(** [parse_expr]; a nested expression starts at least one token later. *)
Definition parse_expr (ts : tokens) : result (Expr * tokens) := expr_loop (S (List.length ts)) ts.

(** ** Statements *)

(** [WHERE expr], where there is one. *)
Definition parse_where (ts : tokens) : result (option Expr * tokens) :=
  let (where_, ts) := match_token TWhere ts in
  if where_ then let? (e, ts) := parse_expr ts in Ok (Some e, ts) else Ok (None, ts).

Definition parse_find (ts : tokens) : result (Statement * tokens) :=
  let? (collection, ts) := expect_identifier "Expected collection name after FIND" (advance ts) in
  let? (filter, ts) := parse_where ts in
  let? (sort, ts) :=
    (let (sort_, ts) := match_token TSort ts in
     if sort_ then
       let? (field, ts) := parse_field_path ts in
       let (desc, ts) := match_token TDesc ts in
       if desc then Ok (Some {| sort_field := field; sort_direction := Desc |}, ts)
       else
         let (_, ts) := match_token TAsc ts in
         Ok (Some {| sort_field := field; sort_direction := Asc |}, ts)
     else Ok (None, ts)) in
  let? (limit, ts) :=
    (let (limit_, ts) := match_token TLimit ts in
     if limit_ then let? (n, ts) := parse_usize "Expected integer after LIMIT" ts in Ok (Some n, ts)
     else Ok (None, ts)) in
  let? (offset, ts) :=
    (let (offset_, ts) := match_token TOffset ts in
     if offset_ then let? (n, ts) := parse_usize "Expected integer after OFFSET" ts in Ok (Some n, ts)
     else Ok (None, ts)) in
  Ok (SFind collection filter sort limit offset, ts).

(** The document of an INSERT: [now] and [generated] are the clock and the fresh
    identifier of [Document::new]. *)
Definition document_of_object (now : Z) (generated : DocumentId) (map : list (string * Value)) : Document :=
  fold_left (fun doc p =>
    if String.eqb p.1 "_id" || String.eqb p.1 "id" then
      match as_str p.2 with
      | Ok id_str =>
        match DocId.new id_str with
        | Ok doc_id =>
          {| id := doc_id; version := version doc; created_at := created_at doc;
             updated_at := updated_at doc; fields := fields doc |}
        | _ => doc
        end
      | _ => doc
      end
    else (Doc.insert doc p.1 p.2).1) map (Doc.new now generated).

Definition parse_insert (now : Z) (generated : DocumentId) (ts : tokens) : result (Statement * tokens) :=
  let (_, ts) := match_token TInto (advance ts) in
  let? (collection, ts) := expect_identifier "Expected collection name after INSERT" ts in
  let? ts := expect TValues "Expected VALUES keyword" ts in
  let (has_paren, ts) := match_token TLParen ts in
  let? (value, ts) := parse_value_literal ts in
  let? ts := if has_paren then expect TRParen "Expected ')' closing VALUES" ts else Ok ts in
  match value with
  | VObject map => Ok (SInsert collection (document_of_object now generated map), ts)
  | other => fail_at ts ("INSERT document must be an object, found '" ++ type_name other ++ "'")
  end.

Fixpoint assignments_loop (fuel : nat) (assignments : list Assignment) (ts : tokens)
    : result (List.list Assignment * tokens) :=
  match fuel with
  | O => Panic
  | S fuel' =>
    let? (field, ts) := parse_field_path ts in
    if check TEq ts || check TEqEq ts then
      let? (e, ts) := parse_expr (advance ts) in
      let assignments := (assignments ++ [{| as_field := field; as_expr := e |}])%list in
      let (comma, ts) := match_token TComma ts in
      if comma then assignments_loop fuel' assignments ts else Ok (assignments, ts)
    else fail_at ts "Expected '=' in SET assignment"
  end.

Definition parse_update (ts : tokens) : result (Statement * tokens) :=
  let? (collection, ts) := expect_identifier "Expected collection name after UPDATE" (advance ts) in
  let? ts := expect TSet "Expected SET keyword in UPDATE" ts in
  let? (assignments, ts) := assignments_loop (List.length ts) [] ts in
  let? (filter, ts) := parse_where ts in
  Ok (SUpdate collection assignments filter, ts).

Definition parse_remove (ts : tokens) : result (Statement * tokens) :=
  let? (collection, ts) := expect_identifier "Expected collection name after REMOVE" (advance ts) in
  let? (filter, ts) := parse_where ts in Ok (SRemove collection filter, ts).

Definition parse_watch (ts : tokens) : result (Statement * tokens) :=
  let? (collection, ts) := expect_identifier "Expected collection name after WATCH" (advance ts) in
  let? (filter, ts) := parse_where ts in Ok (SWatch collection filter, ts).

Definition parse_count (ts : tokens) : result (Statement * tokens) :=
  let? (collection, ts) := expect_identifier "Expected collection name after COUNT" (advance ts) in
  let? (filter, ts) := parse_where ts in Ok (SCount collection filter, ts).

Definition parse_exists (ts : tokens) : result (Statement * tokens) :=
  let? (collection, ts) := expect_identifier "Expected collection name after EXISTS" (advance ts) in
  let? (filter, ts) := parse_where ts in Ok (SExists collection filter, ts).

(** [collection.path] or [collection field]. *)
Definition parse_index_target (ts : tokens) : result (string * string * tokens) :=
  let? (target, ts) := expect_identifier "Expected collection name or target for index" ts in
  let (dot, ts) := match_token TDot ts in
  let? (field, ts) := if dot then parse_field_path ts
                      else expect_identifier "Expected field name after collection" ts in
  Ok (target, field, ts).

Definition parse_create_index (ts : tokens) : result (Statement * tokens) :=
  let? ts := expect TIndex "Expected INDEX after CREATE" (advance ts) in
  let? (collection, field, ts) := parse_index_target ts in
  let (type_, ts) := match_token TType ts in
  if type_ then
    let (hash_, ts) := match_token THash ts in
    if hash_ then Ok (SCreateIndex collection field Hash, ts)
    else
      let (ordered_, ts) := match_token TOrdered ts in
      if ordered_ then Ok (SCreateIndex collection field Ordered, ts)
      else fail_at ts "Index TYPE must be 'hash' or 'ordered'"
  else Ok (SCreateIndex collection field Ordered, ts).

Definition parse_drop_index (ts : tokens) : result (Statement * tokens) :=
  let? ts := expect TIndex "Expected INDEX after DROP" (advance ts) in
  let? (collection, field, ts) := parse_index_target ts in
  Ok (SDropIndex collection field, ts).

(** [parse_statement]; tokens after the statement are not looked at. *)
Definition parse_statement (now : Z) (generated : DocumentId) (ts : tokens) : result (Statement * tokens) :=
  match peek_kind ts with
  | None => Panic
  | Some TFind => parse_find ts
  | Some TInsert => parse_insert now generated ts
  | Some TUpdate => parse_update ts
  | Some TRemove => parse_remove ts
  | Some TWatch => parse_watch ts
  | Some TCount => parse_count ts
  | Some TExists => parse_exists ts
  | Some TCreate => parse_create_index ts
  | Some TDrop => parse_drop_index ts
  | Some TBegin => Ok (SBegin, advance ts)
  | Some TCommit => Ok (SCommit, advance ts)
  | Some TRollback => Ok (SRollback, advance ts)
  | Some other =>
    fail_at ts ("Expected NQL command (FIND, INSERT, UPDATE, REMOVE, WATCH, etc.), found '" ++ token_debug other ++ "'")
  end.

(** [parse_nql]. *)
Definition parse_nql {UT : UnicodeTables} (now : Z) (generated : DocumentId) (query : string) : result Statement :=
  let? ts := tokenize (lexer_new query) in
  mapO fst (parse_statement now generated ts).
End Parser.
