(* ===== verification/ParserLaws.v ===== *)
(** The parser consumes tokens and comes to an end: on a token list that ends with
    the end-of-file token no loop runs out of fuel and no lookup is out of range. *)

From S2P Require Export Parser.

(** Integer tokens hold 64-bit integers. *)
Definition token_ok (t : Token) : Prop := match kind t with TInt i => in_i64 i = true | _ => True end.

(** The list ends with the end-of-file token. *)
Definition ends (ts : list Token) : Prop :=
  (exists t, last ts = Some t /\ kind t = TEof) /\ Forall token_ok ts.

(** A result that read at least one token and left a list that still ends well. *)
Definition fits {A} (n : nat) (r : result (A * list Token)) : Prop :=
  match r with
  | Ok (_, ts') => ends ts' /\ (List.length ts' < n)%nat
  | Err _ => True
  | Panic => False
  end.

(** As [fits], for a step that may read nothing. *)
Definition keeps {A} (n : nat) (r : result (A * list Token)) : Prop := fits (S n) r.

Definition good {A} (L : nat) (p : list Token -> result (A * list Token)) : Prop :=
  forall ts, ends ts -> (List.length ts <= L)%nat -> fits (List.length ts) (p ts).

Lemma ends_tail t t' ts : ends (t :: t' :: ts) -> ends (t' :: ts).
Proof. intros [(x & H & E) HF]. inversion HF; subst. split; [|assumption]. exists x. now split. Qed.

Lemma ends_one t : ends [t] -> kind t = TEof.
Proof. intros [(x & [= <-] & E) _]. exact E. Qed.

Lemma ends_nil : ~ ends [].
Proof. intros [(x & [=] & _) _]. Qed.

Lemma advance_spec ts k :
  ends ts -> peek_kind ts = Some k -> k <> TEof ->
  ends (advance ts) /\ (S (List.length (advance ts)) = List.length ts)%nat.
Proof.
  intros E H N. destruct ts as [|t [|t' ts]]; cbn in *; [discriminate| |].
  - injection H as <-. now apply ends_one in E.
  - split; [eapply ends_tail, E|reflexivity].
Qed.

Lemma check_peek k ts : check k ts = true -> exists k', peek_kind ts = Some k' /\ kind_tag k' = kind_tag k.
Proof. destruct ts as [|t ts]; cbn; [discriminate|]. intros H. apply Z.eqb_eq in H. eauto. Qed.

Lemma kind_tag_eof k : kind_tag k = 61 -> k = TEof.
Proof. destruct k; cbn; intros H; try discriminate H; reflexivity. Qed.

Lemma check_advance k ts :
  ends ts -> check k ts = true -> kind_tag k <> 61 ->
  ends (advance ts) /\ (S (List.length (advance ts)) = List.length ts)%nat.
Proof.
  intros E H N. destruct (check_peek k ts H) as (k' & P & T). apply (advance_spec ts k' E P).
  intros ->. apply N. now rewrite <- T.
Qed.

Lemma match_token_spec k ts b ts' :
  ends ts -> kind_tag k <> 61 -> match_token k ts = (b, ts') ->
  ends ts' /\ (List.length ts' <= List.length ts)%nat /\ (b = true -> (List.length ts' < List.length ts)%nat).
Proof.
  unfold match_token. intros E N H. destruct (check k ts) eqn:Ec; injection H as <- <-.
  - destruct (check_advance k ts E Ec N) as [E' L]. split; [exact E'|]. split; intros; lia.
  - split; [exact E|]. split; [lia|discriminate].
Qed.

Section ParserLaws.
Context {TD : TokenDebug}.

Lemma fits_fail {A} n ts msg : fits (A := A) n (fail_at ts msg).
Proof. exact I. Qed.

Lemma fits_weaken {A} n m (r : result (A * list Token)) : fits n r -> (n <= m)%nat -> fits m r.
Proof. destruct r as [[x ts]| |]; cbn; [|auto..]. intros [E L] H. split; [exact E|lia]. Qed.

Lemma fits_bind {A C} n m (r : result (A * list Token)) (k : A * list Token -> result (C * list Token)) :
  fits n r -> (forall x ts, ends ts -> (List.length ts < n)%nat -> fits m (k (x, ts))) -> fits m (bindO r k).
Proof. destruct r as [[x ts]| |]; cbn [bindO fits]; [|auto..]. intros [E L] H. now apply H. Qed.

(** The same for a step that gives only the tokens. *)
Definition fits_ts (n : nat) (r : result (list Token)) : Prop :=
  match r with Ok ts' => ends ts' /\ (List.length ts' < n)%nat | Err _ => True | Panic => False end.

Lemma fits_bind_ts {C} n m (r : result (list Token)) (k : list Token -> result (C * list Token)) :
  fits_ts n r -> (forall ts, ends ts -> (List.length ts < n)%nat -> fits m (k ts)) -> fits m (bindO r k).
Proof. destruct r as [ts| |]; cbn [bindO fits_ts]; [|auto..]. intros [E L] H. now apply H. Qed.

Lemma expect_fits k msg ts :
  ends ts -> kind_tag k <> 61 -> fits_ts (List.length ts) (expect k msg ts).
Proof.
  unfold expect. intros E N. destruct (check k ts) eqn:Ec; [|exact I].
  destruct (check_advance k ts E Ec N) as [E' L]. split; [exact E'|lia].
Qed.

Lemma advance_fits {A} ts k (x : A) :
  ends ts -> peek_kind ts = Some k -> k <> TEof -> fits (List.length ts) (Ok (x, advance ts)).
Proof. intros E P N. destruct (advance_spec ts k E P N) as [E' L]. split; [exact E'|lia]. Qed.

Lemma identifier_fits msg ts : ends ts -> fits (List.length ts) (expect_identifier msg ts).
Proof.
  unfold expect_identifier. intros E. destruct (peek_kind ts) as [[]|] eqn:P; try exact I.
  now apply (advance_fits ts _ s E P).
Qed.

Lemma usize_fits msg ts : ends ts -> fits (List.length ts) (parse_usize msg ts).
Proof.
  unfold parse_usize. intros E. destruct (peek_kind ts) as [[]|] eqn:P; try exact I.
  destruct (0 <=? i); [|exact I]. now apply (advance_fits ts _ i E P).
Qed.

Lemma path_loop_keeps fuel path ts :
  ends ts -> (List.length ts < fuel)%nat -> keeps (List.length ts) (path_loop fuel path ts).
Proof.
  unfold keeps. revert path ts. induction fuel as [|fuel IH]; intros path ts E L; [lia|]. cbn [path_loop].
  destruct (match_token TDot ts) as [dot ts1] eqn:M. apply match_token_spec in M as (E1 & L1 & S1); [|assumption|discriminate].
  destruct dot; [|split; [exact E1|lia]]. specialize (S1 eq_refl).
  eapply fits_bind; [now apply identifier_fits|]. intros sub ts2 E2 L2.
  eapply fits_weaken; [apply IH; [exact E2|lia]|lia].
Qed.

Lemma field_path_fits ts : ends ts -> fits (List.length ts) (parse_field_path ts).
Proof.
  intros E. unfold parse_field_path. eapply fits_bind; [now apply identifier_fits|].
  intros path ts1 E1 L1. eapply fits_weaken; [apply path_loop_keeps; [exact E1|lia]|lia].
Qed.

(** ** Value literals *)

Lemma object_key_fits ts : ends ts -> fits (List.length ts) (object_key ts).
Proof.
  unfold object_key. intros E. destruct (peek_kind ts) as [[]|] eqn:P; try exact I;
    now apply (advance_fits ts _ s E P).
Qed.

Lemma value_fits fuel :
  (forall ts, ends ts -> (2 * List.length ts + 1 <= fuel)%nat -> fits (List.length ts) (parse_value fuel ts))
  /\ (forall l ts, ends ts -> (2 * List.length ts + 2 <= fuel)%nat -> fits (List.length ts) (array_items fuel l ts))
  /\ (forall m ts, ends ts -> (2 * List.length ts + 2 <= fuel)%nat -> fits (List.length ts) (object_items fuel m ts)).
Proof.
  induction fuel as [|fuel (IHv & IHa & IHo)]; [split; [|split]; intros; lia|]. split; [|split].
  - intros ts E L. cbn [parse_value]. destruct (peek_kind ts) as [k|] eqn:P; [|exact I].
    assert (A : k <> TEof -> ends (advance ts) /\ (S (List.length (advance ts)) = List.length ts)%nat)
      by now apply advance_spec.
    destruct k; try exact I; destruct (A ltac:(discriminate)) as [E1 L1]; try (split; [exact E1|lia]).
    + eapply (fits_bind (S (List.length (advance ts)))).
      * destruct (check TRBrace (advance ts)); [split; [exact E1|lia]|].
        eapply fits_weaken; [apply IHo; [exact E1|lia]|lia].
      * intros m ts2 E2 L2. eapply fits_bind_ts; [now apply expect_fits|]. intros ts3 E3 L3. split; [exact E3|lia].
    + eapply (fits_bind (S (List.length (advance ts)))).
      * destruct (check TRBracket (advance ts)); [split; [exact E1|lia]|].
        eapply fits_weaken; [apply IHa; [exact E1|lia]|lia].
      * intros m ts2 E2 L2. eapply fits_bind_ts; [now apply expect_fits|]. intros ts3 E3 L3. split; [exact E3|lia].
  - intros l ts E L. cbn [array_items]. eapply fits_bind; [apply IHv; [exact E|lia]|]. intros v ts1 E1 L1. cbv beta iota zeta.
    destruct (match_token TComma ts1) as [comma ts2] eqn:M. apply match_token_spec in M as (E2 & L2 & S2); [|assumption|discriminate].
    destruct comma; [|split; [exact E2|lia]]. eapply fits_weaken; [apply IHa; [exact E2|specialize (S2 eq_refl); lia]|lia].
  - intros m ts E L. cbn [object_items]. eapply fits_bind; [now apply object_key_fits|]. intros key ts1 E1 L1.
    eapply fits_bind_ts; [now apply expect_fits|]. intros ts2 E2 L2.
    eapply fits_bind; [apply IHv; [exact E2|lia]|]. intros v ts3 E3 L3. cbv beta iota zeta.
    destruct (match_token TComma ts3) as [comma ts4] eqn:M. apply match_token_spec in M as (E4 & L4 & S4); [|assumption|discriminate].
    destruct comma; [|split; [exact E4|lia]]. eapply fits_weaken; [apply IHo; [exact E4|specialize (S4 eq_refl); lia]|lia].
Qed.

Lemma value_literal_fits ts : ends ts -> fits (List.length ts) (parse_value_literal ts).
Proof. intros E. apply value_fits; [exact E|lia]. Qed.

(** ** Expressions *)

Section Levels.
Context (expr : list Token -> result (Expr * list Token)) (L : nat).
Context (Hexpr : forall ts, ends ts -> (List.length ts < L)%nat -> fits (List.length ts) (expr ts)).

Lemma primary_good : good L (parse_primary expr).
Proof.
  intros ts E Hl. unfold parse_primary. destruct (peek_kind ts) as [k|] eqn:P; [|exact I].
  assert (A : k <> TEof -> ends (advance ts) /\ (S (List.length (advance ts)) = List.length ts)%nat)
    by now apply advance_spec.
  destruct k; try exact I; destruct (A ltac:(discriminate)) as [E1 L1]; try (split; [exact E1|lia]).
  - eapply fits_bind; [now apply field_path_fits|]. intros path ts2 E2 L2. now split.
  - eapply fits_bind; [apply Hexpr; [exact E1|lia]|]. intros e ts2 E2 L2.
    eapply fits_bind_ts; [now apply expect_fits|]. intros ts3 E3 L3. split; [exact E3|lia].
  - eapply fits_bind; [now apply value_literal_fits|]. intros v ts2 E2 L2. now split.
  - eapply fits_bind; [now apply value_literal_fits|]. intros v ts2 E2 L2. now split.
Qed.

Lemma unary_loop_fits fuel ts :
  ends ts -> (List.length ts <= L)%nat -> (List.length ts <= fuel)%nat -> fits (List.length ts) (unary_loop expr fuel ts).
Proof.
  revert ts. induction fuel as [|fuel IH]; intros ts E Hl Hf.
  { destruct ts; [|cbn in Hf; lia]. destruct (ends_nil E). }
  cbn [unary_loop]. destruct (check TNot ts || check TBang ts) eqn:C1; [|destruct (check TMinus ts) eqn:C2; [|now apply primary_good]].
  - assert (ends (advance ts) /\ (S (List.length (advance ts)) = List.length ts)%nat) as [E1 L1].
    { apply orb_true_iff in C1 as [C|C]; now apply (check_advance _ ts E C). }
    eapply fits_bind; [apply IH; [exact E1|lia..]|]. intros e ts2 E2 L2. split; [exact E2|lia].
  - destruct (check_advance _ ts E C2 ltac:(discriminate)) as [E1 L1].
    eapply fits_bind; [apply IH; [exact E1|lia..]|]. intros e ts2 E2 L2. split; [exact E2|lia].
Qed.

Lemma unary_good : good L (parse_unary expr).
Proof. intros ts E Hl. now apply unary_loop_fits. Qed.

(** An operator is a token to read. *)
Definition not_eof (op_of : TokenKind -> option BinaryOp) : Prop := op_of TEof = None.

Lemma operator_advance op_of ts op :
  not_eof op_of -> ends ts -> peek_kind ts ≫= op_of = Some op ->
  ends (advance ts) /\ (S (List.length (advance ts)) = List.length ts)%nat.
Proof.
  intros N E H. destruct (peek_kind ts) as [k|] eqn:P; [|discriminate]. apply (advance_spec ts k E P).
  intros ->. cbn in H. unfold not_eof in N. congruence.
Qed.

Lemma binary_loop_keeps op_of operand fuel lhs ts :
  not_eof op_of -> good L operand ->
  ends ts -> (List.length ts <= L)%nat -> (List.length ts < fuel)%nat ->
  keeps (List.length ts) (binary_loop op_of operand fuel lhs ts).
Proof.
  unfold keeps. intros N G. revert lhs ts. induction fuel as [|fuel IH]; intros lhs ts E Hl Hf; [lia|]. cbn [binary_loop].
  destruct (peek_kind ts ≫= op_of) as [op|] eqn:P; [|split; [exact E|lia]].
  destruct (operator_advance op_of ts op N E P) as [E1 L1].
  eapply fits_bind; [apply G; [exact E1|lia]|]. intros rhs ts2 E2 L2.
  eapply fits_weaken; [apply IH; [exact E2|lia..]|lia].
Qed.

Lemma binary_level_good op_of operand :
  not_eof op_of -> good L operand -> good L (binary_level op_of operand).
Proof.
  intros N G ts E Hl. unfold binary_level. eapply fits_bind; [now apply G|]. intros lhs ts1 E1 L1.
  eapply fits_weaken; [apply binary_loop_keeps; [exact N|exact G|exact E1|lia..]|lia].
Qed.

Lemma additive_good : good L (parse_additive expr).
Proof. apply binary_level_good; [reflexivity|]. apply binary_level_good; [reflexivity|apply unary_good]. Qed.

Lemma in_items_fits fuel l ts :
  ends ts -> (List.length ts < L)%nat -> (List.length ts <= fuel)%nat ->
  fits (List.length ts) (in_items expr fuel l ts).
Proof.
  revert l ts. induction fuel as [|fuel IH]; intros l ts E Hl Hf.
  { destruct ts; [|cbn in Hf; lia]. destruct (ends_nil E). }
  cbn [in_items]. eapply fits_bind; [apply Hexpr; [exact E|lia]|]. intros e ts1 E1 L1. cbv beta iota zeta.
  destruct (match_token TComma ts1) as [comma ts2] eqn:M. apply match_token_spec in M as (E2 & L2 & S2); [|assumption|discriminate].
  destruct comma; [|split; [exact E2|lia]]. specialize (S2 eq_refl).
  eapply fits_weaken; [apply IH; [exact E2|lia..]|lia].
Qed.

Lemma comparison_good : good L (parse_comparison expr).
Proof.
  intros ts E Hl. unfold parse_comparison. eapply fits_bind; [now apply additive_good|]. intros lhs ts1 E1 L1. cbv beta iota.
  destruct (peek_kind ts1 ≫= cmp_op) as [op|] eqn:P.
  { destruct (operator_advance cmp_op ts1 op eq_refl E1 P) as [E2 L2].
    eapply fits_bind; [apply additive_good; [exact E2|lia]|]. intros rhs ts3 E3 L3. split; [exact E3|lia]. }
  destruct (check TBetween ts1) eqn:C1; [|destruct (check TIn ts1) eqn:C2; [|split; [exact E1|lia]]].
  - destruct (check_advance _ ts1 E1 C1 ltac:(discriminate)) as [E2 L2].
    eapply fits_bind; [apply additive_good; [exact E2|lia]|]. intros mn ts3 E3 L3.
    eapply fits_bind_ts; [now apply expect_fits|]. intros ts4 E4 L4.
    eapply fits_bind; [apply additive_good; [exact E4|lia]|]. intros mx ts5 E5 L5. split; [exact E5|lia].
  - destruct (check_advance _ ts1 E1 C2 ltac:(discriminate)) as [E2 L2].
    eapply fits_bind_ts; [now apply expect_fits|]. intros ts3 E3 L3.
    eapply (fits_bind (S (List.length ts3))).
    + destruct (check TRParen ts3); [split; [exact E3|lia]|].
      eapply fits_weaken; [apply in_items_fits; [exact E3|lia..]|lia].
    + intros l ts4 E4 L4. eapply fits_bind_ts; [now apply expect_fits|]. intros ts5 E5 L5. split; [exact E5|lia].
Qed.

Lemma or_good : good L (parse_or expr).
Proof. apply binary_level_good; [reflexivity|]. apply binary_level_good; [reflexivity|apply comparison_good]. Qed.
End Levels.

Lemma expr_loop_fits fuel ts :
  ends ts -> (List.length ts < fuel)%nat -> fits (List.length ts) (expr_loop fuel ts).
Proof.
  revert ts. induction fuel as [|fuel IH]; intros ts E L; [lia|]. cbn [expr_loop].
  apply (or_good (expr_loop fuel) fuel); [|exact E|lia]. intros ts' E' L'. now apply IH.
Qed.

Lemma expr_fits ts : ends ts -> fits (List.length ts) (parse_expr ts).
Proof. intros E. apply expr_loop_fits; [exact E|lia]. Qed.

(** ** Statements *)

Lemma where_keeps ts : ends ts -> keeps (List.length ts) (parse_where ts).
Proof.
  intros E. unfold keeps, parse_where. destruct (match_token TWhere ts) as [w ts1] eqn:M.
  apply match_token_spec in M as (E1 & L1 & S1); [|assumption|discriminate].
  destruct w; [|split; [exact E1|lia]]. eapply fits_bind; [now apply expr_fits|].
  intros e ts2 E2 L2. split; [exact E2|lia].
Qed.

(** A statement that is a collection name and a filter. *)
Lemma filtered_fits msg (mk : string -> option Expr -> Statement) k ts :
  ends ts -> peek_kind ts = Some k -> k <> TEof ->
  fits (List.length ts)
    (let? (collection, ts) := expect_identifier msg (advance ts) in
     let? (filter, ts) := parse_where ts in Ok (mk collection filter, ts)).
Proof.
  intros E P N. destruct (advance_spec ts k E P N) as [E0 L0].
  eapply fits_bind; [now apply identifier_fits|]. intros c ts1 E1 L1.
  eapply fits_bind; [now apply where_keeps|]. intros f ts2 E2 L2. split; [exact E2|lia].
Qed.

Lemma index_target_fits ts : ends ts -> fits (List.length ts) (parse_index_target ts).
Proof.
  intros E. unfold parse_index_target. eapply fits_bind; [now apply identifier_fits|]. intros c ts1 E1 L1. cbv beta iota.
  destruct (match_token TDot ts1) as [dot ts2] eqn:M. apply match_token_spec in M as (E2 & L2 & S2); [|assumption|discriminate].
  eapply (fits_bind (List.length ts2)).
  - destruct dot; [now apply field_path_fits|now apply identifier_fits].
  - intros f ts3 E3 L3. split; [exact E3|lia].
Qed.

Lemma assignments_fits fuel l ts :
  ends ts -> (List.length ts <= fuel)%nat -> fits (List.length ts) (assignments_loop fuel l ts).
Proof.
  revert l ts. induction fuel as [|fuel IH]; intros l ts E Hf.
  { destruct ts; [|cbn in Hf; lia]. destruct (ends_nil E). }
  cbn [assignments_loop]. eapply fits_bind; [now apply field_path_fits|]. intros f ts1 E1 L1. cbv beta iota.
  destruct (check TEq ts1 || check TEqEq ts1) eqn:C; [|exact I].
  assert (ends (advance ts1) /\ (S (List.length (advance ts1)) = List.length ts1)%nat) as [E2 L2].
  { apply orb_true_iff in C as [C|C]; now apply (check_advance _ ts1 E1 C). }
  eapply fits_bind; [now apply expr_fits|]. intros e ts3 E3 L3. cbv beta iota zeta.
  destruct (match_token TComma ts3) as [comma ts4] eqn:M. apply match_token_spec in M as (E4 & L4 & S4); [|assumption|discriminate].
  destruct comma; [|split; [exact E4|lia]]. eapply fits_weaken; [apply IH; [exact E4|lia]|lia].
Qed.

Lemma usize_range msg ts n ts' :
  ends ts -> parse_usize msg ts = Ok (n, ts') -> 0 <= n <= i64_max.
Proof.
  intros [_ HF] H. unfold parse_usize in H. destruct ts as [|t ts]; [discriminate|]. cbn [peek_kind] in H.
  inversion HF as [|? ? Ht _]; subst. unfold token_ok in Ht. destruct (kind t); try discriminate.
  destruct (0 <=? i) eqn:E; [|discriminate]. injection H as <- _. unfold in_i64 in Ht. bool_facts. lia.
Qed.

(** The optional clauses of FIND. *)
Lemma clause_keeps {A} k (p : list Token -> result (A * list Token)) ts :
  ends ts -> kind_tag k <> 61 -> (forall ts', ends ts' -> fits (List.length ts') (p ts')) ->
  keeps (List.length ts)
    (let (b, ts) := match_token k ts in if b then let? (n, ts) := p ts in Ok (Some n, ts) else Ok (None, ts)).
Proof.
  intros E N G. unfold keeps. destruct (match_token k ts) as [b ts1] eqn:M.
  apply match_token_spec in M as (E1 & L1 & S1); [|assumption|assumption].
  destruct b; [|split; [exact E1|lia]]. eapply fits_bind; [now apply G|]. intros x ts2 E2 L2. split; [exact E2|lia].
Qed.

Lemma find_fits ts k : ends ts -> peek_kind ts = Some k -> k <> TEof -> fits (List.length ts) (parse_find ts).
Proof.
  intros E P N. destruct (advance_spec ts k E P N) as [E0 L0]. unfold parse_find.
  eapply fits_bind; [now apply identifier_fits|]. intros c ts1 E1 L1.
  eapply fits_bind; [now apply where_keeps|]. intros f ts2 E2 L2. cbv beta iota.
  eapply (fits_bind (S (List.length ts2))).
  { destruct (match_token TSort ts2) as [b ts3] eqn:M. apply match_token_spec in M as (E3 & L3 & S3); [|assumption|discriminate].
    destruct b; [|split; [exact E3|lia]]. eapply fits_bind; [now apply field_path_fits|]. intros fld ts4 E4 L4. cbv beta iota.
    destruct (match_token TDesc ts4) as [d ts5] eqn:M5. apply match_token_spec in M5 as (E5 & L5 & _); [|assumption|discriminate].
    destruct d; [split; [exact E5|lia]|].
    destruct (match_token TAsc ts5) as [a ts6] eqn:M6. apply match_token_spec in M6 as (E6 & L6 & _); [|assumption|discriminate].
    split; [exact E6|lia]. }
  intros s ts3 E3 L3.
  eapply fits_bind; [apply (clause_keeps TLimit); [exact E3|discriminate|intros; now apply usize_fits]|]. intros l ts4 E4 L4.
  eapply fits_bind; [apply (clause_keeps TOffset); [exact E4|discriminate|intros; now apply usize_fits]|]. intros o ts5 E5 L5.
  split; [exact E5|lia].
Qed.

Lemma insert_fits_parse now gen ts k :
  ends ts -> peek_kind ts = Some k -> k <> TEof -> fits (List.length ts) (parse_insert now gen ts).
Proof.
  intros E P N. destruct (advance_spec ts k E P N) as [E0 L0]. unfold parse_insert.
  destruct (match_token TInto (advance ts)) as [b ts1] eqn:M. apply match_token_spec in M as (E1 & L1 & _); [|assumption|discriminate].
  eapply fits_bind; [now apply identifier_fits|]. intros c ts2 E2 L2.
  eapply fits_bind_ts; [now apply expect_fits|]. intros ts3 E3 L3.
  destruct (match_token TLParen ts3) as [paren ts4] eqn:M4. apply match_token_spec in M4 as (E4 & L4 & _); [|assumption|discriminate].
  eapply fits_bind; [now apply value_literal_fits|]. intros v ts5 E5 L5. cbv beta iota.
  eapply (fits_bind_ts (S (List.length ts5))).
  { destruct paren; [|split; [exact E5|lia]]. pose proof (expect_fits TRParen "Expected ')' closing VALUES" ts5 E5 ltac:(discriminate)) as F.
    destruct (expect _ _ _) as [ts6| |]; cbn in *; [|exact I|exact F]. destruct F. split; [assumption|lia]. }
  intros ts6 E6 L6. destruct v; try exact I. split; [exact E6|lia].
Qed.

Lemma update_fits ts k : ends ts -> peek_kind ts = Some k -> k <> TEof -> fits (List.length ts) (parse_update ts).
Proof.
  intros E P N. destruct (advance_spec ts k E P N) as [E0 L0]. unfold parse_update.
  eapply fits_bind; [now apply identifier_fits|]. intros c ts1 E1 L1.
  eapply fits_bind_ts; [now apply expect_fits|]. intros ts2 E2 L2.
  eapply fits_bind; [now apply assignments_fits|]. intros a ts3 E3 L3.
  eapply fits_bind; [now apply where_keeps|]. intros f ts4 E4 L4. split; [exact E4|lia].
Qed.

Lemma create_index_fits ts k : ends ts -> peek_kind ts = Some k -> k <> TEof -> fits (List.length ts) (parse_create_index ts).
Proof.
  intros E P N. destruct (advance_spec ts k E P N) as [E0 L0]. unfold parse_create_index.
  eapply fits_bind_ts; [now apply expect_fits|]. intros ts1 E1 L1.
  eapply fits_bind; [now apply index_target_fits|]. intros [c f] ts2 E2 L2. cbv beta iota.
  destruct (match_token TType ts2) as [b ts3] eqn:M. apply match_token_spec in M as (E3 & L3 & _); [|assumption|discriminate].
  destruct b; [|split; [exact E3|lia]].
  destruct (match_token THash ts3) as [h ts4] eqn:M4. apply match_token_spec in M4 as (E4 & L4 & _); [|assumption|discriminate].
  destruct h; [split; [exact E4|lia]|].
  destruct (match_token TOrdered ts4) as [o ts5] eqn:M5. apply match_token_spec in M5 as (E5 & L5 & _); [|assumption|discriminate].
  destruct o; [split; [exact E5|lia]|exact I].
Qed.

Lemma drop_index_fits ts k : ends ts -> peek_kind ts = Some k -> k <> TEof -> fits (List.length ts) (parse_drop_index ts).
Proof.
  intros E P N. destruct (advance_spec ts k E P N) as [E0 L0]. unfold parse_drop_index.
  eapply fits_bind_ts; [now apply expect_fits|]. intros ts1 E1 L1.
  eapply fits_bind; [now apply index_target_fits|]. intros [c f] ts2 E2 L2. split; [exact E2|lia].
Qed.

Lemma statement_fits now gen ts : ends ts -> fits (List.length ts) (parse_statement now gen ts).
Proof.
  intros E. unfold parse_statement. destruct (peek_kind ts) as [k|] eqn:P.
  2: { destruct ts; [destruct (ends_nil E)|discriminate]. }
  destruct k; try exact I; eauto using (advance_fits ts), find_fits, insert_fits_parse, update_fits, create_index_fits, drop_index_fits.
  all: try (eapply advance_fits; [exact E|exact P|discriminate]).
  all: first [eapply find_fits|eapply insert_fits_parse|eapply update_fits|eapply create_index_fits|eapply drop_index_fits
             |eapply (filtered_fits _ SRemove)|eapply (filtered_fits _ SWatch)|eapply (filtered_fits _ SCount)|eapply (filtered_fits _ SExists)];
    [exact E|exact P|discriminate].
Qed.
End ParserLaws.

(** ** From the text *)

Section NqlLaws.
Context {TD : TokenDebug} {UT : UnicodeTables}.

Lemma number_token_ok sp ch rest k r : number_token sp ch rest = Ok (k, r) -> token_ok {| kind := k; span := sp |}.
Proof.
  unfold number_token, token_ok. destruct (lex_number _ _) as [[cs dot] r0]. destruct dot; [now intros [= <- _]|].
  unfold parse_i64. destruct (in_i64 _) eqn:E; [|discriminate]. intros [= <- _]. exact E.
Qed.

Lemma lex_step_ok sp ch rest k r : lex_step sp ch rest = Ok (Some k, r) -> token_ok {| kind := k; span := sp |}.
Proof.
  unfold lex_step. intros H. destruct (is_whitespace ch); [discriminate H|].
  destruct ((ch =? chr "-") && next_is (Z.eqb (chr "-")) _ || _); [discriminate H|].
  destruct (is_quote ch).
  { destruct (lex_string _ _ _) as [[s r0]|]; [|discriminate]. now injection H as <- _. }
  destruct (is_ascii_digit ch || _).
  { inv_ok H. destruct r0 as [k0 r0]. injection H as <- _. eapply number_token_ok, Hr. }
  destruct (is_alphabetic ch || _).
  { destruct (lex_ident _) as [i r0]. injection H as <- _. unfold token_ok, ident_token. cbn [kind].
    destruct (List.find _ keywords) as [[w k]|] eqn:F; [|exact I].
    apply List.find_some in F as [Hin _].
    assert (HF : Forall (fun p => match p.2 with TInt _ => False | _ => True end) keywords) by (repeat constructor).
    rewrite List.Forall_forall in HF. specialize (HF _ Hin). cbn in HF. now destruct k. }
  inv_ok H. destruct r0 as [k0 r0]. injection H as <- _. unfold symbol_token in Hr.
  repeat (case_match; try discriminate Hr); now injection Hr as <- _.
Qed.

Lemma lex_loop_ends fuel all rest ts : lex_loop fuel all rest = Ok ts -> ends ts.
Proof.
  revert rest ts. induction fuel as [|fuel IH]; intros rest ts H; destruct rest as [|[[l c] ch] rest]; cbn [lex_loop] in H;
    try discriminate;
    try (injection H as <-; split; [exists {| kind := TEof; span := current_span all [] |}; now split|repeat constructor]).
  inv_ok H. destruct r as [k r]. inv_ok H. injection H as <-. specialize (IH _ _ Hr0).
  destruct k as [k|]; [|exact IH]. destruct IH as [(t & Hl & Ht) HF]. split.
  - exists t. split; [|exact Ht]. destruct r0; [discriminate Hl|exact Hl].
  - constructor; [|exact HF]. eapply lex_step_ok, Hr.
Qed.

Lemma tokenize_ends all ts : tokenize all = Ok ts -> ends ts.
Proof. apply lex_loop_ends. Qed.

Lemma parse_find_page ts c f s l o ts' :
  ends ts -> parse_find ts = Ok (SFind c f s l o, ts') -> peek_kind ts = Some TFind -> nql_usize l /\ nql_usize o.
Proof.
  intros E H P. destruct (advance_spec ts TFind E P ltac:(discriminate)) as [E0 _]. unfold parse_find in H.
  pose proof (identifier_fits "Expected collection name after FIND" _ E0) as F1.
  inv_ok H. destruct r as [c0 ts1]. rewrite Hr in F1. destruct F1 as [E1 _].
  pose proof (where_keeps _ E1) as F2. inv_ok H. destruct r as [f0 ts2]. rewrite Hr0 in F2. destruct F2 as [E2 _].
  inv_ok H. destruct r as [s0 ts3].
  assert (E3 : ends ts3).
  { destruct (match_token TSort ts2) as [b t1] eqn:M. apply match_token_spec in M as (F1 & _ & _); [|assumption|discriminate].
    destruct b; [|now injection Hr1 as _ <-]. pose proof (field_path_fits _ F1) as G. inv_ok Hr1. destruct r as [fld t2].
    rewrite Hr2 in G. destruct G as [G _].
    destruct (match_token TDesc t2) as [d t3] eqn:M3. apply match_token_spec in M3 as (G3 & _ & _); [|assumption|discriminate].
    destruct d; [now injection Hr1 as _ <-|].
    destruct (match_token TAsc t3) as [a t4] eqn:M4. apply match_token_spec in M4 as (G4 & _ & _); [|assumption|discriminate].
    now injection Hr1 as _ <-. }
  assert (Clause : forall k msg t n t', ends t -> kind_tag k <> 61 ->
    (let (b, t) := match_token k t in if b then let? (n, t) := parse_usize msg t in Ok (Some n, t) else Ok (None, t)) = Ok (n, t') ->
    nql_usize n /\ ends t').
  { intros k msg t n t' Et Nt Ht. destruct (match_token k t) as [b t1] eqn:M. apply match_token_spec in M as (F1 & _ & _); [|assumption..].
    destruct b; [|injection Ht as <- <-; now split]. pose proof (usize_fits msg _ F1) as G. inv_ok Ht. destruct r as [m t2].
    rewrite Hr2 in G. injection Ht as <- <-. split; [eapply usize_range; eassumption|apply G]. }
  inv_ok H. destruct r as [l0 ts4]. apply Clause in Hr2 as [Hl E4]; [|exact E3|discriminate].
  inv_ok H. destruct r as [o0 ts5]. apply Clause in Hr2 as [Ho _]; [|exact E4|discriminate].
  injection H as _ _ _ <- <- _. now split.
Qed.
End NqlLaws.
