(* ===== verification/Unparse.v ===== *)
(** The grammar read backwards: the tokens of a value and of an expression, and the
    proof that the parser reads them back. *)

From S2P Require Export ParserLaws.

(** ** Tokens of values, paths and expressions *)

Fixpoint comma_sep (l : list (list TokenKind)) : list TokenKind :=
  match l with
  | [] => []
  | [x] => x
  | x :: l' => x ++ TComma :: comma_sep l'
  end.

Fixpoint value_tokens (v : Value) : list TokenKind :=
  match v with
  | VNull => [TNull]
  | VBool b => [if b then TTrue else TFalse]
  | VInt i => [TInt i]
  | VFloat f => [TFloat f]
  | VString s => [TStringLit s]
  | VArray l => TLBracket :: comma_sep (List.map value_tokens l) ++ [TRBracket]
  | VObject m =>
    TLBrace :: comma_sep (List.map (fun p => TStringLit p.1 :: TColon :: value_tokens p.2) m) ++ [TRBrace]
  | VBytes _ | VTimestamp _ | VUuid _ => []
  end.

(** The values that have a literal. *)
Fixpoint nql_value (v : Value) : bool :=
  match v with
  | VBytes _ | VTimestamp _ | VUuid _ => false
  | VArray l => forallb nql_value l
  | VObject m => sortedb str_cmp m && forallb (fun p => nql_value p.2) m
  | _ => true
  end.

Fixpoint path_tokens (parts : list string) : list TokenKind :=
  match parts with
  | [] => []
  | [p] => [TIdentifier p]
  | p :: parts' => TIdentifier p :: TDot :: path_tokens parts'
  end.

Definition op_token (op : BinaryOp) : TokenKind :=
  match op with
  | Eq_ => TEqEq | NotEq => TBangEq | Gt_ => TGt | GtEq => TGtEq | Lt_ => TLt | LtEq => TLtEq
  | And => TAnd | Or => TOr | Plus => TPlus | Minus => TMinus | Multiply => TStar
  | Divide => TSlash | Modulo => TPercent
  end.

(** An expression as a primary: anything compound in parentheses. *)
Fixpoint expr_tokens (e : Expr) : list TokenKind :=
  match e with
  | ELiteral v => value_tokens v
  | EField p => path_tokens (split_dot p)
  | EBinary op l r => TLParen :: expr_tokens l ++ op_token op :: expr_tokens r ++ [TRParen]
  | EUnary op e => TLParen :: (match op with Not => TNot | Negate => TMinus end) :: expr_tokens e ++ [TRParen]
  | EIn e l => TLParen :: expr_tokens e ++ TIn :: TLParen :: comma_sep (List.map expr_tokens l) ++ [TRParen; TRParen]
  | EBetween e mn mx =>
    TLParen :: expr_tokens e ++ TBetween :: expr_tokens mn ++ TAnd :: expr_tokens mx ++ [TRParen]
  end.

Fixpoint nql_expr (e : Expr) : bool :=
  match e with
  | ELiteral v => nql_value v
  | EField _ => true
  | EBinary _ l r => nql_expr l && nql_expr r
  | EUnary _ e => nql_expr e
  | EIn e l => nql_expr e && forallb nql_expr l
  | EBetween e mn mx => nql_expr e && nql_expr mn && nql_expr mx
  end.

(** How tightly a token binds what stands before it. *)
Definition prec (k : TokenKind) : nat :=
  match k with
  | TDot => 6
  | TStar | TSlash | TPercent => 5
  | TPlus | TMinus => 4
  | TEqEq | TEq | TBangEq | TGt | TGtEq | TLt | TLtEq | TBetween | TIn => 3
  | TAnd | TAmpAmp => 2
  | TOr | TPipePipe => 1
  | _ => 0
  end.

(** ** Splitting a token list along its kinds *)

Lemma kinds_app ts (ks ks' : list TokenKind) :
  List.map kind ts = ks ++ ks' -> exists t1 t2, ts = t1 ++ t2 /\ List.map kind t1 = ks /\ List.map kind t2 = ks'.
Proof. intros H. apply List.map_eq_app in H as (t1 & t2 & -> & H1 & H2). eauto. Qed.

Lemma kinds_cons ts k ks :
  List.map kind ts = k :: ks -> exists t ts', ts = t :: ts' /\ kind t = k /\ List.map kind ts' = ks.
Proof. intros H. apply List.map_eq_cons in H as (t & ts' & -> & H1 & H2). eauto. Qed.

Lemma advance_cons t ts rest : rest <> [] -> advance ((t :: ts) ++ rest) = (ts ++ rest)%list.
Proof. intros N. destruct ts as [|t' ts]; [|reflexivity]. cbn. destruct rest; [contradiction|reflexivity]. Qed.

Lemma advance_one t rest : rest <> [] -> advance (t :: rest) = rest.
Proof. exact (advance_cons t [] rest). Qed.

Section Unparse.
Context {TD : TokenDebug}.

(** ** Values *)

Lemma value_tokens_head v :
  nql_value v = true -> exists k ks, value_tokens v = k :: ks /\ k <> TRBracket /\ k <> TRParen /\ prec k <> 6%nat
    /\ k <> TNot /\ k <> TBang /\ k <> TMinus.
Proof. destruct v as [|[|]| | | | | | | |]; try discriminate; intros _; do 2 eexists; (split; [reflexivity|]); repeat split; discriminate. Qed.

Lemma expect_here k msg t rest : kind t = k -> rest <> [] -> expect k msg (t :: rest) = Ok rest.
Proof.
  intros E N. unfold expect, check. rewrite E, Z.eqb_refl. now rewrite advance_one.
Qed.

Lemma match_here k t rest : kind t = k -> rest <> [] -> match_token k (t :: rest) = (true, rest).
Proof. intros E N. unfold match_token, check. rewrite E, Z.eqb_refl. now rewrite advance_one. Qed.

Lemma match_not k t rest : kind_tag (kind t) <> kind_tag k -> match_token k (t :: rest) = (false, t :: rest).
Proof. intros E. unfold match_token, check. now rewrite (proj2 (Z.eqb_neq _ _)). Qed.

Definition reads_value (v : Value) : Prop :=
  forall fuel ts t rest, List.map kind ts = value_tokens v ->
  (2 * List.length (ts ++ t :: rest) + 1 <= fuel)%nat -> parse_value fuel (ts ++ t :: rest) = Ok (v, t :: rest).

Lemma items_read l :
  Forall reads_value l -> l <> [] -> forall fuel acc ts t rest,
  List.map kind ts = comma_sep (List.map value_tokens l) -> kind_tag (kind t) <> kind_tag TComma ->
  (2 * List.length (ts ++ t :: rest) + 2 <= fuel)%nat ->
  array_items fuel acc (ts ++ t :: rest) = Ok ((acc ++ l)%list, t :: rest).
Proof.
  induction 1 as [|v l Hv Hl IH]; intros Hne fuel acc ts t rest Hk Ht Hf; [contradiction|].
  destruct fuel as [|fuel]; [lia|]. cbn [array_items]. destruct l as [|w l].
  - cbn [List.map comma_sep] in Hk. rewrite (Hv fuel ts t rest Hk) by lia. cbn [bindO].
    now rewrite match_not.
  - cbn [List.map comma_sep] in Hk. apply kinds_app in Hk as (t1 & t2 & -> & H1 & H2).
    apply kinds_cons in H2 as (tc & t3 & -> & Hc & H3). rewrite <- app_assoc. cbn [app].
    rewrite <- app_assoc in Hf. cbn [app] in Hf. rewrite length_app in Hf. cbn [List.length] in Hf.
    rewrite (Hv fuel t1 tc (t3 ++ t :: rest) H1) by (rewrite length_app; cbn [List.length]; lia). cbn [bindO].
    rewrite (match_here TComma tc) by (try assumption; destruct t3; discriminate).
    rewrite (IH ltac:(discriminate) fuel (acc ++ [v]) t3 t rest H3 Ht) by lia. now rewrite <- app_assoc.
Qed.

Lemma entries_read m :
  Forall (fun p => reads_value p.2) m -> m <> [] -> forall fuel acc ts t rest,
  List.map kind ts = comma_sep (List.map (fun p => TStringLit p.1 :: TColon :: value_tokens p.2) m) ->
  kind_tag (kind t) <> kind_tag TComma -> (2 * List.length (ts ++ t :: rest) + 2 <= fuel)%nat ->
  object_items fuel acc (ts ++ t :: rest)
  = Ok (fold_left (fun acc p => bt_insert str_cmp p.1 p.2 acc) m acc, t :: rest).
Proof.
  induction 1 as [|[k v] m Hv Hm IH]; intros Hne fuel acc ts t rest Hk Ht Hf; [contradiction|].
  destruct fuel as [|fuel]; [lia|]. cbn [object_items fold_left fst snd].
  assert (Entry : forall t1 tn rest', List.map kind t1 = TStringLit k :: TColon :: value_tokens v ->
    (2 * List.length (t1 ++ tn :: rest') + 1 <= S fuel)%nat ->
      (let? (key, ts) := object_key (t1 ++ tn :: rest') in
       let? ts := expect TColon "Expected ':' after object key" ts in
       let? (val, ts) := parse_value fuel ts in Ok (key, val, ts)) = Ok (k, v, tn :: rest')).
  { intros t1 tn rest' H1 Hl. apply kinds_cons in H1 as (a & t1a & -> & Ha & H1). apply kinds_cons in H1 as (b & t1b & -> & Hb & H1).
    unfold object_key. cbn [peek_kind app]. rewrite Ha.
    cbn [bindO]. change (advance (a :: b :: t1b ++ tn :: rest')) with (b :: t1b ++ tn :: rest').
    rewrite expect_here by (try assumption; destruct t1b; discriminate). cbn [bindO].
    rewrite (Hv fuel t1b tn rest' H1); [reflexivity|]. cbn [List.length app] in Hl. cbn [snd]. lia. }
  assert (Shape : forall ts0, (let? (key, ts) := object_key ts0 in
       let? ts := expect TColon "Expected ':' after object key" ts in
       let? (val, ts) := parse_value fuel ts in
       let map := bt_insert str_cmp key val acc in
       let (comma, ts) := match_token TComma ts in
       if comma then object_items fuel map ts else Ok (map, ts))
     = bindO (let? (key, ts) := object_key ts0 in
       let? ts := expect TColon "Expected ':' after object key" ts in
       let? (val, ts) := parse_value fuel ts in Ok (key, val, ts))
       (fun '(key, val, ts) => let (comma, ts) := match_token TComma ts in
         if comma then object_items fuel (bt_insert str_cmp key val acc) ts else Ok (bt_insert str_cmp key val acc, ts))).
  { intros ts0. destruct (object_key ts0) as [[key t0]| |]; cbn [bindO]; try reflexivity.
    destruct (expect _ _ t0) as [t1| |]; cbn [bindO]; try reflexivity.
    destruct (parse_value fuel t1) as [[val t2]| |]; cbn [bindO]; reflexivity. }
  rewrite Shape. clear Shape. destruct m as [|q m].
  - cbn [List.map comma_sep fst snd] in Hk. rewrite (Entry ts t rest Hk) by lia.
    cbn [bindO fold_left]. now rewrite match_not.
  - change (List.map kind ts = (TStringLit k :: TColon :: value_tokens v) ++ TComma ::
      comma_sep (List.map (fun p => TStringLit p.1 :: TColon :: value_tokens p.2) (q :: m))) in Hk.
    apply kinds_app in Hk as (t1 & t2 & -> & H1 & H2). apply kinds_cons in H2 as (tc & t3 & -> & Hc & H3).
    rewrite <- app_assoc in Hf |- *. cbn [app] in Hf |- *.
    rewrite (Entry t1 tc (t3 ++ t :: rest) H1) by lia.
    cbn [bindO]. rewrite (match_here TComma tc) by (try assumption; destruct t3; discriminate).
    rewrite length_app in Hf. cbn [List.length] in Hf.
    rewrite (IH ltac:(discriminate) fuel _ t3 t rest H3 Ht) by lia. reflexivity.
Qed.

Lemma value_reads v : nql_value v = true -> reads_value v.
Proof.
  induction v as [| | | | | |l IH|m IH| |] using value_ind'; intros Hv; try discriminate Hv;
    intros fuel ts t rest Hk Hf; cbn [value_tokens] in Hk; (destruct fuel as [|fuel]; [lia|]).
  1-5: apply kinds_cons in Hk as (a & t1 & -> & Ha & H1); destruct t1; [|discriminate]; cbn [parse_value app peek_kind];
    rewrite Ha; try (destruct b); now rewrite advance_one.
  - cbn [nql_value] in Hv. apply kinds_cons in Hk as (a & t1 & -> & Ha & H1). apply kinds_app in H1 as (t2 & t3 & -> & H2 & H3).
    apply kinds_cons in H3 as (z & t4 & -> & Hz & H4). destruct t4; [|discriminate].
    cbn [parse_value]. cbn [app peek_kind]. rewrite Ha. rewrite <- app_assoc. cbn [app].
    change (advance (a :: t2 ++ z :: t :: rest)) with (advance ((a :: t2) ++ z :: t :: rest)).
    rewrite advance_cons by discriminate. cbn [List.length app] in Hf. rewrite <- app_assoc in Hf. cbn [app] in Hf.
    assert (IHl : Forall reads_value l).
    { rewrite List.Forall_forall in IH |- *. rewrite forallb_forall in Hv. auto. }
    assert (E : (if check TRBracket (t2 ++ z :: t :: rest) then Ok ([], t2 ++ z :: t :: rest)
                 else array_items fuel [] (t2 ++ z :: t :: rest)) = Ok (l, z :: t :: rest)).
    { destruct l as [|v l].
      - destruct t2; [|discriminate]. cbn [app check]. now rewrite Hz, Z.eqb_refl.
      - assert (C : check TRBracket (t2 ++ z :: t :: rest) = false).
        { cbn [forallb] in Hv. apply andb_true_iff in Hv as [Hv _].
          destruct (value_tokens_head v Hv) as (k & ks & Ek & N & _).
          assert (Hd : exists ks', comma_sep (List.map value_tokens (v :: l)) = k :: ks').
          { cbn [List.map comma_sep]. rewrite Ek. destruct (List.map value_tokens l); eexists; reflexivity. }
          destruct Hd as [ks' Hd]. rewrite Hd in H2. apply kinds_cons in H2 as (b & t2' & -> & Hb & _).
          cbn [app check]. rewrite Hb. apply Z.eqb_neq. intros E. apply N. destruct k; try discriminate E. reflexivity. }
        rewrite C. rewrite (items_read (v :: l) IHl ltac:(discriminate) fuel [] t2 z (t :: rest) H2); [reflexivity| |lia].
        rewrite Hz. discriminate. }
    rewrite E. cbn [bindO]. now rewrite expect_here.
  - cbn [nql_value] in Hv. apply andb_true_iff in Hv as [Hsort Hv].
    apply kinds_cons in Hk as (a & t1 & -> & Ha & H1). apply kinds_app in H1 as (t2 & t3 & -> & H2 & H3).
    apply kinds_cons in H3 as (z & t4 & -> & Hz & H4). destruct t4; [|discriminate].
    cbn [parse_value]. cbn [app peek_kind]. rewrite Ha. rewrite <- app_assoc. cbn [app].
    change (advance (a :: t2 ++ z :: t :: rest)) with (advance ((a :: t2) ++ z :: t :: rest)).
    rewrite advance_cons by discriminate. cbn [List.length app] in Hf. rewrite <- app_assoc in Hf. cbn [app] in Hf.
    assert (IHm : Forall (fun p => reads_value p.2) m).
    { rewrite List.Forall_forall in IH |- *. rewrite forallb_forall in Hv. auto. }
    assert (E : (if check TRBrace (t2 ++ z :: t :: rest) then Ok ([], t2 ++ z :: t :: rest)
                 else object_items fuel [] (t2 ++ z :: t :: rest)) = Ok (m, z :: t :: rest)).
    { destruct m as [|p m].
      - destruct t2; [|discriminate]. cbn [app check]. now rewrite Hz, Z.eqb_refl.
      - assert (C : check TRBrace (t2 ++ z :: t :: rest) = false).
        { destruct t2 as [|b t2']; [destruct m; discriminate H2|]. cbn [app check].
          assert (Hb : kind b = TStringLit p.1) by (destruct m; now injection H2).
          now rewrite Hb. }
        rewrite C. rewrite (entries_read (p :: m) IHm ltac:(discriminate) fuel [] t2 z (t :: rest) H2); [|rewrite Hz; discriminate|lia].
        pose proof (obj_rebuild (fun v : Value => v) (p :: m) Hsort) as R. cbn beta in R. rewrite R.
        do 2 f_equal. rewrite <- (List.map_id (p :: m)) at 2. apply List.map_ext. now intros []. }
    rewrite E. cbn [bindO]. now rewrite expect_here.
Qed.

(** ** Field paths *)

Lemma path_reads parts : parts <> [] -> forall ts t rest fuel acc,
  List.map kind ts = List.concat (List.map (fun p => [TDot; TIdentifier p]) parts) ->
  kind_tag (kind t) <> 60 -> (List.length (ts ++ t :: rest) < fuel)%nat ->
  path_loop fuel acc (ts ++ t :: rest)
  = Ok (fold_left (fun a p => a ++ "." ++ p)%string parts acc, t :: rest).
Proof.
  intros _. induction parts as [|p parts IH]; intros ts t rest fuel acc Hk Ht Hf; (destruct fuel as [|fuel]; [lia|]); cbn [path_loop].
  - destruct ts; [|discriminate]. cbn [app fold_left]. now rewrite match_not.
  - cbn [List.map List.concat app] in Hk. apply kinds_cons in Hk as (a & t1 & -> & Ha & Hk).
    apply kinds_cons in Hk as (b & t2 & -> & Hb & Hk). cbn [app]. rewrite (match_here TDot a) by (assumption || discriminate).
    unfold expect_identifier. cbn [peek_kind]. rewrite Hb. cbn [bindO].
    rewrite advance_one by (destruct t2; discriminate). cbn [List.length app] in Hf.
    rewrite IH by (assumption || lia). reflexivity.
Qed.

Lemma path_tokens_cons p parts :
  path_tokens (p :: parts) = TIdentifier p :: List.concat (List.map (fun p => [TDot; TIdentifier p]) parts).
Proof. revert p. induction parts as [|q parts IH]; intros p; [reflexivity|]. cbn [path_tokens List.map List.concat app]. now rewrite <- IH. Qed.

Lemma str_app_assoc (a b c : string) : ((a ++ b) ++ c)%string = (a ++ (b ++ c))%string.
Proof. induction a as [|x a IH]; [reflexivity|].
  change (String x ((a ++ b) ++ c) = String x (a ++ (b ++ c)))%string. now rewrite IH.
Qed.

Lemma join_shift a p parts :
  fold_left (fun x q => x ++ "." ++ q)%string parts (a ++ p)%string
  = (a ++ fold_left (fun x q => x ++ "." ++ q)%string parts p)%string.
Proof.
  revert p. induction parts as [|q parts IH]; intros p; [reflexivity|]. cbn [fold_left].
  now rewrite <- IH, str_app_assoc.
Qed.

(** Splitting a path at its dots and joining the parts gives the path. *)
Lemma split_join path :
  exists p parts, split_dot path = p :: parts /\ fold_left (fun x q => x ++ "." ++ q)%string parts p = path.
Proof.
  induction path as [|a path (p & parts & E & J)]; [now exists EmptyString, []|]. cbn [split_dot].
  destruct (Ascii.eqb_spec a "."%char) as [->|N].
  - exists EmptyString, (split_dot path). split; [reflexivity|]. rewrite E. cbn [fold_left].
    change (EmptyString ++ "." ++ p)%string with ("." ++ p)%string. rewrite join_shift, J. reflexivity.
  - rewrite E. exists (String a p), parts. split; [reflexivity|].
    change (String a p) with (String a EmptyString ++ p)%string. rewrite join_shift, J. reflexivity.
Qed.

Lemma field_path_reads path ts t rest :
  List.map kind ts = path_tokens (split_dot path) -> kind_tag (kind t) <> 60 ->
  parse_field_path (ts ++ t :: rest) = Ok (path, t :: rest).
Proof.
  intros Hk Ht. destruct (split_join path) as (p & parts & E & J). rewrite E, path_tokens_cons in Hk.
  apply kinds_cons in Hk as (a & t1 & -> & Ha & Hk). unfold parse_field_path, expect_identifier.
  cbn [app peek_kind]. rewrite Ha. cbn [bindO]. rewrite advance_one by (destruct t1; discriminate).
  destruct parts as [|q parts].
  - destruct t1; [|discriminate]. cbn [app path_loop]. rewrite match_not by assumption. now rewrite <- J.
  - rewrite (path_reads (q :: parts)) by (discriminate || assumption || lia). now rewrite J.
Qed.

(** ** Levels of precedence *)

Section Levels.
Context (g : list Token -> result (Expr * list Token)).

Lemma level_pass op_of operand ts x t rest :
  operand ts = Ok (x, t :: rest) -> op_of (kind t) = None ->
  binary_level op_of operand ts = Ok (x, t :: rest).
Proof. intros H N. unfold binary_level. rewrite H. cbn [bindO binary_loop peek_kind mbind option_bind]. now rewrite N. Qed.

Lemma level_step op_of operand ts l o op ts2 r t rest :
  operand ts = Ok (l, o :: ts2) -> op_of (kind o) = Some op -> ts2 <> [] ->
  operand ts2 = Ok (r, t :: rest) -> op_of (kind t) = None ->
  binary_level op_of operand ts = Ok (EBinary op l r, t :: rest).
Proof.
  intros H1 Ho Hne H2 N. unfold binary_level. rewrite H1. cbn [bindO].
  destruct ts2 as [|t2 ts2]; [contradiction|].
  cbn [List.length binary_loop peek_kind mbind option_bind]. rewrite Ho. cbn [advance]. rewrite H2. cbn [bindO binary_loop peek_kind mbind option_bind].
  now rewrite N.
Qed.

Lemma no_op k n : (prec k < n)%nat -> (n <= 5 -> mult_op k = None)%nat /\ (n <= 4 -> add_op k = None)%nat
  /\ (n <= 3 -> cmp_op k = None /\ k <> TBetween /\ k <> TIn)%nat /\ (n <= 2 -> and_op k = None)%nat /\ (n <= 1 -> or_op k = None)%nat.
Proof. destruct k; cbn; intros H; repeat split; intros; try reflexivity; try discriminate; lia. Qed.

Lemma pass_mult ts x t rest :
  parse_unary g ts = Ok (x, t :: rest) -> (prec (kind t) < 5)%nat -> parse_multiplicative g ts = Ok (x, t :: rest).
Proof. intros H P. apply level_pass; [exact H|]. now apply (no_op _ 5 P). Qed.

Lemma pass_add ts x t rest :
  parse_multiplicative g ts = Ok (x, t :: rest) -> (prec (kind t) < 4)%nat -> parse_additive g ts = Ok (x, t :: rest).
Proof. intros H P. apply level_pass; [exact H|]. now apply (no_op _ 4 P). Qed.

Lemma kind_tag_between k : kind_tag k = kind_tag TBetween -> k = TBetween.
Proof. destruct k; intros H; try discriminate H; reflexivity. Qed.

Lemma kind_tag_in k : kind_tag k = kind_tag TIn -> k = TIn.
Proof. destruct k; intros H; try discriminate H; reflexivity. Qed.

Lemma pass_cmp ts x t rest :
  parse_additive g ts = Ok (x, t :: rest) -> (prec (kind t) < 3)%nat -> parse_comparison g ts = Ok (x, t :: rest).
Proof.
  intros H P. unfold parse_comparison. rewrite H. cbn [bindO peek_kind mbind option_bind].
  destruct (no_op _ 3 P) as (_ & _ & Hc & _). destruct (Hc ltac:(lia)) as (-> & N1 & N2). cbn [check].
  rewrite (proj2 (Z.eqb_neq _ _)) by (intros E; now apply kind_tag_between in E).
  now rewrite (proj2 (Z.eqb_neq _ _)) by (intros E; now apply kind_tag_in in E).
Qed.

Lemma pass_and ts x t rest :
  parse_comparison g ts = Ok (x, t :: rest) -> (prec (kind t) < 2)%nat -> parse_and g ts = Ok (x, t :: rest).
Proof. intros H P. apply level_pass; [exact H|]. now apply (no_op _ 2 P). Qed.

Lemma pass_or ts x t rest :
  parse_and g ts = Ok (x, t :: rest) -> (prec (kind t) < 1)%nat -> parse_or g ts = Ok (x, t :: rest).
Proof. intros H P. apply level_pass; [exact H|]. now apply (no_op _ 1 P). Qed.
End Levels.

Lemma expr_tokens_head e :
  nql_expr e = true -> exists k ks, expr_tokens e = k :: ks /\ k <> TRParen /\ k <> TNot /\ k <> TBang /\ k <> TMinus.
Proof.
  destruct e as [v|p|op l r|op e|e l|e mn mx]; cbn [nql_expr expr_tokens]; intros H;
    try (do 2 eexists; split; [reflexivity|]; repeat split; discriminate).
  - destruct (value_tokens_head v H) as (k & ks & -> & _ & N1 & _ & N2 & N3 & N4). eauto 8.
  - destruct (split_join p) as (q & parts & -> & _). rewrite path_tokens_cons. do 2 eexists; split; [reflexivity|]; repeat split; discriminate.
Qed.

(** Reading an expression at the level of primaries, with [f] levels of nesting left. *)
Definition reads_expr (f : nat) (e : Expr) : Prop :=
  forall ts t rest, List.map kind ts = expr_tokens e -> (prec (kind t) < 6)%nat ->
  (List.length (ts ++ t :: rest) <= f)%nat -> parse_primary (expr_loop f) (ts ++ t :: rest) = Ok (e, t :: rest).

Lemma unary_of_primary f e ts t rest :
  nql_expr e = true -> reads_expr f e -> List.map kind ts = expr_tokens e -> (prec (kind t) < 6)%nat ->
  (List.length (ts ++ t :: rest) <= f)%nat ->
  forall fuel, unary_loop (expr_loop f) (S fuel) (ts ++ t :: rest) = Ok (e, t :: rest).
Proof.
  intros Hn R Hk Hp Hl fuel. cbn [unary_loop].
  destruct (expr_tokens_head e Hn) as (k & ks & E & _ & N1 & N2 & N3). pose proof Hk as Hk'. rewrite E in Hk'.
  apply kinds_cons in Hk' as (a & t1 & -> & Ha & _).
  assert (T : forall k', k <> k' -> kind_tag k' = 22 \/ kind_tag k' = 46 \/ kind_tag k' = 48 ->
    check k' ((a :: t1) ++ t :: rest) = false).
  { intros k' N T. cbn [app check]. rewrite Ha. apply Z.eqb_neq. intros Eq. apply N. destruct k'; cbn in T; try lia;
      destruct k; cbn in Eq; try discriminate Eq; reflexivity. }
  rewrite (T TNot N1 (or_introl eq_refl)), (T TBang N2 (or_intror (or_introl eq_refl))), (T TMinus N3 (or_intror (or_intror eq_refl))).
  cbn [orb]. now apply R.
Qed.

Lemma unary_reads f e ts t rest :
  nql_expr e = true -> reads_expr f e -> List.map kind ts = expr_tokens e -> (prec (kind t) < 6)%nat ->
  (List.length (ts ++ t :: rest) <= f)%nat -> parse_unary (expr_loop f) (ts ++ t :: rest) = Ok (e, t :: rest).
Proof.
  intros. unfold parse_unary. rewrite length_app. cbn [List.length]. rewrite Nat.add_succ_r. now apply unary_of_primary.
Qed.

Lemma additive_reads f e ts t rest :
  nql_expr e = true -> reads_expr f e -> List.map kind ts = expr_tokens e -> (prec (kind t) < 4)%nat ->
  (List.length (ts ++ t :: rest) <= f)%nat -> parse_additive (expr_loop f) (ts ++ t :: rest) = Ok (e, t :: rest).
Proof. intros. apply pass_add; [|assumption]. apply pass_mult; [|lia]. apply unary_reads; auto; lia. Qed.

Lemma or_reads f e ts t rest :
  nql_expr e = true -> reads_expr f e -> List.map kind ts = expr_tokens e -> prec (kind t) = 0%nat ->
  (List.length (ts ++ t :: rest) <= f)%nat -> expr_loop (S f) (ts ++ t :: rest) = Ok (e, t :: rest).
Proof.
  intros Hn R Hk Hp Hl. cbn [expr_loop]. apply pass_or; [|lia]. apply pass_and; [|lia]. apply pass_cmp; [|lia].
  apply additive_reads; auto; lia.
Qed.

(** ** Inside parentheses

    The body of a compound expression, read at the loosest level up to the closing
    parenthesis [c]. *)

Lemma op_prec op : (prec (op_token op) < 6)%nat.
Proof. destruct op; cbn; lia. Qed.

Lemma binary_body f op l r tl o tr c rest :
  nql_expr l = true -> nql_expr r = true -> reads_expr f l -> reads_expr f r ->
  List.map kind tl = expr_tokens l -> kind o = op_token op -> List.map kind tr = expr_tokens r -> kind c = TRParen ->
  (List.length (tl ++ o :: tr ++ c :: rest) <= f)%nat ->
  parse_or (expr_loop f) (tl ++ o :: tr ++ c :: rest) = Ok (EBinary op l r, c :: rest).
Proof.
  intros Nl Nr Rl Rr Hl Ho Hr Hc Hf.
  assert (Hf2 : (List.length (tr ++ c :: rest) <= f)%nat) by (rewrite length_app in Hf; cbn [List.length] in Hf; lia).
  assert (Hne : (tr ++ c :: rest)%list <> []) by (destruct tr; discriminate).
  assert (Pc : prec (kind c) = 0%nat) by now rewrite Hc.
  assert (Ul : parse_unary (expr_loop f) (tl ++ o :: tr ++ c :: rest) = Ok (l, o :: tr ++ c :: rest))
    by (apply unary_reads; auto; rewrite Ho; apply op_prec).
  assert (Ur : parse_unary (expr_loop f) (tr ++ c :: rest) = Ok (r, c :: rest)) by (apply unary_reads; auto; lia).
  assert (Nc : forall op_of, op_of TRParen = None -> op_of (kind c) = None :> option BinaryOp) by (intros; now rewrite Hc).
  destruct op; cbn [op_token] in Ho.
  all: try (apply pass_or; [|lia]; apply pass_and; [|lia]; unfold parse_comparison;
    rewrite (pass_add _ _ _ _ _ (pass_mult _ _ _ _ _ Ul ltac:(rewrite Ho; cbn; lia)) ltac:(rewrite Ho; cbn; lia));
    cbn [bindO peek_kind mbind option_bind]; rewrite Ho; cbn [cmp_op]; rewrite advance_one by assumption;
    rewrite (pass_add _ _ _ _ _ (pass_mult _ _ _ _ _ Ur ltac:(lia)) ltac:(lia)); reflexivity).
  - apply pass_or; [|lia]. eapply level_step; [|now rewrite Ho|exact Hne| |now apply Nc].
    + apply pass_cmp; [|rewrite Ho; cbn; lia]. apply pass_add; [|rewrite Ho; cbn; lia]. apply pass_mult; [exact Ul|rewrite Ho; cbn; lia].
    + apply pass_cmp; [|lia]. apply pass_add; [|lia]. apply pass_mult; [exact Ur|lia].
  - eapply level_step; [|now rewrite Ho|exact Hne| |now apply Nc].
    + apply pass_and; [|rewrite Ho; cbn; lia]. apply pass_cmp; [|rewrite Ho; cbn; lia]. apply pass_add; [|rewrite Ho; cbn; lia].
      apply pass_mult; [exact Ul|rewrite Ho; cbn; lia].
    + apply pass_and; [|lia]. apply pass_cmp; [|lia]. apply pass_add; [|lia]. apply pass_mult; [exact Ur|lia].
  - apply pass_or; [|lia]. apply pass_and; [|lia]. apply pass_cmp; [|lia].
    eapply level_step; [|now rewrite Ho|exact Hne| |now apply Nc].
    + apply pass_mult; [exact Ul|rewrite Ho; cbn; lia].
    + apply pass_mult; [exact Ur|lia].
  - apply pass_or; [|lia]. apply pass_and; [|lia]. apply pass_cmp; [|lia].
    eapply level_step; [|now rewrite Ho|exact Hne| |now apply Nc].
    + apply pass_mult; [exact Ul|rewrite Ho; cbn; lia].
    + apply pass_mult; [exact Ur|lia].
  - apply pass_or; [|lia]. apply pass_and; [|lia]. apply pass_cmp; [|lia]. apply pass_add; [|lia].
    eapply level_step; [exact Ul|now rewrite Ho|exact Hne|exact Ur|now apply Nc].
  - apply pass_or; [|lia]. apply pass_and; [|lia]. apply pass_cmp; [|lia]. apply pass_add; [|lia].
    eapply level_step; [exact Ul|now rewrite Ho|exact Hne|exact Ur|now apply Nc].
  - apply pass_or; [|lia]. apply pass_and; [|lia]. apply pass_cmp; [|lia]. apply pass_add; [|lia].
    eapply level_step; [exact Ul|now rewrite Ho|exact Hne|exact Ur|now apply Nc].
Qed.

Lemma unary_body f op e te o c rest :
  nql_expr e = true -> reads_expr f e -> kind o = (match op with Not => TNot | Negate => TMinus end) ->
  List.map kind te = expr_tokens e -> kind c = TRParen -> (List.length (o :: te ++ c :: rest) <= f)%nat ->
  parse_or (expr_loop f) (o :: te ++ c :: rest) = Ok (EUnary op e, c :: rest).
Proof.
  intros Hn R Ho He Hc Hf. assert (Pc : prec (kind c) = 0%nat) by now rewrite Hc. cbn [List.length] in Hf.
  apply pass_or; [|lia]. apply pass_and; [|lia]. apply pass_cmp; [|lia]. apply pass_add; [|lia]. apply pass_mult; [|lia].
  unfold parse_unary. cbn [List.length unary_loop].
  assert (U : unary_loop (expr_loop f) (List.length (te ++ c :: rest)) (te ++ c :: rest) = Ok (e, c :: rest)).
  { rewrite length_app. cbn [List.length]. rewrite Nat.add_succ_r. apply unary_of_primary; auto; lia. }
  destruct op; cbn [check]; rewrite Ho; cbn [kind_tag Z.eqb Pos.eqb orb];
    rewrite advance_one by (destruct te; discriminate); rewrite U; reflexivity.
Qed.

Lemma between_body f e mn mx te b tn a tm c rest :
  nql_expr e = true -> nql_expr mn = true -> nql_expr mx = true ->
  reads_expr f e -> reads_expr f mn -> reads_expr f mx ->
  List.map kind te = expr_tokens e -> kind b = TBetween -> List.map kind tn = expr_tokens mn -> kind a = TAnd ->
  List.map kind tm = expr_tokens mx -> kind c = TRParen ->
  (List.length (te ++ b :: tn ++ a :: tm ++ c :: rest) <= f)%nat ->
  parse_or (expr_loop f) (te ++ b :: tn ++ a :: tm ++ c :: rest) = Ok (EBetween e mn mx, c :: rest).
Proof.
  intros Ne Nn Nm Re Rn Rm He Hb Hn Ha Hm Hc Hf.
  assert (Hf2 : (List.length (tn ++ a :: tm ++ c :: rest) <= f)%nat) by (rewrite length_app in Hf; cbn [List.length] in Hf; lia).
  assert (Hf3 : (List.length (tm ++ c :: rest) <= f)%nat) by (rewrite length_app in Hf2; cbn [List.length] in Hf2; lia).
  assert (Pc : prec (kind c) = 0%nat) by now rewrite Hc.
  apply pass_or; [|lia]. apply pass_and; [|lia]. unfold parse_comparison.
  rewrite (additive_reads f e te b) by (auto; rewrite Hb; cbn; lia). cbn [bindO peek_kind mbind option_bind].
  rewrite Hb. cbn [cmp_op check]. rewrite Hb, Z.eqb_refl. rewrite advance_one by (destruct tn; discriminate).
  rewrite (additive_reads f mn tn a) by (auto; rewrite Ha; cbn; lia). cbn [bindO].
  rewrite expect_here by (assumption || (destruct tm; discriminate)). cbn [bindO].
  rewrite (additive_reads f mx tm c) by (auto; lia). reflexivity.
Qed.

Lemma items_of_in f l :
  Forall (fun x => nql_expr x = true /\ reads_expr f x) l -> l <> [] -> forall fuel acc ts t rest,
  List.map kind ts = comma_sep (List.map expr_tokens l) -> kind t = TRParen ->
  (List.length (ts ++ t :: rest) <= f)%nat -> (List.length (ts ++ t :: rest) <= fuel)%nat ->
  in_items (expr_loop (S f)) fuel acc (ts ++ t :: rest) = Ok ((acc ++ l)%list, t :: rest).
Proof.
  induction 1 as [|x l [Nx Rx] Hl IH]; intros Hne fuel acc ts t rest Hk Ht Hf Hfu; [contradiction|].
  destruct fuel as [|fuel]; [rewrite length_app in Hfu; cbn in Hfu; lia|]. cbn [in_items]. destruct l as [|y l].
  - cbn [List.map comma_sep] in Hk. rewrite (or_reads f x ts t rest) by (assumption || now rewrite Ht). cbn [bindO].
    rewrite match_not by (rewrite Ht; discriminate). reflexivity.
  - change (List.map kind ts = expr_tokens x ++ TComma :: comma_sep (List.map expr_tokens (y :: l))) in Hk.
    apply kinds_app in Hk as (t1 & t2 & -> & H1 & H2). apply kinds_cons in H2 as (tc & t3 & -> & Hc & H3).
    rewrite <- app_assoc in Hf, Hfu |- *. cbn [app] in Hf, Hfu |- *.
    rewrite (or_reads f x t1 tc (t3 ++ t :: rest)) by (assumption || now rewrite Hc). cbn [bindO].
    rewrite (match_here TComma tc) by (try assumption; destruct t3; discriminate).
    rewrite length_app in Hf, Hfu. cbn [List.length] in Hf, Hfu.
    rewrite (IH ltac:(discriminate)) by (assumption || lia). now rewrite <- app_assoc.
Qed.

Lemma in_body f e l te i p tl c c' rest :
  nql_expr e = true -> reads_expr (S f) e -> Forall (fun x => nql_expr x = true /\ reads_expr f x) l ->
  List.map kind te = expr_tokens e -> te <> [] -> kind i = TIn -> kind p = TLParen ->
  List.map kind tl = comma_sep (List.map expr_tokens l) -> kind c = TRParen -> kind c' = TRParen ->
  (List.length (te ++ i :: p :: tl ++ c :: c' :: rest) <= S f)%nat ->
  parse_or (expr_loop (S f)) (te ++ i :: p :: tl ++ c :: c' :: rest) = Ok (EIn e l, c' :: rest).
Proof.
  intros Ne Re Rl He Hte Hi Hp Hl Hc Hc' Hf. assert (Pc : prec (kind c') = 0%nat) by now rewrite Hc'.
  assert (Hf2 : (List.length (tl ++ c :: c' :: rest) <= f)%nat).
  { rewrite length_app in Hf. cbn [List.length] in Hf. destruct te; [contradiction|]. cbn [List.length] in Hf. lia. }
  apply pass_or; [|lia]. apply pass_and; [|lia]. unfold parse_comparison.
  rewrite (additive_reads (S f) e te i) by (auto; rewrite Hi; cbn; lia). cbn [bindO peek_kind mbind option_bind].
  rewrite Hi. cbn [cmp_op check]. rewrite Hi. cbn [kind_tag Z.eqb Pos.eqb].
  rewrite advance_one by discriminate. rewrite expect_here by (assumption || (destruct tl; discriminate)). cbn [bindO].
  assert (E : (if check TRParen (tl ++ c :: c' :: rest) then Ok ([], tl ++ c :: c' :: rest)
    else in_items (expr_loop (S f)) (List.length (tl ++ c :: c' :: rest)) [] (tl ++ c :: c' :: rest)) = Ok (l, c :: c' :: rest)).
  { destruct l as [|x l].
    - destruct tl; [|discriminate]. cbn [app check]. now rewrite Hc, Z.eqb_refl.
    - assert (Ck : check TRParen (tl ++ c :: c' :: rest) = false).
      { inversion Rl as [|? ? [Nx _] _]; subst. destruct (expr_tokens_head x Nx) as (k & ks & Ek & N & _).
        assert (Hd : exists ks', comma_sep (List.map expr_tokens (x :: l)) = k :: ks').
        { cbn [List.map comma_sep]. rewrite Ek. destruct (List.map expr_tokens l); eexists; reflexivity. }
        destruct Hd as [ks' Hd]. rewrite Hd in Hl. apply kinds_cons in Hl as (b & tl' & -> & Hb & _).
        cbn [app check]. rewrite Hb. apply Z.eqb_neq. intros Eq. apply N. destruct k; try discriminate Eq; reflexivity. }
      rewrite Ck. apply (items_of_in f (x :: l)); auto. }
  rewrite E. cbn [bindO]. now rewrite expect_here.
Qed.

(** ** Every expression is read back *)

Lemma primary_literal f v ts t rest :
  nql_value v = true -> List.map kind ts = value_tokens v -> parse_primary (expr_loop f) (ts ++ t :: rest) = Ok (ELiteral v, t :: rest).
Proof.
  intros Hv Hk. destruct v as [|b| | | | |l|m| |]; try discriminate Hv; cbn [value_tokens] in Hk.
  1-5: apply kinds_cons in Hk as (a & t1 & -> & Ha & H1); destruct t1; [|discriminate]; unfold parse_primary; cbn [app peek_kind];
    rewrite Ha; try (destruct b); now rewrite advance_one.
  all: match type of Hv with nql_value ?v = true => pose proof (value_reads v Hv) as R end;
    pose proof Hk as Hk'; apply kinds_cons in Hk' as (a & t1 & -> & Ha & _); unfold parse_primary; cbn [app peek_kind];
    rewrite Ha; unfold parse_value_literal; change (a :: t1 ++ t :: rest) with ((a :: t1) ++ t :: rest);
    rewrite (R _ (a :: t1) t rest Hk (le_n _)); reflexivity.
Qed.

Lemma parens f e te o c ts t rest :
  ts = o :: te ++ [c] -> kind o = TLParen -> kind c = TRParen ->
  parse_or (expr_loop f) (te ++ c :: t :: rest) = Ok (e, c :: t :: rest) ->
  parse_primary (expr_loop (S f)) (ts ++ t :: rest) = Ok (e, t :: rest).
Proof.
  intros -> Ho Hc H. unfold parse_primary. cbn [app peek_kind]. rewrite Ho. rewrite <- app_assoc. cbn [app].
  rewrite advance_one by (destruct te; discriminate). cbn [expr_loop]. rewrite H. cbn [bindO]. now rewrite expect_here.
Qed.

Lemma expr_reads e : nql_expr e = true -> forall f, reads_expr f e.
Proof.
  induction e as [v|p|op l r IHl IHr|op e IH|e l IH IHl|e mn mx IH IHn IHm] using expr_ind';
    cbn [nql_expr]; intros Hn f ts t rest Hk Hp Hf; cbn [expr_tokens] in Hk.
  - now apply primary_literal.
  - assert (Hd : kind_tag (kind t) <> 60) by (intros Ed; destruct (kind t); try discriminate Ed; cbn in Hp; lia).
    pose proof (field_path_reads p ts t rest Hk Hd) as R.
    destruct (split_join p) as (q & parts & E & _). rewrite E, path_tokens_cons in Hk.
    apply kinds_cons in Hk as (a & t1 & -> & Ha & _). unfold parse_primary. cbn [app peek_kind]. rewrite Ha.
    change (a :: t1 ++ t :: rest) with ((a :: t1) ++ t :: rest). now rewrite R.
  - apply andb_true_iff in Hn as [Nl Nr]. apply kinds_cons in Hk as (o & t1 & -> & Ho & Hk).
    apply kinds_app in Hk as (tl & t2 & -> & Hl & Hk). apply kinds_cons in Hk as (b & t3 & -> & Hb & Hk).
    apply kinds_app in Hk as (tr & t4 & -> & Hr & Hk). apply kinds_cons in Hk as (c & t5 & -> & Hc & Hk). destruct t5; [|discriminate].
    rewrite length_app in Hf. cbn [List.length] in Hf. rewrite !length_app in Hf. cbn [List.length] in Hf. rewrite length_app in Hf. cbn [List.length] in Hf.
    destruct f as [|f]; [lia|]. eapply (parens f _ (tl ++ b :: tr) o c); [now rewrite <- app_assoc|exact Ho|exact Hc|].
    rewrite <- app_assoc. cbn [app]. apply binary_body; auto. rewrite length_app. cbn [List.length]. rewrite length_app. cbn [List.length]. lia.
  - apply kinds_cons in Hk as (o & t1 & -> & Ho & Hk). apply kinds_cons in Hk as (b & t2 & -> & Hb & Hk).
    apply kinds_app in Hk as (te & t4 & -> & He & Hk). apply kinds_cons in Hk as (c & t5 & -> & Hc & Hk). destruct t5; [|discriminate].
    cbn [app List.length] in Hf. rewrite !length_app in Hf. cbn [List.length] in Hf.
    destruct f as [|f]; [lia|]. eapply (parens f _ (b :: te) o c); [reflexivity|exact Ho|exact Hc|].
    cbn [app]. apply unary_body; auto. cbn [List.length]. rewrite length_app. cbn [List.length]. lia.
  - apply andb_true_iff in Hn as [Ne Nl]. apply kinds_cons in Hk as (o & t1 & -> & Ho & Hk).
    apply kinds_app in Hk as (te & t2 & -> & He & Hk). apply kinds_cons in Hk as (i & t3 & -> & Hi & Hk).
    apply kinds_cons in Hk as (q & t4 & -> & Hq & Hk). apply kinds_app in Hk as (tl & t5 & -> & Hl & Hk).
    apply kinds_cons in Hk as (c & t6 & -> & Hc & Hk). apply kinds_cons in Hk as (c' & t7 & -> & Hc' & Hk). destruct t7; [|discriminate].
    assert (Hte : te <> []) by (destruct (expr_tokens_head e Ne) as (k & ks & E & _); intros ->; rewrite E in He; discriminate).
    rewrite length_app in Hf. cbn [List.length] in Hf. rewrite !length_app in Hf. cbn [List.length] in Hf. rewrite length_app in Hf. cbn [List.length] in Hf.
    destruct f as [|[|f]]; [lia..|]. eapply (parens (S f) _ (te ++ i :: q :: tl ++ [c]) o c').
    { rewrite <- !app_assoc. cbn [app]. now rewrite <- app_assoc. }
    { exact Ho. } { exact Hc'. }
    rewrite <- app_assoc. cbn [app]. rewrite <- app_assoc. cbn [app]. apply in_body; auto.
    + rewrite List.Forall_forall in IHl |- *. rewrite forallb_forall in Nl. auto.
    + rewrite length_app. cbn [List.length]. rewrite length_app. cbn [List.length]. lia.
  - apply andb_true_iff in Hn as [Hn Nm]. apply andb_true_iff in Hn as [Ne Nn].
    apply kinds_cons in Hk as (o & t1 & -> & Ho & Hk). apply kinds_app in Hk as (te & t2 & -> & He & Hk).
    apply kinds_cons in Hk as (b & t3 & -> & Hb & Hk). apply kinds_app in Hk as (tn & t4 & -> & Htn & Hk).
    apply kinds_cons in Hk as (a & t5 & -> & Ha & Hk). apply kinds_app in Hk as (tm & t6 & -> & Htm & Hk).
    apply kinds_cons in Hk as (c & t7 & -> & Hc & Hk). destruct t7; [|discriminate].
    rewrite length_app in Hf. cbn [List.length] in Hf. rewrite !length_app in Hf. cbn [List.length] in Hf. rewrite !length_app in Hf.
    cbn [List.length] in Hf. rewrite length_app in Hf. cbn [List.length] in Hf.
    destruct f as [|f]; [lia|]. eapply (parens f _ (te ++ b :: tn ++ a :: tm) o c); [|exact Ho|exact Hc|].
    { rewrite <- app_assoc. cbn [app]. now rewrite <- app_assoc. }
    rewrite <- app_assoc. cbn [app]. rewrite <- app_assoc. cbn [app]. apply between_body; auto.
    rewrite length_app. cbn [List.length]. rewrite length_app. cbn [List.length]. rewrite length_app. cbn [List.length]. lia.
Qed.
End Unparse.
