(* ===== verification/Tokens.v ===== *)
(** The lexer read backwards: the text of a token, and the proof that tokens written one
    after the other are lexed as those tokens. *)

From Stdlib Require Import Decimal DecimalString DecimalPos ZifyBool.
From S2P Require Export Unparse.

(** ** The text of a token *)

Definition ascii_word_start (c : Z) : bool := is_ascii_letter c || (c =? 95).
Definition ascii_word_char (c : Z) : bool := ascii_word_start c || is_ascii_digit c.

(** An identifier of ASCII letters, digits and underscores. *)
Definition word (cs : list Z) : bool :=
  match cs with c :: cs' => ascii_word_start c && forallb ascii_word_char cs' | [] => false end.

(** The text of a string literal between quotes [q]: quotes and backslashes are escaped. *)
Fixpoint escape (q : Z) (cs : list Z) : list Z :=
  match cs with
  | [] => []
  | c :: cs' => if (c =? q) || (c =? c_backslash) then c_backslash :: c :: escape q cs' else c :: escape q cs'
  end.

Definition keyword_text (k : TokenKind) : string :=
  match List.find (fun p => kind_tag p.2 =? kind_tag k) keywords with Some (s, _) => s | None => EmptyString end.

(** A name that is no keyword in any case. *)
Definition plain_name (s : string) : bool :=
  valid_str s && word (chars s)
  && match List.find (fun p => String.eqb p.1 (to_ascii_uppercase s)) keywords with None => true | Some _ => false end.

(** A token, and whether a blank follows it. *)
Abbreviation Item := (TokenKind * bool)%type.

(** Tokens that need no blank between them. *)
Definition tight (k k' : TokenKind) : bool :=
  match k, k' with
  | TDot, _ => true
  | TIdentifier _, TDot => true
  | _, _ => false
  end.

(** How doubles are written, which is not fixed: any decimal literal that is read as the
    double will do. *)
Class FloatText := float_chars : Z -> list Z.

Definition is_minus (cs : list Z) : bool := match cs with c :: _ => c =? 45 | [] => false end.

(** Digits, a dot, digits, with an optional sign, that are read as [f]. *)
Definition float_literal (f : Z) (cs : list Z) : bool :=
  let body := if is_minus cs then skipn 1 cs else cs in
  let (whole, frac) := split_at_dot body in
  bool_decide (body = whole ++ 46 :: frac)
  && (negb (bool_decide (whole = [])) && forallb is_ascii_digit whole)
  && (negb (bool_decide (frac = [])) && forallb is_ascii_digit frac)
  && (parse_f64 (is_minus cs) body =? f).

Section Texts.
Context {FT : FloatText}.

Definition token_chars (k : TokenKind) : list Z :=
  match k with
  | TIdentifier s => chars s
  | TInt i => chars (fmt_int i)
  | TStringLit s => c_dquote :: escape c_dquote (chars s) ++ [c_dquote]
  | TFloat f => float_chars f
  | TEof => []
  | TEqEq => chars "==" | TEq => chars "=" | TBangEq => chars "!=" | TBang => chars "!"
  | TGt => chars ">" | TGtEq => chars ">=" | TLt => chars "<" | TLtEq => chars "<="
  | TAmpAmp => chars "&&" | TPipePipe => chars "||" | TPlus => chars "+" | TMinus => chars "-"
  | TStar => chars "*" | TSlash => chars "/" | TPercent => chars "%" | TLParen => chars "("
  | TRParen => chars ")" | TLBrace => chars "{" | TRBrace => chars "}" | TLBracket => chars "["
  | TRBracket => chars "]" | TComma => chars "," | TColon => chars ":" | TDot => chars "."
  | k => chars (keyword_text k)
  end.

(** Tokens with a text: not the end of the file. *)
Definition writable (k : TokenKind) : bool :=
  match k with
  | TIdentifier s => plain_name s
  | TInt i => in_i64 i
  | TStringLit s => valid_str s
  | TFloat f => float_literal f (float_chars f)
  | TEof => false
  | _ => true
  end.

Fixpoint items_ok (l : list Item) : bool :=
  match l with
  | [] => true
  | (k, sp) :: l' =>
    writable k && items_ok l' && match l' with (k', _) :: _ => sp || tight k k' | [] => true end
  end.

Definition item_chars (i : Item) : list Z := token_chars i.1 ++ (if i.2 then [32] else []).

Definition items_chars (l : list Item) : list Z := List.concat (List.map item_chars l).
End Texts.

(** Tokens with a blank after each. *)
Definition spaced (ks : list TokenKind) : list Item := List.map (fun k => (k, true)) ks.

(** ** Characters of texts *)

Lemma as_bytes_app a b : as_bytes (a ++ b) = (as_bytes a ++ as_bytes b)%list.
Proof.
  unfold as_bytes, String.list_byte_of_string. rewrite <- List.map_app. f_equal.
  induction a as [|x a IH]; [reflexivity|]. exact (f_equal (cons x) IH).
Qed.

Lemma decode_app a b ca cb :
  utf8_decode (as_bytes a) = Some ca -> utf8_decode (as_bytes b) = Some cb ->
  utf8_decode (as_bytes (a ++ b)) = Some (ca ++ cb)%list.
Proof.
  intros [Fa Ea]%utf8_decode_inv [Fb Eb]%utf8_decode_inv. rewrite as_bytes_app, <- Ea, <- Eb.
  unfold utf8_encode. rewrite <- List.concat_app, <- List.map_app. apply utf8_decode_encode. now apply Forall_app.
Qed.

Lemma valid_decodes s : valid_str s = true -> utf8_decode (as_bytes s) = Some (chars s).
Proof. unfold valid_str, utf8_valid, chars. now destruct (utf8_decode (as_bytes s)). Qed.

Lemma chars_app a b : valid_str a = true -> valid_str b = true -> chars (a ++ b) = (chars a ++ chars b)%list.
Proof.
  intros Ha%valid_decodes Hb%valid_decodes. unfold chars at 1. now rewrite (decode_app _ _ _ _ Ha Hb).
Qed.

Lemma valid_app a b : valid_str a = true -> valid_str b = true -> valid_str (a ++ b) = true.
Proof.
  intros Ha%valid_decodes Hb%valid_decodes. unfold valid_str, utf8_valid. now rewrite (decode_app _ _ _ _ Ha Hb).
Qed.

Lemma string_of_chars_of s : valid_str s = true -> string_of_chars (chars s) = s.
Proof.
  unfold valid_str, utf8_valid, chars, string_of_chars. intros H.
  destruct (utf8_decode (as_bytes s)) as [cs|] eqn:E; [|discriminate].
  apply utf8_decode_inv in E as [_ ->]. apply from_as_bytes.
Qed.

(** ** Decimal numbers *)

Fixpoint uint_chars (u : uint) : list Z :=
  match u with
  | Nil => []
  | D0 u => 48 :: uint_chars u | D1 u => 49 :: uint_chars u | D2 u => 50 :: uint_chars u
  | D3 u => 51 :: uint_chars u | D4 u => 52 :: uint_chars u | D5 u => 53 :: uint_chars u
  | D6 u => 54 :: uint_chars u | D7 u => 55 :: uint_chars u | D8 u => 56 :: uint_chars u
  | D9 u => 57 :: uint_chars u
  end.

Lemma uint_decodes u : utf8_decode (as_bytes (NilEmpty.string_of_uint u)) = Some (uint_chars u).
Proof.
  induction u; [reflexivity|..].
  all: cbn [uint_chars]; match goal with |- utf8_decode (as_bytes ?s) = Some (?d :: ?cs) =>
         exact (decode_app (string_of_chars [d]) _ [d] cs eq_refl IHu) end.
Qed.

Lemma uint_digits u : forallb is_ascii_digit (uint_chars u) = true.
Proof. induction u; [reflexivity|..]; exact IHu. Qed.

Lemma digits_of_uint_acc u p :
  fold_left (fun acc c => acc * 10 + (c - 48)) (uint_chars u) (Zpos p) = Zpos (Pos.of_uint_acc u p).
Proof.
  revert p. induction u; intros p; [reflexivity|..]; cbn [uint_chars fold_left Pos.of_uint_acc];
    rewrite <- IHu; f_equal; lia.
Qed.

Lemma digits_of_uint u : digits_value (uint_chars u) = Z.of_N (Pos.of_uint u).
Proof.
  unfold digits_value. induction u; [reflexivity|exact IHu|..]; cbn [uint_chars fold_left Pos.of_uint];
    exact (digits_of_uint_acc u _).
Qed.

Lemma chars_of_pos p :
  exists c cs, chars (fmt_int (Zpos p)) = c :: cs /\ chars (fmt_int (Zneg p)) = chr "-" :: c :: cs
    /\ forallb is_ascii_digit (c :: cs) = true /\ digits_value (c :: cs) = Zpos p.
Proof.
  pose proof (Unsigned.of_to p) as E. set (u := Pos.to_uint p) in *.
  assert (Nu : u <> Nil) by (intros ->; discriminate).
  assert (S : NilZero.string_of_uint u = NilEmpty.string_of_uint u) by (destruct u; easy).
  destruct (uint_chars u) as [|c cs] eqn:Ec; [now destruct u|]. exists c, cs.
  pose proof (uint_decodes u) as D. rewrite Ec in D.
  split; [|split; [|split]].
  - unfold fmt_int, chars. cbn [Z.to_int NilZero.string_of_int]. fold u. now rewrite S, D.
  - unfold fmt_int, chars. cbn [Z.to_int NilZero.string_of_int]. fold u. rewrite S.
    exact (f_equal (fun o => match o with Some x => x | None => [] end) (decode_app "-" _ _ _ eq_refl D)).
  - rewrite <- Ec. apply uint_digits.
  - rewrite <- Ec, digits_of_uint, E. reflexivity.
Qed.

(** ** One token *)

Section LexTokens.
Context {UT : UnicodeTables} {FT : FloatText}.

(** [rest] starts like something that may follow the token. *)
Definition follows (k : TokenKind) (rest : list LChar) : bool :=
  match peek rest, k with
  | None, _ | Some 32, _ | _, TDot => true
  | Some 46, TIdentifier _ => true
  | _, _ => false
  end.

(** At the characters of [k] the lexer produces [k] and stops behind them. *)
Definition lexes (k : TokenKind) (cs : list Z) : Prop :=
  forall located rest : list LChar, List.map snd located = cs -> follows k rest = true ->
  exists (l c ch : Z) (tail : list LChar), (located ++ rest)%list = (l, c, ch) :: tail
    /\ forall sp, lex_step sp ch (located ++ rest) = Ok (Some k, rest).

Lemma located_cons (located : list LChar) c cs :
  List.map snd located = c :: cs -> exists ln col l', located = (ln, col, c) :: l' /\ List.map snd l' = cs.
Proof.
  intros H. apply List.map_eq_cons in H as ([[ln col] c'] & l' & -> & Hc & H). cbn in Hc. subst. eauto.
Qed.

Lemma located_nil (located : list LChar) : List.map snd located = [] -> located = [].
Proof. now destruct located. Qed.

(** Split a located text along its known characters. *)
Ltac located H :=
  repeat (apply located_cons in H as (? & ? & ? & -> & H)); apply located_nil in H; subst.

Lemma word_start_facts c :
  ascii_word_start c = true ->
  is_whitespace c = false /\ (c =? chr "-") = false /\ (c =? chr "/") = false /\ is_quote c = false
  /\ is_ascii_digit c = false /\ is_alphabetic c || (c =? chr "_") = true.
Proof.
  unfold ascii_word_start, is_ascii_letter, is_whitespace, is_quote, c_dquote, is_ascii_digit, is_alphabetic, is_ascii_letter.
  change (chr "-") with 45. change (chr "/") with 47. change (chr "'") with 39. change (chr "_") with 95.
  intros H. assert (E : (c <? 128) = true) by lia. rewrite E. split_and!; lia.
Qed.

Lemma word_char_fact c : ascii_word_char c = true -> is_alphanumeric c || (c =? chr "_") = true.
Proof.
  unfold ascii_word_char, ascii_word_start, is_alphanumeric, is_alphabetic, is_numeric, is_ascii_letter, is_ascii_digit.
  change (chr "_") with 95. intros H. assert (E : (c <? 128) = true) by lia. rewrite E. lia.
Qed.

Lemma ends_word (rest : list LChar) :
  (match peek rest with None | Some 32 | Some 46 => true | _ => false end) = true ->
  lex_ident rest = ([], rest).
Proof.
  destruct rest as [|[[l c] x] rest]; [reflexivity|]. cbn [peek]. intros H.
  assert (x = 32 \/ x = 46) as [-> | ->] by (destruct x as [|p|p]; try discriminate; repeat (destruct p as [p|p|]; try discriminate); auto);
    reflexivity.
Qed.

Lemma lex_ident_word (located : list LChar) cs rest :
  List.map snd located = cs -> forallb ascii_word_char cs = true -> lex_ident rest = ([], rest) ->
  lex_ident (located ++ rest) = (cs, rest).
Proof.
  revert located. induction cs as [|c cs IH]; intros located H Hw Hr.
  - now apply located_nil in H as ->.
  - apply located_cons in H as (ln & col & l' & -> & H). cbn [forallb] in Hw. bool_facts.
    cbn [app lex_ident]. rewrite word_char_fact by assumption. now rewrite IH.
Qed.

Lemma word_lexes k cs :
  word cs = true -> ident_token (string_of_chars cs) = k ->
  (forall rest, follows k rest = true -> (match peek rest with None | Some 32 | Some 46 => true | _ => false end) = true) ->
  lexes k cs.
Proof.
  intros Hw Hk Hf located rest H Hr. destruct cs as [|c cs]; [discriminate|]. cbn [word] in Hw. bool_facts.
  pose proof H as H'. apply located_cons in H' as (ln & col & l' & -> & H').
  exists ln, col, c, (l' ++ rest)%list. split; [reflexivity|]. intros sp.
  destruct (word_start_facts c) as (F1 & F2 & F3 & F4 & F5 & F6); [assumption|].
  unfold lex_step. rewrite F1, F2, F3, F4, F5, F6. cbn [andb orb].
  rewrite (lex_ident_word _ (c :: cs)); [now rewrite Hk|exact H| |now apply ends_word, Hf].
  cbn [forallb]. unfold ascii_word_char at 1. now rewrite H0.
Qed.

(** ** String literals *)

(** With quotes and backslashes escaped, the lexer reads exactly the characters and
    stops after the closing quote. *)
Lemma lex_string_escaped q cs content located rest :
  is_quote q = true -> List.map snd located = (escape q cs ++ [q])%list ->
  lex_string q content (located ++ rest) = Some ((content ++ cs)%list, rest).
Proof.
  intros Hq. assert (Uq : unescape q = q).
  { unfold is_quote, c_dquote in Hq. apply orb_true_iff in Hq as [E|E]; apply Z.eqb_eq in E as ->; reflexivity. }
  revert content located. induction cs as [|c cs IH]; intros content located H; cbn [escape] in H.
  - apply List.map_eq_cons in H as ([[l k] x] & l' & -> & Hx & H). apply List.map_eq_nil in H as ->. cbn in Hx. subst x.
    cbn [app lex_string]. now rewrite Z.eqb_refl, app_nil_r.
  - destruct ((c =? q) || (c =? c_backslash)) eqn:Ec.
    + apply List.map_eq_cons in H as ([[l k] x] & l1 & -> & Hx & H). apply List.map_eq_cons in H as ([[l2 k2] y] & l3 & -> & Hy & H).
      cbn in Hx, Hy. subst x y. cbn [app lex_string].
      assert (Hb : (c_backslash =? q) = false).
      { unfold is_quote, c_dquote in Hq. apply orb_true_iff in Hq as [E|E]; apply Z.eqb_eq in E as ->; reflexivity. }
      rewrite Hb, Z.eqb_refl. rewrite (IH _ _ H), <- app_assoc. cbn [app].
      assert (Uc : unescape c = c) by (apply orb_true_iff in Ec as [E|E]; apply Z.eqb_eq in E as ->; [exact Uq|reflexivity]).
      now rewrite Uc.
    + apply List.map_eq_cons in H as ([[l k] x] & l1 & -> & Hx & H). cbn in Hx. subst x. cbn [app lex_string].
      apply orb_false_iff in Ec as [-> ->]. rewrite (IH _ _ H), <- app_assoc. reflexivity.
Qed.

Lemma string_lexes s : valid_str s = true -> lexes (TStringLit s) (token_chars (TStringLit s)).
Proof.
  intros Hv located rest H _. cbn [token_chars] in H. apply located_cons in H as (ln & col & l' & -> & H).
  exists ln, col, c_dquote, (l' ++ rest)%list. split; [reflexivity|]. intros sp.
  unfold lex_step. cbn [app skipn]. change (is_whitespace c_dquote) with false. change (c_dquote =? chr "-") with false.
  change (c_dquote =? chr "/") with false. change (is_quote c_dquote) with true. cbn [andb orb].
  rewrite skipn_O. rewrite (lex_string_escaped c_dquote (chars s) [] l' rest eq_refl H).
  cbn [app]. now rewrite string_of_chars_of.
Qed.

(** ** Integers *)

Lemma digit_facts c :
  is_ascii_digit c = true -> is_whitespace c = false /\ (c =? chr "-") = false /\ (c =? chr "/") = false /\ is_quote c = false.
Proof.
  unfold is_ascii_digit, is_whitespace, is_quote, c_dquote. change (chr "-") with 45. change (chr "/") with 47.
  change (chr "'") with 39. intros H. split_and!; lia.
Qed.

Lemma lex_number_digits dot (located : list LChar) cs rest :
  List.map snd located = cs -> forallb is_ascii_digit cs = true ->
  (match peek rest with None | Some 32 => true | _ => false end) = true ->
  lex_number dot (located ++ rest) = (cs, dot, rest).
Proof.
  revert located. induction cs as [|c cs IH]; intros located H Hd Hr.
  - apply located_nil in H as ->. destruct rest as [|[[l c] x] rest]; [reflexivity|]. cbn [peek] in Hr.
    assert (x = 32) as -> by (destruct x as [|p|p]; try discriminate; repeat (destruct p as [p|p|]; try discriminate); auto).
    reflexivity.
  - apply located_cons in H as (ln & col & l' & -> & H). cbn [forallb] in Hd. bool_facts.
    cbn [app lex_number]. rewrite H0. now rewrite IH.
Qed.

Lemma int_follows i rest :
  follows (TInt i) rest = true -> (match peek rest with None | Some 32 => true | _ => false end) = true.
Proof. unfold follows. destruct (peek rest) as [[|p|p]|]; auto; repeat (destruct p as [p|p|]; auto). Qed.

Lemma parse_i64_ok (neg : bool) cs i :
  in_i64 i = true -> (if neg then - digits_value cs else digits_value cs) = i -> parse_i64 neg cs = Some i.
Proof. unfold parse_i64. intros H ->. now rewrite H. Qed.

Lemma int_lexes i : in_i64 i = true -> lexes (TInt i) (token_chars (TInt i)).
Proof.
  intros Hi located rest H Hr. apply int_follows in Hr. cbn [token_chars] in H.
  assert (P : forall (c : Z) (cs : list Z) (l' : list LChar), List.map snd l' = (c :: cs)%list -> forallb is_ascii_digit (c :: cs) = true ->
    digits_value (c :: cs) = i -> exists (l k ch : Z) (tail : list LChar), (l' ++ rest)%list = ((l, k, ch) :: tail)%list /\
    forall sp, lex_step sp ch (l' ++ rest) = Ok (Some (TInt i), rest)).
  { intros c cs l' Hl Hd Hv. pose proof Hl as Hl'. apply located_cons in Hl' as (ln & col & l2 & -> & _).
    exists ln, col, c, (l2 ++ rest)%list. split; [reflexivity|]. intros sp.
    pose proof Hd as Hd'. cbn [forallb] in Hd'. bool_facts. destruct (digit_facts c) as (F1 & F2 & F3 & F4); [assumption|].
    unfold lex_step. rewrite F1, F2, F3, F4, H0. cbn [andb orb]. unfold number_token. rewrite F2.
    rewrite (lex_number_digits false _ (c :: cs)) by assumption. cbn [mapO bindO].
    now rewrite (parse_i64_ok false (c :: cs) i). }
  destruct i as [|p|p].
  - apply (P 48 []); [exact H|reflexivity|reflexivity].
  - destruct (chars_of_pos p) as (c & cs & E & _ & Hd & Hv). rewrite E in H. now apply (P c cs).
  - destruct (chars_of_pos p) as (c & cs & _ & E & Hd & Hv). rewrite E in H.
    apply located_cons in H as (ln & col & l' & -> & H). pose proof H as H'.
    apply located_cons in H' as (ln' & col' & l2 & -> & _).
    exists ln, col, (chr "-"), ((ln', col', c) :: l2 ++ rest)%list. split; [reflexivity|]. intros sp.
    cbn [forallb] in Hd. bool_facts. destruct (digit_facts c) as (F1 & F2 & F3 & F4); [assumption|].
    unfold lex_step. cbn [app next_is]. change (is_whitespace (chr "-")) with false. change (is_quote (chr "-")) with false.
    rewrite (Z.eqb_sym (chr "-") c), F2, H0. change ((chr "-" =? chr "/")) with false. cbn [andb orb].
    rewrite Z.eqb_refl, orb_true_r. unfold number_token. rewrite Z.eqb_refl. cbn [skipn].
    change ((ln', col', c) :: l2 ++ rest)%list with (((ln', col', c) :: l2) ++ rest)%list.
    rewrite (lex_number_digits false _ (c :: cs)); [|exact H|cbn [forallb]; now rewrite H0, H1|exact Hr].
    cbn [bindO]. now rewrite (parse_i64_ok true (c :: cs) (Zneg p)); [|assumption|rewrite Hv].
Qed.

(** ** Floats *)

(** A dot and digits after it: the lexer goes on through the dot. *)
Lemma lex_number_point (located : list LChar) whole c frac rest :
  List.map snd located = (whole ++ 46 :: c :: frac)%list -> forallb is_ascii_digit whole = true ->
  forallb is_ascii_digit (c :: frac) = true ->
  (match peek rest with None | Some 32 => true | _ => false end) = true ->
  lex_number false (located ++ rest) = ((whole ++ 46 :: c :: frac)%list, true, rest).
Proof.
  intros H Hw Hd Hr. revert located H. induction whole as [|w whole IH]; intros located H.
  - cbn [app] in H. apply located_cons in H as (l1 & c1 & l' & -> & H). pose proof H as H'.
    apply located_cons in H' as (l2 & c2 & l'' & -> & _).
    pose proof (lex_number_digits true ((l2, c2, c) :: l'') (c :: frac) rest H Hd Hr) as E.
    assert (Dc : is_ascii_digit c = true) by (cbn [forallb] in Hd; now bool_facts).
    cbn [app lex_number peek] in E |- *. change (is_ascii_digit 46) with false. change (46 =? chr ".") with true.
    rewrite Dc in E |- *. cbn [andb negb]. now rewrite E.
  - cbn [app] in H. apply located_cons in H as (l1 & c1 & l' & -> & H). cbn [forallb] in Hw. bool_facts.
    cbn [app lex_number]. rewrite H0. now rewrite IH.
Qed.

Lemma float_follows f rest :
  follows (TFloat f) rest = true -> (match peek rest with None | Some 32 => true | _ => false end) = true.
Proof. unfold follows. destruct (peek rest) as [[|p|p]|]; auto; repeat (destruct p as [p|p|]; auto). Qed.

Lemma float_lexes f : float_literal f (float_chars f) = true -> lexes (TFloat f) (token_chars (TFloat f)).
Proof.
  intros Hf located rest H Hr. apply float_follows in Hr. cbn [token_chars] in H. unfold float_literal in Hf.
  set (cs := float_chars f) in *. clearbody cs. set (body := if is_minus cs then skipn 1 cs else cs) in *.
  destruct (split_at_dot body) as [whole frac] eqn:Es. apply andb_true_iff in Hf as [Hf Hv]. apply andb_true_iff in Hf as [Hf H2].
  apply andb_true_iff in Hf as [Hb H1]. apply bool_decide_eq_true in Hb. apply andb_true_iff in H1 as [N1 D1], H2 as [N2 D2].
  destruct whole as [|w whole]; [discriminate N1|]. destruct frac as [|c frac]; [discriminate N2|]. apply Z.eqb_eq in Hv.
  pose proof D1 as D1'. cbn [forallb] in D1'. apply andb_true_iff in D1' as [Dw _].
  destruct (digit_facts w Dw) as (F1 & F2 & F3 & F4). destruct (is_minus cs) eqn:Em.
  - destruct cs as [|m cs]; [discriminate Em|]. cbn [is_minus] in Em. apply Z.eqb_eq in Em as ->.
    subst body. change (skipn 1 (45 :: cs)) with cs in *. rewrite Hb in H. apply located_cons in H as (ln & col & l' & -> & H). pose proof H as H'.
    apply located_cons in H' as (ln' & col' & l2 & -> & _).
    exists ln, col, 45, ((ln', col', w) :: l2 ++ rest)%list. split; [reflexivity|]. intros sp.
    unfold lex_step. cbn [app next_is]. change (is_whitespace 45) with false. change (is_quote 45) with false.
    rewrite (Z.eqb_sym (chr "-") w), F2, Dw. change (45 =? chr "/") with false. change (45 =? chr "-") with true. cbn [andb orb].
    rewrite orb_true_r. unfold number_token. change (45 =? chr "-") with true. cbn [skipn]. rewrite ?skipn_O.
    change ((ln', col', w) :: l2 ++ rest)%list with (((ln', col', w) :: l2) ++ rest)%list.
    rewrite (lex_number_point _ (w :: whole) c frac rest H D1 D2 Hr). cbn [mapO bindO]. now rewrite <- Hb, Hv.
  - subst body. rewrite Hb in H. pose proof H as H'. cbn [app] in H'. apply located_cons in H' as (ln & col & l' & -> & _).
    exists ln, col, w, (l' ++ rest)%list. split; [reflexivity|]. intros sp.
    unfold lex_step. rewrite F1, F2, F3, F4, Dw. cbn [andb orb]. unfold number_token. rewrite F2.
    rewrite (lex_number_point _ (w :: whole) c frac rest H D1 D2 Hr). cbn [mapO bindO]. now rewrite <- Hb, Hv.
Qed.

(** ** Keywords and symbols *)

Lemma follows_end k rest :
  follows k rest = true -> (forall s, k <> TIdentifier s) -> k <> TDot ->
  rest = [] \/ exists l c tail, rest = ((l, c, 32) :: tail)%list.
Proof.
  unfold follows. intros H N N'. destruct rest as [|[[l c] x] tail]; [auto|]. right. exists l, c, tail. cbn [peek] in H.
  assert (x = 32) as ->; [|reflexivity].
  destruct k; try (now destruct (N s)); try (now destruct N'); destruct x as [|p|p]; try discriminate;
    repeat (destruct p as [p|p|]; try discriminate); reflexivity.
Qed.

Lemma keyword_follows k rest :
  follows k rest = true -> k <> TDot -> (match peek rest with None | Some 32 | Some 46 => true | _ => false end) = true.
Proof.
  unfold follows. intros H N. destruct (peek rest) as [x|]; [|reflexivity].
  destruct x as [|p|p]; destruct k; try discriminate; try (now destruct N); repeat (destruct p as [p|p|]; try discriminate); reflexivity.
Qed.

Lemma name_lexes s : plain_name s = true -> lexes (TIdentifier s) (chars s).
Proof.
  unfold plain_name. intros H. bool_facts. apply word_lexes; [assumption| |].
  - rewrite string_of_chars_of by assumption. unfold ident_token. destruct (List.find _ keywords); [discriminate|reflexivity].
  - intros rest Hr. apply (keyword_follows (TIdentifier s)); [exact Hr|discriminate].
Qed.

Lemma dot_lexes : lexes TDot (chars ".").
Proof.
  intros located rest H _. change (chars ".") with [46] in H. apply located_cons in H as (l & c & l' & -> & H).
  apply located_nil in H as ->. exists l, c, 46, rest. split; [reflexivity|]. intros sp. reflexivity.
Qed.

Lemma token_lexes k : writable k = true -> lexes k (token_chars k).
Proof.
  destruct k; intros H; try discriminate H; try (apply word_lexes; [reflexivity|reflexivity|intros rest Hr; exact (keyword_follows _ _ Hr ltac:(discriminate))]);
    try (apply int_lexes, H); try (apply float_lexes, H); try (apply string_lexes, H); try (apply name_lexes, H); try apply dot_lexes.
  all: intros located rest E Hr; apply follows_end in Hr; [|discriminate|discriminate].
  all: match type of E with _ = token_chars ?k => let cs := eval vm_compute in (token_chars k) in change (token_chars k) with cs in E end.
  all: repeat (apply located_cons in E as (? & ? & ? & -> & E)); apply located_nil in E as ->.
  all: destruct Hr as [->|(? & ? & ? & ->)]; do 4 eexists; (split; [reflexivity|]); intros sp; reflexivity.
Qed.

(** ** Sequences of tokens *)

Lemma lex_loop_fuel fuel all rest :
  (List.length rest <= fuel)%nat -> lex_loop fuel all rest = lex_loop (List.length rest) all rest.
Proof.
  revert rest. induction fuel as [fuel IH] using (well_founded_induction lt_wf). intros rest L.
  destruct rest as [|[[l c] ch] rest]; [now destruct fuel|]. destruct fuel as [|fuel]; [cbn in L; lia|].
  cbn [lex_loop List.length]. destruct (lex_step _ ch _) as [[k r]| |] eqn:E; cbn [bindO]; [|reflexivity..].
  pose proof (lex_step_shorter _ _ _ _ _ _ _ E) as Hr. cbn in L.
  rewrite (IH fuel) by lia. destruct (Nat.eq_dec (S (List.length rest)) (S fuel)) as [Eq|N].
  - replace (List.length rest) with fuel by lia. now rewrite (IH fuel) by lia.
  - now rewrite (IH (List.length rest)) by lia.
Qed.

(** The lexer from a place on, with fuel enough. *)
Definition lexed (all rest : list LChar) : result (list Token) := lex_loop (List.length rest) all rest.

Lemma lexed_step all l c ch tail k r :
  (forall sp, lex_step sp ch ((l, c, ch) :: tail) = Ok (k, r)) ->
  lexed all ((l, c, ch) :: tail)
  = let? ts := lexed all r in
    Ok (match k with Some k => {| kind := k; span := current_span all ((l, c, ch) :: tail) |} :: ts | None => ts end).
Proof.
  intros H. unfold lexed. cbn [List.length lex_loop]. pose proof (lex_step_shorter _ _ _ _ _ _ _ (H {| line := 0; column := 0 |})) as L.
  rewrite H. cbn [bindO]. now rewrite lex_loop_fuel.
Qed.

Lemma blank_lexed all l c tail : lexed all ((l, c, 32) :: tail) = lexed all tail.
Proof.
  rewrite (lexed_step all l c 32 tail None tail) by reflexivity. now destruct (lexed all tail).
Qed.

Lemma follows_dot rest : follows TDot rest = true.
Proof. unfold follows. destruct (peek rest) as [[|p|p]|]; auto; repeat (destruct p as [p|p|]; auto). Qed.

Lemma follows_blank k l c tail : follows k ((l, c, 32) :: tail) = true.
Proof. reflexivity. Qed.

Lemma follows_tight k k' located :
  tight k k' = true -> (exists cs, List.map snd located = (token_chars k' ++ cs)%list) -> follows k located = true.
Proof.
  intros T [cs H]. destruct k; try discriminate; [|apply follows_dot]. destruct k'; try discriminate.
  change (token_chars TDot) with [46] in H. apply located_cons in H as (l & c & l' & -> & _). reflexivity.
Qed.

Lemma items_lexed all l located :
  items_ok l = true -> List.map snd located = items_chars l ->
  exists ts sp, lexed all located = Ok (ts ++ [{| kind := TEof; span := sp |}])%list /\ List.map kind ts = List.map fst l.
Proof.
  revert located. induction l as [|[k sp] l IH]; intros located Hok H; unfold items_chars in H; cbn [List.map List.concat] in H.
  - apply located_nil in H as ->. exists [], (current_span all []). now split.
  - fold (items_chars l) in H. cbn [items_ok] in Hok. bool_facts. unfold item_chars in H. cbn [fst snd] in H.
    rewrite <- app_assoc in H. apply List.map_eq_app in H as (lk & rest & -> & Hk & Hrest).
    assert (F : follows k rest = true).
    { destruct sp; cbn [app] in Hrest; [apply located_cons in Hrest as (? & ? & ? & -> & _); reflexivity|].
      destruct l as [|[k' sp'] l]; [apply located_nil in Hrest as ->; reflexivity|]. cbn [orb] in H1.
      apply (follows_tight k k'); [assumption|]. exists ((if sp' then [32] else []) ++ items_chars l)%list.
      rewrite Hrest. unfold items_chars. cbn [List.map List.concat]. unfold item_chars at 1. cbn [fst snd]. now rewrite <- app_assoc. }
    destruct (token_lexes k) with (located := lk) (rest := rest) as (ln & col & ch & tail & E & Hs); [assumption|exact Hk|exact F|].
    rewrite E in *. rewrite (lexed_step all ln col ch tail (Some k) rest Hs).
    assert (G : exists located', lexed all rest = lexed all located' /\ List.map snd located' = items_chars l).
    { destruct sp; cbn [app] in Hrest; [|eauto]. apply located_cons in Hrest as (l1 & c1 & l' & -> & Hrest).
      exists l'. split; [apply blank_lexed|exact Hrest]. }
    destruct G as (located' & -> & Hl). destruct (IH located' ltac:(assumption) Hl) as (ts & spn & -> & Ek).
    cbn [bindO]. eexists (_ :: ts), spn. split; [reflexivity|]. cbn [List.map kind fst]. now rewrite Ek.
Qed.

Lemma locate_chars ln col cs : List.map snd (locate ln col cs) = cs.
Proof.
  revert ln col. induction cs as [|c cs IH]; intros ln col; [reflexivity|]. cbn [locate List.map snd]. f_equal. destruct (c =? c_newline); apply IH.
Qed.

(** Tokens written with blanks where they need them are lexed as those tokens. *)
Lemma tokenize_items l s :
  items_ok l = true -> chars s = items_chars l ->
  exists ts sp, tokenize (lexer_new s) = Ok (ts ++ [{| kind := TEof; span := sp |}])%list /\ List.map kind ts = List.map fst l.
Proof.
  intros Hok Hs. unfold tokenize. apply (items_lexed (lexer_new s) l); [exact Hok|].
  unfold lexer_new. now rewrite locate_chars.
Qed.

Lemma items_ok_spaced ks : forallb writable ks = true -> items_ok (spaced ks) = true.
Proof.
  induction ks as [|k ks IH]; [reflexivity|]. cbn [forallb spaced List.map items_ok]. intros H. bool_facts.
  fold (spaced ks). rewrite H, IH by assumption. now destruct (spaced ks) as [|[]].
Qed.

Lemma items_ok_app l ks :
  items_ok l = true -> (match last l with Some (k, sp) => sp = true | None => True end) ->
  forallb writable ks = true -> items_ok (l ++ spaced ks) = true.
Proof.
  intros Hl HL Hk. pose proof (items_ok_spaced ks Hk) as Hs. induction l as [|[k sp] l IH]; [exact Hs|].
  cbn [app items_ok] in *. bool_facts. destruct l as [|[k' sp'] l].
  - cbn in HL. subst sp. rewrite H. cbn [app]. rewrite Hs. now destruct (spaced ks) as [|[]].
  - rewrite IH; [|assumption|exact HL]. rewrite H. cbn [app]. exact H0.
Qed.
End LexTokens.
