(* ===== verification/Phrases.v ===== *)
(** Statements read backwards: the tokens of a statement, and the proof that the parser
    reads them back. *)

From S2P Require Export Tokens.

(** ** The tokens of a statement *)

Definition where_tokens (filter : option Expr) : list TokenKind :=
  match filter with Some e => TWhere :: expr_tokens e | None => [] end.

Definition sort_tokens (sort : option SortClause) : list TokenKind :=
  match sort with
  | Some c => TSort :: path_tokens (split_dot (sort_field c))
              ++ [match sort_direction c with Asc => TAsc | Desc => TDesc end]
  | None => []
  end.

Definition page_tokens (k : TokenKind) (n : option Z) : list TokenKind :=
  match n with Some n => [k; TInt n] | None => [] end.

Definition assignment_tokens (a : Assignment) : list TokenKind :=
  path_tokens (split_dot (as_field a)) ++ TEq :: expr_tokens (as_expr a).

(** The object an INSERT writes: the fields with the identifier among them. *)
Definition insert_object (d : Document) : list (string * Value) :=
  bt_insert str_cmp "_id"%string (VString (id d)) (fields d).

Definition statement_tokens (st : Statement) : list TokenKind :=
  match st with
  | SFind coll filter sort limit offset =>
    [TFind; TIdentifier coll] ++ where_tokens filter ++ sort_tokens sort ++ page_tokens TLimit limit
    ++ page_tokens TOffset offset
  | SInsert coll d =>
    [TInsert; TInto; TIdentifier coll; TValues; TLParen] ++ value_tokens (VObject (insert_object d)) ++ [TRParen]
  | SUpdate coll asg filter =>
    [TUpdate; TIdentifier coll; TSet] ++ comma_sep (List.map assignment_tokens asg) ++ where_tokens filter
  | SRemove coll filter => [TRemove; TIdentifier coll] ++ where_tokens filter
  | SWatch coll filter => [TWatch; TIdentifier coll] ++ where_tokens filter
  | SCount coll filter => [TCount; TIdentifier coll] ++ where_tokens filter
  | SExists coll filter => [TExists; TIdentifier coll] ++ where_tokens filter
  | SCreateIndex coll field ty =>
    [TCreate; TIndex; TIdentifier coll; TDot] ++ path_tokens (split_dot field)
    ++ [TType; match ty with Hash => THash | _ => TOrdered end]
  | SDropIndex coll field => [TDrop; TIndex; TIdentifier coll; TDot] ++ path_tokens (split_dot field)
  | SBegin => [TBegin]
  | SCommit => [TCommit]
  | SRollback => [TRollback]
  end.

Definition nql_filter (filter : option Expr) : bool :=
  match filter with Some e => nql_expr e | None => true end.

Definition nql_page (n : option Z) : bool := match n with Some n => 0 <=? n | None => true end.

(** What NQL can say.  A document comes from INSERT with the time of the parse and its
    first version. *)
Definition nql_statement (now : Z) (st : Statement) : bool :=
  match st with
  | SFind _ filter _ limit offset => nql_filter filter && nql_page limit && nql_page offset
  | SInsert _ d =>
    sortedb str_cmp (fields d) && forallb (fun p => nql_value p.2) (fields d)
    && forallb (fun p => negb (String.eqb p.1 "_id" || String.eqb p.1 "id")) (fields d)
    && (version d =? 1) && (created_at d =? now) && (updated_at d =? now)
    && match DocId.new (id d) with Ok i => String.eqb i (id d) | _ => false end
  | SUpdate _ asg filter =>
    match asg with [] => false | _ => forallb (fun a => nql_expr (as_expr a)) asg end && nql_filter filter
  | SRemove _ filter | SWatch _ filter | SCount _ filter | SExists _ filter => nql_filter filter
  | SCreateIndex _ _ ty => match ty with PrimaryKey => false | _ => true end
  | SDropIndex _ _ | SBegin | SCommit | SRollback => true
  end.

Section Phrases.
Context {TD : TokenDebug}.

(** ** Clauses *)

Lemma parse_expr_reads e ts t rest :
  nql_expr e = true -> List.map kind ts = expr_tokens e -> prec (kind t) = 0%nat ->
  parse_expr (ts ++ t :: rest) = Ok (e, t :: rest).
Proof.
  intros Hn Hk Hp. unfold parse_expr. apply or_reads; [exact Hn|now apply expr_reads|exact Hk|exact Hp|lia].
Qed.

(** Where in a statement a token stands: WHERE, SORT, LIMIT, OFFSET, the end. *)
Definition stage (k : TokenKind) : nat :=
  match k with TWhere => 1 | TSort => 2 | TLimit => 3 | TOffset => 4 | TEof => 5 | _ => 0 end.

Definition from_stage (n : nat) (ts : list Token) : Prop :=
  exists t rest, ts = t :: rest /\ (n <= stage (kind t))%nat.

Lemma from_stage_app n ts rest k ks :
  List.map kind ts = (k :: ks)%list -> (n <= stage k)%nat -> from_stage n (ts ++ rest).
Proof. intros (t & ts' & -> & <- & _)%kinds_cons H. exists t, (ts' ++ rest)%list. now split. Qed.

Lemma from_stage_none n m ts rest : List.map kind ts = [] -> (n <= m)%nat -> from_stage m rest -> from_stage n (ts ++ rest).
Proof. intros ->%map_eq_nil H (t & r & -> & Hs). exists t, r. split; [reflexivity|lia]. Qed.

(** Tokens with one tag stand in one place. *)
Lemma stage_of_tag k k' : kind_tag k = kind_tag k' -> stage k = stage k'.
Proof.
  set (of_tag n := if n =? kind_tag TWhere then 1%nat else if n =? kind_tag TSort then 2%nat
    else if n =? kind_tag TLimit then 3%nat else if n =? kind_tag TOffset then 4%nat
    else if n =? kind_tag TEof then 5%nat else 0%nat).
  assert (E : forall k, stage k = of_tag (kind_tag k)) by (intros []; reflexivity).
  intros H. now rewrite !E, H.
Qed.

(** A token of a later stage is none of these. *)
Lemma later_is_not n ts k :
  from_stage n ts -> (stage k < n)%nat -> match_token k ts = (false, ts).
Proof. intros (t & r & -> & Hs) Hk. apply match_not. intros E%stage_of_tag. lia. Qed.

Lemma from_stage_ne n ts : from_stage n ts -> ts <> [].
Proof. now intros (t & r & -> & _). Qed.

Lemma from_stage_prec n t r : from_stage (S n) (t :: r) -> prec (kind t) = 0%nat.
Proof. intros (t' & r' & [= <- <-] & H). destruct (kind t); cbn in *; try reflexivity; lia. Qed.

Lemma where_reads filter ts rest :
  nql_filter filter = true -> List.map kind ts = where_tokens filter -> from_stage 2 rest ->
  parse_where (ts ++ rest) = Ok (filter, rest).
Proof.
  intros Hn Hk Hr. unfold parse_where. destruct filter as [e|]; cbn [where_tokens nql_filter] in *.
  - apply kinds_cons in Hk as (w & te & -> & Hw & Hk). cbn [app].
    rewrite match_here; [|exact Hw|destruct te; [now apply from_stage_ne in Hr|discriminate]].
    pose proof Hr as Hr'. destruct Hr as (t & r & -> & Hs). rewrite (parse_expr_reads e); auto. now apply from_stage_prec in Hr'.
  - apply map_eq_nil in Hk as ->. cbn [app]. rewrite (later_is_not 2) by (assumption || (cbn; lia)). reflexivity.
Qed.

Lemma identifier_reads msg coll t rest :
  kind t = TIdentifier coll -> rest <> [] -> expect_identifier msg (t :: rest) = Ok (coll, rest).
Proof. intros Hk Hr. unfold expect_identifier. cbn [peek_kind]. now rewrite Hk, advance_one. Qed.

Lemma page_reads k msg n ts rest m :
  nql_page n = true -> List.map kind ts = page_tokens k n -> from_stage m rest -> (stage k < m)%nat ->
  (let (here, ts) := match_token k (ts ++ rest) in
   if here then let? (n, ts) := parse_usize msg ts in Ok (Some n, ts) else Ok (None, ts)) = Ok (n, rest).
Proof.
  intros Hn Hk Hr Hs. destruct n as [n|]; cbn [page_tokens nql_page] in *.
  - apply kinds_cons in Hk as (t & t1 & -> & Ht & Hk). apply kinds_cons in Hk as (i & t2 & -> & Hi & Hk).
    apply map_eq_nil in Hk as ->. cbn [app]. rewrite match_here by (assumption || discriminate).
    unfold parse_usize. cbn [peek_kind]. rewrite Hi, Hn. cbn [bindO]. rewrite advance_one by now apply from_stage_ne in Hr. reflexivity.
  - apply map_eq_nil in Hk as ->. cbn [app]. rewrite (later_is_not m) by (assumption || (cbn; lia)). reflexivity.
Qed.

Lemma sort_reads sort ts rest :
  List.map kind ts = sort_tokens sort -> from_stage 3 rest ->
  (let (sort_, ts) := match_token TSort (ts ++ rest) in
   if sort_ then
     let? (field, ts) := parse_field_path ts in
     let (desc, ts) := match_token TDesc ts in
     if desc then Ok (Some {| sort_field := field; sort_direction := Desc |}, ts)
     else
       let (_, ts) := match_token TAsc ts in
       Ok (Some {| sort_field := field; sort_direction := Asc |}, ts)
   else Ok (None, ts)) = Ok (sort, rest).
Proof.
  intros Hk Hr. pose proof (from_stage_ne _ _ Hr) as Ne. destruct sort as [[field dir]|]; cbn [sort_tokens] in Hk.
  - apply kinds_cons in Hk as (t & t1 & -> & Ht & Hk). apply kinds_app in Hk as (tp & t2 & -> & Hp & Hk).
    apply kinds_cons in Hk as (d & t3 & -> & Hd & Hk). apply map_eq_nil in Hk as ->. cbn [sort_field sort_direction] in *.
    cbn [app]. rewrite match_here by (assumption || (destruct tp; discriminate)). rewrite <- app_assoc. cbn [app].
    rewrite (field_path_reads field) by (assumption || (rewrite Hd; destruct dir; discriminate)). cbn [bindO].
    destruct dir; [rewrite match_not by (rewrite Hd; discriminate)|]; now rewrite match_here.
  - apply map_eq_nil in Hk as ->. cbn [app]. rewrite (later_is_not 3) by (assumption || (cbn; lia)). reflexivity.
Qed.

Lemma assignments_read asg : asg <> [] -> forallb (fun a => nql_expr (as_expr a)) asg = true ->
  forall fuel acc ts rest, List.map kind ts = comma_sep (List.map assignment_tokens asg) ->
  from_stage 1 rest -> (List.length (ts ++ rest) <= fuel)%nat ->
  assignments_loop fuel acc (ts ++ rest) = Ok ((acc ++ asg)%list, rest).
Proof.
  induction asg as [|[field e] asg IH]; intros Hne Hn fuel acc ts rest Hk Hr Hf; [contradiction|]. clear Hne.
  cbn [forallb as_expr] in Hn. apply andb_true_iff in Hn as [He Hn]. pose proof (from_stage_ne _ _ Hr) as Nr.
  assert (K : exists tk tl, ts = (tk ++ tl)%list /\ List.map kind tk = assignment_tokens {| as_field := field; as_expr := e |}
    /\ match asg with
       | [] => tl = []
       | _ => exists c tl', tl = c :: tl' /\ kind c = TComma /\ List.map kind tl' = comma_sep (List.map assignment_tokens asg)
       end).
  { destruct asg as [|a asg]; cbn [List.map comma_sep] in Hk.
    - exists ts, []. rewrite app_nil_r. auto.
    - apply kinds_app in Hk as (tk & t2 & -> & Htk & Hk). apply kinds_cons in Hk as (c & tl' & -> & Hc & Hk). eauto 9. }
  destruct K as (tk & tl & -> & Hk' & Hl). unfold assignment_tokens in Hk'. cbn [as_field as_expr] in Hk'.
  apply kinds_app in Hk' as (tp & t1 & -> & Hp & Hk'). apply kinds_cons in Hk' as (q & te & -> & Hq & Hk').
  assert (Nx : exists t r, (tl ++ rest)%list = t :: r /\ prec (kind t) = 0%nat /\ (asg <> [] -> kind t = TComma)
      /\ (asg = [] -> (1 <= stage (kind t))%nat)).
  { destruct asg as [|a asg].
    - subst tl. pose proof Hr as Hr'. destruct Hr as (t & r & -> & Hs). exists t, r.
      split; [reflexivity|]. split; [now apply from_stage_prec in Hr'|]. split; [easy|intros _; exact Hs].
    - destruct Hl as (c & tl' & -> & Hc & _). exists c, (tl' ++ rest)%list. rewrite Hc. split; [reflexivity|]. repeat split; easy. }
  destruct Nx as (t & r & Et & Pt & Ct & St). rewrite <- ?app_assoc in *. cbn [app] in *. rewrite <- ?app_assoc in *.
  destruct fuel as [|fuel]; [rewrite !length_app in Hf; cbn in Hf; lia|]. cbn [assignments_loop].
  rewrite (field_path_reads field) by (assumption || (rewrite Hq; discriminate)). cbn [bindO].
  unfold check at 1. rewrite Hq. change (kind_tag TEq =? kind_tag TEq) with true. cbn [orb].
  rewrite advance_one by (destruct te; [cbn; rewrite Et; discriminate|discriminate]).
  rewrite Et. rewrite (parse_expr_reads e) by assumption. cbn [bindO]. rewrite <- Et.
  destruct asg as [|a asg].
  - subst tl. cbn [app]. rewrite (later_is_not 1) by (assumption || (cbn; lia)). reflexivity.
  - destruct Hl as (c & tl' & -> & Hc & Hl). cbn [app]. rewrite match_here by (assumption || (destruct tl'; [exact Nr|discriminate])).
    rewrite (IH ltac:(discriminate) Hn fuel _ tl' rest Hl Hr).
    + now rewrite <- app_assoc.
    + repeat (rewrite length_app in Hf || (progress cbn [List.length] in Hf)). rewrite length_app. lia.
Qed.

(** ** The document of an INSERT *)

Lemma insert_split (v : Value) m :
  forallb (fun p => negb (String.eqb p.1 "_id" || String.eqb p.1 "id")) m = true ->
  exists l1 l2, bt_insert str_cmp "_id"%string v m = (l1 ++ ("_id"%string, v) :: l2)%list /\ m = (l1 ++ l2)%list.
Proof.
  induction m as [|[k w] m IH]; cbn [bt_insert forallb fst]; intros H; [now exists [], []|]. apply andb_true_iff in H as [Hk Hm].
  destruct (str_cmp "_id" k) eqn:E.
  - apply str_cmp_eq in E. subst k. discriminate.
  - now exists [], ((k, w) :: m).
  - destruct (IH Hm) as (l1 & l2 & E1 & E2). exists ((k, w) :: l1), l2. cbn. now rewrite <- E1, <- E2.
Qed.

Definition with_id (d : Document) (i : DocumentId) : Document :=
  {| id := i; version := version d; created_at := created_at d; updated_at := updated_at d; fields := fields d |}.

Lemma document_of_insert now gen d :
  nql_statement now (SInsert EmptyString d) = true -> document_of_object now gen (insert_object d) = d.
Proof.
  cbn [nql_statement]. intros H. bool_facts. destruct (DocId.new (id d)) as [i| |] eqn:Ei; try discriminate.
  apply String.eqb_eq in H0. subst i. unfold insert_object, document_of_object.
  destruct (insert_split (VString (id d)) (fields d)) as (l1 & l2 & -> & E); [assumption|].
  set (step := fun (doc : Document) (p : string * Value) => _).
  assert (F : forall m doc, forallb (fun p => negb (String.eqb p.1 "_id" || String.eqb p.1 "id")) m = true ->
    fold_left step m doc = Doc.set_fields doc (fold_left (fun acc p => bt_insert str_cmp p.1 p.2 acc) m (fields doc))).
  { induction m as [|[k w] m IH]; intros doc Hm; [now destruct doc|]. cbn [forallb fst] in Hm. apply andb_true_iff in Hm as [Hk Hm].
    cbn [fold_left]. rewrite IH by assumption. unfold step. cbn [fst snd]. apply negb_true_iff in Hk. now rewrite Hk. }
  rewrite E, forallb_app in H4. apply andb_true_iff in H4 as [K1 K2].
  rewrite fold_left_app. cbn [fold_left]. rewrite (F l1), (F l2) by assumption.
  assert (S : forall doc, step doc ("_id"%string, VString (id d)) = with_id doc (id d)).
  { intros doc. unfold step. cbn. now rewrite Ei. }
  rewrite S. unfold with_id, Doc.set_fields, Doc.new. cbn [id version created_at updated_at fields].
  rewrite <- fold_left_app, <- E, (obj_rebuild (fun v => v)) by assumption.
  assert (M : List.map (fun p : string * Value => (p.1, p.2)) (fields d) = fields d).
  { rewrite <- (List.map_id (fields d)) at 2. apply List.map_ext. now intros []. }
  rewrite M. destruct d. cbn in *. congruence.
Qed.

Lemma insert_object_value d :
  sortedb str_cmp (fields d) = true -> forallb (fun p => nql_value p.2) (fields d) = true ->
  forallb (fun p => negb (String.eqb p.1 "_id" || String.eqb p.1 "id")) (fields d) = true ->
  nql_value (VObject (insert_object d)) = true.
Proof.
  intros Hs Hv Hk. cbn [nql_value]. apply andb_true_iff. split.
  - apply (wf_sortedb str_cmp (P := fun _ => True)). apply bt_insert_wf; [exact _|exact I|].
    apply (sortedb_wf str_cmp); [now apply Forall_true|assumption].
  - unfold insert_object. destruct (insert_split (VString (id d)) (fields d) Hk) as (l1 & l2 & -> & E).
    rewrite E, forallb_app in Hv. apply andb_true_iff in Hv as [H1 H2]. rewrite forallb_app, H1. cbn [forallb snd nql_value].
    now rewrite H2.
Qed.

(** ** Statements *)

(** Split the tokens at the keywords the statement starts with. *)
Ltac heads H :=
  repeat (apply kinds_cons in H; destruct H as (? & ? & -> & ? & H)); cbn [app] in *.

Lemma statement_reads now gen st ts eof :
  nql_statement now st = true -> List.map kind ts = statement_tokens st -> kind eof = TEof ->
  parse_statement now gen (ts ++ [eof]) = Ok (st, [eof]).
Proof.
  intros Hn Hk He.
  assert (End : forall n, (n <= 5)%nat -> from_stage n [eof]) by (intros n L; exists eof, []; now rewrite He).
  assert (W : forall filter tw, List.map kind tw = where_tokens filter -> from_stage 1 (tw ++ [eof])).
  { intros [e|] tw H; [now apply (from_stage_app 1 tw _ TWhere (expr_tokens e))|apply (from_stage_none 1 1 tw); [exact H|lia|apply End; lia]]. }
  assert (Nw : forall l : list Token, (l ++ [eof])%list <> []) by (intros []; discriminate).
  destruct st; cbn [statement_tokens] in Hk; cbn [nql_statement] in Hn.
  - bool_facts. heads Hk. apply kinds_app in Hk as (tw & t1 & -> & Hw & Hk). apply kinds_app in Hk as (tsort & t2 & -> & Hs & Hk).
    apply kinds_app in Hk as (tl & to & -> & Hl & Ho). rewrite <- !app_assoc.
    assert (S4 : from_stage 4 (to ++ [eof])).
    { destruct offset as [n|]; [now apply (from_stage_app 4 to _ TOffset [TInt n])|apply (from_stage_none 4 5 to); auto with lia]. }
    assert (S3 : from_stage 3 (tl ++ to ++ [eof])).
    { destruct limit as [n|]; [now apply (from_stage_app 3 tl _ TLimit [TInt n])|apply (from_stage_none 3 4 tl); auto with lia]. }
    assert (S2 : from_stage 2 (tsort ++ tl ++ to ++ [eof])).
    { destruct sort as [c|]; [now apply (from_stage_app 2 tsort _ TSort (path_tokens (split_dot (sort_field c)) ++ [match sort_direction c with Asc => TAsc | Desc => TDesc end]))|apply (from_stage_none 2 3 tsort); auto with lia]. }
    unfold parse_statement, parse_find. cbn [peek_kind]. rewrite H2, advance_one by discriminate.
    rewrite (identifier_reads _ collection) by (assumption || (destruct tw; [now apply from_stage_ne in S2|discriminate])).
    cbn [bindO]. rewrite (where_reads filter) by assumption. cbn [bindO].
    rewrite (sort_reads sort) by assumption. cbn [bindO].
    rewrite (page_reads TLimit _ limit _ _ 4) by (assumption || (cbn; lia)). cbn [bindO].
    now rewrite (page_reads TOffset _ offset _ _ 5) by (assumption || (cbn; lia) || (apply End; lia)).
  - pose proof (document_of_insert now gen document Hn) as D. bool_facts.
    do 5 (apply kinds_cons in Hk as (? & ? & -> & ? & Hk)). cbn [app].
    apply kinds_app in Hk as (tv & t1 & -> & Hv & Hk). apply kinds_cons in Hk as (c & t2 & -> & Hc & Hk). apply map_eq_nil in Hk as ->.
    rewrite <- app_assoc. cbn [app]. unfold parse_statement, parse_insert. cbn [peek_kind].
    match goal with Hi : kind _ = TInsert |- _ => rewrite Hi end. rewrite advance_one by discriminate.
    rewrite match_here by (assumption || discriminate). rewrite (identifier_reads _ collection) by (assumption || discriminate).
    cbn [bindO]. rewrite expect_here by (assumption || discriminate). cbn [bindO].
    rewrite match_here by (assumption || (destruct tv; discriminate)). unfold parse_value_literal.
    rewrite (value_reads (VObject (insert_object document))) by (assumption || lia || now apply insert_object_value).
    cbn [bindO]. rewrite expect_here by (assumption || discriminate). cbn [bindO]. now rewrite D.
  - apply andb_true_iff in Hn as [Ha Hf]. heads Hk. apply kinds_app in Hk as (ta & tw & -> & Hta & Hw). rewrite <- app_assoc.
    assert (Na : assignments <> []) by (intros ->; discriminate). unfold parse_statement, parse_update. cbn [peek_kind].
    match goal with Hi : kind _ = TUpdate |- _ => rewrite Hi end. rewrite advance_one by discriminate.
    rewrite (identifier_reads _ collection) by (assumption || discriminate). cbn [bindO].
    rewrite expect_here by (assumption || (destruct ta; [apply Nw|discriminate])). cbn [bindO].
    rewrite (assignments_read assignments) by first [assumption|exact (W _ _ Hw)|lia|now destruct assignments]. cbn [bindO app].
    now rewrite (where_reads filter) by auto with lia.
  - heads Hk. unfold parse_statement, parse_remove. cbn [peek_kind]. rewrite H, advance_one by discriminate.
    rewrite (identifier_reads _ collection) by auto. cbn [bindO]. now rewrite (where_reads filter) by auto with lia.
  - heads Hk. unfold parse_statement, parse_watch. cbn [peek_kind]. rewrite H, advance_one by discriminate.
    rewrite (identifier_reads _ collection) by auto. cbn [bindO]. now rewrite (where_reads filter) by auto with lia.
  - heads Hk. unfold parse_statement, parse_count. cbn [peek_kind]. rewrite H, advance_one by discriminate.
    rewrite (identifier_reads _ collection) by auto. cbn [bindO]. now rewrite (where_reads filter) by auto with lia.
  - heads Hk. unfold parse_statement, parse_exists. cbn [peek_kind]. rewrite H, advance_one by discriminate.
    rewrite (identifier_reads _ collection) by auto. cbn [bindO]. now rewrite (where_reads filter) by auto with lia.
  - heads Hk. apply kinds_app in Hk as (tp & t1 & -> & Hp & Hk). heads Hk. apply map_eq_nil in Hk as ->.
    rewrite <- app_assoc. cbn [app]. unfold parse_statement, parse_create_index. cbn [peek_kind].
    match goal with Hi : kind _ = TCreate |- _ => rewrite Hi end. rewrite advance_one by discriminate.
    rewrite expect_here by (assumption || discriminate). cbn [bindO]. unfold parse_index_target.
    rewrite (identifier_reads _ collection) by (assumption || discriminate). cbn [bindO].
    rewrite match_here by (assumption || (destruct tp; discriminate)).
    match goal with Ht : kind _ = TType |- _ =>
      rewrite (field_path_reads field) by (assumption || (rewrite Ht; discriminate)) end. cbn [bindO].
    rewrite match_here by (assumption || discriminate). destruct index_type; try discriminate.
    + now rewrite match_here by (assumption || discriminate).
    + rewrite match_not by (match goal with Ht : kind ?t = TOrdered |- kind_tag (kind ?t) <> _ => rewrite Ht; discriminate end).
      now rewrite match_here by (assumption || discriminate).
  - heads Hk. unfold parse_statement, parse_drop_index. cbn [peek_kind].
    match goal with Hi : kind _ = TDrop |- _ => rewrite Hi end. rewrite advance_one by discriminate.
    rewrite expect_here by (assumption || discriminate). cbn [bindO]. unfold parse_index_target.
    rewrite (identifier_reads _ collection) by (assumption || discriminate). cbn [bindO].
    rewrite match_here by (assumption || apply Nw).
    now rewrite (field_path_reads field) by (assumption || (rewrite He; discriminate)).
  - heads Hk. apply map_eq_nil in Hk as ->. unfold parse_statement. cbn [peek_kind app]. now rewrite H.
  - heads Hk. apply map_eq_nil in Hk as ->. unfold parse_statement. cbn [peek_kind app]. now rewrite H.
  - heads Hk. apply map_eq_nil in Hk as ->. unfold parse_statement. cbn [peek_kind app]. now rewrite H.
Qed.
End Phrases.
