(* ===== verification/NqlProps.v ===== *)
(** Properties of the query language front end. *)

From S2P Require Export Phrases.

Section NqlProps.
Context {TD : TokenDebug} {UT : UnicodeTables}.

(** C34: parsing any text whatsoever comes to an end with a statement or an error, never
    a panic: no loop of the lexer or the parser runs on, no token is looked up out of
    range, and the LIMIT and OFFSET of a parsed FIND are in range of [i64]. *)
Theorem parse_nql_total now gen query :
  match parse_nql now gen query with
  | Ok (SFind _ _ _ limit offset) => nql_usize limit /\ nql_usize offset
  | Panic => False
  | _ => True
  end.
Proof.
  unfold parse_nql, tokenize. pose proof (lex_loop_total (List.length (lexer_new query)) (lexer_new query) (lexer_new query) (le_n _)) as NP.
  destruct (lex_loop _ _ _) as [ts|e|] eqn:E; cbn [bindO]; [|exact I|contradiction].
  apply lex_loop_ends in E. pose proof (statement_fits now gen ts E) as F.
  destruct (parse_statement now gen ts) as [[st ts']|e|] eqn:P; cbn [mapO bindO fst]; [|exact I|exact F].
  destruct st as [c f s l o| | | | | | | | | | |]; try exact I.
  assert (P' : parse_find ts = Ok (SFind c f s l o, ts') /\ peek_kind ts = Some TFind).
  { unfold parse_statement in P. destruct (peek_kind ts) as [[]|]; try discriminate P; try (split; [exact P|reflexivity]);
      exfalso; revert P; clear;
      unfold parse_insert, parse_update, parse_remove, parse_watch, parse_count, parse_exists, parse_create_index, parse_drop_index;
      intros H; repeat (first [discriminate H | progress cbn beta iota zeta in H | apply bindO_Ok_inv in H as ([] & _ & H)
        | apply bindO_Ok_inv in H as (? & _ & H) | case_match]). }
  destruct P' as [P1 P2]. eapply parse_find_page; eassumption.
Qed.

(** C35: every statement of NQL is read back from its canonical text: its tokens, with
    compound expressions in parentheses, plain names, double quotes around strings, each
    float written as any decimal literal that is read as it ([float_literal]), and blanks
    wherever two of them would run together, parse to that statement, with its expressions,
    nested values, paths, escaped strings, sorting and paging. *)
Theorem statements_parse_back {FT : FloatText} now gen st l s :
  nql_statement now st = true -> items_ok l = true -> List.map fst l = statement_tokens st ->
  chars s = items_chars l -> parse_nql now gen s = Ok st.
Proof.
  intros Hn Hl Hk Hs. destruct (tokenize_items l s Hl Hs) as (ts & sp & E & Hts). unfold parse_nql. rewrite E. cbn [bindO].
  rewrite (statement_reads now gen st ts) by (assumption || reflexivity || congruence). reflexivity.
Qed.
End NqlProps.

(** ** On sample queries *)

Definition ascii_tables : UnicodeTables := {| wide_alphabetic := fun _ => false; wide_numeric := fun _ => false |}.
Definition no_debug : TokenDebug := fun _ => EmptyString.

#[local] Existing Instances ascii_tables no_debug.

(** Two doubles and how they may be written. *)
Definition some_floats : FloatText := fun f =>
  if f =? 4612811918334230528 then chars "2.50" else if f =? 9223372036854775808 then chars "-0.0" else [].

#[local] Existing Instance some_floats.

(** [FIND users WHERE ((age >= -18) AND (address.city IN ("Rome", [NULL, 2.50, -0.0])))
    SORT address.city DESC LIMIT 10] *)
Definition sample_statement : Statement :=
  SFind "users"
    (Some (EBinary And (EBinary GtEq (EField "age") (ELiteral (VInt (-18))))
       (EIn (EField "address.city") [ELiteral (VString "Rome"); ELiteral (VArray [VNull; VFloat 4612811918334230528; VFloat 9223372036854775808])])))
    (Some {| sort_field := "address.city"; sort_direction := Desc |}) (Some 10) None.

Definition spaced_text (st : Statement) : string := string_of_chars (items_chars (spaced (statement_tokens st))).

Lemma statements_parse_back_witness : parse_nql 0 "new" (spaced_text sample_statement) = Ok sample_statement.
Proof.
  apply (statements_parse_back (FT := some_floats) 0 "new" sample_statement (spaced (statement_tokens sample_statement))); reflexivity.
Defined.

(** [age -1] is not a subtraction: the lexer reads [-1] as a literal, the parser
    stops before it and drops the rest of the text, so the UPDATE below assigns [age]
    to itself and loses its WHERE clause. *)
Theorem minus_literal_swallows_the_where_clause :
  parse_nql 0 "new" "UPDATE users SET age = age -1 WHERE id = 'u1'"
  = Ok (SUpdate "users" [{| as_field := "age"; as_expr := EField "age" |}] None)
  /\ parse_nql 0 "new" "UPDATE users SET age = age - 1 WHERE id = 'u1'"
  = Ok (SUpdate "users" [{| as_field := "age"; as_expr := EBinary Minus (EField "age") (ELiteral (VInt 1)) |}]
          (Some (EBinary Eq_ (EField "id") (ELiteral (VString "u1")))))%string.
Proof. split; vm_compute; reflexivity. Qed.
