(* ===== verification/Queries.v ===== *)
(** The texts a collection handle writes are the statements it means, as long as the
    names are plain and an identifier needs no escape. *)

From S2P Require Export NqlProps Collection.

Import CollectionHandle.

(** No quote and no backslash. *)
Definition no_escape (s : string) : bool :=
  forallb (fun c => negb ((c =? c_dquote) || (c =? c_backslash))) (chars s).

Lemma escape_nothing s : no_escape s = true -> escape c_dquote (chars s) = chars s.
Proof.
  unfold no_escape. induction (chars s) as [|c cs IH]; [reflexivity|]. cbn [forallb escape]. intros H.
  apply andb_true_iff in H as [H1 H2]. apply negb_true_iff in H1. rewrite H1. now rewrite IH.
Qed.

(** [f] is the text of the expression [e], with some way to write the floats. *)
Definition text_of (e : Expr) (f : string) : Prop :=
  nql_expr e = true /\ valid_str f = true
  /\ exists (FT : FloatText) l, items_ok l = true /\ List.map fst l = expr_tokens e /\ chars f = items_chars l.

(** [set] is the text of the assignments [asg], without a blank at its end, and [f] the
    text of [e]. *)
Definition texts_of (asg : list Assignment) (e : Expr) (set f : string) : Prop :=
  asg <> [] /\ forallb (fun a => nql_expr (as_expr a)) asg = true /\ nql_expr e = true
  /\ valid_str set = true /\ valid_str f = true
  /\ exists (FT : FloatText) l k l',
       items_ok (l ++ [(k, false)]) = true /\ items_ok l' = true
       /\ List.map fst (l ++ [(k, false)]) = comma_sep (List.map assignment_tokens asg) /\ List.map fst l' = expr_tokens e
       /\ chars set = items_chars (l ++ [(k, false)]) /\ chars f = items_chars l'.

(** For texts without floats. *)
Definition no_floats : FloatText := fun _ => [].

Section Queries.
Context {TD : TokenDebug} {UT : UnicodeTables}.

Lemma plain_name_valid s : plain_name s = true -> valid_str s = true.
Proof. unfold plain_name. intros H. now bool_facts. Qed.

Lemma items_chars_app {FT : FloatText} l l' : items_chars (l ++ l') = (items_chars l ++ items_chars l')%list.
Proof. unfold items_chars. now rewrite List.map_app, List.concat_app. Qed.

(** Tokens followed by a blank, in front of any others. *)
Lemma items_ok_front {FT : FloatText} ks l :
  forallb writable ks = true -> items_ok l = true -> items_ok (spaced ks ++ l) = true.
Proof.
  intros Hk Hl. induction ks as [|k ks IH]; [exact Hl|]. cbn [forallb] in Hk. apply andb_true_iff in Hk as [H1 H2].
  cbn [spaced List.map app items_ok]. fold (spaced ks). rewrite H1, IH by assumption. now destruct (spaced ks ++ l)%list as [|[]].
Qed.

Lemma spaced_kinds ks : List.map fst (spaced ks) = ks.
Proof. unfold spaced. rewrite List.map_map. apply List.map_id. Qed.

(** The pieces of a text are valid. *)
Ltac valid := repeat apply valid_app; first [assumption|reflexivity|now apply plain_name_valid].

(** A command on a collection with a filter: the clause is read as the filter. *)
Lemma filtered_command now gen cmd k coll f e st :
  (forall FT : FloatText, chars cmd = item_chars (k, true)) -> valid_str cmd = true -> (forall FT : FloatText, writable k = true) ->
  plain_name coll = true -> text_of e f -> nql_statement now st = true ->
  statement_tokens st = (k :: TIdentifier coll :: TWhere :: expr_tokens e)%list ->
  parse_nql now gen (cmd ++ coll ++ where_clause (Some f)) = Ok st.
Proof.
  intros Hc Hv Hw Hn (He & Hf & FT & l & Hl & Hk & Ht) Hst Hts. pose proof (plain_name_valid _ Hn) as Vn.
  set (front := [k; TIdentifier coll; TWhere]).
  destruct (tokenize_items (spaced front ++ l) (cmd ++ coll ++ where_clause (Some f))) as (ts & sp & E & Ets).
  - apply items_ok_front; [|exact Hl]. cbn [front forallb writable]. now rewrite (Hw FT), Hn.
  - cbn [where_clause]. rewrite !chars_app, items_chars_app by valid. rewrite (Hc FT), Ht.
    unfold items_chars at 2. cbn [front spaced List.map List.concat app]. unfold item_chars. cbn [fst snd token_chars].
    rewrite app_nil_r, <- !app_assoc. reflexivity.
  - unfold parse_nql. rewrite E. cbn [bindO].
    rewrite (statement_reads now gen st ts) by (try assumption; try reflexivity; rewrite Ets, List.map_app, spaced_kinds, Hk, Hts; reflexivity).
    reflexivity.
Qed.

(** A blank after the last token, and more tokens. *)
Lemma items_ok_blank {FT : FloatText} l k l' :
  items_ok (l ++ [(k, false)]) = true -> items_ok l' = true -> items_ok (l ++ (k, true) :: l') = true.
Proof.
  intros Hl Hl'. induction l as [|[k0 b] l IH]; cbn [app items_ok] in *.
  - rewrite Hl'. bool_facts. rewrite H. now destruct l' as [|[]].
  - bool_facts. rewrite IH by assumption. rewrite H. destruct l as [|[k1 b1] l]; exact H0.
Qed.

Lemma update_parses now gen coll asg e set f :
  plain_name coll = true -> texts_of asg e set f ->
  parse_nql now gen (update_nql coll f set) = Ok (SUpdate coll asg (Some e)).
Proof.
  intros Hn (Ha & Hn1 & Hn2 & Vs & Vf & FT & l & k & l' & Hl & Hl' & Hk & Hk' & Hs & Hf). pose proof (plain_name_valid _ Hn) as Vn.
  set (items := (spaced [TUpdate; TIdentifier coll; TSet] ++ l ++ (k, true) :: spaced [TWhere] ++ l')%list).
  destruct (tokenize_items items (update_nql coll f set)) as (ts & sp & E & Ets).
  - apply items_ok_front; [cbn [forallb writable]; now rewrite Hn|]. apply items_ok_blank; [exact Hl|]. now apply items_ok_front.
  - unfold update_nql, where_clause, items. rewrite !chars_app, Hs, Hf by valid.
    change ((k, true) :: spaced [TWhere] ++ l')%list with ([(k, true)] ++ spaced [TWhere] ++ l')%list.
    assert (E1 : items_chars (spaced [TUpdate; TIdentifier coll; TSet]) = (chars "UPDATE " ++ chars coll ++ chars " SET ")%list).
    { unfold items_chars, item_chars. cbn [spaced List.map List.concat fst snd token_chars]. rewrite app_nil_r, <- !app_assoc. reflexivity. }
    assert (E2 : items_chars [(k, true)] = (token_chars k ++ [32])%list) by (unfold items_chars, item_chars; cbn; apply app_nil_r).
    assert (E3 : items_chars [(k, false)] = token_chars k) by (unfold items_chars, item_chars; cbn; now rewrite !app_nil_r).
    rewrite !items_chars_app, E1, E2, E3, <- !app_assoc. reflexivity.
  - unfold parse_nql. rewrite E. cbn [bindO].
    assert (N : nql_statement now (SUpdate coll asg (Some e)) = true).
    { cbn [nql_statement nql_filter]. rewrite Hn2. destruct asg; [now destruct Ha|now rewrite Hn1]. }
    assert (T : List.map kind ts = statement_tokens (SUpdate coll asg (Some e))).
    { rewrite Ets. unfold items. rewrite !List.map_app. rewrite List.map_app in Hk. cbn [List.map fst spaced app] in *.
      cbn [statement_tokens where_tokens app]. rewrite <- Hk, <- Hk', <- app_assoc. reflexivity. }
    now rewrite (statement_reads now gen _ ts _ N T).
Qed.

#[local] Existing Instance no_floats.

(** A text whose tokens are those of a statement. *)
Lemma plain_command now gen l s st :
  items_ok l = true -> chars s = items_chars l -> List.map fst l = statement_tokens st -> nql_statement now st = true ->
  parse_nql now gen s = Ok st.
Proof.
  intros Hl Hs Hk Hst. destruct (tokenize_items l s Hl Hs) as (ts & sp & E & Ets). unfold parse_nql. rewrite E. cbn [bindO].
  rewrite (statement_reads now gen st ts) by (assumption || reflexivity || congruence). reflexivity.
Qed.

Lemma bare_command now gen k coll s st :
  writable k = true -> plain_name coll = true -> chars s = (item_chars (k, true) ++ chars coll)%list ->
  statement_tokens st = [k; TIdentifier coll] -> nql_statement now st = true -> parse_nql now gen s = Ok st.
Proof.
  intros Hk Hc Hs Ht Hst. apply (plain_command now gen [(k, true); (TIdentifier coll, false)]); [| |now rewrite Ht|exact Hst].
  - cbn [items_ok writable orb]. now rewrite Hk, Hc.
  - rewrite Hs. unfold items_chars. cbn [List.map List.concat]. unfold item_chars. cbn [fst snd token_chars]. now rewrite !app_nil_r.
Qed.

(** A token list of known kinds, the end-of-file token included. *)
Lemma kinds_known ts ks sp :
  List.map kind ts = ks -> exists sps, (ts ++ [{| kind := TEof; span := sp |}])%list
  = List.map (fun p => {| kind := p.1; span := p.2 |}) (combine (ks ++ [TEof]) (sps ++ [sp])) /\ List.length sps = List.length ks.
Proof.
  intros <-. exists (List.map span ts). split; [|now rewrite !length_map].
  induction ts as [|[k s] ts IH]; [reflexivity|]. cbn [List.map app combine fst snd]. now rewrite IH.
Qed.

Lemma find_by_id_parses now gen coll i :
  plain_name coll = true -> valid_str i = true -> no_escape i = true ->
  parse_nql now gen (find_by_id_nql coll i)
  = Ok (SFind coll (Some (EBinary Eq_ (EField "id") (ELiteral (VString i)))) None None None).
Proof.
  intros Hn Hi He. pose proof (plain_name_valid _ Hn) as Vn.
  set (l := [(TFind, true); (TIdentifier coll, true); (TWhere, true); (TIdentifier "id", true); (TEqEq, true); (TStringLit i, false)]).
  destruct (tokenize_items l (find_by_id_nql coll i)) as (ts & sp & E & Ets).
  - cbn [l items_ok writable orb]. now rewrite Hn, Hi.
  - unfold find_by_id_nql. rewrite !chars_app by valid. unfold items_chars, l. cbn [List.map List.concat].
    unfold item_chars. cbn [fst snd token_chars]. rewrite escape_nothing by assumption. rewrite !app_nil_r, <- !app_assoc. reflexivity.
  - unfold parse_nql. rewrite E. cbn [bindO]. destruct (kinds_known ts _ sp Ets) as (sps & -> & L). cbn [l List.map fst List.length] in L.
    do 6 (destruct sps as [|? sps]; [discriminate|]). destruct sps; [|discriminate]. reflexivity.
Qed.

(** A plain name is a path of one field. *)
Lemma word_char_byte c :
  ascii_word_char c = true ->
  utf8_encode_char c = [byte_of_Z c] /\ Ascii.eqb (Ascii.ascii_of_byte (byte_of_Z c)) "." = false.
Proof.
  intros H. assert (R : 0 <= c < 128).
  { unfold ascii_word_char, ascii_word_start, is_ascii_letter, is_ascii_digit in H. lia. }
  assert (G : forallb (fun n => implb (ascii_word_char (Z.of_nat n))
      (negb (Ascii.eqb (Ascii.ascii_of_byte (byte_of_Z (Z.of_nat n))) "."))) (List.seq 0 128) = true) by (vm_compute; reflexivity).
  rewrite forallb_forall in G. specialize (G (Z.to_nat c)). rewrite Z2Nat.id, H in G by lia. split.
  - unfold utf8_encode_char. rewrite (proj2 (Z.ltb_lt c 0x80)) by lia. reflexivity.
  - apply negb_true_iff, G. apply List.in_seq. lia.
Qed.

Lemma path_of_name s : plain_name s = true -> split_dot s = [s].
Proof.
  unfold plain_name. intros H. apply andb_true_iff in H as [H _]. apply andb_true_iff in H as [Hv Hw].
  rewrite <- (string_of_chars_of s Hv). assert (W : forallb ascii_word_char (chars s) = true).
  { destruct (chars s) as [|c cs]; [reflexivity|]. cbn [word forallb] in *. apply andb_true_iff in Hw as [H1 H2].
    unfold ascii_word_char at 1. now rewrite H1. }
  clear Hv Hw. induction (chars s) as [|c cs IH]; [reflexivity|]. cbn [forallb] in W. apply andb_true_iff in W as [H1 H2].
  destruct (word_char_byte c H1) as [E1 E2]. specialize (IH H2).
  assert (S : string_of_chars (c :: cs) = String (Ascii.ascii_of_byte (byte_of_Z c)) (string_of_chars cs)).
  { unfold string_of_chars, utf8_encode. cbn [List.map List.concat]. rewrite E1. reflexivity. }
  rewrite S. cbn [split_dot]. now rewrite E2, IH.
Qed.

(** A command with a filter, by [filtered_command]. *)
Ltac filtered now gen k coll f e Hc He Hn :=
  apply (filtered_command now gen _ k coll f e);
    [intros ?; reflexivity|reflexivity|intros ?; reflexivity|exact Hc|exact He|cbn [nql_statement nql_filter nql_page]; rewrite Hn; reflexivity|
     cbn [statement_tokens where_tokens sort_tokens page_tokens app]; rewrite ?app_nil_r; reflexivity].

Lemma find_parses now gen coll f e :
  plain_name coll = true -> text_of e f -> parse_nql now gen (find_nql coll f) = Ok (SFind coll (Some e) None None None).
Proof. intros Hc He. pose proof He as (Hn & _). filtered now gen TFind coll f e Hc He Hn. Qed.

Lemma count_parses now gen coll f e :
  plain_name coll = true -> text_of e f -> parse_nql now gen (count_nql coll (Some f)) = Ok (SCount coll (Some e)).
Proof. intros Hc He. pose proof He as (Hn & _). filtered now gen TCount coll f e Hc He Hn. Qed.

Lemma exists_parses now gen coll f e :
  plain_name coll = true -> text_of e f -> parse_nql now gen (exists_nql coll f) = Ok (SExists coll (Some e)).
Proof. intros Hc He. pose proof He as (Hn & _). filtered now gen TExists coll f e Hc He Hn. Qed.

Lemma find_all_parses now gen coll :
  plain_name coll = true -> parse_nql now gen (find_all_nql coll) = Ok (SFind coll None None None None).
Proof.
  intros Hc. pose proof (plain_name_valid _ Hc) as Vc.
  apply (bare_command now gen TFind coll); [reflexivity|exact Hc| |reflexivity|reflexivity].
  unfold find_all_nql. now rewrite chars_app by valid.
Qed.

Lemma count_all_parses now gen coll :
  plain_name coll = true -> parse_nql now gen (count_nql coll None) = Ok (SCount coll None).
Proof.
  intros Hc. pose proof (plain_name_valid _ Hc) as Vc.
  apply (bare_command now gen TCount coll); [reflexivity|exact Hc| |reflexivity|reflexivity].
  unfold count_nql, where_clause. rewrite !chars_app by valid. now rewrite app_nil_r.
Qed.

(** C36: what a collection handle writes is what it means.  On a collection and a field
    with plain names, the text of every method but [insert] parses to its statement: with a
    filter and a SET clause that are canonical texts of an expression and of assignments,
    to the statement with that expression and those assignments; looking up an identifier
    without quotes and backslashes, to the equality with it.  ([insert] pastes the text of
    [serde_json]'s printer into the statement, which NQL reads differently for some
    strings.) *)
Theorem collection_texts_mean_their_statements now gen coll field i e f asg set :
  plain_name coll = true -> plain_name field = true ->
  valid_str i = true -> no_escape i = true -> text_of e f -> texts_of asg e set f ->
  let parses s st := parse_nql now gen s = Ok st in
  parses (find_nql coll f) (SFind coll (Some e) None None None)
  /\ parses (find_all_nql coll) (SFind coll None None None None)
  /\ parses (find_by_id_nql coll i) (SFind coll (Some (EBinary Eq_ (EField "id") (ELiteral (VString i)))) None None None)
  /\ parses (update_nql coll f set) (SUpdate coll asg (Some e))
  /\ parses (remove_nql coll f) (SRemove coll (Some e))
  /\ parses (count_nql coll (Some f)) (SCount coll (Some e)) /\ parses (count_nql coll None) (SCount coll None)
  /\ parses (exists_nql coll f) (SExists coll (Some e))
  /\ parses (watch_nql coll (Some f)) (SWatch coll (Some e)) /\ parses (watch_nql coll None) (SWatch coll None)
  /\ parses (create_index_nql coll field "HASH") (SCreateIndex coll field Hash)
  /\ parses (create_index_nql coll field "ORDERED") (SCreateIndex coll field Ordered)
  /\ parses (drop_index_nql coll field) (SDropIndex coll field).
Proof.
  intros Hc Hf Hi Hq He Ha. cbn zeta. pose proof He as (Hn & _). pose proof (plain_name_valid _ Hc) as Vc.
  pose proof (plain_name_valid _ Hf) as Vf.
  assert (Hx : forall l, items_ok l = true -> items_ok ([(TIdentifier coll, false); (TDot, false); (TIdentifier field, true)] ++ l) = true).
  { intros l Hl. cbn [app items_ok writable tight orb]. rewrite Hc, Hf, Hl. now destruct l as [|[]]. }
  assert (Pt : forall s, plain_name s = true -> path_tokens (split_dot s) = [TIdentifier s]) by (intros s Hs; now rewrite path_of_name).
  split; [now apply find_parses|]. split; [now apply find_all_parses|]. split; [now apply find_by_id_parses|].
  split; [now apply update_parses|]. split; [filtered now gen TRemove coll f e Hc He Hn|]. split; [now apply count_parses|]. split; [now apply count_all_parses|].
  split; [now apply exists_parses|]. split; [filtered now gen TWatch coll f e Hc He Hn|]. split.
  { apply (bare_command now gen TWatch coll); [reflexivity|exact Hc| |reflexivity|reflexivity].
    unfold watch_nql, where_clause. rewrite !chars_app by valid. now rewrite app_nil_r. }
  assert (Ct : forall ty k, chars ty = token_chars k -> valid_str ty = true ->
    chars (create_index_nql coll field ty) = items_chars ([(TCreate, true); (TIndex, true)]
      ++ [(TIdentifier coll, false); (TDot, false); (TIdentifier field, true)] ++ [(TType, true); (k, false)])).
  { intros ty k Hty Hv. unfold create_index_nql. rewrite !chars_app, !items_chars_app by valid. rewrite Hty.
    unfold items_chars, item_chars. cbn [List.map List.concat fst snd token_chars]. now rewrite !app_nil_r, <- !app_assoc. }
  assert (Oi : forall k, writable k = true -> items_ok ([(TCreate, true); (TIndex, true)]
      ++ [(TIdentifier coll, false); (TDot, false); (TIdentifier field, true)] ++ [(TType, true); (k, false)]) = true).
  { intros k Hk. apply (items_ok_front [TCreate; TIndex]); [reflexivity|]. apply Hx. cbn [items_ok writable orb]. now rewrite Hk. }
  split_and!.
  - refine (plain_command now gen _ _ (SCreateIndex coll field Hash) (Oi THash eq_refl) (Ct "HASH"%string THash eq_refl eq_refl) _ eq_refl).
    cbn [statement_tokens]. rewrite (Pt field Hf). reflexivity.
  - refine (plain_command now gen _ _ (SCreateIndex coll field Ordered) (Oi TOrdered eq_refl) (Ct "ORDERED"%string TOrdered eq_refl eq_refl) _ eq_refl).
    cbn [statement_tokens]. rewrite (Pt field Hf). reflexivity.
  - apply (plain_command now gen ([(TDrop, true); (TIndex, true)] ++ [(TIdentifier coll, false); (TDot, false); (TIdentifier field, false)])).
    + apply (items_ok_front [TDrop; TIndex]); [reflexivity|]. cbn [items_ok writable tight orb]. now rewrite Hc, Hf.
    + unfold drop_index_nql. rewrite !chars_app, items_chars_app by valid. unfold items_chars, item_chars.
      cbn [List.map List.concat fst snd token_chars]. now rewrite !app_nil_r.
    + cbn [statement_tokens]. rewrite (Pt field Hf). reflexivity.
    + reflexivity.
Qed.
End Queries.

(** ** On concrete texts *)

#[local] Existing Instances ascii_tables no_debug no_floats.

Definition sample_filter : Expr := EBinary GtEq (EField "age") (ELiteral (VInt 18)).
Definition sample_filter_text : string := string_of_chars (items_chars (spaced (expr_tokens sample_filter))).

(** [age = (age + 1), name = "x"]. *)
Definition sample_changes : list Assignment :=
  [{| as_field := "age"; as_expr := EBinary Plus (EField "age") (ELiteral (VInt 1)) |};
   {| as_field := "name"; as_expr := ELiteral (VString "x") |}]%string.
Definition sample_changes_text : string := ("age = ( age + 1 ) , name = " ++ quote ++ "x" ++ quote)%string.

Lemma sample_text : text_of sample_filter sample_filter_text.
Proof. split; [reflexivity|]. split; [reflexivity|]. exists no_floats, (spaced (expr_tokens sample_filter)). repeat split. Qed.

Lemma sample_texts : texts_of sample_changes sample_filter sample_changes_text sample_filter_text.
Proof.
  split; [discriminate|]. do 4 (split; [reflexivity|]).
  exists no_floats, (spaced (removelast (comma_sep (List.map assignment_tokens sample_changes)))), (TStringLit "x"),
    (spaced (expr_tokens sample_filter)). repeat split; vm_compute; reflexivity.
Qed.

Lemma collection_texts_mean_their_statements_witness :
  parse_nql 0 "new" (find_by_id_nql "users" "u-1")
    = Ok (SFind "users" (Some (EBinary Eq_ (EField "id") (ELiteral (VString "u-1")))) None None None)
  /\ parse_nql 0 "new" (update_nql "users" sample_filter_text sample_changes_text)
    = Ok (SUpdate "users" sample_changes (Some sample_filter))
  /\ parse_nql 0 "new" (remove_nql "users" sample_filter_text) = Ok (SRemove "users" (Some sample_filter)).
Proof.
  destruct (collection_texts_mean_their_statements 0 "new" "users" "age" "u-1" sample_filter sample_filter_text
    sample_changes sample_changes_text eq_refl eq_refl eq_refl eq_refl sample_text sample_texts) as (_ & _ & H1 & H2 & H3 & _).
  split; [exact H1|]. split; [exact H2|exact H3].
Defined.

(** An identifier is pasted into the query as it is: with a quote in it,
    [find_by_id] asks for every document. *)
Example identifiers_are_pasted_into_the_query :
  parse_nql 0 "new" (find_by_id_nql "users" ("u1" ++ quote ++ " OR " ++ quote ++ quote ++ " == " ++ quote))
    = Ok (SFind "users"
        (Some (EBinary Or (EBinary Eq_ (EField "id") (ELiteral (VString "u1")))
                 (EBinary Eq_ (ELiteral (VString "")) (ELiteral (VString ""))))) None None None)%string.
Proof. vm_compute. reflexivity. Qed.
