(* ===== verification/EvalProps.v ===== *)
(** Properties of expression evaluation. *)

From S2P Require Export Evaluator Samples.

Section EvalProps.
Context {B : Build} {AN : ArithNan}.

(** ** IN and BETWEEN are abbreviations *)

(** [e IN (a, b, ...)] as [e = a OR e = b OR ... OR false]. *)
Fixpoint in_as_or (e : Expr) (items : list Expr) : Expr :=
  match items with
  | [] => ELiteral (VBool false)
  | item :: items' => EBinary Or (EBinary Eq_ e item) (in_as_or e items')
  end.

(** The loop of IN, on its own. *)
Fixpoint any_equal (v : Value) (items : list Expr) (d : Document) : result Value :=
  match items with
  | [] => Ok (VBool false)
  | item :: items' =>
    let? item_val := eval item d in
    if value_eqb v item_val then Ok (VBool true) else any_equal v items' d
  end.

Lemma eval_in_loop e items d : eval (EIn e items) d = (let? v := eval e d in any_equal v items d).
Proof.
  cbn [eval]. destruct (eval e d) as [v| |]; cbn [bindO]; try reflexivity.
  induction items as [|item items IH]; cbn [any_equal]; [reflexivity|].
  destruct (eval item d) as [w| |]; cbn [bindO]; try reflexivity.
  destruct (value_eqb v w); [reflexivity|exact IH].
Qed.

Lemma eval_or_bool l r d v : eval (EBinary Or l r) d = Ok v -> exists b, v = VBool b.
Proof.
  cbn [eval]. destruct (eval l d) as [x| |]; cbn [bindO]; try discriminate.
  destruct (is_truthy x); [intros [= <-]; eauto|].
  destruct (eval r d); cbn [bindO]; try discriminate. intros [= <-]. eauto.
Qed.

(** [e IN (items)] gives the value of the chain of equality tests joined by OR,
    the same early exits and the same errors included, for a list that is not
    empty. *)
Theorem in_is_a_chain_of_or e item items d :
  eval (EIn e (item :: items)) d = eval (in_as_or e (item :: items)) d.
Proof.
  rewrite eval_in_loop. destruct (eval e d) as [v|er|] eqn:E.
  2,3: cbn [in_as_or eval]; now rewrite E.
  cbn [bindO]. generalize (item :: items). clear item items.
  intros items. induction items as [|item items IH]; [reflexivity|].
  cbn [any_equal in_as_or eval]. rewrite E. cbn [bindO].
  destruct (eval item d) as [w| |]; cbn [bindO]; try reflexivity.
  cbn [eval_op bindO is_truthy]. destruct (value_eqb v w); [reflexivity|]. rewrite IH.
  assert (Hb : forall l r, eval (in_as_or e l) d = Ok r -> exists b, r = VBool b).
  { intros l. destruct l; intros r H; [injection H as <-; now exists false|].
    cbn [in_as_or] in H. exact (eval_or_bool _ _ d r H). }
  destruct (eval (in_as_or e items) d) as [r| |] eqn:Er; cbn [bindO]; try reflexivity.
  now destruct (Hb items r Er) as [b ->].
Qed.

(** [e BETWEEN lo AND hi] is [e >= lo AND e <= hi] wherever its bounds evaluate. *)
Theorem between_is_two_comparisons e lo hi d vlo vhi :
  eval lo d = Ok vlo -> eval hi d = Ok vhi ->
  eval (EBetween e lo hi) d = eval (EBinary And (EBinary GtEq e lo) (EBinary LtEq e hi)) d.
Proof.
  intros El Eh. cbn [eval]. rewrite El, Eh. destruct (eval e d) as [v| |]; cbn [bindO]; try reflexivity.
  cbn [eval_op bindO is_truthy].
  now destruct (value_cmp v vlo), (value_cmp v vhi).
Qed.

(** The six comparisons agree with one another on ordinary values: of [<], [=]
    and [>] exactly one holds, [<=] and [>=] are the negations of [>] and [<], and
    exchanging the sides exchanges [<] with [>]. *)
Theorem comparisons_are_coherent l r d v w :
  eval l d = Ok v -> eval r d = Ok w -> ordinary v = true -> ordinary w = true ->
  exists lt eq gt : bool,
    eval (EBinary Lt_ l r) d = Ok (VBool lt) /\ eval (EBinary Eq_ l r) d = Ok (VBool eq)
    /\ eval (EBinary Gt_ l r) d = Ok (VBool gt)
    /\ (if lt then negb eq && negb gt else xorb eq gt) = true
    /\ eval (EBinary LtEq l r) d = Ok (VBool (negb gt)) /\ eval (EBinary GtEq l r) d = Ok (VBool (negb lt))
    /\ eval (EBinary NotEq l r) d = Ok (VBool (negb eq))
    /\ eval (EBinary Gt_ r l) d = Ok (VBool lt) /\ eval (EBinary Eq_ r l) d = Ok (VBool eq).
Proof.
  intros El Er Ov Ow. exists (is_lt (value_cmp v w)), (value_eqb v w), (is_gt (value_cmp v w)).
  cbn [eval]. rewrite El, Er. cbn [bindO eval_op]. rewrite (value_cmp_sym v w).
  pose proof (value_eqb_iff v w Ov Ow) as H1. pose proof (value_eqb_iff w v Ow Ov) as H2.
  rewrite (value_cmp_sym v w) in H2. destruct (value_eqb v w), (value_eqb w v), (value_cmp v w);
    cbn in *; repeat split; try reflexivity; exfalso;
    first [now destruct (proj1 H1 eq_refl) | now destruct (proj1 H2 eq_refl)
          | now discriminate (proj2 H1 eq_refl) | now discriminate (proj2 H2 eq_refl) | idtac];
    try (pose proof (proj1 H1 eq_refl); discriminate); try (pose proof (proj1 H2 eq_refl); discriminate).
Qed.

(** ** Arithmetic *)

(** The one quotient of two 64-bit integers that is not one. *)
Lemma quot_in_i64 a b :
  in_i64 a = true -> in_i64 b = true -> b <> 0 ->
  in_i64 (Z.quot a b) = negb ((a =? i64_min) && (b =? -1)).
Proof.
  unfold in_i64, i64_min, i64_max. intros Ha Hb Hz. bool_facts.
  destruct (decide (b = -1)) as [->|Hm].
  - replace (Z.quot a (-1)) with (- a) by (change (-1) with (- (1)); rewrite Z.quot_opp_r, Z.quot_1_r; lia).
    rewrite andb_true_r. destruct (Z.eqb_spec a (-9223372036854775808)); cbn [negb]; [subst; reflexivity|].
    apply andb_true_iff. split; apply Z.leb_le; lia.
  - replace (b =? -1) with false by (symmetry; now apply Z.eqb_neq). rewrite andb_false_r. cbn [negb].
    assert (Z.abs (Z.quot a b) <= Z.abs a) by (rewrite <- Z.quot_abs by assumption; apply Z.quot_le_upper_bound; nia).
    assert (Z.quot a b <> 9223372036854775808).
    { intros E. pose proof (Z.quot_rem' a b). rewrite E in *. pose proof (Z.rem_bound_abs a b Hz). lia. }
    apply andb_true_iff. split; apply Z.leb_le; lia.
Qed.

Lemma eval_op_total op v w :
  overflow_checks = false -> (match op with Divide | Modulo | And | Or => true | _ => false end) = false ->
  eval_op op v w <> Panic.
Proof.
  intros Hb Hop. destruct op; try discriminate Hop; cbn [eval_op]; try discriminate.
  all: destruct v, w; cbn [float_op]; unfold cannot, checked_i64; rewrite ?Hb; try discriminate.
  all: now destruct (in_i64 _).
Qed.

Definition int_op (op : BinaryOp) (a b : Z) : Z :=
  match op with
  | Plus => a + b | Minus => a - b | Multiply => a * b
  | Divide => Z.quot a b | Modulo => Z.rem a b | _ => 0
  end.

(** C39: integer arithmetic is exact when the result is a 64-bit integer; dividing
    by zero is an error; every other result panics in a debug build, and in a
    release build wraps for [+], [-] and [*] but still panics for [/] and [%]. *)
Theorem integer_arithmetic op l r d a b :
  In op [Plus; Minus; Multiply; Divide; Modulo] ->
  eval l d = Ok (VInt a) -> eval r d = Ok (VInt b) -> in_i64 a = true -> in_i64 b = true ->
  eval (EBinary op l r) d =
    if (match op with Divide | Modulo => true | _ => false end) && (b =? 0)
    then Err (invalid_query (match op with Divide => "Division by zero" | _ => "Modulo by zero" end))
    else if (match op with Modulo => in_i64 (Z.quot a b) | _ => in_i64 (int_op op a b) end) then Ok (VInt (int_op op a b))
    else match op with
         | Divide | Modulo => Panic
         | _ => if overflow_checks then Panic else Ok (VInt (wrap_i64 (int_op op a b)))
         end.
Proof.
  intros Hop El Er Ha Hb. destruct Hop as [<-|[<-|[<-|[<-|[<-|[]]]]]]; cbn [eval]; rewrite El, Er; cbn [bindO eval_op int_op andb].
  1-3: unfold checked_i64; match goal with |- context [in_i64 ?z] => destruct (in_i64 z), overflow_checks end; reflexivity.
  all: destruct (b =? 0) eqn:Eb; [reflexivity|]; apply Z.eqb_neq in Eb; unfold div_i64, rem_i64.
  all: rewrite (quot_in_i64 a b Ha Hb Eb); now destruct ((a =? i64_min) && (b =? -1)).
Qed.

(** ** Panics *)

Fixpoint divides (e : Expr) : bool :=
  match e with
  | ELiteral _ | EField _ => false
  | EBinary op l r => (match op with Divide | Modulo => true | _ => false end) || divides l || divides r
  | EUnary _ e => divides e
  | EIn e l => divides e || existsb divides l
  | EBetween e lo hi => divides e || divides lo || divides hi
  end.

(** In a release build, evaluating an expression without [/] and [%] never
    panics, whatever the document holds: it gives a value or an error. *)
Theorem eval_never_panics e d :
  overflow_checks = false -> divides e = false -> eval e d <> Panic.
Proof.
  intros Hb. induction e as [v|p|op l r IHl IHr|op e IH|e l IH IHl|e lo hi IH IHlo IHhi] using expr_ind';
    cbn [divides]; intros Hd; bool_facts.
  - discriminate.
  - cbn [eval]. repeat case_match; discriminate.
  - specialize (IHl ltac:(assumption)). specialize (IHr ltac:(assumption)). cbn [eval].
    destruct (eval l d) as [v| |]; [|destruct op; discriminate|contradiction].
    destruct (eval r d) as [w| |]; [| |contradiction];
      destruct op; try discriminate; cbn [bindO]; repeat case_if; try discriminate; now apply eval_op_total.
  - specialize (IH Hd). cbn [eval]. destruct (eval e d) as [v| |]; [|discriminate|contradiction].
    cbn [bindO]. destruct op; [discriminate|]. destruct v; try discriminate.
    unfold checked_i64. rewrite Hb. now destruct (in_i64 _).
  - specialize (IH ltac:(assumption)). rewrite eval_in_loop. destruct (eval e d) as [v| |]; [|discriminate|contradiction].
    cbn [bindO]. match goal with H : existsb _ _ = false |- _ => rename H into Hl end.
    induction IHl as [|x l Hx _ IHl]; cbn [any_equal existsb] in *; [discriminate|]. bool_facts.
    specialize (Hx ltac:(assumption)). destruct (eval x d) as [w| |]; [|discriminate|contradiction].
    cbn [bindO]. destruct (value_eqb v w); [discriminate|auto].
  - specialize (IH ltac:(assumption)). specialize (IHlo ltac:(assumption)). specialize (IHhi ltac:(assumption)).
    cbn [eval]. destruct (eval e d), (eval lo d), (eval hi d); cbn [bindO]; congruence.
Qed.
End EvalProps.

(** ** The theorems on a sample document *)

#[local] Existing Instance release_build.
#[local] Instance nan_bits : ArithNan := f64_NAN.

Lemma between_witness :
  eval (EBetween (EField "age") (ELiteral (VInt 18)) (EUnary Negate (ELiteral (VInt (-65))))) sample_doc
  = eval (EBinary And (EBinary GtEq (EField "age") (ELiteral (VInt 18)))
            (EBinary LtEq (EField "age") (EUnary Negate (ELiteral (VInt (-65)))))) sample_doc.
Proof.
  apply (between_is_two_comparisons (EField "age") (ELiteral (VInt 18)) (EUnary Negate (ELiteral (VInt (-65))))
    sample_doc (VInt 18) (VInt 65)); reflexivity.
Defined.

Lemma comparisons_are_coherent_witness :
  exists lt eq gt : bool,
    eval (EBinary Lt_ (EField "age") (EField "name")) sample_doc = Ok (VBool lt)
    /\ eval (EBinary Eq_ (EField "age") (EField "name")) sample_doc = Ok (VBool eq)
    /\ eval (EBinary Gt_ (EField "age") (EField "name")) sample_doc = Ok (VBool gt)
    /\ (if lt then negb eq && negb gt else xorb eq gt) = true.
Proof.
  destruct (comparisons_are_coherent (EField "age") (EField "name") sample_doc (VInt 30) (VString "Ada"))
    as (lt & eq & gt & H1 & H2 & H3 & H4 & _); [reflexivity..|].
  exists lt, eq, gt. split; [exact H1|]. split; [exact H2|]. split; [exact H3|exact H4].
Defined.

Lemma integer_arithmetic_witness :
  eval (EBinary Multiply (EField "age") (ELiteral (VInt 9223372036854775807))) sample_doc = Ok (VInt (-30)).
Proof.
  rewrite (integer_arithmetic Multiply (EField "age") (ELiteral (VInt 9223372036854775807)) sample_doc 30 9223372036854775807);
    [reflexivity|cbn; auto|reflexivity..].
Defined.

Lemma eval_never_panics_witness :
  eval (EUnary Negate (EBinary Plus (EField "name") (EField "age"))) sample_doc <> Panic.
Proof. apply (eval_never_panics (EUnary Negate (EBinary Plus (EField "name") (EField "age")))); reflexivity. Defined.
