(* ===== verification/Planner.v ===== *)
(** [nova-query/src/planner.rs]: the choice between the indexes and a full scan. *)

From S2P Require Export Evaluator Manager.

Inductive QueryPlan :=
| IndexLookup (index_name : string) (key : Value) (filter : option Expr) (sort : option SortClause)
    (limit offset : option Z)
| IndexRangeScan (index_name : string) (range : IndexRange) (filter : option Expr)
    (sort : option SortClause) (limit offset : option Z)
| SeqScan (filter : option Expr) (sort : option SortClause) (limit offset : option Z).

(** [QueryPlan::description]; the [Debug] text of values and ranges is derived. *)
Definition description (debug_value : Value -> string) (debug_range : IndexRange -> string)
    (p : QueryPlan) : string :=
  match p with
  | IndexLookup n key _ _ _ _ => "IndexLookup(index: '" ++ n ++ "', key: " ++ debug_value key ++ ")"
  | IndexRangeScan n range _ _ _ _ =>
    "IndexRangeScan(index: '" ++ n ++ "', range: " ++ debug_range range ++ ")"
  | SeqScan filter _ _ _ =>
    "SeqScan(" ++ (match filter with Some _ => "filtered" | None => "unfiltered" end) ++ ")"
  end%string.

(** The derived [PartialEq] of [IndexRange]. *)
Definition bound_eqb (a b : Bound) : bool :=
  match a, b with
  | Included x, Included y | Excluded x, Excluded y => value_eqb x y
  | Unbounded, Unbounded => true
  | _, _ => false
  end.

Definition range_eqb (a b : IndexRange) : bool :=
  bound_eqb (range_start a) (range_start b) && bound_eqb (range_end a) (range_end b).

Section Planner.
Context {HO : HashOrder}.

(** [field == literal] or [literal == field] with an index on the field. *)
Definition plan_exact (expr : Expr) (sort : option SortClause) (limit offset : option Z)
    (mgr : IndexManager.t) : option QueryPlan :=
  match expr with
  | EBinary Eq_ (EField field) (ELiteral lit) | EBinary Eq_ (ELiteral lit) (EField field) =>
    match IndexManager.find_index_for_field field mgr with
    | Some idx => Some (IndexLookup (index_name idx) lit None sort limit offset)
    | None => None
    end
  | _ => None
  end.

Definition op_range (op : BinaryOp) (lit : Value) : IndexRange :=
  match op with
  | Gt_ => {| range_start := Excluded lit; range_end := Unbounded |}
  | GtEq => Range.from_inclusive lit
  | Lt_ => {| range_start := Unbounded; range_end := Excluded lit |}
  | LtEq => Range.to_inclusive lit
  | _ => Range.all
  end.

Definition plan_range (expr : Expr) (sort : option SortClause) (limit offset : option Z)
    (mgr : IndexManager.t) : option QueryPlan :=
  match expr with
  | EBinary op (EField field) (ELiteral lit) =>
    match IndexManager.find_index_for_field field mgr with
    | Some idx =>
      if decide (index_type idx = Ordered) then
        let range := op_range op lit in
        if negb (range_eqb range Range.all) then
          Some (IndexRangeScan (index_name idx) range None sort limit offset)
        else None
      else None
    | None => None
    end
  | _ => None
  end.

Definition plan_between (expr : Expr) (sort : option SortClause) (limit offset : option Z)
    (mgr : IndexManager.t) : option QueryPlan :=
  match expr with
  | EBetween (EField field) (ELiteral min_val) (ELiteral max_val) =>
    match IndexManager.find_index_for_field field mgr with
    | Some idx =>
      if decide (index_type idx = Ordered) then
        Some (IndexRangeScan (index_name idx) (Range.between_inclusive min_val max_val) None
                sort limit offset)
      else None
    | None => None
    end
  | _ => None
  end.

(** [QueryPlanner::plan]. *)
Definition plan (filter : option Expr) (sort : option SortClause) (limit offset : option Z)
    (mgr : IndexManager.t) : QueryPlan :=
  match filter with
  | Some expr =>
    match plan_exact expr sort limit offset mgr with
    | Some p => p
    | None =>
      match plan_range expr sort limit offset mgr with
      | Some p => p
      | None =>
        match plan_between expr sort limit offset mgr with
        | Some p => p
        | None => SeqScan filter sort limit offset
        end
      end
    end
  | None => SeqScan filter sort limit offset
  end.
End Planner.
