(* ===== verification/Server.v ===== *)
(** [nova-server/src/config.rs] and [metrics.rs]. *)

From S2P Require Export Wal.

(** ** [config.rs] *)

Record ServerConfig := {
  host : string;
  port : Z;
  data_dir : string;
  max_connections : Z;
  max_frame_size : Z;
  sync_mode_name : string;
  auth_token : option string;
  web_port : option Z;
}.

Definition config_default : ServerConfig :=
  {| host := "127.0.0.1"; port := 7400; web_port := None; data_dir := "./data";
     max_connections := 1000; max_frame_size := 16 * 1024 * 1024; sync_mode_name := "always";
     auth_token := None |}.

(** [str::to_lowercase] on the ASCII letters.  (No letter outside ASCII has a lower
    case among the letters of the two names the result is compared with.) *)
Definition ascii_lower (a : ascii) : ascii :=
  let n := N_of_ascii a in
  if (65 <=? n)%N && (n <=? 90)%N then ascii_of_N (n + 32) else a.

Fixpoint to_lowercase (s : string) : string :=
  match s with
  | EmptyString => EmptyString
  | String a s' => String (ascii_lower a) (to_lowercase s')
  end.

Definition get_sync_mode (c : ServerConfig) : SyncMode :=
  let name := to_lowercase (sync_mode_name c) in
  if String.eqb name "none" || String.eqb name "buffered" then SyncNone else SyncAlways.

Definition bind_addr (c : ServerConfig) : string := (host c ++ ":" ++ fmt_int (port c))%string.

Definition web_addr (c : ServerConfig) : option string :=
  (fun p => host c ++ ":" ++ fmt_int p)%string <$> web_port c.

(** ** [metrics.rs]

    The atomic counters wrap around at 64 bits. *)
Module Metrics.
Record t := {
  active_connections : Z;
  total_queries : Z;
  total_writes : Z;
  total_reads : Z;
  total_events_emitted : Z;
  start_time_micros : Z;
}.

Definition new (now : Z) : t :=
  {| active_connections := 0; total_queries := 0; total_writes := 0; total_reads := 0;
     total_events_emitted := 0; start_time_micros := now |}.

Definition add_conn (d : Z) (m : t) : t :=
  {| active_connections := wrap_u64 (active_connections m + d); total_queries := total_queries m;
     total_writes := total_writes m; total_reads := total_reads m;
     total_events_emitted := total_events_emitted m; start_time_micros := start_time_micros m |}.

Definition inc_connections : t -> t := add_conn 1.
Definition dec_connections : t -> t := add_conn (-1).

Definition inc_queries (m : t) : t :=
  {| active_connections := active_connections m; total_queries := wrap_u64 (total_queries m + 1);
     total_writes := total_writes m; total_reads := total_reads m;
     total_events_emitted := total_events_emitted m; start_time_micros := start_time_micros m |}.

Definition inc_writes (m : t) : t :=
  {| active_connections := active_connections m; total_queries := total_queries m;
     total_writes := wrap_u64 (total_writes m + 1); total_reads := total_reads m;
     total_events_emitted := total_events_emitted m; start_time_micros := start_time_micros m |}.

Definition inc_reads (m : t) : t :=
  {| active_connections := active_connections m; total_queries := total_queries m;
     total_writes := total_writes m; total_reads := wrap_u64 (total_reads m + 1);
     total_events_emitted := total_events_emitted m; start_time_micros := start_time_micros m |}.

Definition inc_events (m : t) : t :=
  {| active_connections := active_connections m; total_queries := total_queries m;
     total_writes := total_writes m; total_reads := total_reads m;
     total_events_emitted := wrap_u64 (total_events_emitted m + 1);
     start_time_micros := start_time_micros m |}.

Record MetricsSnapshot := {
  s_active_connections : Z; s_total_queries : Z; s_total_writes : Z; s_total_reads : Z;
  s_total_events_emitted : Z; s_uptime_seconds : Z;
}.

(** [snapshot]: the subtraction is on [i64], the division truncates. *)
Definition snapshot `{Build} {E} (now : Z) (m : t) : outcome E MetricsSnapshot :=
  let? elapsed := checked_i64 (now - start_time_micros m) in
  Ok {| s_active_connections := active_connections m; s_total_queries := total_queries m;
        s_total_writes := total_writes m; s_total_reads := total_reads m;
        s_total_events_emitted := total_events_emitted m;
        s_uptime_seconds := Z.max (Z.quot elapsed 1000000) 0 |}.
End Metrics.
