(* ===== verification/Engine.v ===== *)
(** [nova-server/src/engine.rs]: the database engine as a state machine.

    Every handler takes the engine and returns the engine and the response, an
    error or a panic: what was changed before an early return stays changed.  The
    arguments [fault] and [now] are the environment of one statement: the value of
    [NOVA_FAULT] and the successive readings of the clock. *)

From S2P Require Export Planner Payload Recovery Server.

Record Engine := {
  config : ServerConfig;
  collections : gmap CollectionKey DocumentStore;
  indexes : gmap CollectionKey IndexManager.t;
  wal : WriteAheadLog.t;
  events : list DataEvent;        (* what was sent on the broadcast channel *)
  metrics : Metrics.t;
}.

Definition set_collections (c : gmap CollectionKey DocumentStore) (e : Engine) : Engine :=
  {| config := config e; collections := c; indexes := indexes e; wal := wal e;
     events := events e; metrics := metrics e |}.
Definition set_indexes (i : gmap CollectionKey IndexManager.t) (e : Engine) : Engine :=
  {| config := config e; collections := collections e; indexes := i; wal := wal e;
     events := events e; metrics := metrics e |}.
Definition set_wal (w : WriteAheadLog.t) (e : Engine) : Engine :=
  {| config := config e; collections := collections e; indexes := indexes e; wal := w;
     events := events e; metrics := metrics e |}.
Definition on_metrics (f : Metrics.t -> Metrics.t) (e : Engine) : Engine :=
  {| config := config e; collections := collections e; indexes := indexes e; wal := wal e;
     events := events e; metrics := f (metrics e) |}.

(** [map.get(&key)] with an empty default, [entry(key).or_default()] and writing
    back through the reference it returns. *)
Definition store_at (key : CollectionKey) (e : Engine) : DocumentStore :=
  default ∅ (collections e !! key).
Definition manager_at (key : CollectionKey) (e : Engine) : IndexManager.t :=
  default ∅ (indexes e !! key).
Definition put_store (key : CollectionKey) (s : DocumentStore) (e : Engine) : Engine :=
  set_collections (<[key := s]> (collections e)) e.
Definition put_manager (key : CollectionKey) (m : IndexManager.t) (e : Engine) : Engine :=
  set_indexes (<[key := m]> (indexes e)) e.
Definition entry_both (key : CollectionKey) (e : Engine) : Engine :=
  put_manager key (manager_at key e) (put_store key (store_at key e) e).

(** ** Sorting and pagination *)

Definition sort_value (field : string) (d : Document) : Value :=
  default VNull (Doc.lookup d field).

Definition doc_order (c : SortClause) (a b : Document) : comparison :=
  let ord := value_cmp (sort_value (sort_field c) a) (sort_value (sort_field c) b) in
  match sort_direction c with
  | Desc => CompOpp ord
  | Asc => ord
  end.

(** Offset and limit; [off + l] on [usize], then a slice. *)
Definition paginate `{Build} (limit offset : option Z) (results : list Document) : result (list Document) :=
  let len := Z.of_nat (List.length results) in
  let off := default 0 offset in
  if len <=? off then Ok []
  else
    let? last := match limit with
                 | Some l => let? sum := checked_u64 (off + l) in Ok (Z.min sum len)
                 | None => Ok len
                 end in
    if last <? off then Panic
    else Ok (firstn (Z.to_nat (last - off)) (skipn (Z.to_nat off) results)).

(** ** What UPDATE and REMOVE announce

    The sequence number, the identifier, the document before and the one after. *)
Abbreviation Updated := (Z * DocumentId * Document * Document)%type.

Definition update_event (ns coll : string) (at_ : Z) (u : Updated) : DataEvent :=
  let '(seq, i, before, after) := u in event_new at_ seq Document.Update ns coll i (Some before) (Some after) None.

Definition delete_event (ns coll : string) (at_ : Z) (u : Updated) : DataEvent :=
  let '(seq, i, before, _) := u in event_new at_ seq Document.Delete ns coll i (Some before) None None.

Section Engine.
Context {B : Build} {AN : ArithNan} {HO : HashOrder} {C : CrcLib} {U : UuidLib} {J : JsonLib}.

(** [emit_event]. *)
Definition emit_event (ev : DataEvent) (e : Engine) : Engine :=
  {| config := config e; collections := collections e; indexes := indexes e; wal := wal e;
     events := events e ++ [ev]; metrics := Metrics.inc_events (metrics e) |}.

(** ** [open]

    [rebuild] errors are dropped; a fresh manager has no index to rebuild. *)
Definition open (cfg : ServerConfig) (m : Metrics.t) (wal_dir : gmap string bytes) : result Engine :=
  let? (recovered, dir) := recover wal_dir in
  let wal := WriteAheadLog.open dir (get_sync_mode cfg) (16 * 1024 * 1024) in
  let wal := WriteAheadLog.set_sequence (max_sequence recovered) wal in
  let colls := Recovery.collections recovered in
  Ok {| config := cfg; collections := colls;
        indexes := (fun store => (IndexManager.rebuild (store_values store) IndexManager.new).1) <$> colls;
        wal := wal; events := []; metrics := m |}.

(** ** INSERT, in the four steps between which the locks are released *)

Definition insert_check (key : CollectionKey) (doc : Document) (e : Engine) : result unit :=
  match collections e !! key with
  | Some store =>
    match store !! id doc with
    | Some _ =>
      Err (Errors.new DocumentAlreadyExists
             ("Document '" ++ id doc ++ "' already exists in '" ++ key.2 ++ "'")%string)
    | None => Ok tt
    end
  | None => Ok tt
  end.

Definition insert_log (fault : Fault) (now : Z) (key : CollectionKey) (doc : Document) (e : Engine)
    : Engine * result Z :=
  match NbfRecord.payload_from_document doc with
  | Ok payload =>
    let (w, r) := WriteAheadLog.append fault now Insert key.1 key.2 (id doc) payload None (wal e) in
    (set_wal w e, r)
  | Err er => (e, Err er)
  | Panic => (e, Panic)
  end.

Definition insert_store (key : CollectionKey) (doc : Document) (e : Engine) : Engine :=
  put_store key (<[id doc := doc]> (store_at key e)) e.

Definition insert_index (key : CollectionKey) (doc : Document) (e : Engine) : Engine * result unit :=
  let (m, r) := IndexManager.on_insert doc (manager_at key e) in
  (put_manager key m e, match r with Panic => Panic | _ => Ok tt end).

Definition execute_insert (fault : Fault) (now : nat -> Z) (ns coll : string) (doc : Document)
    (e : Engine) : Engine * result ResponsePayload :=
  let key := (ns, coll) in
  match insert_check key doc e with
  | Err er => (e, Err er)
  | Panic => (e, Panic)
  | Ok _ =>
    match insert_log fault (now 0%nat) key doc e with
    | (e, Err er) => (e, Err er)
    | (e, Panic) => (e, Panic)
    | (e, Ok seq) =>
      let e := insert_store key doc e in
      match insert_index key doc e with
      | (e, Panic) => (e, Panic)
      | (e, _) =>
        let e := emit_event (event_new (now 1%nat) seq Create ns coll (id doc) None (Some doc) None) e in
        (e, Ok (PRecords [doc] 1))
      end
    end
  end.

(** ** FIND *)

Definition store_keys (store : DocumentStore) : list DocumentId :=
  List.map fst (hash_order (map_to_list store)).

Definition candidates (p : QueryPlan) (mgr : IndexManager.t) (store : DocumentStore)
    : result (list DocumentId) :=
  match p with
  | IndexLookup n key _ _ _ _ =>
    match IndexManager.get n mgr with
    | Some idx => Ok (index_lookup key idx)
    | None => Ok (store_keys store)
    end
  | IndexRangeScan n range _ _ _ _ =>
    match IndexManager.get n mgr with
    | Some idx =>
      match index_scan range idx with
      | Ok ids => Ok ids
      | Err _ => Ok []
      | Panic => Panic
      end
    | None => Ok (store_keys store)
    end
  | SeqScan _ _ _ _ => Ok (store_keys store)
  end.

Fixpoint filter_ids (filter : option Expr) (store : DocumentStore) (ids : list DocumentId)
    : result (list Document) :=
  match ids with
  | [] => Ok []
  | i :: ids' =>
    match store !! i with
    | Some doc =>
      let? keep := matches_filter filter doc in
      let? docs := filter_ids filter store ids' in
      Ok (if keep then doc :: docs else docs)
    | None => filter_ids filter store ids'
    end
  end.

Definition execute_find (ns coll : string) (filter : option Expr) (sort : option SortClause)
    (limit offset : option Z) (e : Engine) : result ResponsePayload :=
  let key := (ns, coll) in
  match collections e !! key with
  | None => Ok (PRecords [] 0)
  | Some store =>
    let mgr := manager_at key e in
    let? ids := candidates (plan filter sort limit offset mgr) mgr store in
    let? results := filter_ids filter store ids in
    let results := match sort with
                   | Some c => sort_by (doc_order c) results
                   | None => results
                   end in
    let? docs := paginate limit offset results in
    Ok (PRecords docs (Z.of_nat (List.length docs)))
  end.

(** ** UPDATE *)

(** The loop over [store.iter_mut()]; the document is modified in place before
    anything is written to the log. *)
Fixpoint update_loop (fault : Fault) (now : nat -> Z) (t : nat) (key : CollectionKey)
    (assignments : list Assignment) (filter : option Expr) (ids : list DocumentId)
    (acc : list Updated) (e : Engine) : Engine * result (list Updated) :=
  match ids with
  | [] => (e, Ok acc)
  | i :: ids' =>
    match store_at key e !! i with
    | None => update_loop fault now t key assignments filter ids' acc e
    | Some before =>
      match matches_filter filter before with
      | Err er => (e, Err er)
      | Panic => (e, Panic)
      | Ok false => update_loop fault now t key assignments filter ids' acc e
      | Ok true =>
        let (after, applied) := apply_assignments (now t) before assignments in
        let e := put_store key (<[i := after]> (store_at key e)) e in
        match applied with
        | Err er => (e, Err er)
        | Panic => (e, Panic)
        | Ok _ =>
          match NbfRecord.payload_from_document after with
          | Err er => (e, Err er)
          | Panic => (e, Panic)
          | Ok payload =>
            let (w, logged) := WriteAheadLog.append fault (now (S t)) Update key.1 key.2 i payload None (wal e) in
            let e := set_wal w e in
            match logged with
            | Err er => (e, Err er)
            | Panic => (e, Panic)
            | Ok seq =>
              let (m, indexed) := IndexManager.on_update before after (manager_at key e) in
              let e := put_manager key m e in
              match indexed with
              | Panic => (e, Panic)
              | _ =>
                update_loop fault now (S (S t)) key assignments filter ids'
                  (acc ++ [(seq, i, before, after)]) e
              end
            end
          end
        end
      end
    end
  end.

(** The events of a statement, one after the other; [t] counts clock readings. *)
Fixpoint emit_all (mk : Z -> Updated -> DataEvent) (now : nat -> Z) (t : nat) (us : list Updated)
    (e : Engine) : Engine :=
  match us with
  | [] => e
  | u :: us' => emit_all mk now (S t) us' (emit_event (mk (now t) u) e)
  end.

(** The part of [execute_update] and [execute_remove] that holds the locks: the changes
    and what is to be announced of them. *)
Definition update_changes (fault : Fault) (now : nat -> Z) (ns coll : string)
    (assignments : list Assignment) (filter : option Expr) (e : Engine) : Engine * result (list Updated) :=
  let key := (ns, coll) in
  let e := entry_both key e in
  update_loop fault now 0 key assignments filter (store_keys (store_at key e)) [] e.

Definition execute_update (fault : Fault) (now : nat -> Z) (ns coll : string)
    (assignments : list Assignment) (filter : option Expr) (e : Engine)
    : Engine * result ResponsePayload :=
  match update_changes fault now ns coll assignments filter e with
  | (e, Err er) => (e, Err er)
  | (e, Panic) => (e, Panic)
  | (e, Ok updated) =>
    let affected := Z.of_nat (List.length updated) in
    let e := emit_all (update_event ns coll) now (2 * List.length updated) updated e in
    (e, Ok (PSuccess ("Updated " ++ fmt_int affected ++ " document(s)")%string affected))
  end.

(** ** REMOVE *)

Fixpoint target_ids (filter : option Expr) (store : DocumentStore) (ids : list DocumentId)
    : result (list DocumentId) :=
  match ids with
  | [] => Ok []
  | i :: ids' =>
    match store !! i with
    | Some doc =>
      let? keep := unwrap_or false (matches_filter filter doc) in
      let? more := target_ids filter store ids' in
      Ok (if keep then i :: more else more)
    | None => target_ids filter store ids'
    end
  end.

Fixpoint remove_loop (fault : Fault) (now : nat -> Z) (t : nat) (key : CollectionKey)
    (ids : list DocumentId) (acc : list Updated) (e : Engine) : Engine * result (list Updated) :=
  match ids with
  | [] => (e, Ok acc)
  | i :: ids' =>
    match store_at key e !! i with
    | None => remove_loop fault now t key ids' acc e
    | Some removed_doc =>
      let e := put_store key (delete i (store_at key e)) e in
      let (w, logged) := WriteAheadLog.append fault (now t) Delete key.1 key.2 i [] None (wal e) in
      let e := set_wal w e in
      match logged with
      | Err er => (e, Err er)
      | Panic => (e, Panic)
      | Ok seq =>
        let (m, indexed) := IndexManager.on_remove removed_doc (manager_at key e) in
        let e := put_manager key m e in
        match indexed with
        | Panic => (e, Panic)
        | _ => remove_loop fault now (S t) key ids' (acc ++ [(seq, i, removed_doc, removed_doc)]) e
        end
      end
    end
  end.

Definition remove_changes (fault : Fault) (now : nat -> Z) (ns coll : string) (filter : option Expr)
    (e : Engine) : Engine * result (list Updated) :=
  let key := (ns, coll) in
  let e := entry_both key e in
  let store := store_at key e in
  match target_ids filter store (store_keys store) with
  | Err er => (e, Err er)
  | Panic => (e, Panic)
  | Ok ids => remove_loop fault now 0 key ids [] e
  end.

Definition execute_remove (fault : Fault) (now : nat -> Z) (ns coll : string) (filter : option Expr)
    (e : Engine) : Engine * result ResponsePayload :=
  match remove_changes fault now ns coll filter e with
  | (e, Err er) => (e, Err er)
  | (e, Panic) => (e, Panic)
  | (e, Ok removed) =>
    let affected := Z.of_nat (List.length removed) in
    let e := emit_all (delete_event ns coll) now (List.length removed) removed e in
    (e, Ok (PSuccess ("Removed " ++ fmt_int affected ++ " document(s)")%string affected))
  end.

(** ** COUNT and EXISTS *)

Fixpoint count_docs (filter : option Expr) (docs : list Document) : result Z :=
  match docs with
  | [] => Ok 0
  | d :: docs' =>
    let? keep := matches_filter filter d in
    let? c := count_docs filter docs' in
    Ok (if keep then c + 1 else c)
  end.

Definition execute_count (ns coll : string) (filter : option Expr) (e : Engine) : result ResponsePayload :=
  match collections e !! (ns, coll) with
  | Some store => let? c := count_docs filter (store_values store) in Ok (PCount c)
  | None => Ok (PCount 0)
  end.

Fixpoint exists_doc (filter : option Expr) (docs : list Document) : result bool :=
  match docs with
  | [] => Ok false
  | d :: docs' =>
    let? found := matches_filter filter d in
    if found then Ok true else exists_doc filter docs'
  end.

Definition execute_exists (ns coll : string) (filter : option Expr) (e : Engine) : result ResponsePayload :=
  match collections e !! (ns, coll) with
  | Some store => let? b := exists_doc filter (store_values store) in Ok (PExists b)
  | None => Ok (PExists false)
  end.

(** ** CREATE INDEX and DROP INDEX *)

Definition idx_name (coll field : string) : string := ("idx_" ++ coll ++ "_" ++ field)%string.

Definition new_index (ty : IndexType) (name field : string) : DynIndex :=
  match ty with
  | Hash => HashIdx (HashIndex.new name field)
  | Ordered | PrimaryKey => OrderedIdx (OrderedIndex.new name field)
  end.

(** Errors of [index.insert] are dropped. *)
Fixpoint populate (field : string) (docs : list Document) (idx : DynIndex) : result DynIndex :=
  match docs with
  | [] => Ok idx
  | d :: docs' =>
    match Doc.lookup d field with
    | Some v =>
      match index_insert v (id d) idx with
      | Ok idx => populate field docs' idx
      | Err _ => populate field docs' idx
      | Panic => Panic
      end
    | None => populate field docs' idx
    end
  end.

Definition execute_create_index (ns coll field : string) (ty : IndexType) (e : Engine)
    : Engine * result ResponsePayload :=
  let key := (ns, coll) in
  let name := idx_name coll field in
  let e := put_manager key (manager_at key e) e in
  let docs := match collections e !! key with Some store => store_values store | None => [] end in
  match populate field docs (new_index ty name field) with
  | Ok index =>
    (put_manager key (IndexManager.add_index index (manager_at key e)) e,
     Ok (PSuccess ("Index '" ++ name ++ "' created on '" ++ coll ++ "." ++ field ++ "'")%string 1))
  | Err er => (e, Err er)
  | Panic => (e, Panic)
  end.

Definition execute_drop_index (ns coll field : string) (e : Engine) : Engine * result ResponsePayload :=
  let key := (ns, coll) in
  let name := idx_name coll field in
  let not_found := Err (Errors.new IndexNotFound
                          ("Index for '" ++ field ++ "' not found on '" ++ coll ++ "'")%string) in
  match indexes e !! key with
  | Some mgr =>
    let (mgr, dropped) := IndexManager.drop_index name mgr in
    let e := put_manager key mgr e in
    if dropped then (e, Ok (PSuccess ("Index '" ++ name ++ "' dropped")%string 1)) else (e, not_found)
  | None => (e, not_found)
  end.

(** ** [execute] *)

Definition execute (fault : Fault) (now : nat -> Z) (stmt : Statement) (ns : string) (e : Engine)
    : Engine * result ResponsePayload :=
  let e := on_metrics Metrics.inc_queries e in
  match stmt with
  | SFind coll filter sort limit offset =>
    let e := on_metrics Metrics.inc_reads e in
    (e, execute_find ns coll filter sort limit offset e)
  | SInsert coll doc =>
    execute_insert fault now ns coll doc (on_metrics Metrics.inc_writes e)
  | SUpdate coll assignments filter =>
    execute_update fault now ns coll assignments filter (on_metrics Metrics.inc_writes e)
  | SRemove coll filter =>
    execute_remove fault now ns coll filter (on_metrics Metrics.inc_writes e)
  | SCount coll filter =>
    let e := on_metrics Metrics.inc_reads e in (e, execute_count ns coll filter e)
  | SExists coll filter =>
    let e := on_metrics Metrics.inc_reads e in (e, execute_exists ns coll filter e)
  | SCreateIndex coll field ty => execute_create_index ns coll field ty e
  | SDropIndex coll field => execute_drop_index ns coll field e
  | SWatch _ _ => (e, Err (invalid_query "WATCH should be routed to stream handler"))
  | SBegin | SCommit | SRollback => (e, Ok (PSuccess "Transaction statement accepted" 0))
  end.

(** [snapshot_collections] and [get_system_status]. *)
Definition snapshot_collections (e : Engine) : gmap CollectionKey DocumentStore := collections e.

Definition collection_info (e : Engine) (entry : CollectionKey * DocumentStore) : string * Json :=
  let '((ns, coll), store) := entry in
  let idx_count := match indexes e !! (ns, coll) with
                   | Some m => List.length (IndexManager.list_indexes m)
                   | None => 0%nat
                   end in
  (ns, JObject [("document_count", JNumber (PosInt (Z.of_nat (size store))));
                ("index_count", JNumber (PosInt (Z.of_nat idx_count))); ("name", JString coll)])%string.

(** Collections grouped by namespace, in the order in which they are visited. *)
Definition namespace_map (e : Engine) : gmap string (list Json) :=
  fold_left (fun m '(ns, info) => <[ns := (default [] (m !! ns) ++ [info])%list]> m)
    (List.map (collection_info e) (hash_order (map_to_list (collections e)))) ∅.

Definition get_system_status (now : Z) (e : Engine) : result Json :=
  let? m := Metrics.snapshot now (metrics e) in
  let cfg := config e in
  let num z := JNumber (PosInt z) in
  Ok (JObject [
    ("bind_addr", JString (bind_addr cfg)); ("data_dir", JString (data_dir cfg));
    ("max_connections", num (max_connections cfg));
    ("metrics", JObject [
      ("active_connections", num (Metrics.s_active_connections m));
      ("total_events", num (Metrics.s_total_events_emitted m));
      ("total_queries", num (Metrics.s_total_queries m));
      ("total_reads", num (Metrics.s_total_reads m));
      ("total_writes", num (Metrics.s_total_writes m));
      ("uptime_seconds", num (Metrics.s_uptime_seconds m))]);
    ("namespaces", JArray (List.map (fun p => JObject [("collections", JArray p.2); ("name", JString p.1)])
                             (hash_order (map_to_list (namespace_map e)))));
    ("status", JString "online"); ("sync_mode", JString (sync_mode_name cfg));
    ("tagline", JString "A database that understands the flow of your data.");
    ("version", JString "0.1.0");
    ("web_addr", match web_addr cfg with Some a => JString a | None => JNull end)])%string.
End Engine.
