(* ===== verification/Connection.v ===== *)
(** [nova-server/src/connection.rs]: one client connection: requests, replies and live
    subscriptions.

    The broadcast channel is the list of events of the engine; a receiver is a
    position in it, and sees the events from its position on, except those that fell
    out of the channel's buffer before it read them. *)

From S2P Require Export Engine Parser.

(** What a request finds in the environment: the fault switch, the clock during the
    execution, the clock and the fresh identifier during the parse. *)
Record Env := { env_fault : Fault; env_now : nat -> Z; env_parse_now : Z; env_generated : DocumentId }.

(** A background task started by WATCH. *)
Record Watcher := {
  sub_id : Z;
  watch_collection : string;
  watch_filter : option Expr;
  start_at : nat;                  (* the events sent before the subscription *)
  next_event : nat;                (* the position of the receiver *)
  received : list DataEvent;       (* what [recv] returned so far *)
  running : bool;                  (* the task has not panicked *)
}.

Record Conn := {
  authenticated : bool;
  watchers : list Watcher;
  outbox : list NvpFrame.t;        (* what was sent into [out_tx] *)
  alive : bool;                    (* the reader loop is running *)
  crashed : bool;                  (* the task ended by a panic *)
}.

Definition set_authenticated (b : bool) (c : Conn) : Conn :=
  {| authenticated := b; watchers := watchers c; outbox := outbox c; alive := alive c;
     crashed := crashed c |}.
Definition add_watcher (w : Watcher) (c : Conn) : Conn :=
  {| authenticated := authenticated c; watchers := watchers c ++ [w]; outbox := outbox c; alive := alive c;
     crashed := crashed c |}.
Definition send (f : NvpFrame.t) (c : Conn) : Conn :=
  {| authenticated := authenticated c; watchers := watchers c; outbox := outbox c ++ [f]; alive := alive c;
     crashed := crashed c |}.
Definition stop (panicked : bool) (c : Conn) : Conn :=
  {| authenticated := authenticated c; watchers := watchers c; outbox := outbox c; alive := false;
     crashed := panicked |}.

Section Connection.
Context {B : Build} {AN : ArithNan} {HO : HashOrder} {C : CrcLib} {U : UuidLib} {J : JsonLib}
  {UT : UnicodeTables} {TD : TokenDebug}.

(** [ConnectionHandler::new]. *)
Definition conn_new (e : Engine) : Conn :=
  {| authenticated := match auth_token (config e) with Some _ => false | None => true end;
     watchers := []; outbox := []; alive := true; crashed := false |}.

(** [run] up to the reader loop. *)
Definition connect (e : Engine) : Engine * Conn := (on_metrics Metrics.inc_connections e, conn_new e).

Definition respond (req_id : Z) (resp : ResponsePayload) : result (option NvpFrame.t) :=
  let? bytes := response_to_bytes resp in
  Ok (Some (NvpFrame.new FResponse req_id bytes)).

(** [start_watch]. *)
Definition start_watch (req_id : Z) (collection : string) (filter : option Expr) (e : Engine) (c : Conn)
    : Conn * result (option NvpFrame.t) :=
  let w := {| sub_id := req_id; watch_collection := collection; watch_filter := filter;
              start_at := List.length (events e); next_event := List.length (events e); received := []; running := true |} in
  (add_watcher w c, respond req_id (PWatchAck req_id)).

(** [handle_request]. *)
Definition handle_request (env : Env) (req_id : Z) (payload : RequestPayload) (e : Engine) (c : Conn)
    : Engine * Conn * result (option NvpFrame.t) :=
  match payload with
  | RAuth token =>
    match auth_token (config e) with
    | Some expected =>
      if String.eqb token expected then
        (e, set_authenticated true c, respond req_id (PSuccess "Authentication successful" 0))
      else (e, c, Err (Errors.new AuthenticationFailed "Invalid authentication token"))
    | None => (e, set_authenticated true c, respond req_id (PSuccess "No authentication required" 0))
    end
  | RPing => (e, c, respond req_id PPong)
  | _ =>
    if negb (authenticated c) then
      (e, c, Err (Errors.new PermissionDenied "Authentication required before issuing queries"))
    else
      match payload with
      | RQuery nql =>
        match parse_nql (env_parse_now env) (env_generated env) nql with
        | Err er => (e, c, Err er)
        | Panic => (e, c, Panic)
        | Ok (SWatch collection filter) =>
          let (c, r) := start_watch req_id collection filter e c in (e, c, r)
        | Ok stmt =>
          let (e, r) := execute (env_fault env) (env_now env) stmt "default" e in
          (e, c, let? resp := r in respond req_id resp)
        end
      | RWatch nql =>
        match parse_nql (env_parse_now env) (env_generated env) nql with
        | Err er => (e, c, Err er)
        | Panic => (e, c, Panic)
        | Ok (SWatch collection filter) =>
          let (c, r) := start_watch req_id collection filter e c in (e, c, r)
        | Ok _ => (e, c, Err (invalid_query "Expected WATCH statement"))
        end
      | RUnwatch _ => (e, c, respond req_id (PSuccess "Unwatched" 1))
      | RAuth _ | RPing => (e, c, Panic)
      end
  end.

(** [handle_frame]. *)
Definition handle_frame (env : Env) (frame : NvpFrame.t) (e : Engine) (c : Conn)
    : Engine * Conn * result (option NvpFrame.t) :=
  match NvpFrame.frame_type frame with
  | FPing => (e, c, Ok (Some (NvpFrame.pong (NvpFrame.request_id frame))))
  | FPong => (e, c, Ok None)
  | FRequest =>
    match request_from_bytes (NvpFrame.payload frame) with
    | Ok payload => handle_request env (NvpFrame.request_id frame) payload e c
    | Err er => (e, c, Err er)
    | Panic => (e, c, Panic)
    end
  | other =>
    (e, c, Err (protocol ("Unexpected frame type " ++ frame_type_debug other ++ " sent from client")))
  end.

(** One turn of the reader loop of [run] on what the framed stream yields: a frame, or
    what ends the loop, a framing error or the end of the stream.  A panic ends the
    task before the connection is counted out.  The writer task is not modelled: the
    frames it has not written when the loop ends are lost. *)
Definition read_one (env : Env) (input : NvpFrame.t + string) (e : Engine) (c : Conn) : Engine * Conn :=
  match input with
  | inr _ => (on_metrics Metrics.dec_connections e, stop false c)
  | inl frame =>
    match handle_frame env frame e c with
    | (e, c, Ok (Some response_frame)) => (e, send response_frame c)
    | (e, c, Ok None) => (e, c)
    | (e, c, Err err) =>
      match response_to_bytes (PError err) with
      | Ok bytes => (e, send (NvpFrame.new FError (NvpFrame.request_id frame) bytes) c)
      | _ => (e, c)
      end
    | (e, c, Panic) => (e, stop true c)
    end
  end.

(** The body of the watcher's loop for one event: the frame it sends, if any.  An
    error of the filter counts as no match, a panic ends the task. *)
Definition event_frame (w : Watcher) (event : DataEvent) : result (option NvpFrame.t) :=
  if String.eqb (ev_collection event) (watch_collection w) then
    let doc_ref := match ev_after event with Some d => Some d | None => ev_before event end in
    let? matches := match doc_ref with
                    | Some doc => unwrap_or false (matches_filter (watch_filter w) doc)
                    | None => Ok true
                    end in
    if matches then
      match event_to_bytes event with
      | Ok payload => Ok (Some (NvpFrame.new FEvent (sub_id w) payload))
      | Err _ => Ok None
      | Panic => Panic
      end
    else Ok None
  else Ok None.

Definition take_event (event : DataEvent) (pos : nat) (go_on : bool) (w : Watcher) : Watcher :=
  {| sub_id := sub_id w; watch_collection := watch_collection w; watch_filter := watch_filter w;
     start_at := start_at w; next_event := S pos; received := received w ++ [event]; running := go_on |}.

Definition set_watcher (i : nat) (w : Watcher) (c : Conn) : Conn :=
  {| authenticated := authenticated c; watchers := <[i := w]> (watchers c); outbox := outbox c; alive := alive c;
   crashed := crashed c |}.

(** The capacity of the broadcast channel. *)
Definition channel_capacity : nat := 4096.

(** One turn of the loop of the watcher at index [i]: the next event, at its position
    or, when it has lagged behind the buffer of the channel, the oldest one kept. *)
Definition deliver (i : nat) (e : Engine) (c : Conn) : Conn :=
  match watchers c !! i with
  | None => c
  | Some w =>
    if running w then
      let pos := Nat.max (next_event w) (List.length (events e) - channel_capacity) in
      match events e !! pos with
      | None => c
      | Some event =>
        match event_frame w event with
        | Ok (Some f) => send f (set_watcher i (take_event event pos true w) c)
        | Ok None => set_watcher i (take_event event pos true w) c
        | _ => set_watcher i (take_event event pos false w) c
        end
      end
    else c
  end.

(** ** The connection among others

    A turn of its reader loop, a turn of one of its watchers, or a statement that
    another client executes. *)
Inductive conn_step : Engine * Conn -> Engine * Conn -> Prop :=
| Read_step env input e c :
    alive c = true -> conn_step (e, c) (read_one env input e c)
| Watch_step i e c : conn_step (e, c) (e, deliver i e c)
| Other_step fault now stmt ns e c : conn_step (e, c) ((execute fault now stmt ns e).1, c).

Inductive conn_steps (x : Engine * Conn) : Engine * Conn -> Prop :=
| Steps_none : conn_steps x x
| Steps_more y z : conn_steps x y -> conn_step y z -> conn_steps x z.
End Connection.
