(* ===== verification/Network.v ===== *)
(** A client connected to a server: the two ends and the frames between them.

    The sockets deliver in order and lose only what follows the end of the connection;
    that the bytes carry the frames is the subject of [ProtocolProps].  The server's
    writer task gives up on a frame its codec refuses. *)

From S2P Require Export Connection ClientLaws.

Record System := {
  sys_client : Client.t;
  sys_engine : Engine;
  sys_conn : Conn;
  heard : nat;                (* how many frames of the client the server has read *)
  seen : nat;                 (* how many frames of the server the client has read *)
}.

Section Network.
Context {B : Build} {AN : ArithNan} {HO : HashOrder} {C : CrcLib} {U : UuidLib} {J : JsonLib}
  {UT : UnicodeTables} {TD : TokenDebug}.

Definition with_client (c : Client.t) (s : System) : System :=
  {| sys_client := c; sys_engine := sys_engine s; sys_conn := sys_conn s; heard := heard s; seen := seen s |}.

Definition with_server (x : Engine * Conn) (n : nat) (s : System) : System :=
  {| sys_client := sys_client s; sys_engine := x.1; sys_conn := x.2; heard := n; seen := seen s |}.

(** [NovaClient::connect] and [ConnectionHandler::run] up to their loops. *)
Definition system_open (e : Engine) : System :=
  {| sys_client := Client.connected; sys_engine := (connect e).1; sys_conn := (connect e).2; heard := 0; seen := 0 |}.

(** What one task of the client does between two awaits.  A [String] holds UTF-8, which
    [request_ok] says of the requests the application makes. *)
Inductive client_step (c : Client.t) : Client.t -> Prop :=
| Begin req : request_ok req = true -> client_step c (Client.begin req c)
| Subscribe i : client_step c (Client.subscribe i c)
| Register i : client_step c (Client.register i c)
| Dispatch i : client_step c (Client.dispatch i c)
| Write_one : client_step c (Client.write_one c)
| Write_fails : client_step c (Client.write_fails c)
| Next_event i ev c' : Client.next_event i c = Some (ev, c') -> client_step c c'
| Drop_stream i : client_step c (Client.drop_stream i c)
| Read_ends : client_step c (Client.read_ends c).

(** The client reads the next frame of the server, if it arrived and is not an event for
    a stream that is full. *)
Definition client_reads (s : System) : option System :=
  if Client.reading (sys_client s) then
    match outbox (sys_conn s) !! seen s with
    | Some g =>
      match NvpFrame.encode g with
      | Ok _ =>
        c ← Client.read_frame g (sys_client s);
        Some {| sys_client := c; sys_engine := sys_engine s; sys_conn := sys_conn s; heard := heard s;
                seen := S (seen s) |}
      | _ => None
      end
    | None => None
    end
  else None.

Inductive sys_step (s : System) : System -> Prop :=
| Sys_client c : client_step (sys_client s) c -> sys_step s (with_client c s)
| Sys_reads s' : client_reads s = Some s' -> sys_step s s'
| Sys_serves env f :                            (* the server reads a frame of the client *)
    alive (sys_conn s) = true -> Client.wire (sys_client s) !! heard s = Some f ->
    sys_step s (with_server (read_one env (inl f) (sys_engine s) (sys_conn s)) (S (heard s)) s)
| Sys_hangs_up env msg :                        (* end of the stream, or a framing error *)
    alive (sys_conn s) = true ->
    sys_step s (with_server (read_one env (inr msg) (sys_engine s) (sys_conn s)) (heard s) s)
| Sys_notifies i :                              (* a watcher task reads an event *)
    sys_step s (with_server (sys_engine s, deliver i (sys_engine s) (sys_conn s)) (heard s) s)
| Sys_other fault now stmt ns :                 (* another client's statement *)
    sys_step s (with_server ((execute fault now stmt ns (sys_engine s)).1, sys_conn s) (heard s) s).

Inductive sys_steps (s : System) : System -> Prop :=
| Sys_none : sys_steps s s
| Sys_more t u : sys_steps s t -> sys_step t u -> sys_steps s u.

(** What the server makes of a request, as the client reads it. *)
Definition server_answer (env : Env) (req_id : Z) (req : RequestPayload) (e : Engine) (c : Conn) : result ResponsePayload :=
  match (handle_request env req_id req e c).2 with
  | Ok (Some f) => Client.reply_of_frame f
  | Ok None => Panic
  | Err err => let? b := response_to_bytes (PError err) in Client.reply_of_frame (NvpFrame.new FError req_id b)
  | Panic => Panic
  end.

(** The frame [read_one] answers a frame with, if it answers. *)
Definition server_reply (env : Env) (f : NvpFrame.t) (e : Engine) (c : Conn) : option NvpFrame.t :=
  match (handle_frame env f e c).2 with
  | Ok o => o
  | Err err =>
    match response_to_bytes (PError err) with
    | Ok b => Some (NvpFrame.new FError (NvpFrame.request_id f) b)
    | _ => None
    end
  | Panic => None
  end.
End Network.
