(* ===== verification/Web.v ===== *)
(** [nova-server/src/web.rs]: the HTTP interface of the web console.

    A request is what one read of the socket returned, at most 8192 bytes.  The page
    itself ([STUDIO_HTML]) is a parameter.  Quoted texts of the source are written with
    apostrophes, which [quoted] turns into double quotes. *)

From S2P Require Export Connection.

Definition crlf : string := String (Ascii.ascii_of_nat 13) (String (Ascii.ascii_of_nat 10) EmptyString).
Definition newline : string := String (Ascii.ascii_of_nat 10) EmptyString.

Fixpoint quoted (s : string) : string :=
  match s with
  | EmptyString => EmptyString
  | String a s' => String (if Ascii.eqb a "'" then Ascii.ascii_of_nat 34 else a) (quoted s')
  end.

(** ** [String::from_utf8_lossy]

    The longest prefix of a character that is cut short becomes U+FFFD. *)

Definition REPLACEMENT : Z := 0xFFFD.

Definition second_of_three (c0 c1 : Z) : bool :=
  if c0 =? 0xE0 then (0xA0 <=? c1) && (c1 <=? 0xBF)
  else if c0 =? 0xED then (0x80 <=? c1) && (c1 <=? 0x9F)
  else is_cont c1.

Definition second_of_four (c0 c1 : Z) : bool :=
  if c0 =? 0xF0 then (0x90 <=? c1) && (c1 <=? 0xBF)
  else if c0 =? 0xF4 then (0x80 <=? c1) && (c1 <=? 0x8F)
  else is_cont c1.

Fixpoint from_utf8_lossy (l : bytes) : list Z :=
  match l with
  | [] => []
  | b0 :: l1 =>
    let c0 := Z_of_byte b0 in
    if c0 <? 0x80 then c0 :: from_utf8_lossy l1
    else match l1 with
    | [] => [REPLACEMENT]
    | b1 :: l2 =>
      let c1 := Z_of_byte b1 in
      if (0xC2 <=? c0) && (c0 <=? 0xDF) then
        if is_cont c1 then ((c0 - 0xC0) * 64 + (c1 - 0x80)) :: from_utf8_lossy l2
        else REPLACEMENT :: from_utf8_lossy l1
      else if (0xE0 <=? c0) && (c0 <=? 0xEF) && second_of_three c0 c1 then
        match l2 with
        | [] => [REPLACEMENT]
        | b2 :: l3 =>
          let c2 := Z_of_byte b2 in
          if is_cont c2 then ((c0 - 0xE0) * 4096 + (c1 - 0x80) * 64 + (c2 - 0x80)) :: from_utf8_lossy l3
          else REPLACEMENT :: from_utf8_lossy l2
        end
      else if (0xF0 <=? c0) && (c0 <=? 0xF4) && second_of_four c0 c1 then
        match l2 with
        | [] => [REPLACEMENT]
        | b2 :: l3 =>
          let c2 := Z_of_byte b2 in
          if is_cont c2 then
            match l3 with
            | [] => [REPLACEMENT]
            | b3 :: l4 =>
              let c3 := Z_of_byte b3 in
              if is_cont c3 then
                ((c0 - 0xF0) * 262144 + (c1 - 0x80) * 4096 + (c2 - 0x80) * 64 + (c3 - 0x80)) :: from_utf8_lossy l4
              else REPLACEMENT :: from_utf8_lossy l3
            end
          else REPLACEMENT :: from_utf8_lossy l2
        end
      else REPLACEMENT :: from_utf8_lossy l1
    end
  end.

(** ** Reading the request *)

(** [lines().next()]: up to the first newline, less a carriage return before it. *)
Fixpoint first_line (cs : list Z) : list Z :=
  match cs with
  | [] => []
  | c :: cs' =>
    if c =? 10 then []
    else match cs' with
         | d :: _ => if (c =? 13) && (d =? 10) then [] else c :: first_line cs'
         | [] => [c]
         end
  end.

(** [split_whitespace]: [cur] is the word read so far. *)
Fixpoint split_whitespace (cur cs : list Z) : list (list Z) :=
  let emit l := match cur with [] => l | _ => cur :: l end in
  match cs with
  | [] => emit []
  | c :: cs' => if is_whitespace c then emit (split_whitespace [] cs') else split_whitespace (cur ++ [c]) cs'
  end.

Definition method_and_path (cs : list Z) : string * string :=
  let parts := List.map string_of_chars (split_whitespace [] (first_line cs)) in
  (default "GET"%string (parts !! 0%nat), default "/"%string (parts !! 1%nat)).

(** What follows the first empty line. *)
Fixpoint body_of (cs : list Z) : option (list Z) :=
  match cs with
  | 13 :: 10 :: 13 :: 10 :: body => Some body
  | _ :: cs' => body_of cs'
  | [] => None
  end.

(** [Value::get] on an object: among equal keys the last one stands. *)
Definition json_get (k : string) (j : Json) : option Json :=
  match j with
  | JObject m => snd <$> last (List.filter (fun p => String.eqb p.1 k) m)
  | _ => None
  end.

Section Web.
Context {B : Build} {AN : ArithNan} {HO : HashOrder} {C : CrcLib} {U : UuidLib} {J : JsonLib}
  {UT : UnicodeTables} {TD : TokenDebug}.
Local Open Scope string_scope.

Definition extract_json_body (cs : list Z) : Json :=
  match body_of cs with
  | Some body => default (JObject []) (json_from_slice (as_bytes (string_of_chars body)))
  | None => JObject []
  end.

(** ** Values and documents as the console shows them *)

Fixpoint value_to_json (v : Value) : Json :=
  match v with
  | VNull => JNull
  | VBool b => JBool b
  | VInt i => JNumber (num_of_i64 i)
  | VFloat f => match num_from_f64 f with Some n => JNumber n | None => JNull end
  | VString s => JString s
  | VBytes b => JString ("<" ++ fmt_int (Z.of_nat (List.length b)) ++ " bytes>")
  | VArray l => JArray (List.map value_to_json l)
  | VObject m => JObject (fold_left (fun acc p => bt_insert str_cmp p.1 (value_to_json p.2) acc) m [])
  | VTimestamp t => JNumber (num_of_i64 t)
  | VUuid u => JString (uuid_to_string u)
  end.

Definition document_to_json (d : Document) : Json :=
  JObject (fold_left (fun acc p => bt_insert str_cmp p.1 (value_to_json p.2) acc) (fields d)
             [("id", JString (id d))]).

Definition json_int (n : Z) : Json := JNumber (PosInt n).

(** ** Queries *)

(** The object of a response.  [json!] objects are sorted by key; [elapsed] is the
    measured time. *)
Definition api_response (elapsed : Z) (r : ResponsePayload) : Json :=
  let time := ("execution_time_us", json_int elapsed) in
  let ok := ("success", JBool true) in
  match r with
  | PRecords ds n =>
    JObject [("count", json_int n); ("data", JArray (List.map document_to_json ds)); time; ok; ("type", JString "records")]
  | PSuccess m n => JObject [("affected", json_int n); time; ("message", JString m); ok; ("type", JString "success")]
  | PCount n => JObject [("count", json_int n); time; ok; ("type", JString "count")]
  | PExists b => JObject [time; ("exists", JBool b); ok; ("type", JString "exists")]
  | PError err => JObject [("error", JString (error_to_string err)); time; ("success", JBool false)]
  | PWatchAck n => JObject [time; ("subscription_id", json_int n); ok; ("type", JString "watch")]
  | PPong => JObject [time; ok; ("type", JString "pong")]
  end.

Definition api_failure (msg : string) : Json := JObject [("error", JString msg); ("success", JBool false)].

Definition execute_query_api (env : Env) (elapsed : Z) (query namespace : string) (e : Engine)
    : Engine * result Json :=
  if String.eqb (trim query) EmptyString then (e, Ok (api_failure "Query string cannot be empty"))
  else
    match parse_nql (env_parse_now env) (env_generated env) query with
    | Err er => (e, Ok (api_failure ("Syntax Error: " ++ error_to_string er)))
    | Panic => (e, Panic)
    | Ok parsed =>
      match execute (env_fault env) (env_now env) parsed namespace e with
      | (e, Ok payload) => (e, Ok (api_response elapsed payload))
      | (e, Err er) =>
        (e, Ok (JObject [("error", JString (error_to_string er)); ("execution_time_us", json_int elapsed);
                         ("success", JBool false)]))
      | (e, Panic) => (e, Panic)
      end
    end.

(** ** Sample data *)

Definition seed_queries : list string :=
  List.map quoted
  ["INSERT INTO users VALUES ({ 'id': 'usr_01', 'name': 'Elena Rostova', 'role': 'Lead Architect', 'team': 'Core Systems', 'points': 98, 'active': true })";
   "INSERT INTO users VALUES ({ 'id': 'usr_02', 'name': 'Marcus Vance', 'role': 'Site Reliability Engineer', 'team': 'Infrastructure', 'points': 88, 'active': true })";
   "INSERT INTO users VALUES ({ 'id': 'usr_03', 'name': 'Aria Chen', 'role': 'Data Systems Engineer', 'team': 'Analytics', 'points': 92, 'active': true })";
   "INSERT INTO users VALUES ({ 'id': 'usr_04', 'name': 'Devon Miller', 'role': 'Security Specialist', 'team': 'Security', 'points': 74, 'active': false })";
   "INSERT INTO sensors VALUES ({ 'id': 'sns_north_01', 'name': 'Cryo Tank Alpha', 'location': 'Zone 1', 'temp': 64.2, 'pressure': 101.3, 'status': 'nominal' })";
   "INSERT INTO sensors VALUES ({ 'id': 'sns_north_02', 'name': 'Core Turbine 4', 'location': 'Zone 2', 'temp': 82.5, 'pressure': 114.7, 'status': 'warning' })";
   "INSERT INTO sensors VALUES ({ 'id': 'sns_south_01', 'name': 'Reactor Shield B', 'location': 'Zone 3', 'temp': 91.0, 'pressure': 128.2, 'status': 'critical' })";
   "INSERT INTO sensors VALUES ({ 'id': 'sns_south_02', 'name': 'Cooling Valve 9', 'location': 'Zone 1', 'temp': 52.8, 'pressure': 98.4, 'status': 'nominal' })";
   "CREATE INDEX ON users (points)";
   "CREATE INDEX ON sensors (temp)"].

(** A query that parses counts, whether or not it could be executed. *)
Fixpoint seed_loop (env : nat -> Env) (i : nat) (queries : list string) (seeded : Z) (e : Engine)
    : Engine * result Z :=
  match queries with
  | [] => (e, Ok seeded)
  | q :: queries' =>
    match parse_nql (env_parse_now (env i)) (env_generated (env i)) q with
    | Ok stmt =>
      match execute (env_fault (env i)) (env_now (env i)) stmt "default" e with
      | (e, Panic) => (e, Panic)
      | (e, _) => seed_loop env (S i) queries' (seeded + 1) e
      end
    | Err _ => seed_loop env (S i) queries' seeded e
    | Panic => (e, Panic)
    end
  end.

Definition seed_sample_data (env : nat -> Env) (e : Engine) : Engine * result Json :=
  match seed_loop env 0 seed_queries 0 e with
  | (e, Ok seeded) =>
    (e, Ok (JObject [("count", json_int seeded);
                     ("message", JString ("Seeded " ++ fmt_int seeded ++ " sample documents and indexes into 'default' namespace"));
                     ("success", JBool true)]))
  | (e, Err er) => (e, Err er)
  | (e, Panic) => (e, Panic)
  end.

(** ** Replies *)

Inductive HttpReply :=
| Closed                                     (* nothing is written *)
| Reply (text : string)
| Events (text : string) (next : nat).       (* the start of an event stream, and its position *)

Definition http_200 (content_type body : string) : string :=
  "HTTP/1.1 200 OK" ++ crlf ++ "Content-Type: " ++ content_type ++ crlf
  ++ "Content-Length: " ++ fmt_int (Z.of_nat (String.length body)) ++ crlf
  ++ "Access-Control-Allow-Origin: *" ++ crlf ++ "Connection: close" ++ crlf ++ crlf ++ body.

Definition json_text (j : Json) : string := from_bytes (json_to_vec j).

Definition http_json (j : Json) : HttpReply := Reply (http_200 "application/json; charset=utf-8" (json_text j)).

Definition http_204 : string :=
  "HTTP/1.1 204 No Content" ++ crlf ++ "Access-Control-Allow-Origin: *" ++ crlf
  ++ "Access-Control-Allow-Methods: GET, POST, OPTIONS" ++ crlf
  ++ "Access-Control-Allow-Headers: Content-Type" ++ crlf ++ "Access-Control-Max-Age: 86400" ++ crlf ++ crlf.

Definition http_404 : string :=
  "HTTP/1.1 404 Not Found" ++ crlf ++ "Content-Type: text/plain" ++ crlf ++ "Content-Length: 9" ++ crlf
  ++ "Connection: close" ++ crlf ++ crlf ++ "Not Found".

Definition sse_start : string :=
  "HTTP/1.1 200 OK" ++ crlf ++ "Content-Type: text/event-stream" ++ crlf ++ "Cache-Control: no-cache" ++ crlf
  ++ "Connection: keep-alive" ++ crlf ++ "Access-Control-Allow-Origin: *" ++ crlf ++ crlf
  ++ ": connected" ++ newline ++ newline.

(** The message of an event; those of every namespace and collection are sent. *)
Definition sse_message (ev : DataEvent) : string :=
  let doc := match ev_after ev with Some d => Some d | None => ev_before ev end in
  "data: " ++ json_text (JObject
    [("collection", JString (ev_collection ev)); ("document", json_opt document_to_json doc);
     ("document_id", JString (ev_document_id ev)); ("event_type", JString (event_type_as_str (ev_type ev)));
     ("namespace", JString (ev_namespace ev)); ("sequence", json_int (ev_sequence ev));
     ("timestamp", JNumber (num_of_i64 (ev_timestamp ev)))]) ++ newline ++ newline.

(** A turn of the loop of an event stream at position [next], like that of a watcher. *)
Definition sse_turn (e : Engine) (next : nat) : option (string * nat) :=
  let pos := Nat.max next (List.length (events e) - channel_capacity) in
  ev ← events e !! pos; Some (sse_message ev, S pos).

Definition READ_SIZE : nat := 8192.

Definition reply_with {A} (f : A -> HttpReply) (x : Engine * result A) : Engine * result HttpReply :=
  match x with
  | (e, Ok a) => (e, Ok (f a))
  | (e, Err er) => (e, Err er)
  | (e, Panic) => (e, Panic)
  end.

(** [handle_http_connection]: [input] is what the client has sent when the socket is
    read. *)
Definition handle_http_connection (studio_html : string) (env : nat -> Env) (now elapsed : Z) (input : bytes) (e : Engine)
    : Engine * result HttpReply :=
  match firstn READ_SIZE input with
  | [] => (e, Ok Closed)
  | buffer =>
    let request := from_utf8_lossy buffer in
    let (method, path) := method_and_path request in
    if String.eqb method "OPTIONS" then (e, Ok (Reply http_204))
    else if String.eqb method "GET" && String.eqb path "/" then
      (e, Ok (Reply (http_200 "text/html; charset=utf-8" studio_html)))
    else if String.eqb method "GET" && String.eqb path "/api/status" then
      reply_with http_json (e, get_system_status now e)
    else if String.eqb method "POST" && String.eqb path "/api/query" then
      let body_json := extract_json_body request in
      let query := default EmptyString (json_get "query" body_json ≫= json_str) in
      let namespace := default "default" (json_get "namespace" body_json ≫= json_str) in
      reply_with http_json (execute_query_api (env 0%nat) elapsed query namespace e)
    else if String.eqb method "POST" && String.eqb path "/api/seed" then
      reply_with http_json (seed_sample_data env e)
    else if String.eqb method "GET" && String.eqb path "/api/events" then
      (e, Ok (Events sse_start (List.length (events e))))
    else (e, Ok (Reply http_404))
  end.
End Web.
