(* ===== verification/Cli.v ===== *)
(** [nova-cli/src/main.rs]: the commands that work on a data directory, the lines of
    the shell, the table of a response, and the configurations of the servers started.

    A command returns what it prints as data; colours, borders and times are left out.
    Argument parsing (clap), line editing (rustyline), chrono and the drawing of tables
    (comfy_table) are not under [src/]. *)

From S2P Require Export Snapshot Collection Server Lexer.

Module Cli.

(** ** The data directory

    [wal_files] and [snapshots] are the files of the directories [wal] and [snapshots]
    below it, if there are any. *)
Record DataDir := {
  exists_ : bool;
  wal_files : option (gmap string bytes);
  snapshots : option (gmap string bytes);
}.

Definition set_wal (files : option (gmap string bytes)) (d : DataDir) : DataDir :=
  {| exists_ := exists_ d; wal_files := files; snapshots := snapshots d |}.

(** [create_dir_all] makes the directories above as well. *)
Definition set_snapshots (files : option (gmap string bytes)) (d : DataDir) : DataDir :=
  {| exists_ := exists_ d || bool_decide (is_Some files); wal_files := wal_files d; snapshots := files |}.

Section Maintenance.
Context {C : CrcLib} {U : UuidLib} {J : JsonLib} {PJ : PrettyJson} {HO : HashOrder}.

(** The files recovery leaves, also when it fails: the segments before the one it fails
    on are truncated already. *)
Fixpoint files_after (segments : list Z) (dir : gmap string bytes) (st : RecoveredState) : gmap string bytes :=
  match segments with
  | [] => dir
  | idx :: segments' =>
    let path := segment_path idx in
    match dir !! path with
    | None => dir
    | Some content =>
      match recover_segment path content st with
      | Ok (st, content) => files_after segments' (<[path := content]> dir) st
      | _ => dir
      end
    end
  end.

(** [RecoveryManager::recover(&data_dir.join("wal"))]. *)
Definition run_recovery (d : DataDir) : DataDir * result RecoveredState :=
  let files := default ∅ (wal_files d) in
  (set_wal ((fun files => files_after (discover_segments files) files recovered_new) <$> wal_files d) d,
   mapO fst (recover files)).

(** [cmd_backup]: the clock and the identifier made from it are inputs. *)
Definition backup_create (now : Z) (generated : string) (id : option string) (d : DataDir)
    : DataDir * result SnapshotMetadata :=
  let snap_id := default generated id in
  match run_recovery d with
  | (d, Ok state) =>
    let (snaps, r) := SnapshotManager.create now (snapshots d) snap_id (Recovery.collections state) in
    (set_snapshots snaps d, r)
  | (d, Err e) => (d, Err e)
  | (d, Panic) => (d, Panic)
  end.

Definition backup_list (d : DataDir) : result (list SnapshotMetadata) :=
  SnapshotManager.list_snapshots (snapshots d).

(** What was restored is counted and dropped. *)
Definition backup_restore (id : string) (d : DataDir) : result (SnapshotMetadata * Z) :=
  let? (meta, restored) := SnapshotManager.restore (snapshots d) id in
  Ok (meta, Z.of_nat (size restored)).

(** [cmd_inspect], on the bytes of the file opened: the first fifty records. *)
Record InspectRow := {
  row_seq : Z; row_type : RecordType; row_target : string; row_doc_id : string; row_payload : string;
}.

Definition inspect_row (r : NbfRecord.t) : InspectRow :=
  {| row_seq := NbfRecord.sequence r; row_type := NbfRecord.record_type r;
     row_target := NbfRecord.namespace r ++ "/" ++ NbfRecord.collection r;
     row_doc_id := NbfRecord.document_id r;
     row_payload := fmt_int (Z.of_nat (List.length (NbfRecord.payload r))) ++ " bytes" |}%string.

Fixpoint inspect_loop (left : nat) (input : bytes) : result (list InspectRow) :=
  match left with
  | O => Ok []
  | S left' =>
    let? next := NbfRecord.decode input in
    match next with
    | None => Ok []
    | Some (record, rest) =>
      let? rows := inspect_loop left' rest in
      Ok (inspect_row record :: rows)
    end
  end.

Definition cmd_inspect (content : bytes) : result (list InspectRow) := inspect_loop 50 content.

(** [cmd_compact]: the number printed as that of the active documents. *)
Definition cmd_compact (d : DataDir) : DataDir * result Z :=
  let (d, r) := run_recovery d in (d, mapO records_replayed r).

(** [cmd_doctor]. *)
Record WalCheck := {
  segment_count : Z;
  integrity : NovaError + RecoveredState;
}.

Record Diagnosis := {
  dir_found : bool;
  wal_check : option WalCheck;
  snapshot_count : option Z;
  issues : Z;
}.

Definition check_wal (d : DataDir) : DataDir * result (option WalCheck * Z) :=
  match wal_files d with
  | None => (d, Ok (None, 0))
  | Some files =>
    let n := Z.of_nat (List.length (discover_segments files)) in
    match run_recovery d with
    | (d, Ok state) => (d, Ok (Some {| segment_count := n; integrity := inr state |}, 0))
    | (d, Err e) => (d, Ok (Some {| segment_count := n; integrity := inl e |}, 1))
    | (d, Panic) => (d, Panic)
    end
  end.

Definition cmd_doctor (d : DataDir) : DataDir * result Diagnosis :=
  let found := exists_ d in
  match check_wal d with
  | (d, Ok (check, issues)) =>
    (d, let? snaps := match snapshots d with
                      | None => Ok None
                      | Some _ => mapO (fun l => Some (Z.of_nat (List.length l)))
                                    (SnapshotManager.list_snapshots (snapshots d))
                      end in
        Ok {| dir_found := found; wal_check := check; snapshot_count := snaps; issues := issues |})
  | (d, Err e) => (d, Err e)
  | (d, Panic) => (d, Panic)
  end.

(** [main], for the commands that need no server: the directory left behind and what
    is printed. *)
Inductive Command :=
| BackupCreate (now : Z) (generated : string) (id : option string)
| BackupList
| BackupRestore (id : string)
| Inspect (content : bytes)
| Compact
| Doctor.

Inductive Report :=
| Created (meta : SnapshotMetadata)
| Listed (snapshots : list SnapshotMetadata)
| Restored (meta : SnapshotMetadata) (collections : Z)
| Inspected (rows : list InspectRow)
| Compacted (retained : Z)
| Diagnosed (diagnosis : Diagnosis).

Definition run_command (c : Command) (d : DataDir) : DataDir * result Report :=
  match c with
  | BackupCreate now generated id => let (d, r) := backup_create now generated id d in (d, mapO Created r)
  | BackupList => (d, mapO Listed (backup_list d))
  | BackupRestore id => (d, mapO (fun p => Restored p.1 p.2) (backup_restore id d))
  | Inspect content => (d, mapO Inspected (cmd_inspect content))
  | Compact => let (d, r) := cmd_compact d in (d, mapO Compacted r)
  | Doctor => let (d, r) := cmd_doctor d in (d, mapO Diagnosed r)
  end.

Definition run_commands (cs : list Command) (d : DataDir) : DataDir :=
  fold_left (fun d c => (run_command c d).1) cs d.
End Maintenance.

(** ** The shell *)

(** What [readline] returns. *)
Inductive Readline := Line (line : string) | Interrupted | Eof | ReadError.

Inductive ShellAction :=
| Skip
| Exit
| Help
| Hint
| WatchFor (query : string)
| RunQuery (query : string).

Definition is_watch_line (trimmed : string) : bool := String.prefix "WATCH" (to_ascii_uppercase trimmed).

Definition one_of (names : list string) (s : string) : bool := existsb (String.eqb s) names.

Definition shell_line (line : string) : ShellAction :=
  let trimmed := trim line in
  if String.eqb trimmed "" then Skip
  else if one_of [".exit"; ".quit"; "exit"; "quit"]%string trimmed then Exit
  else if one_of [".help"; "help"]%string trimmed then Help
  else if is_watch_line trimmed then WatchFor trimmed
  else RunQuery trimmed.

Definition shell_step (r : Readline) : ShellAction :=
  match r with
  | Line line => shell_line line
  | Interrupted => Hint
  | Eof | ReadError => Exit
  end.

(** The loop of [cmd_shell]: what is done, and the lines added to the history. *)
Fixpoint shell_loop (inputs : list Readline) : list ShellAction * list string :=
  match inputs with
  | [] => ([], [])
  | r :: inputs' =>
    let entry := match r with
                 | Line line => if String.eqb (trim line) "" then [] else [trim line]
                 | _ => []
                 end in
    match shell_step r with
    | Exit => ([Exit], entry)
    | action => let (actions, history) := shell_loop inputs' in (action :: actions, (entry ++ history)%list)
    end
  end.

(** ** [render_response] *)

Section Render.
(** [Display] of the external types a value may hold. *)
Context (fmt_f64 : Z -> string) (rfc3339 : Z -> option string) (uuid_to_string : bytes -> string).

Definition add_key (all_keys : list string) (k : string) : list string :=
  if existsb (String.eqb k) all_keys then all_keys else (all_keys ++ [k])%list.

Definition column_keys (documents : list Document) : list string :=
  fold_left (fun ks doc => fold_left add_key (List.map fst (fields doc)) ks) documents ["_id"%string].

Definition cell (doc : Document) (k : string) : string :=
  if String.eqb k "_id" then id doc
  else match obj_get k (fields doc) with
       | Some val => value_to_string fmt_f64 rfc3339 uuid_to_string val
       | None => "null"
       end.

Inductive Rendered :=
| EmptySet
| RecordTable (header : list string) (rows : list (list string)) (count : Z)
| Message (message : string) (affected : Z)
| CountIs (n : Z)
| ExistsIs (b : bool)
| Subscription (subscription_id : Z)
| PongReply
| ErrorText (e : NovaError).

Definition render_response (resp : ResponsePayload) : Rendered :=
  match resp with
  | PRecords documents count =>
    match documents with
    | [] => EmptySet
    | _ =>
      let all_keys := column_keys documents in
      RecordTable all_keys (List.map (fun doc => List.map (cell doc) all_keys) documents) count
    end
  | PSuccess message affected => Message message affected
  | PCount n => CountIs n
  | PExists b => ExistsIs b
  | PWatchAck subscription_id => Subscription subscription_id
  | PPong => PongReply
  | PError e => ErrorText e
  end.
End Render.

(** ** The servers started, and the documents sent *)

Definition start_config (host : string) (port web_port : Z) (data_dir sync : string) : ServerConfig :=
  {| host := host; port := port; web_port := Some web_port; data_dir := data_dir; sync_mode_name := sync;
     max_connections := max_connections config_default; max_frame_size := max_frame_size config_default;
     auth_token := auth_token config_default |}.

Definition studio_config (host : string) (port web_port : Z) (data_dir : string) : ServerConfig :=
  {| host := host; port := port; web_port := Some web_port; data_dir := data_dir;
     sync_mode_name := sync_mode_name config_default;
     max_connections := max_connections config_default; max_frame_size := max_frame_size config_default;
     auth_token := auth_token config_default |}.

Definition demo_config (tmp : string) : ServerConfig :=
  {| host := host config_default; port := 17409; web_port := web_port config_default; data_dir := tmp;
     sync_mode_name := sync_mode_name config_default;
     max_connections := max_connections config_default; max_frame_size := max_frame_size config_default;
     auth_token := auth_token config_default |}.

(** [Document::with_id] and one [insert] after the other. *)
Definition built (now : Z) (doc_id : DocumentId) (entries : list (string * Value)) : Document :=
  fold_left (fun d p => (Doc.insert d p.1 p.2).1) entries (Doc.with_id now doc_id).

Definition bench_document (now i : Z) : Document :=
  built now ("bench_" ++ fmt_int i)
    [("index", VInt i); ("payload", VString "sample payload data for performance testing")]%string.

(** The documents of [cmd_benchmark], for the collection [bench_users]. *)
Definition bench_documents (now : Z) (iterations : nat) : list Document :=
  List.map (bench_document now) (seqZ 0 (Z.of_nat iterations)).

(** The documents of [cmd_demo] with their collections. *)
Definition demo_documents (now : Z) : list (string * Document) :=
  [("users", built now "u_101"
      [("name", VString "Sunrit Biswas"); ("role", VString "Systems Architect");
       ("skills", VArray [VString "Rust"; VString "Distributed Systems"; VString "Databases"]);
       ("active", VBool true)]);
   ("users", built now "u_102"
      [("name", VString "Elena Rostova"); ("role", VString "Performance Engineer");
       ("skills", VArray [VString "Linux eBPF"; VString "Tokio"; VString "Concurrency"]);
       ("active", VBool true)]);
   ("projects", built now "proj_nova"
      [("title", VString "NOVA DB"); ("status", VString "in_development"); ("stars", VInt 1250)])]%string.
End Cli.
