(* ===== verification/Listener.v ===== *)
(** [nova-server/src/server.rs]: the accept loop, the connections it spawns and the
    permits that bound their number. *)

From S2P Require Export Connection.

Record Server := {
  engine : Engine;
  conns : list Conn;          (* the connections spawned so far, ended ones included *)
  permits : Z;                (* what is left of the semaphore *)
  accepting : bool;
}.

(** [Semaphore::new] panics above this many permits. *)
Definition MAX_PERMITS : Z := 2305843009213693951.

Section Listener.
Context {B : Build} {AN : ArithNan} {HO : HashOrder} {C : CrcLib} {U : UuidLib} {J : JsonLib}
  {UT : UnicodeTables} {TD : TokenDebug}.

(** [NovaServer::new] on a data directory. *)
Definition server_open (now : Z) (cfg : ServerConfig) (wal_dir : gmap string bytes) : result Engine :=
  Engine.open cfg (Metrics.new now) wal_dir.

(** [run] up to the accept loop. *)
Definition server_start (e : Engine) : result Server :=
  if MAX_PERMITS <? max_connections (config e) then Panic
  else Ok {| engine := e; conns := []; permits := max_connections (config e); accepting := true |}.

(** One accepted socket: without a permit the client is dropped.  The beginning of the
    connection's task, which raises the gauge of connections, is one step with it. *)
Definition accept (s : Server) : Server :=
  if 0 <? permits s then
    let (e, c) := connect (engine s) in
    {| engine := e; conns := conns s ++ [c]; permits := permits s - 1; accepting := accepting s |}
  else s.

(** A turn of the reader loop of the connection at [i].  The permit is dropped with the
    task, when the loop is left and when the task panics. *)
Definition serve (env : Env) (input : NvpFrame.t + string) (i : nat) (s : Server) : Server :=
  match conns s !! i with
  | Some c =>
    if alive c then
      let (e, c') := read_one env input (engine s) c in
      {| engine := e; conns := <[i := c']> (conns s);
         permits := if alive c' then permits s else permits s + 1; accepting := accepting s |}
    else s
  | None => s
  end.

(** A turn of the watcher [j] of the connection at [i]. *)
Definition notify (i j : nat) (s : Server) : Server :=
  match conns s !! i with
  | Some c => {| engine := engine s; conns := <[i := deliver j (engine s) c]> (conns s);
                 permits := permits s; accepting := accepting s |}
  | None => s
  end.

Inductive server_step : Server -> Server -> Prop :=
| Accept_step s : accepting s = true -> server_step s (accept s)
| Serve_step env input i s : server_step s (serve env input i s)
| Notify_step i j s : server_step s (notify i j s)
| Studio_step fault now stmt ns s :          (* a statement of the web console *)
    server_step s {| engine := (execute fault now stmt ns (engine s)).1; conns := conns s;
                     permits := permits s; accepting := accepting s |}
| Shutdown_step s :
    server_step s {| engine := engine s; conns := conns s; permits := permits s; accepting := false |}.

Inductive server_steps (s : Server) : Server -> Prop :=
| Server_none : server_steps s s
| Server_more t u : server_steps s t -> server_step t u -> server_steps s u.
End Listener.
