(* ===== verification/Commands.v ===== *)
(** [nova-cli/src/main.rs]: the commands as they run, from their arguments to the lines
    they print.

    What a command needs of the machine it runs on, clocks, the terminal, the network,
    servers and directories, is an interface ([Host]); a command is a program over it
    that prints lines and may end with an error.  Argument parsing (clap), the escape
    codes of colours (colored), the drawing of tables (comfy_table), dates (chrono) and
    derived [Debug] texts are not under [src/]: a line is a list of texts with their
    styles, and the rest are arguments. *)

From S2P Require Export Cli Connection.

Import Cli.

(** ** Arguments and their defaults *)

Definition default_host : string := "127.0.0.1".
Definition default_port : Z := 7400.
Definition default_web_port : Z := 7401.
Definition default_data_dir : string := "./data".
Definition default_addr : string := "127.0.0.1:7400".

Record StartArgs := {
  start_host : string; start_port : Z; start_web_port : Z; start_data_dir : string; start_sync : string;
}.
Definition start_defaults : StartArgs :=
  {| start_host := default_host; start_port := default_port; start_web_port := default_web_port;
     start_data_dir := default_data_dir; start_sync := "always" |}.

Record StudioArgs := {
  studio_host : string; studio_port : Z; studio_web_port : Z; studio_data_dir : string;
}.
Definition studio_defaults : StudioArgs :=
  {| studio_host := default_host; studio_port := default_port; studio_web_port := default_web_port;
     studio_data_dir := default_data_dir |}.

Record StatusArgs := { status_addr : string; status_json : bool }.
Definition status_defaults : StatusArgs := {| status_addr := default_addr; status_json := false |}.

Record ShellArgs := { shell_addr : string }.
Definition shell_defaults : ShellArgs := {| shell_addr := default_addr |}.

Inductive BackupAction :=
| ActCreate (data_dir : string) (id : option string)
| ActList (data_dir : string)
| ActRestore (data_dir : string) (id : string).

Record InspectArgs := { inspect_path : string }.
Record CompactArgs := { compact_data_dir : string }.
Record DoctorArgs := { doctor_data_dir : string }.

Record BenchmarkArgs := { bench_addr : string; bench_iterations : Z; bench_concurrency : Z }.
Definition bench_defaults : BenchmarkArgs :=
  {| bench_addr := default_addr; bench_iterations := 1000; bench_concurrency := 4 |}.

Inductive Commands :=
| CmdStart (args : StartArgs)
| CmdStatus (args : StatusArgs)
| CmdShell (args : ShellArgs)
| CmdBackup (action : BackupAction)
| CmdInspect (args : InspectArgs)
| CmdCompact (args : CompactArgs)
| CmdDoctor (args : DoctorArgs)
| CmdBenchmark (args : BenchmarkArgs)
| CmdDemo
| CmdStudio (args : StudioArgs).

(** ** The terminal *)

Inductive Style := Cyan | Green | Yellow | Red | Bold | Italic | Dimmed | Underline.

Abbreviation StyledText := (list Style * string)%type.
Abbreviation TableCell := (option Style * string)%type.

Inductive Out :=
| Println (line : list StyledText)
| Eprintln (line : list StyledText)
| PrintTable (header : list TableCell) (rows : list (list TableCell)).

Definition plain (s : string) : StyledText := ([], s).
Definition styled (l : list Style) (s : string) : StyledText := (l, s).
Definition newline : string := String (ascii_of_N 10) EmptyString.

(** A precision on a text keeps that many characters of it. *)
Definition precision (n : nat) (s : string) : string := string_of_chars (firstn n (chars s)).

(** ** What a command asks of the machine *)

Class Host (W : Type) := {
  h_instant : W -> W * Z;                                   (* nanoseconds *)
  h_now : W -> W * Z;                                       (* microseconds *)
  h_stamp : W -> W * string;                                (* the date in the name of a snapshot *)
  h_connect : string -> W -> W * result unit;               (* [NovaClient::connect] *)
  h_ping : W -> W * result unit;                            (* on the last connection *)
  h_query : string -> W -> W * result ResponsePayload;
  h_watch : string -> W -> W * result (list DataEvent * bool);   (* the events, and whether Ctrl+C ended them *)
  h_new_server : ServerConfig -> W -> W * result unit;      (* [NovaServer::new] *)
  h_run_server : W -> W * result bool;                      (* to its end; whether Ctrl+C ended it *)
  h_spawn_server : W -> W;
  h_shutdown : W -> W;
  h_temp_dir : W -> W * result string;
  h_editor : W -> W * result unit;                          (* [DefaultEditor::new] and [load_history] *)
  h_readline : W -> W * Readline;
  h_add_history : string -> W -> W;
  h_save_history : W -> W;
  h_data : string -> W -> DataDir;
  h_set_data : string -> DataDir -> W -> W;
  h_file : string -> W -> result bytes;
}.

(** Programs: the machine and what was printed go through, also when they fail. *)
Definition M (W A : Type) : Type := W -> W * list Out * result A.

Definition ret {W A} (a : A) : M W A := fun w => (w, [], Ok a).
Definition bindM {W A B} (m : M W A) (k : A -> M W B) : M W B :=
  fun w =>
    let '(w, o, r) := m w in
    match r with
    | Ok a => let '(w, o', r) := k a w in (w, o ++ o', r)%list
    | Err e => (w, o, Err e)
    | Panic => (w, o, Panic)
    end.

Notation "'let!' x ':=' m 'in' k" := (bindM m (fun x => k))
  (at level 200, x pattern, m at level 100, k at level 200, right associativity).
Notation "m ';;!' k" := (bindM m (fun _ => k)) (at level 100, k at level 200, right associativity).

Definition out {W} (o : list Out) : M W unit := fun w => (w, o, Ok tt).
Definition println {W} (l : list StyledText) : M W unit := out [Println l].
Definition eprintln {W} (l : list StyledText) : M W unit := out [Eprintln l].
Definition ask {W A} (f : W -> W * A) : M W A := fun w => let (w, a) := f w in (w, [], Ok a).
Definition attempt {W A} (f : W -> W * result A) : M W (result A) := ask f.
Definition call {W A} (f : W -> W * result A) : M W A := fun w => let (w, r) := f w in (w, [], r).
Definition lift {W A} (r : result A) : M W A := fun w => (w, [], r).
Definition modify {W} (f : W -> W) : M W unit := fun w => (f w, [], Ok tt).

Section Commands.
Context {C : CrcLib} {U : UuidLib} {J : JsonLib} {PJ : PrettyJson} {HO : HashOrder} {AN : ArithNan}.

(** [Debug] of a path, of a duration with two digits and of the fields of a document;
    [Display] of a float, of one with three digits; the time of day of a timestamp. *)
Context (path_debug : string -> string) (duration_text : Z -> string) (fields_debug : list (string * Value) -> string)
  (fmt_f64 fixed3 : Z -> string) (clock_text : Z -> option string).
(** [Display] of the other external types, and [Debug] of a response. *)
Context (rfc3339 : Z -> option string) (uuid_to_string : bytes -> string) (debug : ResponsePayload -> string).
(** [Debug] of the error of the line editor. *)
Context (read_error : string).

Context {W : Type} {H : Host W}.

Definition rule : list StyledText := [styled [Cyan] "=================================================="].
Definition error_tag (tag : string) : StyledText := styled [Red; Bold] tag.
Definition tick : StyledText := styled [Green; Bold] "✓".
Definition green_tick : StyledText := styled [Green] "✓".

Definition join (dir name : string) : string :=
  if String.eqb dir "" then name
  else if String.eqb (String.substring (String.length dir - 1) 1 dir) "/" then (dir ++ name)%string
  else (dir ++ "/" ++ name)%string.

(** ** start and studio *)

Definition motto : list StyledText := [styled [Italic] "  “A database that understands the flow of your data.”"].

Definition addresses (host : string) (port web_port : Z) : list Out :=
  [Println [plain "  "; styled [Bold] "Binary Protocol"; plain (":          " ++ host ++ ":" ++ fmt_int port)];
   Println [plain "  "; styled [Bold; Green] "NOVA Studio (Web)";
            plain (":            http://" ++ host ++ ":" ++ fmt_int web_port)]]%string.

Definition data_line (dir : string) : Out :=
  Println [plain "  "; styled [Bold] "Data Directory"; plain (":              " ++ path_debug dir)%string].

(** The task that waits for Ctrl+C. *)
Definition interruption (interrupted : bool) (text : string) : list Out :=
  if interrupted then [Println [plain newline; styled [Yellow] text]] else [].

Definition cmd_start (args : StartArgs) : M W unit :=
  out ([Println rule; Println [styled [Bold] "  NOVA DB — Data Flow Database Engine"]; Println motto; Println rule]
       ++ addresses (start_host args) (start_port args) (start_web_port args)
       ++ [data_line (start_data_dir args);
           Println [plain "  "; styled [Bold] "Sync Durability"; plain (":               " ++ start_sync args)%string];
           Println rule]) ;;!
  call (h_new_server (start_config (start_host args) (start_port args) (start_web_port args) (start_data_dir args)
                        (start_sync args))) ;;!
  let! interrupted := call h_run_server in
  out (interruption interrupted "Received Ctrl+C, initiating graceful shutdown...").

Definition cmd_studio (args : StudioArgs) : M W unit :=
  out ([Println rule; Println [styled [Bold] "  NOVA DB Studio — Real-time Web Console & Engine"]; Println motto; Println rule]
       ++ addresses (studio_host args) (studio_port args) (studio_web_port args)
       ++ [data_line (studio_data_dir args); Println rule;
           Println [plain "  "; styled [Green; Bold] "▶"; plain " Point your browser to ";
                    styled [Cyan; Underline] ("http://" ++ studio_host args ++ ":" ++ fmt_int (studio_web_port args))%string;
                    plain " to explore your data flow."]]) ;;!
  call (h_new_server (studio_config (studio_host args) (studio_port args) (studio_web_port args) (studio_data_dir args))) ;;!
  let! interrupted := call h_run_server in
  out (interruption interrupted "Received Ctrl+C, shutting down NOVA Studio...").

(** ** status *)

Definition connect_failed (addr : string) (e : NovaError) : list StyledText :=
  [error_tag "error:"; plain (" Failed to connect to " ++ addr ++ ": " ++ error_to_string e)%string].

Definition status_report (addr : string) (rtt : Z) : Json :=
  JObject [("ping_rtt_human", JString (duration_text rtt)); ("ping_rtt_micros", JNumber (PosInt (rtt / 1000)));
           ("protocol", JString "NVP/1.0"); ("server_address", JString addr); ("status", JString "online");
           ("storage_format", JString "NBF/1.0")]%string.

Definition status_table (addr : string) (rtt : Z) : Out :=
  PrintTable [(Some Cyan, "Property"); (Some Green, "Value")]
    [[(None, "Server Address"); (None, addr)]; [(None, "Status"); (Some Green, "ONLINE")];
     [(None, "Ping RTT"); (None, duration_text rtt)];
     [(None, "Protocol"); (None, "NVP/1.0 (NOVA Binary Wire Protocol)")];
     [(None, "Storage Format"); (None, "NBF/1.0 (Checksummed Append-Only WAL)")]]%string.

Definition cmd_status (args : StatusArgs) : M W unit :=
  let! start := ask h_instant in
  let! connected := attempt (h_connect (status_addr args)) in
  match connected with
  | Err e => eprintln (connect_failed (status_addr args) e)
  | Panic => lift Panic
  | Ok _ =>
    call h_ping ;;!
    let! stop := ask h_instant in
    let rtt := stop - start in
    if status_json args
    then println [plain (from_bytes (json_to_vec_pretty (status_report (status_addr args) rtt)))]
    else out [status_table (status_addr args) rtt]
  end.

(** ** shell *)

Definition help_lines : list Out :=
  List.map (fun s => Println [plain s])
    ["Available Shell Commands:";
     "  FIND <collection> [WHERE <expr>] [SORT <field> [ASC|DESC]] [LIMIT <n>]";
     "  INSERT INTO <collection> VALUES (<object>)";
     "  UPDATE <collection> SET <field> = <expr> [WHERE <expr>]";
     "  REMOVE <collection> [WHERE <expr>]";
     "  WATCH <collection> [WHERE <expr>]";
     "  COUNT <collection> [WHERE <expr>]";
     "  EXISTS <collection> [WHERE <expr>]";
     "  CREATE INDEX <collection>.<field> [TYPE hash|ordered]";
     "  DROP INDEX <collection>.<field>";
     "  .exit, .quit    Exit shell"]%string.

Definition action_span (t : EventType) : StyledText :=
  match t with
  | Create => styled [Green; Bold] "CREATE"
  | Document.Update => styled [Yellow; Bold] "UPDATE"
  | Document.Delete => styled [Red; Bold] "DELETE"
  | other => styled [Cyan; Bold] (event_type_as_str other)
  end.

Definition event_line (ev : DataEvent) : Out :=
  let time_str := match clock_text (ev_timestamp ev) with Some s => s | None => fmt_int (ev_timestamp ev) end in
  Println [plain "["; styled [Dimmed] time_str; plain "] "; action_span (ev_type ev); plain " ";
           styled [Bold] (target_uri ev);
           plain (" => " ++ match ev_after ev with Some d => fields_debug (fields d) | None => "{}" end)%string].

Definition print_rendered (r : Rendered) (duration : Z) : list Out :=
  let t := duration_text duration in
  match r with
  | EmptySet => [Println [styled [Dimmed] "Empty set"; plain (" (0 records, " ++ t ++ ")")]]
  | RecordTable header rows count =>
    [PrintTable (List.map (fun k => (Some Cyan, k)) header) (List.map (List.map (fun v => (None, v))) rows);
     Println [styled [Bold] (fmt_int count); plain (" record(s) in " ++ t)]]
  | Message message affected =>
    [Println [styled [Green; Bold] message; plain (" (" ++ fmt_int affected ++ " affected, " ++ t ++ ")")]]
  | CountIs n => [Println [plain "Count: "; styled [Bold] (fmt_int n); plain (" (" ++ t ++ ")")]]
  | ExistsIs b =>
    [Println [plain "Exists: "; if b then styled [Green; Bold] "true" else styled [Red; Bold] "false";
              plain (" (" ++ t ++ ")")]]
  | Subscription n => [Println [plain ("Subscription registered: #" ++ fmt_int n ++ " (" ++ t ++ ")")]]
  | PongReply => [Println [plain ("PONG (" ++ t ++ ")")]]
  | ErrorText e => [Eprintln [error_tag "Error:"; plain (" " ++ error_to_string e)]]
  end%string.

Definition shell_error (e : NovaError) : list StyledText := [error_tag "Error:"; plain (" " ++ error_to_string e)%string].

Definition shell_query (q : string) : M W unit :=
  let! start := ask h_instant in
  let! answer := attempt (h_query q) in
  match answer with
  | Ok resp =>
    let! stop := ask h_instant in
    out (print_rendered (render_response fmt_f64 rfc3339 uuid_to_string resp) (stop - start))
  | Err e => eprintln (shell_error e)
  | Panic => lift Panic
  end.

Definition shell_watch (q : string) : M W unit :=
  println [styled [Cyan] "Entering real-time event watch stream. Press Ctrl+C to stop watching..."] ;;!
  let! stream := attempt (h_watch q) in
  match stream with
  | Ok (evs, interrupted) =>
    out (List.map event_line evs
         ++ if (interrupted : bool) then [Println [plain newline; styled [Yellow] "Exited WATCH stream."]] else [])
  | Err e => eprintln (shell_error e)
  | Panic => lift Panic
  end.

(** What one input does, but for leaving. *)
Definition shell_do (action : ShellAction) : M W unit :=
  match action with
  | Skip | Exit => ret tt
  | Help => out help_lines
  | Hint => println [styled [Dimmed] "Type .exit to leave shell"]
  | WatchFor q => shell_watch q
  | RunQuery q => shell_query q
  end.

Definition note_line (r : Readline) : W -> W :=
  match r with
  | Line line => if String.eqb (trim line) "" then Datatypes.id else h_add_history (trim line)
  | _ => Datatypes.id
  end.

(** The loop; [None] when the fuel does not reach its end. *)
Fixpoint shell_repl (fuel : nat) : M W (option unit) :=
  match fuel with
  | O => ret None
  | S fuel' =>
    let! r := ask h_readline in
    modify (note_line r) ;;!
    match shell_step r with
    | Exit =>
      out (match r with ReadError => [Eprintln [plain ("Shell error: " ++ read_error)%string]] | _ => [] end) ;;! ret (Some tt)
    | action => shell_do action ;;! shell_repl fuel'
    end
  end.

Definition shell_banner (addr : string) : list Out :=
  [Println rule; Println [styled [Bold] "  NOVA DB Interactive Shell"];
   Println [plain "  Connected to: "; styled [Yellow] addr];
   Println [plain "  Type "; styled [Bold] ".help"; plain " for help, "; styled [Bold] ".exit"; plain " or Ctrl+D to exit."];
   Println rule].

Definition cmd_shell (fuel : nat) (args : ShellArgs) : M W (option unit) :=
  out (shell_banner (shell_addr args)) ;;!
  let! connected := attempt (h_connect (shell_addr args)) in
  match connected with
  | Err e => eprintln (connect_failed (shell_addr args) e) ;;! ret (Some tt)
  | Panic => lift Panic
  | Ok _ =>
    call h_editor ;;!
    let! finished := shell_repl fuel in
    match finished with
    | None => ret None
    | Some _ => modify h_save_history ;;! println [plain "Bye!"] ;;! ret (Some tt)
    end
  end.
(** ** backup, inspect, compact and doctor *)

Definition on_data {A} (dir : string) (f : DataDir -> DataDir * result A) : M W A :=
  call (fun w => let (d, r) := f (h_data dir w) in (h_set_data dir d w, r)).

Definition snapshot_row (m : SnapshotMetadata) : list TableCell :=
  [(None, meta_id m); (None, fmt_int (meta_document_count m)); (None, fmt_int (meta_size_bytes m));
   (None, "0x" ++ fmt_hex true 8 (meta_checksum m))]%string.

Definition cmd_backup (action : BackupAction) : M W unit :=
  match action with
  | ActCreate data_dir id =>
    let! stamp := match id with Some _ => ret EmptyString | None => ask h_stamp end in
    let! now := ask h_now in
    let! meta := on_data data_dir (backup_create now ("snap_" ++ stamp)%string id) in
    out [Println [tick; plain (" Snapshot '" ++ meta_id meta ++ "' created successfully")];
         Println [plain ("  Documents: " ++ fmt_int (meta_document_count meta))];
         Println [plain ("  Size: " ++ fmt_int (meta_size_bytes meta) ++ " bytes")];
         Println [plain ("  Checksum: 0x" ++ fmt_hex true 8 (meta_checksum meta))]]%string
  | ActList data_dir =>
    let! snapshots := on_data data_dir (fun d => (d, backup_list d)) in
    match snapshots with
    | [] => println [plain ("No snapshots found in " ++ path_debug (join data_dir "snapshots"))%string]
    | _ =>
      out [PrintTable (List.map (fun h => (Some Cyan, h)) ["Snapshot ID"; "Documents"; "Size (bytes)"; "Checksum"]%string)
             (List.map snapshot_row snapshots)]
    end
  | ActRestore data_dir id =>
    let! p := on_data data_dir (fun d => (d, backup_restore id d)) in
    out [Println [tick; plain (" Snapshot '" ++ meta_id p.1 ++ "' restored successfully")];
         Println [plain ("  Total collections: " ++ fmt_int p.2)];
         Println [plain ("  Total documents: " ++ fmt_int (meta_document_count p.1))]]%string
  end.

Definition record_type_debug (t : RecordType) : string :=
  match t with
  | Nbf.Insert => "Insert" | Nbf.Update => "Update" | Nbf.Delete => "Delete" | Checkpoint => "Checkpoint"
  | TxBegin => "TxBegin" | TxCommit => "TxCommit" | TxRollback => "TxRollback"
  end.

Definition inspect_cells (r : InspectRow) : list TableCell :=
  List.map (fun s => (None, s))
    [fmt_int (row_seq r); record_type_debug (row_type r); row_target r; row_doc_id r; row_payload r].

Definition run_inspect (args : InspectArgs) : M W unit :=
  println [plain ("Inspecting storage file: " ++ path_debug (inspect_path args))%string] ;;!
  let! content := call (fun w => (w, h_file (inspect_path args) w)) in
  let! rows := lift (cmd_inspect content) in
  out [PrintTable (List.map (fun h => (Some Cyan, h)) ["Seq"; "Type"; "Target"; "Doc ID"; "Payload"]%string)
         (List.map inspect_cells rows);
       Println [plain ("Total records verified: " ++ fmt_int (Z.of_nat (List.length rows)))%string]].

Definition run_compact (args : CompactArgs) : M W unit :=
  println [plain ("Running offline compaction on " ++ path_debug (join (compact_data_dir args) "wal"))%string] ;;!
  let! retained := on_data (compact_data_dir args) cmd_compact in
  println [plain ("Compaction finished. Active documents retained: " ++ fmt_int retained)%string].

Definition wal_lines (wal_dir : string) (check : option WalCheck) : list Out :=
  match check with
  | None => [Println [styled [Dimmed] "•"; plain " WAL directory not initialized yet"]]
  | Some k =>
    let found := [Println [green_tick; plain (" WAL directory exists: " ++ path_debug wal_dir)%string];
                  Println [plain ("  Found " ++ fmt_int (segment_count k) ++ " segment(s)")%string]] in
    let result :=
      match integrity k with
      | inr state =>
        let passed := [Println [green_tick; plain " WAL integrity check: PASSED"];
                       Println [plain ("  Active documents: " ++ fmt_int (records_replayed state))%string];
                       Println [plain ("  Latest sequence: " ++ fmt_int (max_sequence state))%string]] in
        let repaired := if 0 <? torn_tails_truncated state
                        then [Println [plain ("  Repaired torn writes: " ++ fmt_int (torn_tails_truncated state))%string]]
                        else [] in
        (passed ++ repaired)%list
      | inl e => [Println [styled [Red] "✗"; plain (" WAL integrity check: FAILED (" ++ error_to_string e ++ ")")%string]]
      end in
    (found ++ result)%list
  end.

Definition verdict (issues : Z) : Out :=
  if issues =? 0
  then Println [plain newline; styled [Green; Bold] "All system checks PASSED. Database is healthy."]
  else Println [plain newline; styled [Red; Bold] ("Diagnostics found " ++ fmt_int issues ++ " issue(s).")%string].

(** The lines of the snapshot directory come after those of the log, whose check may
    have changed files. *)
Definition run_doctor (args : DoctorArgs) : M W unit :=
  let dir := doctor_data_dir args in
  out [Println rule; Println [styled [Bold] "  NOVA DB Doctor — System & Integrity Diagnostics"]; Println rule] ;;!
  let! found := on_data dir (fun d => (d, Ok (exists_ d))) in
  println (if (found : bool) then [green_tick; plain (" Data directory exists: " ++ path_debug dir)%string]
           else [styled [Yellow] "!"; plain (" Data directory does not exist: " ++ path_debug dir)%string]) ;;!
  let! p := on_data dir check_wal in
  out (wal_lines (join dir "wal") p.1) ;;!
  let! snaps := on_data dir (fun d => (d, match snapshots d with
                                          | None => Ok None
                                          | Some _ => mapO Some (SnapshotManager.list_snapshots (snapshots d))
                                          end)) in
  out match snaps with
      | None => []
      | Some l => [Println [green_tick; plain (" Snapshot directory contains " ++ fmt_int (Z.of_nat (List.length l)) ++ " snapshot(s)")%string]]
      end ;;!
  out [verdict p.2].

(** ** benchmark and demo *)

(** [CollectionHandle::insert]. *)
Definition handle_insert (coll : string) (d : Document) : M W Document :=
  let! resp := call (h_query (CollectionHandle.insert_nql coll d)) in
  lift (CollectionHandle.insert_result debug d resp).

Fixpoint bench_inserts (left : nat) (i : Z) : M W unit :=
  match left with
  | O => ret tt
  | S left' =>
    let! now := ask h_now in
    handle_insert "bench_users" (bench_document now i) ;;! bench_inserts left' (i + 1)
  end.

(** [Duration::as_secs_f64]. *)
Definition as_secs_f64 (nanos : Z) : Z :=
  f64_add arith_nan (f64_of_i64 (nanos / 1000000000))
    (f64_div arith_nan (f64_of_i64 (nanos mod 1000000000)) (f64_of_i64 1000000000)).

Definition bench_report (iterations elapsed : Z) : list Out :=
  let ops_per_sec := f64_div arith_nan (f64_of_i64 iterations) (as_secs_f64 elapsed) in
  let avg_latency_ms :=
    f64_div arith_nan (f64_mul arith_nan (as_secs_f64 elapsed) (f64_of_i64 1000)) (f64_of_i64 iterations) in
  [Println [plain newline; plain "Benchmark Results:"];
   Println [plain ("  Total writes: " ++ fmt_int iterations)];
   Println [plain ("  Elapsed time: " ++ duration_text elapsed)];
   Println [plain "  Throughput:   "; styled [Bold] (precision 2 (fmt_f64 ops_per_sec)); plain " ops/sec"];
   Println [plain ("  Avg latency:  " ++ fixed3 avg_latency_ms ++ " ms/op")]]%string.

Definition cmd_benchmark (args : BenchmarkArgs) : M W unit :=
  out [Println rule; Println [styled [Bold] "  NOVA DB High-Concurrency Benchmark Harness"];
       Println [plain "  Target: "; styled [Yellow] (bench_addr args)];
       Println [plain ("  Iterations: " ++ fmt_int (bench_iterations args) ++ ", Concurrency: "
                       ++ fmt_int (bench_concurrency args))%string];
       Println rule] ;;!
  call (h_connect (bench_addr args)) ;;!
  println [plain "Executing write benchmark (INSERT)..."] ;;!
  let! start := ask h_instant in
  bench_inserts (Z.to_nat (bench_iterations args)) 0 ;;!
  let! stop := ask h_instant in
  out (bench_report (bench_iterations args) (stop - start)).

Fixpoint insert_each (ds : list (string * Document)) : M W unit :=
  match ds with
  | [] => ret tt
  | (coll, d) :: ds' => handle_insert coll d ;;! insert_each ds'
  end.

Definition demo_addr : string := "127.0.0.1:17409".

(** The clock is read once for the three documents; their times stay with the client. *)
Definition cmd_demo (fuel : nat) : M W (option unit) :=
  out [Println rule; Println [styled [Bold] "  NOVA DB Playground — Demo Environment"]; Println rule] ;;!
  let! tmp := call h_temp_dir in
  call (h_new_server (demo_config tmp)) ;;!
  modify h_spawn_server ;;!
  call (h_connect demo_addr) ;;!
  println [plain "Seeding sample dataset (users, projects, metrics)..."] ;;!
  let! now := ask h_now in
  insert_each (demo_documents now) ;;!
  out [Println [tick; plain " Playground database seeded successfully!"];
       Println [plain "Launching interactive shell on playground..."]] ;;!
  let! finished := cmd_shell fuel {| shell_addr := demo_addr |} in
  match finished with
  | None => ret None
  | Some _ => modify h_shutdown ;;! ret (Some tt)
  end.

(** [main]. *)
Definition nova_main (fuel : nat) (c : Commands) : M W (option unit) :=
  match c with
  | CmdStart args => cmd_start args ;;! ret (Some tt)
  | CmdStatus args => cmd_status args ;;! ret (Some tt)
  | CmdShell args => cmd_shell fuel args
  | CmdBackup action => cmd_backup action ;;! ret (Some tt)
  | CmdInspect args => run_inspect args ;;! ret (Some tt)
  | CmdCompact args => run_compact args ;;! ret (Some tt)
  | CmdDoctor args => run_doctor args ;;! ret (Some tt)
  | CmdBenchmark args => cmd_benchmark args ;;! ret (Some tt)
  | CmdDemo => cmd_demo fuel
  | CmdStudio args => cmd_studio args ;;! ret (Some tt)
  end.
End Commands.
