(* ===== verification/EngineLaws.v ===== *)
(** Invariants of the engine: stores, indexes and log agree, statement by statement. *)

From S2P Require Export Durability Engine.

#[local] Arguments record_bytes : simpl never.

(** ** Maps of stores and managers *)

Section Access.
Lemma store_at_put key key' s e :
  store_at key (put_store key' s e) = if decide (key = key') then s else store_at key e.
Proof.
  unfold store_at, put_store, set_collections. cbn. case_decide as D.
  - subst. now rewrite lookup_insert_eq.
  - now rewrite lookup_insert_ne by congruence.
Qed.

Lemma manager_at_put key key' m e :
  manager_at key (put_manager key' m e) = if decide (key = key') then m else manager_at key e.
Proof.
  unfold manager_at, put_manager, set_indexes. cbn. case_decide as D.
  - subst. now rewrite lookup_insert_eq.
  - now rewrite lookup_insert_ne by congruence.
Qed.

Lemma store_at_put_eq key s e : store_at key (put_store key s e) = s.
Proof. rewrite store_at_put. now rewrite decide_True. Qed.
Lemma manager_at_put_eq key m e : manager_at key (put_manager key m e) = m.
Proof. rewrite manager_at_put. now rewrite decide_True. Qed.
End Access.

(** ** Documents a statement may store *)

Section Inv.
Context {B : Build} {AN : ArithNan} {HO : HashOrder} {HL : HashOrderLaws HO}
  {C : CrcLib} {CL : CrcLaws C} {U : UuidLib} {UL : UuidLaws U} {J : JsonLib} {JL : JsonLaws J}.

(** Documents whose JSON text determines them: the ones that come back unchanged
    from the log.  Left out are floats, since [serde_json] without its [float_roundtrip]
    feature does not promise them; bytes and timestamps, which JSON has not; strings that
    read as UUIDs, which come back as UUIDs ([From<serde_json::Value>]); invalid UTF-8; and
    nesting past the limit of [serde_json]'s parser. *)
Definition doc_storable (d : Document) : bool :=
  doc_native d && text_safe (json_of_document d).

Definition doc_good (d : Document) : Prop :=
  doc_ordinary d = true /\ doc_storable d = true /\ DocId.new (id d) = Ok (id d).

Lemma payload_roundtrip d r :
  doc_storable d = true -> NbfRecord.payload r = json_to_vec (json_of_document d) ->
  NbfRecord.document_from_payload r = Ok d.
Proof.
  unfold doc_storable. intros H E. apply andb_true_iff in H as [Hn Hf].
  unfold NbfRecord.document_from_payload. rewrite E, json_parse_print by assumption.
  cbn [mbind option_bind]. now rewrite document_json_roundtrip.
Qed.

(** ** Replaying what a statement logged *)

Definition rec_store (key : CollectionKey) (st : RecoveredState) : DocumentStore :=
  default ∅ (Recovery.collections st !! key).

Lemma rec_store_insert (key key' : CollectionKey) (s : DocumentStore) (colls : gmap CollectionKey DocumentStore) :
  default ∅ (<[key' := s]> colls !! key) = if decide (key = key') then s else default ∅ (colls !! key).
Proof.
  case_decide as D; [subst; now rewrite lookup_insert_eq|]. now rewrite lookup_insert_ne by congruence.
Qed.

Lemma replay_put seq now ty key d st :
  (ty = Insert \/ ty = Update) -> doc_storable d = true ->
  exists st', replay_record (WriteAheadLog.make_record seq now ty key.1 key.2 (id d) (json_to_vec (json_of_document d)) None) st = Ok st'
    /\ forall key', rec_store key' st'
         = if decide (key' = key) then <[id d := d]> (rec_store key st) else rec_store key' st.
Proof.
  intros Hty Hd. unfold replay_record, apply_record_to_state.
  rewrite (payload_roundtrip d) by (assumption || reflexivity).
  assert (E : (key.1, key.2) = key) by now destruct key.
  destruct Hty as [-> | ->]; cbn; rewrite E; eexists; (split; [reflexivity|]);
    intros key'; unfold rec_store; cbn; apply rec_store_insert.
Qed.

Lemma replay_delete seq now key i st :
  exists st', replay_record (WriteAheadLog.make_record seq now Delete key.1 key.2 i [] None) st = Ok st'
    /\ forall key', rec_store key' st'
         = if decide (key' = key) then delete i (rec_store key st) else rec_store key' st.
Proof.
  unfold replay_record, apply_record_to_state. assert (E : (key.1, key.2) = key) by now destruct key.
  cbn. rewrite E. eexists. split; [reflexivity|].
  intros key'. unfold rec_store. cbn. apply rec_store_insert.
Qed.

(** ** The invariant *)

(** Documents are stored under their identifiers and indexed. *)
Definition indexed_ok (e : Engine) : Prop :=
  forall key, store_ok (store_at key e) /\ manager_ok (store_at key e) (manager_at key e).

(** The log holds the records [rs], and replaying them gives the stores. *)
Definition logged (rs : list NbfRecord.t) (e : Engine) : Prop :=
  (exists closed opened disk, log_inv (wal e) closed opened disk /\ (List.concat closed ++ opened)%list = rs)
  /\ exists st, replay rs recovered_new = Ok st /\ forall key, rec_store key st = store_at key e.

Definition stores_good (e : Engine) : Prop :=
  forall key i d, store_at key e !! i = Some d -> doc_good d.

Definition engine_ok (rs : list NbfRecord.t) (e : Engine) : Prop :=
  stores_good e /\ indexed_ok e /\ logged rs e.

(** Room in the log for [n] more records. *)
Definition has_room (n : nat) (e : Engine) : Prop := budget (wal e) n /\ seq_budget (wal e) n.

Lemma has_room_weaken n m e : (m <= n)%nat -> has_room n e -> has_room m e.
Proof. unfold has_room, budget, seq_budget. lia. Qed.

(** Changes that touch neither stores, indexes nor log. *)
Lemma engine_ok_ext rs e e' :
  (forall key, store_at key e' = store_at key e) -> (forall key, manager_at key e' = manager_at key e) ->
  wal e' = wal e -> engine_ok rs e -> engine_ok rs e'.
Proof.
  intros Es Em Ew (G & I & [L (st & R & S)]). split; [|split].
  - intros key i d. rewrite Es. apply G.
  - intros key. rewrite Es, Em. apply I.
  - split; [now rewrite Ew|]. exists st. split; [assumption|]. intros key. now rewrite Es.
Qed.

Lemma entry_both_same key e :
  (forall k, store_at k (entry_both key e) = store_at k e)
  /\ (forall k, manager_at k (entry_both key e) = manager_at k e).
Proof.
  split; intros k; unfold entry_both.
  - change (store_at k (put_store key (store_at key e) e) = store_at k e).
    rewrite store_at_put. case_decide; congruence.
  - rewrite manager_at_put. case_decide; [congruence|reflexivity].
Qed.

Lemma entry_both_ok key rs e : engine_ok rs e -> engine_ok rs (entry_both key e).
Proof. destruct (entry_both_same key e). apply engine_ok_ext; auto. Qed.

(** Appending to the log: what is logged, and what stays. *)
Lemma append_logged now ty key i pl rs e n w r :
  valid_str key.1 = true -> valid_str key.2 = true -> DocId.new i = Ok i ->
  logged rs e -> has_room (S n) e ->
  WriteAheadLog.append NoFault now ty key.1 key.2 i pl None (wal e) = (w, r) ->
  has_room n (set_wal w e) /\ WriteAheadLog.sync_mode w = WriteAheadLog.sync_mode (wal e)
  /\ match r with
     | Ok seq =>
       (exists closed opened disk, log_inv w closed opened disk
          /\ (List.concat closed ++ opened = rs ++ [WriteAheadLog.make_record seq now ty key.1 key.2 i pl None])%list)
       /\ (WriteAheadLog.sync_mode (wal e) = SyncAlways -> WriteAheadLog.active_buf w = [])
     | Err _ => (exists closed opened disk, log_inv w closed opened disk /\ (List.concat closed ++ opened)%list = rs)
                /\ WriteAheadLog.active_buf w = WriteAheadLog.active_buf (wal e)
     | Panic => False
     end.
Proof.
  intros Vn Vc Vi [(closed & opened & disk & I & E) _] [Hb Hs] H.
  assert (Hop : op_ok (OpAppend now ty key.1 key.2 i pl None)) by (cbn; auto).
  pose proof (append_inv now ty key.1 key.2 i pl None _ _ _ _ n Hop I Hb Hs) as A. rewrite H in A.
  destruct A as (B' & S' & M & _ & A). split; [now split|]. split; [assumption|].
  destruct r as [seq|er|].
  - destruct A as (_ & closed' & opened' & disk' & I' & E' & A'). rewrite E in E'. eauto 8.
  - destruct A as (I' & A' & _). eauto 8.
  - exact A.
Qed.

(** *** INSERT *)

Lemma insert_store_same key d e :
  forall k, manager_at k (insert_store key d e) = manager_at k e.
Proof. reflexivity. Qed.

Lemma execute_insert_ok now ns coll d rs e n e' r :
  valid_str ns = true -> valid_str coll = true -> doc_good d ->
  engine_ok rs e -> has_room (S n) e ->
  execute_insert NoFault now ns coll d e = (e', r) ->
  has_room n e' /\ WriteAheadLog.sync_mode (wal e') = WriteAheadLog.sync_mode (wal e)
  /\ match r with
     | Ok resp =>
       resp = PRecords [d] 1 /\ store_at (ns, coll) e !! id d = None
       /\ (forall k, store_at k e' = if decide (k = (ns, coll)) then <[id d := d]> (store_at k e) else store_at k e)
       /\ (exists rs', engine_ok (rs ++ rs') e')
       /\ (WriteAheadLog.sync_mode (wal e) = SyncAlways -> WriteAheadLog.active_buf (wal e') = [])
     | Err _ => engine_ok rs e' /\ (forall k, store_at k e' = store_at k e)
                /\ WriteAheadLog.active_buf (wal e') = WriteAheadLog.active_buf (wal e)
     | Panic => False
     end.
Proof.
  intros Vn Vc (Ho & Hst & Hid) (SG & I & L) Hroom H. unfold execute_insert in H. set (key := (ns, coll)) in *.
  assert (Hchk : insert_check key d e = Ok tt /\ store_at key e !! id d = None
                 \/ exists er, insert_check key d e = Err er).
  { unfold insert_check, store_at. destruct (collections e !! key) as [s|]; cbn; [|left; split; [reflexivity|apply lookup_empty]].
    destruct (s !! id d); eauto. }
  destruct Hchk as [[Ec Hnone]|[er Ec]]; rewrite Ec in H.
  2: { injection H as <- <-. split; [eapply has_room_weaken; [|eassumption]; lia|]. split; [reflexivity|]. split; [exact (conj SG (conj I L))|now split]. }
  unfold insert_log, NbfRecord.payload_from_document in H.
  destruct (WriteAheadLog.append _ _ _ _ _ _ _ _ _) as [w ra] eqn:Ea.
  destruct (append_logged (now 0%nat) Insert key (id d) _ rs e n w ra Vn Vc Hid L Hroom Ea) as (Hr & Hm & HA).
  destruct ra as [seq|er|]; [| |destruct HA].
  2: { injection H as <- <-. destruct HA as [HA Hbuf]. split; [assumption|]. split; [assumption|].
       split; [|split; [reflexivity|exact Hbuf]]. split; [exact SG|]. split; [exact I|]. split; [exact HA|]. apply L. }
  destruct HA as [HA Hbuf]. set (e1 := insert_store key d (set_wal w e)) in *.
  assert (Es : forall k, store_at k e1 = if decide (k = key) then <[id d := d]> (store_at k e) else store_at k e).
  { intros k. subst e1. unfold insert_store. rewrite store_at_put. case_decide; [now subst|reflexivity]. }
  destruct (I key) as [Ik Mk].
  destruct (on_insert_ok (store_at key e) d (manager_at key e) Mk Hnone Ho) as (m' & Em & Mm').
  unfold insert_index in H. change (manager_at key e1) with (manager_at key e) in H. rewrite Em in H.
  injection H as <- <-. split; [exact Hr|]. split; [exact Hm|]. split; [reflexivity|]. split; [assumption|].
  split; [exact Es|]. split; [|exact Hbuf].
  eexists. split; [|split].
  - intros k i d'. change (store_at k (emit_event _ _)) with (store_at k e1). rewrite Es.
    case_decide as D; [|apply SG]. rewrite lookup_insert_Some. intros [[<- <-]|[_ G]]; [now repeat split|].
    exact (SG _ _ _ G).
  - intros k. change (store_at k (emit_event _ _)) with (store_at k e1).
    change (manager_at k (emit_event ?x ?y)) with (manager_at k y). rewrite Es, manager_at_put.
    case_decide as D; [subst k|apply I]. split; [|exact Mm'].
    intros i d'. rewrite lookup_insert_Some. intros [[<- <-]|[_ G]]; [now split|now apply Ik].
  - destruct HA as (closed & opened & disk & HI & EI).
    destruct L as [L0 (st & R & S)].
    destruct (replay_put seq (now 0%nat) Insert key d st (or_introl eq_refl) Hst) as (st' & R' & S').
    split; [exists closed, opened, disk; split; [exact HI|exact EI]|].
    exists st'. split; [rewrite replay_app, R; cbn [bindO replay]; now rewrite R'|].
    intros k. rewrite S'. change (store_at k (emit_event _ _)) with (store_at k e1). rewrite Es.
    case_decide; [subst; now rewrite S|apply S].
Qed.

(** *** UPDATE *)

(** Membership in a list of identifiers, as a test. *)
Lemma in_nil (i : DocumentId) : bool_decide (i ∈ []) = false.
Proof. apply bool_decide_eq_false, not_elem_of_nil. Qed.

Lemma in_here (i : DocumentId) ids : bool_decide (i ∈ i :: ids) = true.
Proof. apply bool_decide_eq_true. now left. Qed.

Lemma in_other (i j : DocumentId) ids : j <> i -> bool_decide (j ∈ i :: ids) = bool_decide (j ∈ ids).
Proof. intros D. apply bool_decide_ext. rewrite elem_of_cons. naive_solver. Qed.

Lemma apply_assignments_id t d asg : id (apply_assignments t d asg).1 = id d.
Proof.
  revert d. induction asg as [|a asg IH]; intros d; cbn [apply_assignments].
  - unfold Doc.advance_version. destruct (checked_u64 (version d + 1)); reflexivity.
  - destruct (eval (as_expr a) d); [|reflexivity|reflexivity]. destruct (_ || _); [reflexivity|]. rewrite IH. reflexivity.
Qed.

Definition matching (filter : option Expr) (d : Document) : bool :=
  match matches_filter filter d with Ok b => b | _ => false end.

(** The documents an UPDATE selects become documents that may be stored. *)
Definition good_update (now : nat -> Z) (asg : list Assignment) (filter : option Expr) (d : Document) : Prop :=
  matches_filter filter d = Ok true -> forall t after, apply_assignments (now t) d asg = (after, Ok tt) ->
  doc_ordinary after = true /\ doc_storable after = true.

(** What an UPDATE over the identifiers [ids] makes of a store. *)
Definition updated_store (now : nat -> Z) (asg : list Assignment) (filter : option Expr)
    (ids : list DocumentId) (s s' : DocumentStore) : Prop :=
  forall i, match s !! i with
    | None => s' !! i = None
    | Some d =>
      if bool_decide (i ∈ ids) && matching filter d
      then exists t after, apply_assignments (now t) d asg = (after, Ok tt) /\ s' !! i = Some after
      else s' !! i = Some d
    end.

(** How many of them match. *)
Definition matches_in (filter : option Expr) (s : DocumentStore) (ids : list DocumentId) : nat :=
  List.length (List.filter (fun i => match s !! i with Some d => matching filter d | None => false end) ids).

(** Changes of one collection: everything else stays. *)
Definition others_same (key : CollectionKey) (e e' : Engine) : Prop :=
  forall k, k <> key -> store_at k e' = store_at k e.

Lemma put_doc_ok key before after rs e n w seq now_ :
  valid_str key.1 = true -> valid_str key.2 = true ->
  engine_ok rs e -> has_room (S n) e -> store_at key e !! id before = Some before ->
  id after = id before -> doc_ordinary after = true -> doc_storable after = true ->
  WriteAheadLog.append NoFault now_ Update key.1 key.2 (id before) (json_to_vec (json_of_document after)) None (wal e)
    = (w, Ok seq) ->
  exists m' r, IndexManager.on_update before after (manager_at key e) = (m', Ok tt)
    /\ let e' := put_manager key m' (set_wal w (put_store key (<[id before := after]> (store_at key e)) e)) in
       engine_ok (rs ++ [r]) e' /\ has_room n e'
       /\ WriteAheadLog.sync_mode (wal e') = WriteAheadLog.sync_mode (wal e)
       /\ (WriteAheadLog.sync_mode (wal e) = SyncAlways -> WriteAheadLog.active_buf (wal e') = []).
Proof.
  intros Vn Vc (SG & I & L) Hroom Hb Hid Ho Hst Ha. destruct (SG _ _ _ Hb) as (_ & _ & Hval).
  destruct (append_logged now_ Update key (id before) _ rs e n w (Ok seq) Vn Vc Hval L Hroom Ha) as (Hr & Hm & HA & Hbuf).
  destruct (I key) as [Ik Mk].
  destruct (on_update_ok _ before after _ Mk Hb Hid Ho) as (m' & Em & Mm').
  exists m', (WriteAheadLog.make_record seq now_ Update key.1 key.2 (id before) (json_to_vec (json_of_document after)) None).
  split; [exact Em|]. intros e'. rewrite Hid in Mm'.
  assert (Es : forall k, store_at k e' = if decide (k = key) then <[id before := after]> (store_at key e) else store_at k e).
  { intros k. change (store_at k e') with (store_at k (put_store key (<[id before := after]> (store_at key e)) e)).
    apply store_at_put. }
  assert (Emn : forall k, manager_at k e' = if decide (k = key) then m' else manager_at k e).
  { intros k. etransitivity; [apply manager_at_put|reflexivity]. }
  split; [|split; [exact Hr|split; [exact Hm|exact Hbuf]]]. split; [|split].
  - intros k i d. rewrite Es. case_decide as D; [|apply SG]. rewrite lookup_insert_Some.
    intros [[<- <-]|[_ G]]; [|exact (SG _ _ _ G)]. unfold doc_good. rewrite Hid. auto.
  - intros k. rewrite Es, Emn. case_decide as D; [|apply I]. split; [|exact Mm'].
    intros i d. rewrite lookup_insert_Some. intros [[<- <-]|[_ G]]; [now split|exact (Ik _ _ G)].
  - destruct L as [_ (st & R & S)].
    destruct (replay_put seq now_ Update key after st (or_intror eq_refl) Hst) as (st' & R' & S').
    rewrite Hid in R', S'. split; [exact HA|]. exists st'. split; [rewrite replay_app, R; cbn [bindO replay]; now rewrite R'|].
    intros k. rewrite S', Es. case_decide; [subst; now rewrite S|apply S].
Qed.

Lemma update_loop_ok now t key asg filter ids acc rs e n e' us :
  valid_str key.1 = true -> valid_str key.2 = true -> NoDup ids ->
  engine_ok rs e -> has_room (List.length ids + n) e ->
  (forall i d, i ∈ ids -> store_at key e !! i = Some d -> good_update now asg filter d) ->
  update_loop NoFault now t key asg filter ids acc e = (e', Ok us) ->
  (exists rs', engine_ok (rs ++ rs') e') /\ has_room n e'
  /\ WriteAheadLog.sync_mode (wal e') = WriteAheadLog.sync_mode (wal e)
  /\ (WriteAheadLog.sync_mode (wal e) = SyncAlways -> WriteAheadLog.active_buf (wal e) = [] ->
      WriteAheadLog.active_buf (wal e') = [])
  /\ updated_store now asg filter ids (store_at key e) (store_at key e') /\ others_same key e e'
  /\ List.length us = (List.length acc + matches_in filter (store_at key e) ids)%nat.
Proof.
  intros Vn Vc HN. revert t acc rs e. induction HN as [|i ids Hni HN IH]; intros t acc rs e OK Hroom HG H.
  { cbn in H. injection H as <- <-. split; [exists []; now rewrite app_nil_r|]. split; [exact Hroom|].
    split; [reflexivity|]. split; [auto|]. split; [|split; [easy|cbn; lia]].
    intros j. destruct (store_at key e !! j) as [d|] eqn:G; [|reflexivity].
    now rewrite in_nil. }
  cbn [update_loop] in H. unfold matches_in. cbn [List.filter].
  assert (Skip : forall d, store_at key e !! i = d -> match d with Some d => matching filter d = false | None => True end ->
    updated_store now asg filter ids (store_at key e) (store_at key e') ->
    updated_store now asg filter (i :: ids) (store_at key e) (store_at key e')).
  { intros o Hi Hf Hu j. specialize (Hu j). destruct (store_at key e !! j) as [d|] eqn:G; [|exact Hu].
    destruct (decide (j = i)) as [->|D].
    - rewrite G in Hi. subst o. cbn in Hf. rewrite Hf, andb_false_r in Hu. rewrite Hf, andb_false_r. exact Hu.
    - now rewrite in_other. }
  assert (Hroom' : has_room (List.length ids + n) e) by (eapply has_room_weaken; [|exact Hroom]; cbn; lia).
  destruct (store_at key e !! i) as [before|] eqn:Hb.
  2: { destruct (IH t acc rs e OK Hroom') as (A1 & A2 & A3 & A4 & A5 & A6 & A7);
         [intros j d Hj; apply HG; now right|exact H|].
       do 4 (split; [assumption|]). split; [now apply (Skip None)|]. split; assumption. }
  destruct (matches_filter filter before) as [[|]|er|] eqn:Ef; [| |discriminate H..].
  2: { assert (Hmf : matching filter before = false) by (unfold matching; now rewrite Ef). rewrite Hmf.
       destruct (IH t acc rs e OK Hroom') as (A1 & A2 & A3 & A4 & A5 & A6 & A7);
         [intros j d Hj; apply HG; now right|exact H|].
       do 4 (split; [assumption|]). split; [now apply (Skip (Some before))|]. split; assumption. }
  assert (Hmf : matching filter before = true) by (unfold matching; now rewrite Ef). rewrite Hmf.
  destruct (apply_assignments (now t) before asg) as [after applied] eqn:Ea.
  destruct applied as [[]|er|]; [|discriminate H..]. unfold NbfRecord.payload_from_document in H.
  destruct (HG i before (list_elem_of_here _ _) Hb Ef t after Ea) as [Ho Hst].
  pose proof (apply_assignments_id (now t) before asg) as Hid. rewrite Ea in Hid. cbn in Hid.
  pose proof OK as (SG & Ix & _). destruct (Ix key) as [Sk _]. destruct (Sk _ _ Hb) as [Ei _]. subst i.
  destruct (WriteAheadLog.append _ _ _ _ _ _ _ _ _) as [w logged_] eqn:Ew.
  destruct logged_ as [seq|er|]; [|discriminate H..].
  destruct (put_doc_ok key before after rs e (List.length ids + n) w seq (now (S t)) Vn Vc OK Hroom Hb Hid Ho Hst Ew)
    as (m' & r & Em & OK' & Hroom2 & Hm & Hbuf).
  set (e1 := put_store key (<[id before := after]> (store_at key e)) e) in *.
  change (manager_at key (set_wal w e1)) with (manager_at key e) in H. rewrite Em in H.
  set (e2 := put_manager key m' (set_wal w e1)) in *.
  assert (Es : store_at key e2 = <[id before := after]> (store_at key e)).
  { change (store_at key e2) with (store_at key e1). apply store_at_put_eq. }
  assert (Eo : others_same key e e2).
  { intros k Hk. change (store_at k e2) with (store_at k e1). unfold e1. rewrite store_at_put. now rewrite decide_False. }
  assert (Elook : forall j, j ∈ ids -> store_at key e2 !! j = store_at key e !! j).
  { intros j Hj. rewrite Es, lookup_insert_ne; [reflexivity|]. intros <-. contradiction. }
  assert (HG2 : forall j d, j ∈ ids -> store_at key e2 !! j = Some d -> good_update now asg filter d).
  { intros j d Hj. rewrite Elook by assumption. apply HG. now right. }
  destruct (IH _ _ _ e2 OK' Hroom2 HG2 H) as ((rs' & A1) & A2 & A3 & A4 & A5 & A6 & A7).
  split; [exists ([r] ++ rs')%list; now rewrite app_assoc|]. split; [assumption|]. split; [congruence|].
  split; [intros M _; apply A4; [congruence|now apply Hbuf]|]. split; [|split].
  - intros j. specialize (A5 j). destruct (decide (j = id before)) as [->|D].
    + rewrite Hb, Hmf, in_here. cbn [andb].
      rewrite Es, lookup_insert_eq in A5.
      assert (Ebd : bool_decide (id before ∈ ids) = false) by now apply bool_decide_eq_false.
      rewrite Ebd in A5. cbn [andb] in A5. eauto.
    + rewrite Es, lookup_insert_ne in A5 by congruence.
      destruct (store_at key e !! j) as [d|] eqn:G; [|exact A5].
      now rewrite in_other.
  - intros k Hk. rewrite A6 by assumption. now apply Eo.
  - rewrite A7, length_app. cbn [List.length]. unfold matches_in. rewrite Nat.add_succ_r.
    enough (List.filter (fun i => match store_at key e2 !! i with Some d => matching filter d | None => false end) ids
            = List.filter (fun i => match store_at key e !! i with Some d => matching filter d | None => false end) ids)
      as -> by lia.
    apply filter_ext_in. intros j Hj. rewrite Elook; [reflexivity|]. now apply list_elem_of_In.
Qed.

(** *** REMOVE *)

Lemma delete_doc_ok key d rs e n w seq now_ :
  valid_str key.1 = true -> valid_str key.2 = true ->
  engine_ok rs e -> has_room (S n) e -> store_at key e !! id d = Some d ->
  WriteAheadLog.append NoFault now_ Delete key.1 key.2 (id d) [] None (wal e) = (w, Ok seq) ->
  exists m' r, IndexManager.on_remove d (manager_at key e) = (m', Ok tt)
    /\ let e' := put_manager key m' (set_wal w (put_store key (delete (id d) (store_at key e)) e)) in
       engine_ok (rs ++ [r]) e' /\ has_room n e'
       /\ WriteAheadLog.sync_mode (wal e') = WriteAheadLog.sync_mode (wal e)
       /\ (WriteAheadLog.sync_mode (wal e) = SyncAlways -> WriteAheadLog.active_buf (wal e') = []).
Proof.
  intros Vn Vc (SG & I & L) Hroom Hd Ha. destruct (SG _ _ _ Hd) as (_ & _ & Hval).
  destruct (append_logged now_ Delete key (id d) _ rs e n w (Ok seq) Vn Vc Hval L Hroom Ha) as (Hr & Hm & HA & Hbuf).
  destruct (I key) as [Ik Mk].
  destruct (on_remove_ok _ d _ Mk Hd) as (m' & Em & Mm').
  exists m', (WriteAheadLog.make_record seq now_ Delete key.1 key.2 (id d) [] None).
  split; [exact Em|]. intros e'.
  assert (Es : forall k, store_at k e' = if decide (k = key) then delete (id d) (store_at key e) else store_at k e).
  { intros k. change (store_at k e') with (store_at k (put_store key (delete (id d) (store_at key e)) e)).
    apply store_at_put. }
  assert (Emn : forall k, manager_at k e' = if decide (k = key) then m' else manager_at k e).
  { intros k. etransitivity; [apply manager_at_put|reflexivity]. }
  split; [|split; [exact Hr|split; [exact Hm|exact Hbuf]]]. split; [|split].
  - intros k i d'. rewrite Es. case_decide as D; [|apply SG]. rewrite lookup_delete_Some.
    intros [_ G]. exact (SG _ _ _ G).
  - intros k. rewrite Es, Emn. case_decide as D; [|apply I]. split; [|exact Mm'].
    intros i d'. rewrite lookup_delete_Some. intros [_ G]. exact (Ik _ _ G).
  - destruct L as [_ (st & R & S)].
    destruct (replay_delete seq now_ key (id d) st) as (st' & R' & S').
    split; [exact HA|]. exists st'. split; [rewrite replay_app, R; cbn [bindO replay]; now rewrite R'|].
    intros k. rewrite S', Es. case_decide; [subst; now rewrite S|apply S].
Qed.

Definition removed_store (ids : list DocumentId) (s s' : DocumentStore) : Prop :=
  forall i, s' !! i = if bool_decide (i ∈ ids) then None else s !! i.

Definition present (s : DocumentStore) (ids : list DocumentId) : nat :=
  List.length (List.filter (fun i => match s !! i with Some _ => true | None => false end) ids).

Lemma remove_loop_ok now t key ids acc rs e n e' us :
  valid_str key.1 = true -> valid_str key.2 = true -> NoDup ids ->
  engine_ok rs e -> has_room (List.length ids + n) e ->
  remove_loop NoFault now t key ids acc e = (e', Ok us) ->
  (exists rs', engine_ok (rs ++ rs') e') /\ has_room n e'
  /\ WriteAheadLog.sync_mode (wal e') = WriteAheadLog.sync_mode (wal e)
  /\ (WriteAheadLog.sync_mode (wal e) = SyncAlways -> WriteAheadLog.active_buf (wal e) = [] ->
      WriteAheadLog.active_buf (wal e') = [])
  /\ removed_store ids (store_at key e) (store_at key e') /\ others_same key e e'
  /\ List.length us = (List.length acc + present (store_at key e) ids)%nat.
Proof.
  intros Vn Vc HN. revert t acc rs e. induction HN as [|i ids Hni HN IH]; intros t acc rs e OK Hroom H.
  { cbn in H. injection H as <- <-. split; [exists []; now rewrite app_nil_r|]. split; [exact Hroom|].
    split; [reflexivity|]. split; [auto|]. split; [|split; [easy|cbn; lia]].
    intros j. now rewrite in_nil. }
  cbn [remove_loop] in H. unfold present. cbn [List.filter].
  assert (Hroom' : has_room (List.length ids + n) e) by (eapply has_room_weaken; [|exact Hroom]; cbn; lia).
  destruct (store_at key e !! i) as [d|] eqn:Hd.
  2: { destruct (IH t acc rs e OK Hroom' H) as (A1 & A2 & A3 & A4 & A5 & A6 & A7).
       do 4 (split; [assumption|]). split; [|split; assumption]. intros j. rewrite (A5 j).
       destruct (decide (j = i)) as [->|D]; [rewrite Hd; now repeat case_bool_decide|].
       now rewrite in_other. }
  destruct OK as (SG & Ix & Lg). destruct (Ix key) as [Sk _]. destruct (Sk _ _ Hd) as [Ei _]. subst i.
  assert (OK : engine_ok rs e) by (split; [exact SG|split; [exact Ix|exact Lg]]).
  destruct (WriteAheadLog.append _ _ _ _ _ _ _ _ _) as [w logged_] eqn:Ew.
  destruct logged_ as [seq|er|]; [|discriminate H..].
  destruct (delete_doc_ok key d rs e (List.length ids + n) w seq (now t) Vn Vc OK Hroom Hd Ew)
    as (m' & r & Em & OK' & Hroom2 & Hm & Hbuf).
  set (e1 := put_store key (delete (id d) (store_at key e)) e) in *.
  change (manager_at key (set_wal w e1)) with (manager_at key e) in H. rewrite Em in H.
  set (e2 := put_manager key m' (set_wal w e1)) in *.
  assert (Es : store_at key e2 = delete (id d) (store_at key e)).
  { change (store_at key e2) with (store_at key e1). apply store_at_put_eq. }
  assert (Eo : others_same key e e2).
  { intros k Hk. change (store_at k e2) with (store_at k e1). unfold e1. rewrite store_at_put. now rewrite decide_False. }
  destruct (IH _ _ _ e2 OK' Hroom2 H) as ((rs' & A1) & A2 & A3 & A4 & A5 & A6 & A7).
  split; [exists ([r] ++ rs')%list; now rewrite app_assoc|]. split; [assumption|]. split; [congruence|].
  split; [intros M _; apply A4; [congruence|now apply Hbuf]|]. split; [|split].
  - intros j. rewrite (A5 j), Es. destruct (decide (j = id d)) as [->|D].
    + rewrite lookup_delete_eq, in_here. now case_bool_decide.
    + rewrite lookup_delete_ne by congruence.
      now rewrite in_other.
  - intros k Hk. rewrite A6 by assumption. now apply Eo.
  - rewrite A7, length_app. cbn [List.length]. unfold present. rewrite Nat.add_succ_r.
    enough (List.filter (fun i => match store_at key e2 !! i with Some _ => true | None => false end) ids
            = List.filter (fun i => match store_at key e !! i with Some _ => true | None => false end) ids)
      as -> by lia.
    apply filter_ext_in. intros j Hj. rewrite Es, lookup_delete_ne; [reflexivity|].
    intros <-. apply list_elem_of_In in Hj. contradiction.
Qed.

(** *** Events do not change stores, indexes or log *)

Lemma emit_all_same mk now t us e :
  (forall k, store_at k (emit_all mk now t us e) = store_at k e)
  /\ (forall k, manager_at k (emit_all mk now t us e) = manager_at k e)
  /\ wal (emit_all mk now t us e) = wal e.
Proof.
  revert t e. induction us as [|u us IH]; intros t e; cbn [emit_all]; [auto|].
  destruct (IH (S t) (emit_event (mk (now t) u) e)) as (A & B' & D). repeat split; intros; rewrite ?A, ?B', ?D; reflexivity.
Qed.

(** *** CREATE INDEX *)

Lemma populate_ok field docs store idx :
  indexes_store store idx -> index_field idx = field -> NoDup (List.map id docs) ->
  Forall (fun d => doc_ordinary d = true /\ store !! id d = None) docs ->
  exists idx', populate field docs idx = Ok idx' /\ same_index idx idx'
    /\ indexes_store (fold_left (fun s d => <[id d := d]> s) docs store) idx'.
Proof.
  revert store idx. induction docs as [|d docs IH]; intros store idx R F N HF; cbn [populate fold_left List.map] in *.
  { exists idx. split; [reflexivity|]. split; [now repeat split|exact R]. }
  apply NoDup_cons in N as [Hn N]. inversion HF as [|? ? [Hd Hs] HF']; subst.
  destruct (insert_step_ok store d idx R Hs Hd) as (idx1 & E & R1 & S1). unfold IndexManager.insert_step in E.
  assert (HF1 : Forall (fun d0 => doc_ordinary d0 = true /\ <[id d := d]> store !! id d0 = None) docs).
  { rewrite List.Forall_forall in *. intros d' Hin. destruct (HF' _ Hin) as [A A']. split; [assumption|].
    rewrite lookup_insert_ne; [assumption|]. intros E'. apply Hn. rewrite E'. apply list_elem_of_In. now apply List.in_map. }
  destruct S1 as (N1 & F1 & T1).
  destruct (IH _ idx1 R1 F1 N HF1) as (idx' & E' & (N2 & F2 & T2) & R').
  exists idx'. split; [|split; [split; [congruence|split; congruence]|assumption]].
  destruct (Doc.lookup d (index_field idx)) as [v|]; [rewrite E; exact E'|].
  injection E as <-. exact E'.
Qed.

(** The store is what its documents build. *)
Lemma store_rebuilt store :
  store_ok store -> fold_left (fun s d => <[id d := d]> s) (store_values store) (∅ : DocumentStore) = store.
Proof.
  intros S. apply map_eq. intros j.
  rewrite add_docs_lookup by (rewrite store_values_ids by assumption; apply NoDup_store_ids).
  rewrite lookup_empty. destruct (List.find _ _) as [d|] eqn:F.
  - apply List.find_some in F as [Hin Ej]. apply String.eqb_eq in Ej.
    apply list_elem_of_In, elem_of_store_values in Hin as [i G]. destruct (S _ _ G) as [<- _]. congruence.
  - destruct (store !! j) as [d|] eqn:G; [|reflexivity].
    assert (d ∈ store_values store) as Hin by (apply elem_of_store_values; eauto).
    apply list_elem_of_In in Hin. pose proof (List.find_none _ _ F d Hin) as X.
    destruct (S _ _ G) as [E _]. cbn in X. rewrite E, String.eqb_refl in X. discriminate.
Qed.

Lemma new_index_represents ty name field : indexes_store ∅ (new_index ty name field).
Proof.
  assert (E : new_index ty name field = index_clear (new_index ty name field)) by now destruct ty.
  rewrite E. eapply represents_ext; [|apply represents_empty]. intros j. unfold slots_of. now rewrite lookup_empty.
Qed.

(** The new index holds what the collection holds. *)
Lemma create_index_built ns coll field ty e e' r :
  store_ok (store_at (ns, coll) e) -> execute_create_index ns coll field ty e = (e', r) ->
  is_ok r = true /\ exists idx, e' = put_manager (ns, coll) (IndexManager.add_index idx (manager_at (ns, coll) e))
                                     (put_manager (ns, coll) (manager_at (ns, coll) e) e)
    /\ indexes_store (store_at (ns, coll) e) idx /\ index_name idx = idx_name coll field /\ index_field idx = field.
Proof.
  intros Sk H. unfold execute_create_index in H. set (key := (ns, coll)) in *.
  set (e1 := put_manager key (manager_at key e) e) in *. change (collections e1) with (collections e) in H.
  assert (Ed : match collections e !! key with Some store => store_values store | None => [] end
               = store_values (store_at key e)).
  { unfold store_at. destruct (collections e !! key); cbn; [reflexivity|].
    symmetry. unfold store_values. assert (P : hash_order (map_to_list (∅ : DocumentStore)) ≡ₚ []).
    { rewrite (hash_order_perm _ _). now rewrite map_to_list_empty. }
    symmetry in P. apply Permutation_nil in P. now rewrite P. }
  rewrite Ed in H.
  destruct (populate_ok field (store_values (store_at key e)) ∅ (new_index ty (idx_name coll field) field)
    (new_index_represents _ _ _)) as (idx & E & (N1 & F1 & T1) & R).
  { now destruct ty. }
  { rewrite store_values_ids by assumption. apply NoDup_store_ids. }
  { apply List.Forall_forall. intros d Hd. apply list_elem_of_In, elem_of_store_values in Hd as [i G].
    rewrite lookup_empty. now apply Sk in G. }
  rewrite store_rebuilt in R by assumption. rewrite E in H. injection H as <- <-. split; [reflexivity|]. exists idx.
  split; [unfold e1; now rewrite manager_at_put_eq|]. split; [exact R|]. rewrite N1, F1. now destruct ty.
Qed.

Lemma execute_create_index_ok ns coll field ty rs e e' r :
  engine_ok rs e -> execute_create_index ns coll field ty e = (e', r) ->
  engine_ok rs e' /\ wal e' = wal e /\ (forall k, store_at k e' = store_at k e)
  /\ is_ok r = true /\ exists idx, indexes e' !! (ns, coll) ≫= IndexManager.get (idx_name coll field) = Some idx
       /\ index_field idx = field.
Proof.
  intros (SG & I & L) H. destruct (I (ns, coll)) as [Sk Mk].
  destruct (create_index_built ns coll field ty e e' r Sk H) as (Hr & idx & -> & R & N & F). set (key := (ns, coll)) in *.
  split; [|split; [reflexivity|split; [reflexivity|split; [exact Hr|]]]].
  - split; [exact SG|]. split; [|split; [apply L|]].
    + intros k. rewrite manager_at_put. change (store_at k (put_manager _ _ _)) with (store_at k e). case_decide as D; [subst k|].
      * split; [exact Sk|]. now apply add_index_ok.
      * destruct (I k) as [Sk' Mk']. split; [exact Sk'|]. rewrite manager_at_put. now rewrite decide_False.
    + destruct L as [_ (st & R0 & S0)]. eauto.
  - exists idx. split; [|exact F]. cbn [put_manager set_indexes indexes]. rewrite lookup_insert_eq. cbn [mbind option_bind].
    unfold IndexManager.get, IndexManager.add_index. rewrite N. apply lookup_insert_eq.
Qed.

Lemma execute_drop_index_ok ns coll field rs e e' r :
  engine_ok rs e -> execute_drop_index ns coll field e = (e', r) ->
  engine_ok rs e' /\ wal e' = wal e /\ (forall k, store_at k e' = store_at k e).
Proof.
  intros OK H. unfold execute_drop_index in H. set (key := (ns, coll)) in *.
  destruct (indexes e !! key) as [mgr|] eqn:Em; [|injection H as <- <-; split; [assumption|now split]].
  assert (E : e' = put_manager key (IndexManager.drop_index (idx_name coll field) mgr).1 e).
  { destruct (IndexManager.drop_index (idx_name coll field) mgr) as [m' [|]]; injection H as <- _; reflexivity. }
  subst e'. split; [|now split]. destruct OK as (SG & I & L). split; [exact SG|]. split; [|exact L].
  intros k. rewrite manager_at_put. change (store_at k (put_manager _ _ e)) with (store_at k e).
  case_decide as D; [subst k|apply I]. destruct (I key) as [Sk Mk]. split; [exact Sk|].
  apply drop_index_ok. unfold manager_at in Mk. rewrite Em in Mk. exact Mk.
Qed.
End Inv.
