(* ===== verification/Runs.v ===== *)
(** Runs of the engine: every statement preserves the invariant, and a restart
    brings back the collections. *)

From S2P Require Export EngineLaws.

#[local] Arguments record_bytes : simpl never.

Section Runs.
Context {B : Build} {AN : ArithNan} {HO : HashOrder} {HL : HashOrderLaws HO}
  {C : CrcLib} {CL : CrcLaws C} {U : UuidLib} {UL : UuidLaws U} {J : JsonLib} {JL : JsonLaws J}.

Lemma elem_of_store_keys (s : DocumentStore) i : i ∈ store_keys s <-> exists d, s !! i = Some d.
Proof.
  unfold store_keys. rewrite list_elem_of_In, List.in_map_iff. split.
  - intros ([j d] & <- & Hin). rewrite <- list_elem_of_In, elem_of_hash_order in Hin.
    apply elem_of_map_to_list in Hin. eauto.
  - intros [d E]. exists (i, d). split; [reflexivity|].
    rewrite <- list_elem_of_In, elem_of_hash_order. now apply elem_of_map_to_list.
Qed.

Lemma length_store_keys (s : DocumentStore) : List.length (store_keys s) = size s.
Proof.
  unfold store_keys. rewrite length_map. rewrite (Permutation_length (hash_order_perm _ (map_to_list s))).
  apply length_map_to_list.
Qed.

Lemma filter_all_true {A} (f : A -> bool) l : (forall x, In x l -> f x = true) -> List.filter f l = l.
Proof.
  induction l as [|x l IH]; intros H; cbn [List.filter]; [reflexivity|].
  rewrite (H x) by (now left). f_equal. apply IH. intros y Hy. apply H. now right.
Qed.

(** The identifiers REMOVE works on. *)
Lemma target_ids_spec filter (s : DocumentStore) ids l :
  target_ids filter s ids = Ok l ->
  l = List.filter (fun i => match s !! i with Some d => matching filter d | None => false end) ids.
Proof.
  revert l. induction ids as [|i ids IH]; intros l H; cbn [target_ids List.filter] in *; [now injection H as <-|].
  destruct (s !! i) as [d|]; [|auto].
  assert (E : exists b, unwrap_or false (matches_filter filter d) = Ok b /\ matching filter d = b
              \/ unwrap_or false (matches_filter filter d) = Panic).
  { unfold matching. destruct (matches_filter filter d) as [b|er|]; cbn; [exists b|exists false|exists false]; auto. }
  destruct E as (b & [[E1 E2]|E1]); rewrite E1 in H; [|discriminate H]. cbn [bindO] in H. inv_ok H.
  rewrite E2, <- (IH _ Hr). destruct b; now injection H as <-.
Qed.

(** What a statement must bring along. *)
Definition stmt_ok (now : nat -> Z) (ns : string) (stmt : Statement) (e : Engine) : Prop :=
  match stmt with
  | SInsert coll d => valid_str ns = true /\ valid_str coll = true /\ doc_good d /\ has_room 1 e
  | SUpdate coll asg filter =>
    valid_str ns = true /\ valid_str coll = true /\ has_room (size (store_at (ns, coll) e)) e
    /\ forall i d, store_at (ns, coll) e !! i = Some d -> good_update now asg filter d
  | SRemove coll filter =>
    valid_str ns = true /\ valid_str coll = true /\ has_room (size (store_at (ns, coll) e)) e
  | _ => True
  end.

Definition may_fail (stmt : Statement) : bool :=
  match stmt with SUpdate _ _ _ | SRemove _ _ => false | _ => true end.

Definition synced (e : Engine) : Prop :=
  WriteAheadLog.sync_mode (wal e) = SyncAlways /\ WriteAheadLog.active_buf (wal e) = [].

Lemma execute_update_ok now ns coll asg filter rs e e' resp :
  valid_str ns = true -> valid_str coll = true -> has_room (size (store_at (ns, coll) e)) e ->
  (forall i d, store_at (ns, coll) e !! i = Some d -> good_update now asg filter d) ->
  engine_ok rs e -> execute_update NoFault now ns coll asg filter e = (e', Ok resp) ->
  (exists rs', engine_ok (rs ++ rs') e') /\ has_room 0 e'
  /\ (synced e -> synced e')
  /\ updated_store now asg filter (store_keys (store_at (ns, coll) e)) (store_at (ns, coll) e) (store_at (ns, coll) e')
  /\ others_same (ns, coll) e e'
  /\ exists msg, resp = PSuccess msg (Z.of_nat (matches_in filter (store_at (ns, coll) e) (store_keys (store_at (ns, coll) e)))).
Proof.
  intros Vn Vc Hroom HG OK H. unfold execute_update, update_changes in H. set (key := (ns, coll)) in *.
  destruct (entry_both_same key e) as [Es Em]. rewrite Es in H.
  set (e1 := entry_both key e) in *.
  destruct (update_loop NoFault now 0 key asg filter (store_keys (store_at key e)) [] e1) as [e2 r2] eqn:El.
  destruct r2 as [us|er|]; [|discriminate H..].
  assert (Hroom1 : has_room (List.length (store_keys (store_at key e)) + 0) e1).
  { rewrite length_store_keys, Nat.add_0_r. exact Hroom. }
  assert (HG1 : forall i d, i ∈ store_keys (store_at key e) -> store_at key e1 !! i = Some d ->
                  good_update now asg filter d) by (intros i d _; rewrite Es; apply HG).
  destruct (update_loop_ok now 0 key asg filter _ [] rs e1 0 e2 us Vn Vc (NoDup_store_ids _)
    (entry_both_ok _ _ _ OK) Hroom1 HG1 El) as ((rs' & A1) & A2 & A3 & A4 & A5 & A6 & A7).
  match type of H with (emit_all ?f _ _ _ _, _) = _ => set (mk := f) in H end.
  apply pair_eq in H as [<- H]. injection H as <-.
  destruct (emit_all_same mk now (2 * List.length us) us e2) as (F1 & F2 & F3).
  split; [exists rs'; now apply (engine_ok_ext _ e2)|].
  split; [unfold has_room in *; now rewrite F3|].
  split; [intros [S1 S2]; unfold synced; rewrite F3; split; [now rewrite A3|now apply A4]|].
  rewrite !F1. rewrite Es in A5, A7. split; [exact A5|]. split; [intros k Hk; rewrite F1, A6 by assumption; apply Es|].
  eexists. cbn [List.length] in A7. rewrite A7. reflexivity.
Qed.

Lemma execute_remove_ok now ns coll filter rs e e' resp :
  valid_str ns = true -> valid_str coll = true -> has_room (size (store_at (ns, coll) e)) e ->
  engine_ok rs e -> execute_remove NoFault now ns coll filter e = (e', Ok resp) ->
  (exists rs', engine_ok (rs ++ rs') e') /\ has_room 0 e'
  /\ (synced e -> synced e')
  /\ (forall i, store_at (ns, coll) e' !! i
       = match store_at (ns, coll) e !! i with
         | Some d => if matching filter d then None else Some d
         | None => None
         end)
  /\ others_same (ns, coll) e e'
  /\ exists msg, resp = PSuccess msg (Z.of_nat (matches_in filter (store_at (ns, coll) e) (store_keys (store_at (ns, coll) e)))).
Proof.
  intros Vn Vc Hroom OK H. unfold execute_remove, remove_changes in H. set (key := (ns, coll)) in *.
  destruct (entry_both_same key e) as [Es Em]. set (e1 := entry_both key e) in *. rewrite Es in H.
  destruct (target_ids filter (store_at key e) (store_keys (store_at key e))) as [ids|er|] eqn:Et; [|discriminate H..].
  apply target_ids_spec in Et.
  destruct (remove_loop NoFault now 0 key ids [] e1) as [e2 r2] eqn:El.
  destruct r2 as [us|er|]; [|discriminate H..].
  assert (HN : NoDup ids).
  { subst ids. apply NoDup_ListNoDup, List.NoDup_filter, NoDup_ListNoDup, NoDup_store_ids. }
  assert (Hlen : (List.length ids <= size (store_at key e))%nat).
  { subst ids. rewrite <- length_store_keys. apply List.filter_length_le. }
  assert (Hroom1 : has_room (List.length ids + 0) e1) by (eapply has_room_weaken; [|exact Hroom]; lia).
  destruct (remove_loop_ok now 0 key ids [] rs e1 0 e2 us Vn Vc HN (entry_both_ok _ _ _ OK) Hroom1 El)
    as ((rs' & A1) & A2 & A3 & A4 & A5 & A6 & A7).
  match type of H with (emit_all ?f _ _ _ _, _) = _ => set (mk := f) in H end.
  apply pair_eq in H as [<- H]. injection H as <-.
  destruct (emit_all_same mk now (List.length us) us e2) as (F1 & F2 & F3).
  split; [exists rs'; now apply (engine_ok_ext _ e2)|].
  split; [unfold has_room in *; now rewrite F3|].
  split; [intros [S1 S2]; unfold synced; rewrite F3; split; [now rewrite A3|now apply A4]|].
  rewrite Es in A5, A7.
  assert (Hin : forall i, i ∈ ids <-> exists d, store_at key e !! i = Some d /\ matching filter d = true).
  { intros i. subst ids. rewrite list_elem_of_In, filter_In, <- list_elem_of_In, elem_of_store_keys.
    destruct (store_at key e !! i) as [d|]; split.
    - intros [_ M]. eauto.
    - intros (d0 & [= <-] & M). eauto.
    - intros [_ M]. discriminate.
    - intros (d0 & ? & _). discriminate. }
  split; [|split; [intros k Hk; rewrite F1, A6 by assumption; apply Es|]].
  - intros i. rewrite F1, (A5 i). destruct (store_at key e !! i) as [d|] eqn:G; [|now case_bool_decide].
    case_bool_decide as D; rewrite Hin, G in D.
    + destruct D as (d0 & [= <-] & ->). reflexivity.
    + destruct (matching filter d) eqn:M; [|reflexivity]. destruct D. eauto.
  - assert (Hl : List.length us = matches_in filter (store_at key e) (store_keys (store_at key e))).
    { rewrite A7. unfold present, matches_in. rewrite <- Et. cbn [List.length Nat.add]. f_equal.
      apply filter_all_true. intros i Hi. apply list_elem_of_In, Hin in Hi as (d & -> & _). reflexivity. }
    eexists. rewrite Hl. reflexivity.
Qed.

Lemma execute_ok now ns stmt rs e e' r :
  stmt_ok now ns stmt e -> engine_ok rs e -> has_room 0 e ->
  execute NoFault now stmt ns e = (e', r) -> is_ok r = true \/ may_fail stmt = true ->
  (exists rs', engine_ok (rs ++ rs') e') /\ has_room 0 e' /\ (synced e -> synced e').
Proof.
  intros Hs OK HR H Hr. assert (Same : forall e'', engine_ok rs e'' -> wal e'' = wal e ->
    (exists rs', engine_ok (rs ++ rs') e'') /\ has_room 0 e'' /\ (synced e -> synced e'')).
  { intros e'' OK'' Ew. split; [exists []; now rewrite app_nil_r|].
    unfold has_room, synced. now rewrite Ew. }
  assert (OKm : forall f g, engine_ok rs (on_metrics f (on_metrics g e))).
  { intros f g. now apply (engine_ok_ext rs e). }
  assert (OKm1 : forall g, engine_ok rs (on_metrics g e)) by (intros g; now apply (engine_ok_ext rs e)).
  destruct stmt; cbn [execute] in H; try (injection H as <- <-; now apply Same).
  - destruct Hs as (Vn & Vc & Hd & Hroom).
    destruct (execute_insert_ok now ns collection document rs
      (on_metrics Metrics.inc_writes (on_metrics Metrics.inc_queries e)) 0 e' r Vn Vc Hd (OKm _ _) Hroom H) as (R' & M & A).
    destruct r as [resp|er|]; [| |destruct A].
    + destruct A as (_ & _ & _ & Hex & Hbuf). split; [exact Hex|]. split; [exact R'|].
      intros [S1 S2]. split; [now rewrite M|now apply Hbuf].
    + destruct A as (Hok & _ & Hbuf). split; [exists []; now rewrite app_nil_r|]. split; [exact R'|].
      intros [S1 S2]. split; [now rewrite M|now rewrite Hbuf].
  - destruct Hr as [Hr|Hr]; [|discriminate]. destruct r as [resp| |]; [|discriminate..].
    destruct Hs as (Vn & Vc & Hroom & HG).
    destruct (execute_update_ok now ns collection assignments filter rs
      (on_metrics Metrics.inc_writes (on_metrics Metrics.inc_queries e)) e' resp Vn Vc Hroom HG (OKm _ _) H)
      as (A & B' & D & _). auto.
  - destruct Hr as [Hr|Hr]; [|discriminate]. destruct r as [resp| |]; [|discriminate..].
    destruct Hs as (Vn & Vc & Hroom).
    destruct (execute_remove_ok now ns collection filter rs
      (on_metrics Metrics.inc_writes (on_metrics Metrics.inc_queries e)) e' resp Vn Vc Hroom (OKm _ _) H) as (A & B' & D & _).
    auto.
  - destruct (execute_create_index_ok ns collection field index_type rs _ e' r (OKm1 _) H) as (A & W & _). now apply Same.
  - destruct (execute_drop_index_ok ns collection field rs _ e' r (OKm1 _) H) as (A & W & _). now apply Same.
Qed.

(** ** Reachable engines *)

Inductive Steps (e0 : Engine) : Engine -> Prop :=
| Steps_refl : Steps e0 e0
| Steps_step e e' now ns stmt r :
    Steps e0 e -> stmt_ok now ns stmt e -> execute NoFault now stmt ns e = (e', r) ->
    is_ok r = true \/ may_fail stmt = true -> Steps e0 e'.

Lemma Steps_ok e0 rs0 e :
  engine_ok rs0 e0 -> has_room 0 e0 -> Steps e0 e ->
  (exists rs, engine_ok rs e) /\ has_room 0 e /\ (synced e0 -> synced e).
Proof.
  intros OK HR HS. induction HS as [|e e' now ns stmt r HS IH Hs H Hr].
  { split; [now exists rs0|]. split; [assumption|auto]. }
  destruct IH as ((rs & OK1) & R1 & S1).
  destruct (execute_ok now ns stmt rs e e' r Hs OK1 R1 H Hr) as ((rs' & OK2) & R2 & S2).
  split; [now exists (rs ++ rs')%list|]. split; [assumption|auto].
Qed.

(** ** Opening *)

Lemma rebuild_nothing docs : IndexManager.rebuild docs IndexManager.new = (∅, Ok tt).
Proof.
  unfold IndexManager.rebuild, IndexManager.new. rewrite fmap_empty.
  induction docs as [|d docs IH]; cbn [IndexManager.insert_all]; [reflexivity|].
  assert (E : IndexManager.on_insert d ∅ = (∅, Ok tt)).
  { unfold IndexManager.on_insert, IndexManager.names.
    assert (P : hash_order (map_to_list (∅ : IndexManager.t)) ≡ₚ []).
    { rewrite (hash_order_perm _ _). now rewrite map_to_list_empty. }
    symmetry in P. apply Permutation_nil in P. rewrite P. reflexivity. }
  rewrite E. exact IH.
Qed.

Lemma open_engine cfg m d e :
  Engine.open cfg m d = Ok e ->
  exists st d', recover d = Ok (st, d')
    /\ (forall key, store_at key e = rec_store key st) /\ (forall key, manager_at key e = ∅)
    /\ wal e = WriteAheadLog.set_sequence (max_sequence st)
                 (WriteAheadLog.open d' (get_sync_mode cfg) (16 * 1024 * 1024)).
Proof.
  unfold Engine.open. intros H. inv_ok H. destruct r as [st d']. injection H as <-.
  exists st, d'. split; [assumption|]. split; [reflexivity|]. split; [|reflexivity].
  intros key. unfold manager_at. cbn. rewrite lookup_fmap.
  destruct (Recovery.collections st !! key); cbn; [now rewrite rebuild_nothing|reflexivity].
Qed.

Lemma stored_engine limit d rs n cfg m e :
  stored limit d rs n -> limit = 16 * 1024 * 1024 ->
  (forall st, replay rs recovered_new = Ok st -> forall key i dc, rec_store key st !! i = Some dc -> id dc = i /\ doc_good dc) ->
  Engine.open cfg m d = Ok e ->
  engine_ok rs e /\ has_room n e
  /\ WriteAheadLog.sync_mode (wal e) = get_sync_mode cfg /\ WriteAheadLog.active_buf (wal e) = [].
Proof.
  intros HS Hlim HG H. destruct (open_engine _ _ _ _ H) as (st & d' & Hrec & Es & Em & Ew).
  rewrite (recover_stored _ _ _ _ HS) in Hrec.
  destruct (replay rs recovered_new) as [st0| |] eqn:Est; [|discriminate..]. injection Hrec as -> <-.
  pose proof (open_inv limit d rs n (get_sync_mode cfg) st HS Est) as O. cbn zeta in O. rewrite Hlim in O.
  destruct O as (HI & B1 & B2 & A & M & _). rewrite <- Ew in *.
  split; [|split; [now split|now split]]. split; [|split].
  - intros key i dc. rewrite Es. intros G. now apply (HG _ eq_refl key i).
  - intros key. rewrite Es, Em. split.
    + intros i dc G. destruct (HG _ eq_refl key i dc G) as [E (Ho & _)]. now split.
    + apply manager_ok_new.
  - split; [exact HI|]. exists st. split; [exact Est|]. intros key. now rewrite Es.
Qed.

(** A synced engine restarts with the same documents. *)
Lemma restart_ok rs e cfg m :
  engine_ok rs e -> has_room 0 e -> synced e -> 
  exists e', Engine.open cfg m (WriteAheadLog.dir (wal e)) = Ok e'
    /\ forall key, store_at key e' = store_at key e.
Proof.
  intros (SG & I & [(closed & opened & disk & HI & <-) (st & R & S)]) [B1 B2] [_ Hbuf].
  pose proof (inv_stored _ _ _ _ 0 HI Hbuf B1 B2) as HS.
  destruct (Engine.open cfg m (WriteAheadLog.dir (wal e))) as [e'| |] eqn:Eo.
  - exists e'. split; [reflexivity|]. destruct (open_engine _ _ _ _ Eo) as (st' & d' & Hrec & Es & _).
    rewrite (recover_stored _ _ _ _ HS), R in Hrec. injection Hrec as <- _. intros key. now rewrite Es, S.
  - exfalso. unfold Engine.open in Eo. rewrite (recover_stored _ _ _ _ HS), R in Eo. discriminate.
  - exfalso. unfold Engine.open in Eo. rewrite (recover_stored _ _ _ _ HS), R in Eo. discriminate.
Qed.
End Runs.
