(* ===== verification/Sessions.v ===== *)
(** The life of a server over several sessions: open, execute, stop, open again. *)

From S2P Require Export Runs.

(** ** The settings of the log never change *)

Section Settings.
Context {B : Build} {AN : ArithNan} {HO : HashOrder} {C : CrcLib} {U : UuidLib} {J : JsonLib}.

Definition same_settings (w w' : WriteAheadLog.t) : Prop :=
  WriteAheadLog.sync_mode w' = WriteAheadLog.sync_mode w
  /\ WriteAheadLog.segment_size_limit w' = WriteAheadLog.segment_size_limit w.

#[export] Instance same_settings_preorder : PreOrder same_settings.
Proof. split; [now split|]. intros x y z [A1 A2] [B1 B2]. split; congruence. Qed.

Lemma buf_write_settings b w : same_settings w (WriteAheadLog.buf_write b w).
Proof. unfold WriteAheadLog.buf_write. repeat case_if; split; reflexivity. Qed.

Lemma append_settings fault now ty ns coll i pl tx w :
  same_settings w (WriteAheadLog.append fault now ty ns coll i pl tx w).1.
Proof.
  unfold WriteAheadLog.append, WriteAheadLog.next_sequence. set (w1 := WriteAheadLog.set_sequence _ w).
  assert (S1 : same_settings w w1) by now split.
  destruct (NbfRecord.encode _) as [enc|er|]; [|exact S1..].
  match goal with |- context [if ?b then WriteAheadLog.rotate_segment w1 else w1] =>
    set (w2 := if b then WriteAheadLog.rotate_segment w1 else w1) end.
  assert (S2 : same_settings w w2) by (subst w2; case_if; [now split|exact S1]).
  destruct fault; cbn [fst]; (etransitivity; [exact S2|]);
    first [ etransitivity; [apply (buf_write_settings enc)|];
            destruct (WriteAheadLog.sync_mode _); split; reflexivity
          | etransitivity; [apply (buf_write_settings (firstn (List.length enc - 16) enc))|];
            split; reflexivity ].
Qed.

Lemma update_loop_settings fault now t key asg filter ids acc e :
  same_settings (wal e) (wal (update_loop fault now t key asg filter ids acc e).1).
Proof.
  revert t acc e. induction ids as [|i ids IH]; intros t acc e; cbn [update_loop]; [reflexivity|].
  destruct (store_at key e !! i) as [before|]; [|apply IH].
  destruct (matches_filter filter before) as [[|]|er|]; [|apply IH|reflexivity..].
  destruct (apply_assignments (now t) before asg) as [after [u|er|]]; [|reflexivity..].
  destruct (NbfRecord.payload_from_document after) as [pl|er|]; [|reflexivity..].
  pose proof (append_settings fault (now (S t)) Update key.1 key.2 i pl None (wal e)) as S1.
  cbn [wal put_store set_collections].
  destruct (WriteAheadLog.append _ _ _ _ _ _ _ _ (wal e)) as [w [seq|er|]]; [|exact S1..].
  destruct (IndexManager.on_update _ _ _) as [m [u'|er|]]; [| |exact S1]; (etransitivity; [exact S1|]; apply IH).
Qed.

Lemma remove_loop_settings fault now t key ids acc e :
  same_settings (wal e) (wal (remove_loop fault now t key ids acc e).1).
Proof.
  revert t acc e. induction ids as [|i ids IH]; intros t acc e; cbn [remove_loop]; [reflexivity|].
  destruct (store_at key e !! i) as [d|]; [|apply IH].
  pose proof (append_settings fault (now t) Delete key.1 key.2 i [] None (wal e)) as S1.
  cbn [wal put_store set_collections].
  destruct (WriteAheadLog.append _ _ _ _ _ _ _ _ (wal e)) as [w [seq|er|]]; [|exact S1..].
  destruct (IndexManager.on_remove _ _) as [m [u'|er|]]; [| |exact S1]; (etransitivity; [exact S1|]; apply IH).
Qed.

Lemma emit_all_wal mk now t us e : wal (emit_all mk now t us e) = wal e.
Proof. revert t e. induction us as [|u us IH]; intros t e; cbn [emit_all]; [reflexivity|]. now rewrite IH. Qed.

Lemma execute_settings fault now stmt ns e :
  same_settings (wal e) (wal (execute fault now stmt ns e).1).
Proof.
  destruct stmt; cbn [execute fst]; try reflexivity.
  - unfold execute_insert. destruct (insert_check _ _ _); [|reflexivity..].
    unfold insert_log. destruct (NbfRecord.payload_from_document _) as [pl|er|]; [|reflexivity..].
    pose proof (append_settings fault (now 0%nat) Insert ns collection (id document) pl None (wal e)) as S1.
    cbn [fst snd]. cbn [wal on_metrics].
    destruct (WriteAheadLog.append _ _ _ _ _ _ _ _ _) as [w [seq|er|]]; [|exact S1..].
    unfold insert_index. destruct (IndexManager.on_insert _ _) as [m [u|er|]]; exact S1.
  - unfold execute_update, update_changes. set (e1 := entry_both _ _).
    pose proof (update_loop_settings fault now 0 (ns, collection) assignments filter
      (store_keys (store_at (ns, collection) e1)) [] e1) as S1.
    destruct (update_loop _ _ _ _ _ _ _ _ _) as [e2 [us|er|]]; [|exact S1..].
    cbn [fst]. rewrite emit_all_wal. exact S1.
  - unfold execute_remove, remove_changes. set (e1 := entry_both _ _).
    destruct (target_ids _ _ _) as [ids|er|]; [|reflexivity..].
    pose proof (remove_loop_settings fault now 0 (ns, collection) ids [] e1) as S1.
    destruct (remove_loop _ _ _ _ _ _ _) as [e2 [us|er|]]; [|exact S1..].
    cbn [fst]. rewrite emit_all_wal. exact S1.
  - unfold execute_create_index. now destruct (populate _ _ _).
  - unfold execute_drop_index. destruct (indexes _ !! _); [|reflexivity].
    now destruct (IndexManager.drop_index _ _) as [m [|]].
Qed.
End Settings.

(** ** Sessions *)

Section Sessions.
Context {B : Build} {AN : ArithNan} {HO : HashOrder} {HL : HashOrderLaws HO}
  {C : CrcLib} {CL : CrcLaws C} {U : UuidLib} {UL : UuidLaws U} {J : JsonLib} {JL : JsonLaws J}.

(** Engines reached from an empty data directory with every append written out:
    statements that were answered (or INSERT and index statements that failed),
    and restarts on what the log left on disk. *)
Inductive Reach : Engine -> Prop :=
| Reach_open cfg m e : get_sync_mode cfg = SyncAlways -> Engine.open cfg m ∅ = Ok e -> Reach e
| Reach_step e e' now ns stmt r :
    Reach e -> stmt_ok now ns stmt e -> execute NoFault now stmt ns e = (e', r) ->
    is_ok r = true \/ may_fail stmt = true -> Reach e'
| Reach_restart cfg m e e' :
    Reach e -> get_sync_mode cfg = SyncAlways ->
    Engine.open cfg m (WriteAheadLog.dir (wal e)) = Ok e' -> Reach e'.

Definition session_ok (e : Engine) : Prop :=
  (exists rs, engine_ok rs e) /\ has_room 0 e /\ synced e
  /\ WriteAheadLog.segment_size_limit (wal e) = 16 * 1024 * 1024.

Lemma open_limit cfg m d e :
  Engine.open cfg m d = Ok e -> WriteAheadLog.segment_size_limit (wal e) = 16 * 1024 * 1024.
Proof. intros H. destruct (open_engine _ _ _ _ H) as (st & d' & _ & _ & _ & ->). reflexivity. Qed.

Lemma Reach_ok e : Reach e -> session_ok e.
Proof.
  induction 1 as [cfg m e Hm Ho|e e' now ns stmt r HR ((rs & OK) & Room & S & Lim) Hs H Hr
                 |cfg m e e' HR ((rs & OK) & Room & S & Lim) Hm Ho].
  - destruct (stored_engine (16 * 1024 * 1024) ∅ [] 0 cfg m e) as (OK & Room & M & Buf).
    + apply stored_empty. unfold u64_max. lia.
    + reflexivity.
    + cbn. intros st [= <-] key i dc. unfold rec_store. cbn. rewrite lookup_empty. discriminate.
    + exact Ho.
    + split; [eauto|]. split; [exact Room|]. split; [split; congruence|]. eapply open_limit, Ho.
  - destruct (execute_ok now ns stmt rs e e' r Hs OK Room H Hr) as ((rs' & OK') & Room' & S').
    split; [eauto|]. split; [exact Room'|]. split; [now apply S'|].
    pose proof (execute_settings NoFault now stmt ns e) as [_ L]. rewrite H in L. cbn [fst] in L. congruence.
  - destruct OK as (SG & I & [(closed & opened & disk & HI & <-) (st & R & St)]). destruct Room as [B1 B2].
    pose proof (inv_stored _ _ _ _ 0 HI (proj2 S) B1 B2) as HS. rewrite Lim in HS.
    destruct (stored_engine _ _ _ 0 cfg m e' HS eq_refl) as (OK & Room & M & Buf); [|exact Ho|].
    + rewrite R. intros st0 [= <-] key i dc. rewrite St. intros G. split; [|exact (SG _ _ _ G)].
      destruct (I key) as [Sk _]. now destruct (Sk _ _ G).
    + split; [eauto|]. split; [exact Room|]. split; [split; congruence|]. eapply open_limit, Ho.
Qed.
End Sessions.
