(* ===== verification/Concurrency.v ===== *)
(** Statements side by side ([nova-server/src/engine.rs]): INSERT releases the locks
    between its steps, the other statements hold theirs while they read and change the
    collections, and UPDATE and REMOVE send their events afterwards, one by one.

    [Serving] is the engine with the inserts in flight, [World] has also the events that
    UPDATE and REMOVE have still to send.  An insert appends to the log before or after the
    records of one of them, not between two. *)

From S2P Require Export Sessions.

(** ** The steps of an insert *)

Inductive InsertPhase :=
| Checked
| Logged (seq : Z)
| Stored (seq : Z)
| Indexed (seq : Z)
| Answered (r : result ResponsePayload).

Record InsertTask := { it_key : CollectionKey; it_doc : Document; it_phase : InsertPhase }.

Record Serving := { w_engine : Engine; w_tasks : list InsertTask }.

(** What the loop over [updated_docs] or [removed_ids] has left to send. *)
Record Outgoing := { out_event : Z -> Updated -> DataEvent; out_left : list Updated }.

Record World := { w_serving :> Serving; w_unsent : list Outgoing }.

Definition set_serving (s : Serving) (w : World) : World := {| w_serving := s; w_unsent := w_unsent w |}.

Definition set_phase (p : InsertPhase) (t : InsertTask) : InsertTask :=
  {| it_key := it_key t; it_doc := it_doc t; it_phase := p |}.

(** Checked and not yet in its collection; in the log and not yet in its collection. *)
Definition early (t : InsertTask) : bool :=
  match it_phase t with Checked | Logged _ => true | _ => false end.
Definition unstored (t : InsertTask) : bool :=
  match it_phase t with Logged _ => true | _ => false end.

Section Steps.
Context {B : Build} {AN : ArithNan} {HO : HashOrder} {C : CrcLib} {U : UuidLib} {J : JsonLib}.

(** [execute] up to the check of [execute_insert]. *)
Definition start_insert (key : CollectionKey) (doc : Document) (w : Serving) : Serving :=
  let e := on_metrics Metrics.inc_writes (on_metrics Metrics.inc_queries (w_engine w)) in
  let phase := match insert_check key doc e with
               | Ok _ => Checked
               | Err er => Answered (Err er)
               | Panic => Answered Panic
               end in
  {| w_engine := e; w_tasks := w_tasks w ++ [{| it_key := key; it_doc := doc; it_phase := phase |}] |}.

(** The next step of an insert.  Logging is one step: two inserts do not interleave inside
    [WriteAheadLog.append]. *)
Definition advance_task (now : Z) (e : Engine) (t : InsertTask) : Engine * InsertTask :=
  let (ns, coll) := it_key t in
  let doc := it_doc t in
  match it_phase t with
  | Checked =>
    match insert_log NoFault now (it_key t) doc e with
    | (e, Ok seq) => (e, set_phase (Logged seq) t)
    | (e, Err er) => (e, set_phase (Answered (Err er)) t)
    | (e, Panic) => (e, set_phase (Answered Panic) t)
    end
  | Logged seq => (insert_store (it_key t) doc e, set_phase (Stored seq) t)
  | Stored seq =>
    match insert_index (it_key t) doc e with
    | (e, Panic) => (e, set_phase (Answered Panic) t)
    | (e, _) => (e, set_phase (Indexed seq) t)
    end
  | Indexed seq =>
    (emit_event (event_new now seq Create ns coll (id doc) None (Some doc) None) e,
     set_phase (Answered (Ok (PRecords [doc] 1))) t)
  | Answered _ => (e, t)
  end.

Definition run_insert_step (now : Z) (i : nat) (w : Serving) : Serving :=
  match w_tasks w !! i with
  | Some t =>
    let (e, t) := advance_task now (w_engine w) t in
    {| w_engine := e; w_tasks := <[i := t]> (w_tasks w) |}
  | None => w
  end.

(** An insert left alone takes the steps of [execute_insert]. *)
Fixpoint advance_alone (now : nat -> Z) (ticks : list nat) (e : Engine) (t : InsertTask) : Engine * InsertTask :=
  match ticks with
  | [] => (e, t)
  | k :: ticks => let (e, t) := advance_task (now k) e t in advance_alone now ticks e t
  end.

Lemma advance_answered now ticks e t r : it_phase t = Answered r -> advance_alone now ticks e t = (e, t).
Proof.
  intros H. induction ticks as [|k ticks IH]; [reflexivity|]. cbn [advance_alone]. unfold advance_task. rewrite H.
  now destruct (it_key t).
Qed.

(** Running the steps of an insert one after the other is executing the statement. *)
Theorem insert_steps_are_the_statement now ns coll doc e :
  let w := start_insert (ns, coll) doc {| w_engine := e; w_tasks := [] |} in
  exists t, w_tasks w = [t]
    /\ let (e', t') := advance_alone now [0%nat; 0%nat; 0%nat; 1%nat] (w_engine w) t in
       execute NoFault now (SInsert coll doc) ns e
       = (e', match it_phase t' with Answered r => r | _ => Panic end).
Proof.
  cbn zeta. eexists. split; [reflexivity|]. cbn [execute w_engine start_insert app w_tasks].
  set (e1 := on_metrics _ (on_metrics _ e)). unfold execute_insert.
  destruct (insert_check (ns, coll) doc e1) as [[]|er|]; [|now rewrite (advance_answered _ _ _ _ (Err er))
    |now rewrite (advance_answered _ _ _ _ Panic)].
  cbn [advance_alone]. unfold advance_task at 1. cbn [it_key it_doc it_phase].
  destruct (insert_log NoFault (now 0%nat) (ns, coll) doc e1) as [e2 [seq|er|]];
    [|unfold advance_task; cbn; reflexivity..].
  unfold advance_task at 1. cbn [it_key it_doc it_phase set_phase]. unfold advance_task at 1. cbn [it_key it_doc it_phase set_phase].
  destruct (insert_index (ns, coll) doc (insert_store (ns, coll) doc e2)) as [e3 [[]|er|]]; reflexivity.
Qed.

(** ** The steps of UPDATE and REMOVE *)

(** [execute] up to [execute_update] and [execute_remove]. *)
Definition count_write (e : Engine) : Engine := on_metrics Metrics.inc_writes (on_metrics Metrics.inc_queries e).

(** The changes are made, and their events wait. *)
Definition announce_later (e : Engine) (o : Outgoing) (w : World) : World :=
  {| w_serving := {| w_engine := e; w_tasks := w_tasks w |}; w_unsent := w_unsent w ++ [o] |}.

(** The next event of the [i]-th of those statements. *)
Definition send_next (now : Z) (i : nat) (w : World) : World :=
  match w_unsent w !! i with
  | Some {| out_event := mk; out_left := u :: us |} =>
    {| w_serving := {| w_engine := emit_event (mk now u) (w_engine w); w_tasks := w_tasks w |};
       w_unsent := <[i := {| out_event := mk; out_left := us |}]> (w_unsent w) |}
  | _ => w
  end.

(** Sending them all is the loop of the statement. *)
Fixpoint send_all (now : nat -> Z) (t n : nat) (i : nat) (w : World) : World :=
  match n with O => w | S n => send_all now (S t) n i (send_next (now t) i w) end.

Lemma send_all_emits mk now us t i w :
  w_unsent w !! i = Some {| out_event := mk; out_left := us |} ->
  w_engine (send_all now t (List.length us) i w) = emit_all mk now t us (w_engine w).
Proof.
  revert t w. induction us as [|u us IH]; intros t w Hi; [reflexivity|]. cbn [List.length send_all emit_all]. rewrite IH.
  - unfold send_next. now rewrite Hi.
  - unfold send_next. rewrite Hi. cbn [w_unsent]. apply list_lookup_insert_eq. eapply lookup_lt_Some, Hi.
Qed.

(** Changing and then sending is executing the statement. *)
Theorem changes_and_events_are_the_statement now ns coll asg filter e :
  let changed o e' := announce_later e' o {| w_serving := {| w_engine := e; w_tasks := [] |}; w_unsent := [] |} in
  (forall e' us, update_changes NoFault now ns coll asg filter (count_write e) = (e', Ok us) ->
     (execute NoFault now (SUpdate coll asg filter) ns e).1
     = w_engine (send_all now (2 * List.length us) (List.length us) 0 (changed {| out_event := update_event ns coll; out_left := us |} e')))
  /\ (forall e' us, remove_changes NoFault now ns coll filter (count_write e) = (e', Ok us) ->
     (execute NoFault now (SRemove coll filter) ns e).1
     = w_engine (send_all now (List.length us) (List.length us) 0 (changed {| out_event := delete_event ns coll; out_left := us |} e'))).
Proof.
  intros changed. split; intros e' us H; cbn [execute]; [unfold execute_update|unfold execute_remove];
    fold (count_write e); rewrite H; cbn [fst]; symmetry; now apply send_all_emits.
Qed.

(** ** The steps of a world *)

(** An UPDATE or REMOVE that fails midway is left out. *)
Inductive world_step (w : World) : World -> Prop :=
| Start_insert key doc :
    valid_str key.1 = true -> valid_str key.2 = true -> doc_good doc ->
    (forall t, t ∈ w_tasks w -> early t = true -> (it_key t, id (it_doc t)) <> (key, id doc)) ->
    world_step w (set_serving (start_insert key doc w) w)
| Run_step now i : has_room 1 (w_engine w) -> world_step w (set_serving (run_insert_step now i w) w)
| Run_update now ns coll asg filter e' us :
    stmt_ok now ns (SUpdate coll asg filter) (w_engine w) ->
    update_changes NoFault now ns coll asg filter (count_write (w_engine w)) = (e', Ok us) ->
    world_step w (announce_later e' {| out_event := update_event ns coll; out_left := us |} w)
| Run_remove now ns coll filter e' us :
    stmt_ok now ns (SRemove coll filter) (w_engine w) ->
    remove_changes NoFault now ns coll filter (count_write (w_engine w)) = (e', Ok us) ->
    world_step w (announce_later e' {| out_event := delete_event ns coll; out_left := us |} w)
| Send_event now i : world_step w (send_next now i w)
| Run_statement now ns stmt e' r :
    (match stmt with SInsert _ _ | SUpdate _ _ _ | SRemove _ _ => False | _ => True end) ->
    execute NoFault now stmt ns (w_engine w) = (e', r) ->
    world_step w (set_serving {| w_engine := e'; w_tasks := w_tasks w |} w).

(** Nothing in flight. *)
Definition alone (e : Engine) : World := {| w_serving := {| w_engine := e; w_tasks := [] |}; w_unsent := [] |}.

(** From an engine in use, with no insert in flight.  An insert may start only when no
    other one of the same identifier is between its check and its collection. *)
Inductive worlds : World -> Prop :=
| Worlds_start e : Reach e -> worlds (alone e)
| Worlds_step w w' : worlds w -> world_step w w' -> worlds w'.

(** The document that an insert has logged and not yet stored under an identifier. *)
Definition pending_at (ts : list InsertTask) (key : CollectionKey) (i : DocumentId) : option Document :=
  head (omap (fun t => if unstored t && bool_decide (it_key t = key /\ id (it_doc t) = i)
                       then Some (it_doc t) else None) ts).
End Steps.
