(* ===== verification/EngineSamples.v ===== *)
(** A small database to try the engine's theorems on: the concrete external code of
    [Samples], the default configuration, two users and an index on their age. *)

From S2P Require Export Samples Sessions Connection.

Definition sample_nan : ArithNan := f64_NAN.

#[export] Existing Instances release_build sample_nan order_as_is ieee_crc sample_uuid sample_json
  order_as_is_laws ieee_crc_laws sample_uuid_laws sample_json_laws.

(** Letters and digits are those of ASCII. *)
#[export] Instance ascii_letters : UnicodeTables := {| wide_alphabetic := fun _ => false; wide_numeric := fun _ => false |}.
#[export] Instance silent_debug : TokenDebug := fun _ => EmptyString.

(** A clock that stands still during a statement. *)
Definition sample_now (t : nat) : Z := 2000.

Definition sample_env : Env :=
  {| env_fault := NoFault; env_now := sample_now; env_parse_now := 2000; env_generated := "new"%string |}.

Definition run (stmt : Statement) (e : Engine) : Engine :=
  (execute NoFault sample_now stmt "default" e).1.

Definition answer (stmt : Statement) (e : Engine) : result ResponsePayload :=
  (execute NoFault sample_now stmt "default" e).2.

Lemma executed stmt e r : answer stmt e = r -> execute NoFault sample_now stmt "default" e = (run stmt e, r).
Proof. intros <-. apply surjective_pairing. Qed.

(** An engine opened on an empty directory. *)
Definition engine0 : Engine := {|
  config := config_default; collections := ∅; indexes := ∅;
  wal := WriteAheadLog.set_sequence 0 (WriteAheadLog.open ∅ SyncAlways 16777216);
  events := []; metrics := Metrics.new 0;
|}.

Lemma engine0_open : Engine.open config_default (Metrics.new 0) ∅ = Ok engine0.
Proof. vm_compute. reflexivity. Qed.

Lemma engine0_reach : Reach engine0.
Proof. apply (Reach_open config_default (Metrics.new 0)); [reflexivity|apply engine0_open]. Qed.

Definition user (i n : string) (age : Value) : Document :=
  {| id := i; version := 1; created_at := 1000; updated_at := 1000;
     fields := [("age", age); ("name", VString n)]%string |}.

Definition ada : Document := user "u1" "Ada" (VInt 30).
Definition bob : Document := user "u2" "Bob" (VInt 25).

(** What a concrete INSERT needs is computed. *)
Lemma insert_fits now ns coll d e :
  valid_str ns && valid_str coll && doc_ordinary d && doc_storable d
  && (match DocId.new (id d) with Ok i => String.eqb i (id d) | _ => false end)
  && (WriteAheadLog.current_segment_index (wal e) + 1 <=? u64_max)
  && (WriteAheadLog.current_sequence (wal e) + 1 <=? u64_max) = true ->
  stmt_ok now ns (SInsert coll d) e.
Proof.
  intros H. bool_facts. cbn [stmt_ok]. unfold doc_good, has_room, budget, seq_budget.
  destruct (DocId.new (id d)) as [i| |]; [|discriminate..].
  match goal with H : String.eqb i _ = true |- _ => apply String.eqb_eq in H; subst i end.
  split_and!; first [assumption|reflexivity|lia].
Qed.

Lemma run_reach stmt e :
  Reach e -> stmt_ok sample_now "default" stmt e ->
  is_ok (answer stmt e) || may_fail stmt = true -> Reach (run stmt e).
Proof.
  intros HR Hs H. apply (Reach_step e _ sample_now "default" stmt (answer stmt e)); [assumption..|apply surjective_pairing|].
  now apply orb_true_iff in H.
Qed.

Definition engine1 : Engine := run (SInsert "users" ada) engine0.
Definition engine2 : Engine := run (SInsert "users" bob) engine1.
Definition engine3 : Engine := run (SCreateIndex "users" "age" Ordered) engine2.

Lemma engine1_reach : Reach engine1.
Proof. apply run_reach; [apply engine0_reach|apply insert_fits; vm_compute; reflexivity|reflexivity]. Qed.

Lemma engine2_reach : Reach engine2.
Proof. apply run_reach; [apply engine1_reach|apply insert_fits; vm_compute; reflexivity|reflexivity]. Qed.

Lemma engine3_reach : Reach engine3.
Proof. apply run_reach; [apply engine2_reach|exact I|reflexivity]. Qed.
