(* ===== verification/NetworkProps.v ===== *)
(** Client and server together: every request gets the server's answer to that request,
    once, and a client that lost its connection waits for ever. *)

From S2P Require Export Network EngineSamples.

#[local] Arguments Client.request_frame : simpl never.

Section NetworkProps.
Context {B : Build} {AN : ArithNan} {HO : HashOrder} {C : CrcLib} {U : UuidLib} {UL : UuidLaws U} {J : JsonLib}
  {JL : JsonLaws J} {UT : UnicodeTables} {TD : TokenDebug}.

(** ** The server's side *)

(** A handler that answers leaves the outbox to its caller. *)
Definition responds (req_id : Z) (c : Conn) (x : Engine * Conn * result (option NvpFrame.t)) : Prop :=
  outbox x.1.2 = outbox c /\ alive x.1.2 = alive c
  /\ forall o, x.2 = Ok o -> exists b, o = Some (NvpFrame.new FResponse req_id b).

Lemma respond_responds req_id resp o :
  respond req_id resp = Ok o -> exists b, o = Some (NvpFrame.new FResponse req_id b).
Proof. unfold respond, response_to_bytes. intros [= <-]. eauto. Qed.

Lemma handle_request_responds env req_id p e c : responds req_id c (handle_request env req_id p e c).
Proof.
  assert (Er : forall err, responds req_id c (e, c, Err err)) by (intros; repeat split; discriminate).
  assert (Pa : responds req_id c (e, c, Panic)) by (repeat split; discriminate).
  assert (Re : forall e' resp, responds req_id c (e', c, respond req_id resp))
    by (intros; repeat split; intros; now apply respond_responds with resp).
  assert (Au : forall resp, responds req_id c (e, set_authenticated true c, respond req_id resp))
    by (intros; repeat split; intros; now apply respond_responds with resp).
  assert (W : forall coll filter, responds req_id c (let (c0, r) := start_watch req_id coll filter e c in (e, c0, r))).
  { intros. split; [reflexivity|]. split; [reflexivity|]. intros o H.
    exact (respond_responds req_id (PWatchAck req_id) o H). }
  destruct p as [nql|nql|n|token|]; cbn [handle_request]; auto.
  - destruct (negb (authenticated c)); [auto|]. destruct (parse_nql _ _ nql) as [st|er|]; [|auto..].
    destruct st; auto; (match goal with |- context [execute ?f ?n ?s ?ns e] => destruct (execute f n s ns e) as [e' r] end;
      destruct r as [resp|er|]; cbn [bindO]; [apply Re|repeat split; discriminate..]).
  - destruct (negb (authenticated c)); [auto|]. destruct (parse_nql _ _ nql) as [st|er|]; [|auto..]. destruct st; auto.
  - destruct (negb (authenticated c)); auto.
  - destruct (auth_token (config e)) as [expected|]; [destruct (String.eqb token expected)|]; auto.
Qed.

Definition of_option {A} (o : option A) : list A := match o with Some a => [a] | None => [] end.

Lemma server_reply_id env f e c g :
  NvpFrame.frame_type f = FRequest -> server_reply env f e c = Some g ->
  NvpFrame.request_id g = NvpFrame.request_id f
  /\ (NvpFrame.frame_type g = FResponse \/ NvpFrame.frame_type g = FError).
Proof.
  unfold server_reply, handle_frame. intros ->. destruct (request_from_bytes _) as [p|er|].
  - destruct (handle_request_responds env (NvpFrame.request_id f) p e c) as (_ & _ & R).
    destruct (handle_request env _ p e c).2 as [o|er|]; [|intros [= <-]; auto|discriminate].
    destruct (R o eq_refl) as [b ->]. intros [= <-]. auto.
  - cbn. intros [= <-]. auto.
  - discriminate.
Qed.

Lemma filter_reply f l :
  NvpFrame.frame_type f = FResponse \/ NvpFrame.frame_type f = FError ->
  List.filter is_reply (l ++ [f]) = (List.filter is_reply l ++ [f])%list.
Proof. intros H. rewrite List.filter_app. cbn. unfold is_reply at 2. now destruct H as [-> | ->]. Qed.

(** Reading a request adds its reply to the outbox, unless it panics. *)
Lemma read_one_replies env f e c :
  NvpFrame.frame_type f = FRequest ->
  let c' := (read_one env (inl f) e c).2 in
  List.filter is_reply (outbox c') = (List.filter is_reply (outbox c) ++ of_option (server_reply env f e c))%list
  /\ outbox c' = (outbox c ++ of_option (server_reply env f e c))%list
  /\ (alive c' = true -> exists g, server_reply env f e c = Some g).
Proof.
  intros Ft. cbn zeta. pose proof (server_reply_id env f e c) as Hid. unfold server_reply in *. cbn [read_one].
  assert (R : responds (NvpFrame.request_id f) c (handle_frame env f e c)).
  { unfold handle_frame. rewrite Ft. destruct (request_from_bytes _); [apply handle_request_responds|repeat split; discriminate..]. }
  destruct (handle_frame env f e c) as [[e' c'] r]. destruct R as (Ro & Ra & Rr). cbn [fst snd] in *.
  destruct r as [o|err|].
  - destruct (Rr o eq_refl) as [b ->]. cbn [snd send outbox of_option]. rewrite Ro, filter_reply by auto. eauto.
  - cbn [response_to_bytes snd send outbox of_option]. rewrite Ro, filter_reply by auto. eauto.
  - cbn [snd stop outbox alive of_option]. rewrite Ro, !app_nil_r. split; [reflexivity|]. split; [reflexivity|discriminate].
Qed.

Lemma deliver_replies i e c :
  List.filter is_reply (outbox (deliver i e c)) = List.filter is_reply (outbox c) /\ alive (deliver i e c) = alive c
  /\ outbox c `prefix_of` outbox (deliver i e c).
Proof.
  unfold deliver. destruct (watchers c !! i) as [w|]; [|now repeat split]. destruct (running w); [|now repeat split].
  set (pos := Nat.max _ _). destruct (events e !! pos) as [ev|]; [|now repeat split].
  destruct (event_frame w ev) as [[g|]| |] eqn:E; try (now repeat split).
  cbn [send set_watcher outbox alive]. split; [|split; [reflexivity|now exists [g]]].
  rewrite List.filter_app. cbn. assert (Hg : is_reply g = false).
  { unfold event_frame in E. destruct (String.eqb _ _); [|discriminate]. inv_ok E. destruct r; [|discriminate].
    now injection E as <-. }
  now rewrite Hg, app_nil_r.
Qed.

(** ** The client's side *)

Lemma length_complete g c : List.length (Client.calls (Client.complete g c)) = List.length (Client.calls c).
Proof. unfold Client.complete. case_match; [now rewrite length_calls_on_call|reflexivity]. Qed.

Lemma read_frame_shape g c c' :
  Client.read_frame g c = Some c' ->
  List.length (Client.calls c') = List.length (Client.calls c) /\ Client.wire c' = Client.wire c.
Proof.
  unfold Client.read_frame, Client.complete. intros H.
  repeat (case_match; try discriminate); injection H as <-; rewrite ?length_calls_on_call; auto.
Qed.

Lemma client_step_shape c c' :
  client_step c c' ->
  (List.length (Client.calls c) <= List.length (Client.calls c'))%nat /\ Client.wire c `prefix_of` Client.wire c'.
Proof.
  intros [req _|i|i|i| | |i ev c1 H|i|].
  - cbn. rewrite length_app. split; [lia|reflexivity].
  - unfold Client.subscribe. repeat case_match; rewrite ?length_calls_on_call; cbn; split; reflexivity || lia.
  - unfold Client.register. repeat case_match; rewrite ?length_calls_on_call; cbn; rewrite ?length_alter; split; reflexivity || lia.
  - unfold Client.dispatch. repeat case_match; rewrite ?length_calls_on_call; cbn; split; reflexivity || lia.
  - unfold Client.write_one. repeat case_match; cbn; split; try lia; try reflexivity. now eexists.
  - split; reflexivity || lia.
  - unfold Client.next_event in H. repeat (case_match; try discriminate). injection H as <- <-.
    rewrite length_calls_on_call. split; reflexivity || lia.
  - unfold Client.drop_stream. rewrite length_calls_on_call. split; reflexivity || lia.
  - split; reflexivity || lia.
Qed.

Definition bounded (s : System) : Prop := Z.of_nat (List.length (Client.calls (sys_client s))) <= u64_max.

Lemma client_step_ok seen c c' :
  client_ok seen c -> client_step c c' -> Z.of_nat (List.length (Client.calls c')) <= u64_max -> client_ok seen c'.
Proof.
  intros K [req Hr|i|i|i| | |i ev c1 H|i|] L.
  - apply begin_ok; try assumption. cbn in L. rewrite length_app in L. cbn in L. lia.
  - now apply subscribe_ok.
  - now apply register_ok.
  - now apply dispatch_ok.
  - now apply write_one_ok.
  - now apply write_fails_ok.
  - now apply next_event_ok with c i ev.
  - now apply drop_stream_ok.
  - now apply read_ends_ok.
Qed.

(** ** The two sides together *)

Section Reachable.
Variable s0 : System.

(** [g] is the reply the server gave to [f] at some moment of the run. *)
Definition answered (f g : NvpFrame.t) : Prop :=
  NvpFrame.request_id g = NvpFrame.request_id f
  /\ exists env s, sys_steps s0 s /\ server_reply env f (sys_engine s) (sys_conn s) = Some g.

(** The replies the client has read. *)
Definition replies_read (s : System) : list NvpFrame.t :=
  List.filter is_reply (firstn (seen s) (outbox (sys_conn s))).

Record system_ok (s : System) : Prop := {
  sys_reach : sys_steps s0 s;
  sys_heard : (heard s <= List.length (Client.wire (sys_client s)))%nat;
  sys_replies : exists n, (n <= heard s)%nat /\ (alive (sys_conn s) = true -> n = heard s)
    /\ Forall2 answered (firstn n (Client.wire (sys_client s))) (List.filter is_reply (outbox (sys_conn s)));
  sys_seen : (seen s <= List.length (outbox (sys_conn s)))%nat;
  sys_tables : client_ok (replies_read s) (sys_client s);
}.

Lemma wire_request seen c f :
  client_ok seen c -> f ∈ Client.wire c -> exists i k, Client.calls c !! i = Some k
    /\ Client.phase k = Client.Sent /\ f = Client.request_frame k.
Proof. intros K Hf. apply (ok_frames _ _ K). unfold outgoing. apply elem_of_app. now left. Qed.

Lemma wire_once seen c n : client_ok seen c -> NoDup (NvpFrame.request_id <$> firstn n (Client.wire c)).
Proof.
  intros K. pose proof (ok_once _ _ K) as O. unfold outgoing in O.
  rewrite <- (firstn_skipn n (Client.wire c)), <- app_assoc, fmap_app in O. now apply NoDup_app in O as [O _].
Qed.

Lemma take_more {A} (l l' : list A) n : l `prefix_of` l' -> (n <= List.length l)%nat -> firstn n l' = firstn n l.
Proof. intros [r ->] H. rewrite firstn_app. replace (n - _)%nat with 0%nat by lia. apply app_nil_r. Qed.

(** The server's moves leave what the client read as it is. *)
Lemma server_moves s x n m :
  system_ok s -> sys_steps s0 (with_server x m s) -> outbox (sys_conn s) `prefix_of` outbox x.2 ->
  (n <= m <= List.length (Client.wire (sys_client s)))%nat -> (alive x.2 = true -> n = m) ->
  Forall2 answered (firstn n (Client.wire (sys_client s))) (List.filter is_reply (outbox x.2)) ->
  system_ok (with_server x m s).
Proof.
  intros [_ H R E K] Hs Ho Hn Ha HF. constructor; cbn; [exact Hs|lia|exists n; split; [lia|auto]| |].
  - destruct Ho as [r ->]. rewrite length_app. lia.
  - unfold replies_read in *. cbn. now rewrite (take_more _ _ _ Ho).
Qed.

Lemma serves_ok s env f :
  system_ok s -> alive (sys_conn s) = true -> Client.wire (sys_client s) !! heard s = Some f ->
  system_ok (with_server (read_one env (inl f) (sys_engine s) (sys_conn s)) (S (heard s)) s).
Proof.
  intros K Ha Hf. destruct (sys_replies _ K) as (n & _ & Hn & HF). specialize (Hn Ha). subst n.
  destruct (wire_request _ _ f (sys_tables _ K)) as (i & k & Hk & _ & ->); [now apply list_elem_of_lookup_2 with (heard s)|].
  destruct (read_one_replies env (Client.request_frame k) (sys_engine s) (sys_conn s) eq_refl) as (R & Ro & Hg).
  pose proof (lookup_lt_Some _ _ _ Hf) as Hlt.
  assert (Hs : sys_steps s0 (with_server (read_one env (inl (Client.request_frame k)) (sys_engine s) (sys_conn s)) (S (heard s)) s)).
  { apply Sys_more with s; [apply (sys_reach _ K)|now apply Sys_serves]. }
  destruct (server_reply env (Client.request_frame k) (sys_engine s) (sys_conn s)) as [g|] eqn:Eg.
  - apply server_moves with (S (heard s)); try assumption; [rewrite Ro; now eexists|lia|reflexivity|].
    rewrite R, (take_S_r _ _ _ Hf). apply Forall2_app; [exact HF|]. constructor; [|constructor].
    split; [now apply (server_reply_id env _ (sys_engine s) (sys_conn s))|]. exists env, s. split; [apply (sys_reach _ K)|exact Eg].
  - apply server_moves with (heard s); try assumption; [rewrite Ro; now eexists|lia| |].
    + intros Al. destruct (Hg Al) as [g Hg']. discriminate.
    + rewrite R, app_nil_r. exact HF.
Qed.

(** The next frame the client reads, if it is a reply, answers a call of its own. *)
Lemma next_reply s g :
  system_ok s -> outbox (sys_conn s) !! seen s = Some g -> is_reply g = true ->
  exists i k, Client.calls (sys_client s) !! i = Some k /\ registered (Client.phase k) = true
    /\ NvpFrame.request_id g = Client.call_id k
    /\ ~ NvpFrame.request_id g ∈ NvpFrame.request_id <$> replies_read s
    /\ answered (Client.request_frame k) g.
Proof.
  intros K Hg Hr. destruct (sys_replies _ K) as (n & _ & _ & HF).
  rewrite <- (take_drop_middle _ _ _ Hg), List.filter_app in HF. cbn in HF. rewrite Hr in HF.
  fold (replies_read s) in HF. apply Forall2_app_inv_r in HF as (l1 & l2 & H1 & H2 & E).
  inversion H2 as [|f g' l2' rest' Hfg _ E1 E2]; subst. clear H2.
  assert (Hf : f ∈ Client.wire (sys_client s)).
  { assert (f ∈ firstn n (Client.wire (sys_client s))) by (rewrite E; apply elem_of_app; right; now left).
    rewrite <- (firstn_skipn n (Client.wire (sys_client s))). apply elem_of_app. now left. }
  destruct (wire_request _ _ f (sys_tables _ K) Hf) as (i & k & Hk & Hp & ->).
  exists i, k. destruct Hfg as [Hid Hans]. split; [exact Hk|]. split; [now rewrite Hp|]. split; [exact Hid|].
  split; [|now split]. rewrite Hid.
  pose proof (wire_once _ _ n (sys_tables _ K)) as ND. rewrite E, fmap_app in ND. cbn in ND.
  assert (Em : NvpFrame.request_id <$> replies_read s = NvpFrame.request_id <$> l1).
  { clear -H1. induction H1 as [|f g l l' [H _] _ IH]; [reflexivity|]. cbn. now rewrite H, IH. }
  rewrite Em. intros Hin. apply NoDup_app in ND as (_ & ND & _). apply (ND _ Hin). now left.
Qed.

Lemma reads_ok s s' : system_ok s -> client_reads s = Some s' -> system_ok s'.
Proof.
  intros K H. assert (Hs : sys_steps s0 s') by (apply Sys_more with s; [apply (sys_reach _ K)|now apply Sys_reads]).
  unfold client_reads in H. destruct (Client.reading (sys_client s)); [|discriminate].
  destruct (outbox (sys_conn s) !! seen s) as [g|] eqn:Hg; [|discriminate].
  destruct (NvpFrame.encode g); try discriminate.
  destruct (Client.read_frame g (sys_client s)) as [c|] eqn:Hc; [|discriminate]. injection H as <-.
  destruct (read_frame_shape _ _ _ Hc) as [Hl Hw].
  assert (Hr : replies_read s ++ (if is_reply g then [g] else []) = List.filter is_reply (firstn (S (seen s)) (outbox (sys_conn s)))).
  { unfold replies_read. rewrite (take_S_r _ _ _ Hg), List.filter_app. cbn. now destruct (is_reply g). }
  constructor; cbn; [exact Hs|rewrite Hw; apply (sys_heard _ K)|rewrite Hw; apply (sys_replies _ K)| |].
  - now apply lookup_lt_Some in Hg.
  - unfold replies_read. cbn. rewrite <- Hr. destruct (is_reply g) eqn:Eg.
    + destruct (next_reply s g K Hg Eg) as (i & k & Hk & Hp & Hid & Hn & _ & env & s1 & _ & Ha).
      destruct (server_reply_id env (Client.request_frame k) _ _ g eq_refl Ha) as [_ Ht].
      assert (c = Client.complete g (sys_client s)) as -> by (unfold Client.read_frame in Hc; destruct Ht as [Ht|Ht]; rewrite Ht in Hc; congruence).
      now apply complete_ok with i k; [apply (sys_tables _ K)|..].
    + rewrite app_nil_r. now apply read_event_ok with (sys_client s) g; [apply (sys_tables _ K)|..].
Qed.

Lemma system_step_ok s s' : system_ok s -> sys_step s s' -> bounded s' -> system_ok s'.
Proof.
  intros K Hstep L. pose proof (Sys_more _ _ _ (sys_reach _ K) Hstep) as Hs.
  destruct Hstep as [c Hc|s' Hr|env f Ha Hf|env msg Ha|i|fault now stmt ns].
  - destruct (client_step_shape _ _ Hc) as [_ Hw]. pose proof (sys_heard _ K). destruct (sys_replies _ K) as (n & Hn & Hal & HF).
    constructor; cbn; [exact Hs| | |apply (sys_seen _ K)|].
    + apply prefix_length in Hw. lia.
    + exists n. rewrite (take_more _ _ _ Hw) by lia. auto.
    + exact (client_step_ok _ _ _ (sys_tables _ K) Hc L).
  - now apply reads_ok with s.
  - now apply serves_ok.
  - destruct (sys_replies _ K) as (n & Hn & Hal & HF). pose proof (sys_heard _ K).
    apply server_moves with n; try assumption; [reflexivity|lia|discriminate].
  - destruct (sys_replies _ K) as (n & Hn & Hal & HF). pose proof (sys_heard _ K).
    destruct (deliver_replies i (sys_engine s) (sys_conn s)) as (D1 & D2 & D3).
    apply server_moves with n; try assumption; cbn; [lia|now rewrite D2|now rewrite D1].
  - destruct (sys_replies _ K) as (n & Hn & Hal & HF). pose proof (sys_heard _ K).
    apply server_moves with n; try assumption; [reflexivity|lia].
Qed.
End Reachable.

(** Steps never take calls away. *)
Lemma sys_step_calls s s' :
  sys_step s s' -> (List.length (Client.calls (sys_client s)) <= List.length (Client.calls (sys_client s')))%nat.
Proof.
  intros [c Hc|s1 Hr|env f Ha Hf|env msg Ha|i|fault now stmt ns]; cbn; try reflexivity.
  - now apply client_step_shape.
  - unfold client_reads in Hr. destruct (Client.reading _); [|discriminate]. destruct (outbox _ !! _) as [g|]; [|discriminate].
    destruct (NvpFrame.encode g); try discriminate. destruct (Client.read_frame g _) as [c|] eqn:Hc; [|discriminate].
    injection Hr as <-. cbn. apply read_frame_shape in Hc as [-> _]. reflexivity.
Qed.

Lemma bounded_before s s' : sys_step s s' -> bounded s' -> bounded s.
Proof. intros H. apply sys_step_calls in H. unfold bounded. lia. Qed.

Lemma system_open_ok e : system_ok (system_open e) (system_open e).
Proof.
  constructor; cbn; [constructor|lia|exists 0%nat; cbn; auto|lia|]. unfold replies_read. cbn. exact connected_ok.
Qed.

Lemma reachable_ok e s : sys_steps (system_open e) s -> bounded s -> system_ok (system_open e) s.
Proof.
  intros H. induction H as [|s s' H IH Hs]; intros L; [apply system_open_ok|].
  apply system_step_ok with s; try assumption. apply IH. now apply bounded_before with s'.
Qed.

(** The frame the server sends says what [server_answer] says. *)
Lemma server_reply_answer env k e c g :
  request_ok (Client.call_req k) = true -> server_reply env (Client.request_frame k) e c = Some g ->
  Client.reply_of_frame g = server_answer env (Client.call_id k) (Client.call_req k) e c.
Proof.
  intros Hr. unfold server_reply, server_answer, handle_frame. cbn [Client.request_frame NvpFrame.new NvpFrame.frame_type
    NvpFrame.payload NvpFrame.request_id]. pose proof (request_bytes_roundtrip _ Hr) as P.
  unfold request_to_bytes in P. cbn [bindO] in P. unfold Client.request_frame.
  cbn [NvpFrame.new NvpFrame.frame_type NvpFrame.payload NvpFrame.request_id]. rewrite P.
  destruct (handle_request env _ _ e c).2 as [o|err|]; [|now intros [= <-]|discriminate]. now intros ->.
Qed.

(** C21: a reply belongs to its request.  Whatever the interleaving of calls, network,
    watchers and other clients, a call that has a reply has the server's answer to the
    request of this call, given at some moment of the run; and once everything in
    flight has been read by a live server and by the client, every call that was sent
    has its reply. *)
Theorem replies_match_requests e s :
  sys_steps (system_open e) s -> bounded s ->
  let c := sys_client s in
  (forall i k r, Client.calls c !! i = Some k -> Client.reply k = Some r ->
     exists env s', sys_steps (system_open e) s'
       /\ r = server_answer env (Client.call_id k) (Client.call_req k) (sys_engine s') (sys_conn s'))
  /\ (Client.writing c = true -> Client.tx c = [] -> heard s = List.length (Client.wire c) ->
      alive (sys_conn s) = true -> seen s = List.length (outbox (sys_conn s)) ->
      forall i k, Client.calls c !! i = Some k -> Client.phase k = Client.Sent -> exists r, Client.reply k = Some r).
Proof.
  cbn zeta. intros H L. pose proof (reachable_ok e s H L) as K. destruct (sys_replies _ _ K) as (n & Hn & Hal & HF). split.
  - intros i k r Hk Hr. destruct (ok_reply _ _ (sys_tables _ _ K) _ _ _ Hk Hr) as (g & Hg & Hid & ->).
    assert (Hg' : g ∈ List.filter is_reply (outbox (sys_conn s))).
    { unfold replies_read in Hg. rewrite <- (firstn_skipn (seen s) (outbox (sys_conn s))), List.filter_app.
      apply elem_of_app. now left. }
    apply list_elem_of_lookup in Hg' as [j Hj]. destruct (Forall2_lookup_r _ _ _ _ _ HF Hj) as (f & Hf & Hid' & env & s' & Hs' & Ha).
    assert (Hf' : f ∈ Client.wire (sys_client s)).
    { apply list_elem_of_lookup_2 in Hf. rewrite <- (firstn_skipn n (Client.wire _)). apply elem_of_app. now left. }
    destruct (wire_request _ _ f (sys_tables _ _ K) Hf') as (i' & k' & Hk' & _ & ->).
    assert (Eid : Client.call_id k = Client.call_id k') by (rewrite <- Hid; exact Hid').
    pose proof (same_id _ _ _ _ _ _ (sys_tables _ _ K) Hk Hk' Eid). subst i'. rewrite Hk in Hk'. injection Hk' as <-.
    exists env, s'. split; [exact Hs'|]. apply server_reply_answer; [|exact Ha].
    now apply (ok_ids _ _ (sys_tables _ _ K) _ _ Hk).
  - intros W T Hh Al Hs i k Hk Hp. pose proof (ok_sent _ _ (sys_tables _ _ K) _ _ Hk Hp W) as Hf.
    unfold outgoing in Hf. rewrite T, app_nil_r in Hf. rewrite (Hal Al), Hh, firstn_all in HF.
    apply list_elem_of_lookup in Hf as [j Hj]. destruct (Forall2_lookup_l _ _ _ _ _ HF Hj) as (g & Hg & Hid & _).
    apply (replied _ _ i k g (sys_tables _ _ K) Hk); [|exact Hid].
    unfold replies_read. rewrite Hs, firstn_all. now apply list_elem_of_lookup_2 with j.
Qed.

(** What is written for a result is read back as that result. *)
Lemma answer_reads_back req_id (r : result ResponsePayload) :
  match r with Ok resp => response_ok resp = true | Err er => error_ok er = true | Panic => True end ->
  match (let? resp := r in respond req_id resp) with
  | Ok (Some f) => Client.reply_of_frame f
  | Ok None => Panic
  | Err err => let? b := response_to_bytes (PError err) in Client.reply_of_frame (NvpFrame.new FError req_id b)
  | Panic => Panic
  end = r.
Proof.
  intros Hr. destruct r as [resp|er|]; [|pose proof (response_bytes_roundtrip (PError er) Hr) as P|reflexivity].
  - exact (response_bytes_roundtrip resp Hr).
  - unfold response_to_bytes in *. cbn [bindO] in *. unfold Client.reply_of_frame.
    cbn [NvpFrame.new NvpFrame.frame_type NvpFrame.payload]. now rewrite P.
Qed.

(** A query that is no WATCH, answered by the engine. *)
Lemma query_answered env req_id nql stmt e c :
  authenticated c = true -> parse_nql (env_parse_now env) (env_generated env) nql = Ok stmt ->
  (forall coll filter, stmt <> SWatch coll filter) ->
  let x := execute (env_fault env) (env_now env) stmt "default" e in
  match x.2 with Ok resp => response_ok resp = true | Err er => error_ok er = true | Panic => True end ->
  server_answer env req_id (RQuery nql) e c = x.2 /\ (handle_request env req_id (RQuery nql) e c).1.1 = x.1.
Proof.
  intros Ha Hp Hw x Hr. unfold server_answer. cbn [handle_request]. rewrite Ha, Hp. cbn [negb].
  pose proof (answer_reads_back req_id x.2 Hr) as E. subst x.
  destruct stmt; try now destruct (Hw collection filter).
  all: destruct (execute _ _ _ _ e) as [e' r]; split; [exact E|reflexivity].
Qed.

(** A query gets what the engine answered: the reply the client reads to a parsed
    statement other than WATCH is the result of [execute], error or not, whenever it
    can be written on the wire, and the engine is left as [execute] leaves it. *)
Theorem query_answer_is_the_engines env req_id nql stmt e c e' r :
  authenticated c = true -> parse_nql (env_parse_now env) (env_generated env) nql = Ok stmt ->
  (forall coll filter, stmt <> SWatch coll filter) ->
  execute (env_fault env) (env_now env) stmt "default" e = (e', r) ->
  match r with Ok resp => response_ok resp = true | Err er => error_ok er = true | Panic => True end ->
  server_answer env req_id (RQuery nql) e c = r /\ (handle_request env req_id (RQuery nql) e c).1.1 = e'.
Proof.
  intros Ha Hp Hw He Hr. pose proof (query_answered env req_id nql stmt e c Ha Hp Hw) as Q. rewrite He in Q. now apply Q.
Qed.

(** ** A lost connection *)

(** What no step changes of a call that was sent. *)
Lemma client_step_keeps seen c c' i k :
  client_ok seen c -> client_step c c' -> Client.calls c !! i = Some k ->
  Client.phase k = Client.Sent -> exists k', Client.calls c' !! i = Some k' /\ Client.phase k' = Client.Sent
    /\ Client.reply k' = Client.reply k /\ (Client.reading c' = true -> Client.reading c = true).
Proof.
  intros K Hs Hk Hp.
  assert (Q : forall j f c1, quiet f -> Client.calls c1 = Client.calls c -> exists k', Client.calls (Client.on_call j f c1) !! i = Some k'
    /\ Client.phase k' = Client.Sent /\ Client.reply k' = Client.reply k).
  { intros j f c1 Hf E. rewrite calls_on_call, E, Hk. case_decide; [|eauto]. exists (f k). destruct (Hf k) as (_ & _ & -> & ->). auto. }
  assert (N : forall j k0 f c1, Client.calls c !! j = Some k0 -> Client.phase k0 <> Client.Sent -> Client.calls c1 = Client.calls c ->
    exists k', Client.calls (Client.on_call j f c1) !! i = Some k' /\ Client.phase k' = Client.Sent /\ Client.reply k' = Client.reply k).
  { intros j k0 f c1 Hj Hn E. rewrite calls_on_call, E, Hk. case_decide; [|eauto]. subst. congruence. }
  assert (S : exists k', Client.calls c' !! i = Some k' /\ Client.phase k' = Client.Sent /\ Client.reply k' = Client.reply k).
  { destruct Hs as [req _|j|j|j| | |j ev c1 H|j|]; try (now eauto).
    - exists k. cbn. split; [now apply lookup_app_l_Some|auto].
    - unfold Client.subscribe. destruct (Client.calls c !! j) as [k0|] eqn:Hj; [|eauto].
      destruct (Client.phase k0) eqn:P0; eauto. case_match; [|eauto]. apply N with k0; [assumption|congruence|reflexivity].
    - unfold Client.register. destruct (Client.calls c !! j) as [k0|] eqn:Hj; [|eauto].
      destruct (Client.phase k0) eqn:P0; eauto; [case_match; [eauto|]|];
        rewrite (not_pending _ c j k0 K Hj) by (now rewrite P0); apply N with k0; (assumption || congruence || reflexivity).
    - unfold Client.dispatch. destruct (Client.calls c !! j) as [k0|] eqn:Hj; [|eauto].
      destruct (Client.phase k0) eqn:P0; eauto. repeat case_match; eauto; apply N with k0; (assumption || congruence || reflexivity).
    - unfold Client.write_one. repeat case_match; eauto.
    - unfold Client.next_event in H. repeat (case_match; try discriminate). injection H as <- <-. now apply Q.
    - now apply Q. }
  destruct S as (k' & S1 & S2 & S3). exists k'. split_and!; try assumption.
  destruct Hs as [req _|j|j|j| | |j ev c1 H|j|]; try (exact (fun x => x)).
  - unfold Client.subscribe. repeat case_match; exact (fun x => x).
  - unfold Client.register. repeat case_match; exact (fun x => x).
  - unfold Client.dispatch. repeat case_match; exact (fun x => x).
  - unfold Client.write_one. repeat case_match; exact (fun x => x).
  - unfold Client.next_event in H. repeat (case_match; try discriminate). injection H as <- <-. exact (fun x => x).
  - discriminate.
Qed.

(** A call whose reply has not been read when the connection is lost never ends:
    the client keeps the sender of its channel, so that the call neither gets a reply
    nor learns that there will be none. *)
Theorem disconnected_calls_wait_for_ever e s s' i k :
  sys_steps (system_open e) s -> Client.reading (sys_client s) = false ->
  Client.calls (sys_client s) !! i = Some k -> Client.phase k = Client.Sent -> Client.reply k = None ->
  sys_steps s s' -> bounded s' ->
  exists k', Client.calls (sys_client s') !! i = Some k' /\ Client.outcome_of k' = None.
Proof.
  intros H Hd Hk Hp Hr Hs.
  assert (G : bounded s' -> sys_steps (system_open e) s' /\ Client.reading (sys_client s') = false
    /\ exists k', Client.calls (sys_client s') !! i = Some k' /\ Client.phase k' = Client.Sent /\ Client.reply k' = None).
  { induction Hs as [|t u Hs IH Hstep]; intros L; [eauto 6|].
    destruct (IH (bounded_before _ _ Hstep L)) as (Ht & Hd' & k' & Hk' & Hp' & Hr').
    pose proof (reachable_ok e t Ht (bounded_before _ _ Hstep L)) as K.
    split; [now apply Sys_more with t|]. destruct Hstep as [c Hc|s1 Hc|env f Ha Hf|env msg Ha|j|fault now stmt ns]; eauto.
    - destruct (client_step_keeps _ _ _ _ _ (sys_tables _ _ K) Hc Hk' Hp') as (k2 & H1 & H2 & H3 & H4). cbn.
      split; [destruct (Client.reading c); [now rewrite H4 in Hd'|reflexivity]|]. exists k2. split_and!; congruence.
    - unfold client_reads in Hc. now rewrite Hd' in Hc. }
  intros L. destruct (G L) as (_ & _ & k' & Hk' & Hp' & Hr'). exists k'. split; [exact Hk'|]. unfold Client.outcome_of.
  now rewrite Hp'.
Qed.
End NetworkProps.

(** ** On the sample database *)

(** A client counts the users. *)
Definition counting : Client.t :=
  Client.write_one (Client.dispatch 0 (Client.register 0 (Client.begin (RQuery "COUNT users") Client.connected))).

Definition asked : System := with_client counting (system_open engine2).

Definition served : System :=
  match Client.wire counting with
  | f :: _ => with_server (read_one sample_env (inl f) (sys_engine asked) (sys_conn asked)) 1 asked
  | [] => asked
  end.

Definition told : System := default served (client_reads served).

Lemma asked_steps : sys_steps (system_open engine2) asked.
Proof.
  set (c0 := Client.connected). set (c1 := Client.begin (RQuery "COUNT users") c0).
  set (c2 := Client.register 0 c1). set (c3 := Client.dispatch 0 c2).
  refine (Sys_more _ (with_client c3 (system_open engine2)) _ _ (Sys_client (with_client c3 (system_open engine2)) _ (Write_one c3))).
  refine (Sys_more _ (with_client c2 (system_open engine2)) _ _ (Sys_client (with_client c2 (system_open engine2)) _ (Dispatch c2 0))).
  refine (Sys_more _ (with_client c1 (system_open engine2)) _ _ (Sys_client (with_client c1 (system_open engine2)) _ (Register c1 0))).
  exact (Sys_more _ _ _ (Sys_none _) (Sys_client (system_open engine2) _ (Begin c0 (RQuery "COUNT users") eq_refl))).
Qed.

Lemma told_steps : sys_steps (system_open engine2) told.
Proof.
  apply Sys_more with served.
  - apply Sys_more with asked; [apply asked_steps|].
    refine (Sys_serves asked sample_env (Client.request_frame {| Client.call_id := 1; Client.call_req := RQuery "COUNT users";
      Client.phase := Client.Sent; Client.reply := None; Client.stream := []; Client.stream_open := true |}) eq_refl _).
    vm_compute. reflexivity.
  - apply Sys_reads. unfold told. destruct (client_reads served) as [s|] eqn:E; [reflexivity|]. vm_compute in E. discriminate.
Qed.

Lemma replies_match_requests_witness :
  (exists k, Client.calls (sys_client told) !! 0%nat = Some k /\ Client.reply k = Some (Ok (PCount 2)))
  /\ exists env s', sys_steps (system_open engine2) s'
     /\ Ok (PCount 2) = server_answer env 1 (RQuery "COUNT users") (sys_engine s') (sys_conn s').
Proof.
  destruct (Client.calls (sys_client told) !! 0%nat) as [k|] eqn:Hk; [|vm_compute in Hk; discriminate].
  assert (Hr : Client.reply k = Some (Ok (PCount 2)) /\ Client.call_id k = 1 /\ Client.call_req k = RQuery "COUNT users").
  { vm_compute in Hk. injection Hk as <-. repeat split. }
  destruct Hr as (Hr & Hi & Hq). split; [exists k; split; [reflexivity|exact Hr]|]. rewrite <- Hi, <- Hq.
  refine (proj1 (replies_match_requests engine2 told told_steps _) 0%nat k (Ok (PCount 2)) Hk Hr).
  unfold bounded. vm_compute. discriminate.
Defined.

Lemma query_answer_is_the_engines_witness :
  server_answer sample_env 1 (RQuery "COUNT users") engine2 (conn_new engine2) = Ok (PCount 2).
Proof.
  refine (proj1 (query_answer_is_the_engines sample_env 1 "COUNT users" (SCount "users" None) engine2 (conn_new engine2)
    (run (SCount "users" None) engine2) (Ok (PCount 2)) eq_refl _ _ _ eq_refl)).
  - vm_compute. reflexivity.
  - discriminate.
  - apply executed. vm_compute. reflexivity.
Defined.

(** The connection is lost after the server has answered. *)
Lemma disconnected_calls_wait_for_ever_witness :
  exists k', Client.calls (sys_client (with_client (Client.read_ends counting) served)) !! 0%nat = Some k'
    /\ Client.outcome_of k' = None.
Proof.
  set (lost := with_client (Client.read_ends counting) asked).
  destruct (Client.calls (sys_client lost) !! 0%nat) as [k|] eqn:Hk; [|vm_compute in Hk; discriminate].
  assert (Hp : Client.phase k = Client.Sent /\ Client.reply k = None) by (vm_compute in Hk; injection Hk as <-; split; reflexivity).
  refine (disconnected_calls_wait_for_ever engine2 lost _ 0%nat k _ eq_refl Hk (proj1 Hp) (proj2 Hp) _ _).
  - exact (Sys_more _ asked _ asked_steps (Sys_client asked _ (Read_ends counting))).
  - refine (Sys_more _ lost _ (Sys_none _) _).
    refine (Sys_serves lost sample_env (Client.request_frame {| Client.call_id := 1; Client.call_req := RQuery "COUNT users";
      Client.phase := Client.Sent; Client.reply := None; Client.stream := []; Client.stream_open := true |}) eq_refl _).
    vm_compute. reflexivity.
  - unfold bounded. vm_compute. discriminate.
Defined.
