(* ===== verification/ConnectionProps.v ===== *)
(** Properties of client connections: authentication and live subscriptions. *)

From S2P Require Export Connection EngineSamples.

Section ConnectionProps.
Context {B : Build} {AN : ArithNan} {HO : HashOrder} {C : CrcLib} {U : UuidLib} {J : JsonLib}
  {UT : UnicodeTables} {TD : TokenDebug}.

(** ** Events are only ever appended *)

Lemma update_loop_events fault now t key asg filter ids acc e :
  events (update_loop fault now t key asg filter ids acc e).1 = events e.
Proof.
  revert t acc e. induction ids as [|i ids IH]; intros t acc e; cbn [update_loop]; [reflexivity|].
  destruct (store_at key e !! i) as [before|]; [|apply IH].
  destruct (matches_filter filter before) as [[|]|er|]; [|apply IH|reflexivity..].
  destruct (apply_assignments (now t) before asg) as [after [u|er|]]; [|reflexivity..].
  destruct (NbfRecord.payload_from_document after) as [pl|er|]; [|reflexivity..].
  destruct (WriteAheadLog.append _ _ _ _ _ _ _ _ _) as [w [seq|er|]]; [|reflexivity..].
  destruct (IndexManager.on_update _ _ _) as [m [u'|er|]]; [| |reflexivity]; now rewrite IH.
Qed.

Lemma remove_loop_events fault now t key ids acc e :
  events (remove_loop fault now t key ids acc e).1 = events e.
Proof.
  revert t acc e. induction ids as [|i ids IH]; intros t acc e; cbn [remove_loop]; [reflexivity|].
  destruct (store_at key e !! i) as [d|]; [|apply IH].
  destruct (WriteAheadLog.append _ _ _ _ _ _ _ _ _) as [w [seq|er|]]; [|reflexivity..].
  destruct (IndexManager.on_remove _ _) as [m [u'|er|]]; [| |reflexivity]; now rewrite IH.
Qed.

Lemma emit_all_events mk now t us e : events e `prefix_of` events (emit_all mk now t us e).
Proof.
  revert t e. induction us as [|u us IH]; intros t e; cbn [emit_all]; [reflexivity|].
  etransitivity; [|apply IH]. now exists [mk (now t) u].
Qed.

Lemma execute_events fault now stmt ns e : events e `prefix_of` events (execute fault now stmt ns e).1.
Proof.
  destruct stmt; cbn [execute fst]; try reflexivity.
  - unfold execute_insert. destruct (insert_check _ _ _); [|reflexivity..].
    unfold insert_log. destruct (NbfRecord.payload_from_document _) as [pl|er|]; [|reflexivity..].
    destruct (WriteAheadLog.append _ _ _ _ _ _ _ _ _) as [w [seq|er|]]; [|reflexivity..].
    unfold insert_index. destruct (IndexManager.on_insert _ _) as [m [u|er|]]; [| |reflexivity]; eexists; reflexivity.
  - unfold execute_update, update_changes. set (e1 := entry_both _ _).
    pose proof (update_loop_events fault now 0 (ns, collection) assignments filter
      (store_keys (store_at (ns, collection) e1)) [] e1) as E1.
    destruct (update_loop _ _ _ _ _ _ _ _ _) as [e2 [us|er|]]; cbn [fst] in *; [|exists []; now rewrite E1, app_nil_r..].
    etransitivity; [|apply emit_all_events]. rewrite E1. reflexivity.
  - unfold execute_remove, remove_changes. set (e1 := entry_both _ _).
    destruct (target_ids _ _ _) as [ids|er|]; [|reflexivity..].
    pose proof (remove_loop_events fault now 0 (ns, collection) ids [] e1) as E1.
    destruct (remove_loop _ _ _ _ _ _ _) as [e2 [us|er|]]; cbn [fst] in *; [|exists []; now rewrite E1, app_nil_r..].
    etransitivity; [|apply emit_all_events]. rewrite E1. reflexivity.
  - unfold execute_create_index. now destruct (Engine.populate _ _ _).
  - unfold execute_drop_index. destruct (indexes _ !! _); [|reflexivity].
    now destruct (IndexManager.drop_index _ _) as [m [|]].
Qed.

(** ** Authentication *)

(** The frame that opens the connection. *)
Definition authenticates (expected : string) (input : NvpFrame.t + string) : Prop :=
  match input with
  | inl f => NvpFrame.frame_type f = FRequest /\ request_from_bytes (NvpFrame.payload f) = Ok (RAuth expected)
  | inr _ => False
  end.

(** What a client must not be able to change. *)
Definition same_data_as (e e' : Engine) : Prop :=
  config e' = config e /\ collections e' = collections e /\ indexes e' = indexes e /\ wal e' = wal e
  /\ events e' = events e.

Fixpoint read_all (inputs : list (Env * (NvpFrame.t + string))) (e : Engine) (c : Conn) : Engine * Conn :=
  match inputs with
  | [] => (e, c)
  | (env, input) :: inputs' => let (e, c) := read_one env input e c in read_all inputs' e c
  end.

Lemma read_one_locked env input expected e c :
  auth_token (config e) = Some expected -> authenticated c = false -> ~ authenticates expected input ->
  same_data_as e (read_one env input e c).1 /\ authenticated (read_one env input e c).2 = false
  /\ watchers (read_one env input e c).2 = watchers c.
Proof.
  intros Ha Hc Hn. destruct input as [f|msg]; [|repeat split; exact Hc].
  unfold read_one, handle_frame. cbn [authenticates] in Hn.
  destruct (NvpFrame.frame_type f) eqn:Ft; try (repeat split; exact Hc).
  destruct (request_from_bytes (NvpFrame.payload f)) as [p|er|] eqn:Ep; [|repeat split; exact Hc..].
  destruct p as [nql|nql|n|token|]; cbn [handle_request]; rewrite ?Hc; cbn [negb]; try (repeat split; exact Hc).
  rewrite Ha. destruct (String.eqb_spec token expected) as [->|N]; [destruct Hn; now split|repeat split; exact Hc].
Qed.

(** C29: while a client has not presented the configured token, nothing it sends
    changes a document, an index, the log or the event stream, and it gets no
    subscription. *)
Theorem unauthenticated_clients_change_nothing inputs expected e :
  auth_token (config e) = Some expected ->
  Forall (fun i => ~ authenticates expected i.2) inputs ->
  let after := read_all inputs e (conn_new e) in
  same_data_as e after.1 /\ authenticated after.2 = false /\ watchers after.2 = [].
Proof.
  cbn zeta. intros Ha HF. assert (G : forall e0 c, same_data_as e e0 -> authenticated c = false -> watchers c = [] ->
    same_data_as e (read_all inputs e0 c).1 /\ authenticated (read_all inputs e0 c).2 = false /\ watchers (read_all inputs e0 c).2 = []).
  { induction HF as [|[env i] inputs Hi HF IH]; intros e0 c (S1 & S2 & S3 & S4 & S5) A W; cbn [read_all]; [repeat split; assumption|].
    destruct (read_one_locked env i expected e0 c) as ((T1 & T2 & T3 & T4 & T5) & A' & W'); [now rewrite S1|assumption|exact Hi|].
    destruct (read_one env i e0 c) as [e1 c1]. cbn [fst snd] in *. apply IH; [|assumption|congruence].
    unfold same_data_as. repeat split; congruence. }
  apply G; [repeat split|unfold conn_new; now rewrite Ha|reflexivity].
Qed.

(** ** Subscriptions *)

(** The frames a watcher has sent: those of the events it received. *)
Definition sent_by (w : Watcher) : list NvpFrame.t :=
  omap (fun ev => match event_frame w ev with Ok (Some f) => Some f | _ => None end) (received w).

(** A watcher in order: it read, in order and each once, events sent since it
    subscribed, and what it sent is in the outbox in that order. *)
Definition watcher_ok (e : Engine) (c : Conn) (w : Watcher) : Prop :=
  (start_at w <= next_event w <= List.length (events e))%nat
  /\ received w `sublist_of` firstn (next_event w - start_at w) (skipn (start_at w) (events e))
  /\ sent_by w `sublist_of` outbox c.

Definition stream_ok (x : Engine * Conn) : Prop :=
  let (e, c) := x in
  Forall (watcher_ok e c) (watchers c)
  /\ forall f, f ∈ outbox c -> NvpFrame.frame_type f = FEvent ->
     exists w ev, w ∈ watchers c /\ ev ∈ received w /\ event_frame w ev = Ok (Some f).

Lemma window_app {A} (s n : nat) (l l' : list A) :
  (s <= n <= List.length l)%nat -> firstn (n - s) (skipn s (l ++ l')) = firstn (n - s) (skipn s l).
Proof.
  intros [H1 H2]. rewrite List.skipn_app, List.firstn_app, length_skipn.
  replace (n - s - (List.length l - s))%nat with 0%nat by lia. now rewrite firstn_O, app_nil_r.
Qed.

Lemma window_grows {A} (n m : nat) (l : list A) : (n <= m)%nat -> firstn n l `sublist_of` firstn m l.
Proof. intros H. replace (firstn n l) with (firstn n (firstn m l)) by (rewrite firstn_firstn; f_equal; lia). apply sublist_take. Qed.

Lemma window_snoc {A} (s n : nat) (l : list A) x :
  (s <= n)%nat -> l !! n = Some x -> firstn (S n - s) (skipn s l) = (firstn (n - s) (skipn s l) ++ [x])%list.
Proof.
  intros H Hx. replace (S n - s)%nat with (S (n - s)) by lia. apply take_S_r. rewrite lookup_drop.
  now replace (s + (n - s))%nat with n by lia.
Qed.

Lemma watcher_ok_more e e' c c' w :
  events e `prefix_of` events e' -> outbox c `sublist_of` outbox c' -> watcher_ok e c w -> watcher_ok e' c' w.
Proof.
  intros [l El] Ho ((L1 & L2) & R & S). split; [|split].
  - rewrite El, length_app. lia.
  - rewrite El, window_app by lia. exact R.
  - etransitivity; eassumption.
Qed.

(** A subscription as [start_watch] makes it. *)
Definition fresh_watcher (e : Engine) (w : Watcher) : Prop :=
  start_at w = List.length (events e) /\ next_event w = List.length (events e) /\ received w = [].

(** What handling a frame does to the watchers, and the kind of its answer. *)
Definition handled (e : Engine) (c : Conn) (x : Engine * Conn * result (option NvpFrame.t)) : Prop :=
  let '(e', c', r) := x in
  events e `prefix_of` events e' /\ outbox c' = outbox c
  /\ (watchers c' = watchers c \/ e' = e /\ exists w, watchers c' = (watchers c ++ [w])%list /\ fresh_watcher e w)
  /\ forall f, r = Ok (Some f) -> NvpFrame.frame_type f <> FEvent.

Lemma respond_kind rid resp f : respond rid resp = Ok (Some f) -> NvpFrame.frame_type f <> FEvent.
Proof. unfold respond. intros H. inv_ok H. now injection H as <-. Qed.

Lemma handled_same e c r :
  (forall f, r = Ok (Some f) -> NvpFrame.frame_type f <> FEvent) -> handled e c (e, c, r).
Proof. intros H. split; [reflexivity|]. split; [reflexivity|]. split; [now left|exact H]. Qed.

Lemma handle_request_handled env rid p e c : handled e c (handle_request env rid p e c).
Proof.
  assert (W : forall coll filter, handled e c (let (c0, r) := start_watch rid coll filter e c in (e, c0, r))).
  { intros coll filter. split; [reflexivity|]. split; [reflexivity|]. split; [|apply respond_kind].
    right. split; [reflexivity|]. eexists. split; [reflexivity|]. now repeat split. }
  assert (Auth : forall r, (forall f, r = Ok (Some f) -> NvpFrame.frame_type f <> FEvent) ->
    handled e c (e, set_authenticated true c, r)).
  { intros r H. split; [reflexivity|]. split; [reflexivity|]. split; [now left|exact H]. }
  destruct p as [nql|nql|n|token|]; cbn [handle_request]; try (apply handled_same, respond_kind).
  - destruct (negb (authenticated c)); [now apply handled_same|].
    destruct (parse_nql _ _ nql) as [st|er|]; [|now apply handled_same..].
    destruct st; try apply W; (match goal with |- context [execute ?f ?n ?s ?ns e] =>
      pose proof (execute_events f n s ns e) as P; destruct (execute f n s ns e) as [e' r] end;
      cbn [fst] in P; split; [exact P|]; split; [reflexivity|]; split; [now left|];
      intros f H; destruct r as [resp| |]; cbn [bindO] in H; [|discriminate..]; eapply respond_kind, H).
  - destruct (negb (authenticated c)); [now apply handled_same|].
    destruct (parse_nql _ _ nql) as [st|er|]; [|now apply handled_same..].
    destruct st; try apply W; now apply handled_same.
  - destruct (negb (authenticated c)); [now apply handled_same|apply handled_same, respond_kind].
  - destruct (auth_token (config e)) as [expected|]; [|apply Auth, respond_kind].
    destruct (String.eqb token expected); [apply Auth, respond_kind|now apply handled_same].
Qed.

Lemma handle_frame_handled env f e c : handled e c (handle_frame env f e c).
Proof.
  unfold handle_frame. destruct (NvpFrame.frame_type f); try (apply handled_same; intros g [= <-]; discriminate);
    try (apply handled_same; intros g H; discriminate H).
  destruct (request_from_bytes _) as [p|er|]; [apply handle_request_handled|apply handled_same; intros g H; discriminate H..].
Qed.

Lemma stream_ok_more e e' c c' :
  events e `prefix_of` events e' -> outbox c `sublist_of` outbox c' -> watchers c' = watchers c ->
  (forall f, f ∈ outbox c' -> NvpFrame.frame_type f = FEvent -> f ∈ outbox c) ->
  stream_ok (e, c) -> stream_ok (e', c').
Proof.
  intros He Ho Hw Hf [S1 S2]. split; rewrite Hw.
  - apply (Forall_impl _ _ _ S1). intros w. now apply watcher_ok_more.
  - intros f Hin Ht. now apply S2; [apply Hf|].
Qed.

Lemma stream_ok_fresh e c w :
  fresh_watcher e w -> stream_ok (e, c) -> forall c', watchers c' = (watchers c ++ [w])%list -> outbox c' = outbox c ->
  stream_ok (e, c').
Proof.
  intros (F1 & F2 & F3) [S1 S2] c' Hw Ho. split; rewrite Hw.
  - apply Forall_app. split.
    + apply (Forall_impl _ _ _ S1). intros v. apply watcher_ok_more; [reflexivity|now rewrite Ho].
    + constructor; [|constructor]. unfold watcher_ok, sent_by. rewrite F1, F2, F3. split; [lia|]. split; apply sublist_nil_l.
  - rewrite Ho. intros f Hin Ht. destruct (S2 f Hin Ht) as (v & ev & V1 & V2 & V3). exists v, ev.
    split; [apply elem_of_app; now left|]. now split.
Qed.

Lemma read_one_ok env input e c : stream_ok (e, c) -> stream_ok (read_one env input e c).
Proof.
  intros S. destruct input as [f|msg]; cbn [read_one].
  2: { apply (stream_ok_more e _ c); auto; reflexivity. }
  pose proof (handle_frame_handled env f e c) as H. destruct (handle_frame env f e c) as [[e' c'] r].
  destruct H as (He & Ho & Hw & Hk).
  assert (S' : stream_ok (e', c')).
  { destruct Hw as [Hw|(-> & w & Hw & Fw)].
    - apply (stream_ok_more e _ c); auto; rewrite Ho; auto; reflexivity.
    - now apply (stream_ok_fresh e c w). }
  assert (Send : forall g, NvpFrame.frame_type g <> FEvent -> stream_ok (e', send g c')).
  { intros g Hg. apply (stream_ok_more e' e' c'); [reflexivity|cbn [send outbox]; apply sublist_inserts_r; reflexivity|reflexivity| |exact S'].
    intros f0 Hin Ht. cbn [send outbox] in Hin. apply elem_of_app in Hin as [Hin|Hin]; [exact Hin|].
    apply list_elem_of_singleton in Hin. congruence. }
  destruct r as [[g|]|er|]; [apply Send, Hk; reflexivity|exact S'| |exact S'].
  destruct (response_to_bytes (PError er)); [apply Send; discriminate|exact S'..].
Qed.

Lemma event_frame_take ev pos b w ev' : event_frame (take_event ev pos b w) ev' = event_frame w ev'.
Proof. reflexivity. Qed.

Lemma sent_by_take ev pos b w :
  sent_by (take_event ev pos b w)
  = (sent_by w ++ match event_frame w ev with Ok (Some f) => [f] | _ => [] end)%list.
Proof.
  unfold sent_by. cbn [take_event received]. rewrite omap_app. f_equal. cbn.
  rewrite event_frame_take. now destruct (event_frame w ev) as [[f|]| |].
Qed.

Lemma deliver_ok i e c : stream_ok (e, c) -> stream_ok (e, deliver i e c).
Proof.
  intros [S1 S2]. unfold deliver. destruct (watchers c !! i) as [w|] eqn:Hi; [|now split].
  destruct (running w); [|now split]. set (pos := Nat.max _ _). destruct (events e !! pos) as [ev|] eqn:Hev; [|now split].
  pose proof S1 as S1'. rewrite Forall_lookup in S1. pose proof (S1 i w Hi) as ((L1 & L2) & R & Sent).
  assert (Hp : (next_event w <= pos < List.length (events e))%nat).
  { split; [unfold pos; lia|now apply lookup_lt_Some in Hev]. }
  assert (G : forall b c', watchers c' = <[i := take_event ev pos b w]> (watchers c) ->
    outbox c' = (outbox c ++ match event_frame w ev with Ok (Some f) => [f] | _ => [] end)%list -> stream_ok (e, c')).
  { intros b c' Hw Ho. split; rewrite Hw.
    - rewrite Forall_lookup. intros j v Hj. apply list_lookup_insert_Some in Hj as [(<- & <- & _)|[Hne Hj]].
      + unfold watcher_ok. cbn [start_at next_event take_event received]. rewrite Ho. split; [lia|]. split.
        * rewrite (window_snoc (start_at w) pos (events e) ev ltac:(lia) Hev). apply sublist_app; [|reflexivity].
          etransitivity; [exact R|]. apply window_grows. lia.
        * rewrite sent_by_take. apply sublist_app; [exact Sent|reflexivity].
      + apply (watcher_ok_more e e c c'); [reflexivity|rewrite Ho; now apply sublist_inserts_r|exact (S1 j v Hj)].
    - rewrite Ho. intros f Hin Ht. apply elem_of_app in Hin as [Hin|Hin].
      + destruct (S2 f Hin Ht) as (v & ev' & V1 & V2 & V3). apply list_elem_of_lookup in V1 as [j V1].
        destruct (decide (j = i)) as [->|Hne].
        * rewrite Hi in V1. injection V1 as <-. exists (take_event ev pos b w), ev'. split; [|split; [|exact V3]].
          { apply list_elem_of_lookup. exists i. apply list_lookup_insert_eq. now apply lookup_lt_Some in Hi. }
          { cbn [take_event received]. apply elem_of_app. now left. }
        * exists v, ev'. split; [|now split]. apply list_elem_of_lookup. exists j. now rewrite list_lookup_insert_ne.
      + exists (take_event ev pos b w), ev. destruct (event_frame w ev) as [[g|]| |] eqn:Ef; try (now apply not_elem_of_nil in Hin).
        apply list_elem_of_singleton in Hin as ->. split; [|split; [|exact Ef]].
        { apply list_elem_of_lookup. exists i. apply list_lookup_insert_eq. now apply lookup_lt_Some in Hi. }
        { cbn [take_event received]. apply elem_of_app. right. now apply list_elem_of_singleton. } }
  destruct (event_frame w ev) as [[f|]|er|] eqn:Ef; [apply (G true)|apply (G true)|apply (G false)|apply (G false)];
    cbn [send set_watcher watchers outbox]; rewrite ?app_nil_r; reflexivity.
Qed.

(** Whatever the interleaving of a connection's requests, its watchers and the
    statements of other clients, each watcher has read, in order and without
    repetition, events sent since it subscribed; it has sent a frame for exactly
    those of them that match its collection and filter, in that order; and no other
    event frame reaches the client. *)
Theorem watchers_stream_in_order e c x :
  watchers c = [] -> outbox c = [] -> conn_steps (e, c) x -> stream_ok x.
Proof.
  intros Hw Ho H. induction H as [|y z _ IH Hs].
  - split; [rewrite Hw; constructor|]. intros f Hin. rewrite Ho in Hin. now apply not_elem_of_nil in Hin.
  - destruct Hs as [env input e0 c0 _|i e0 c0|fault now stmt ns e0 c0].
    + now apply read_one_ok.
    + now apply deliver_ok.
    + apply (stream_ok_more e0 _ c0); auto. apply execute_events.
Qed.
End ConnectionProps.

(** ** On the sample database *)

Definition request_frame (rid : Z) (r : RequestPayload) : NvpFrame.t + string :=
  match request_to_bytes r with Ok b => inl (NvpFrame.new FRequest rid b) | _ => inr EmptyString end.

Definition locked : Engine :=
  {| config := {| host := "127.0.0.1"; port := 7400; data_dir := "./data"; max_connections := 1000;
                  max_frame_size := 16777216; sync_mode_name := "always"; auth_token := Some "s3cret"; web_port := None |};
     collections := collections engine2; indexes := indexes engine2; wal := wal engine2;
     events := events engine2; metrics := metrics engine2 |}%string.

Definition intruder : list (Env * (NvpFrame.t + string)) :=
  [(sample_env, request_frame 1 (RAuth "guess")); (sample_env, request_frame 2 (RQuery "REMOVE users"));
   (sample_env, request_frame 3 (RWatch "WATCH users"))]%string.

Lemma other_request rid r expected :
  request_ok r = true -> r <> RAuth expected -> ~ authenticates expected (request_frame rid r).
Proof.
  intros Hr N H. unfold authenticates, request_frame in H.
  pose proof (request_bytes_roundtrip r Hr) as R. unfold bindO in R.
  destruct (request_to_bytes r) as [b| |] eqn:Eb; [|exact H..].
  cbn [NvpFrame.new NvpFrame.frame_type NvpFrame.payload] in H. destruct H as [_ H]. rewrite R in H. apply N. now injection H.
Qed.

Lemma unauthenticated_clients_change_nothing_witness :
  let after := read_all intruder locked (conn_new locked) in
  same_data_as locked after.1 /\ authenticated after.2 = false /\ watchers after.2 = [].
Proof.
  refine (unauthenticated_clients_change_nothing intruder "s3cret" locked eq_refl _).
  unfold intruder. repeat apply List.Forall_cons; [| | |apply List.Forall_nil]; unfold snd; apply other_request; first [reflexivity|discriminate].
Defined.

(** Subscribe, let another client insert, deliver. *)
Definition subscribed : Engine * Conn :=
  read_one sample_env (request_frame 7 (RWatch "WATCH users WHERE age > 20")) engine1 (conn_new engine1).
Definition after_insert : Engine * Conn := ((execute NoFault sample_now (SInsert "users" bob) "default" subscribed.1).1, subscribed.2).
Definition delivered : Engine * Conn := (after_insert.1, deliver 0 after_insert.1 after_insert.2).

Lemma watchers_stream_in_order_witness :
  stream_ok delivered /\ List.map NvpFrame.frame_type (outbox delivered.2) = [FResponse; FEvent].
Proof.
  split; [|vm_compute; reflexivity].
  apply (watchers_stream_in_order engine1 (conn_new engine1)); [reflexivity|reflexivity|].
  assert (P : subscribed = (subscribed.1, subscribed.2)) by apply surjective_pairing.
  refine (Steps_more _ after_insert _ (Steps_more _ subscribed _ (Steps_more _ _ _ (Steps_none _) _) _) _).
  - exact (Read_step sample_env (request_frame 7 (RWatch "WATCH users WHERE age > 20")) engine1 (conn_new engine1) eq_refl).
  - rewrite P at 1. exact (Other_step NoFault sample_now (SInsert "users" bob) "default" subscribed.1 subscribed.2).
  - assert (Q : after_insert = (after_insert.1, after_insert.2)) by apply surjective_pairing.
    unfold delivered. rewrite Q at 1. exact (Watch_step 0 after_insert.1 after_insert.2).
Defined.
