(* ===== verification/ListenerProps.v ===== *)
(** The accept loop: how many connections there can be, and what the gauge shows. *)

From S2P Require Export Listener EngineSamples.

(** ** Statements do not touch the connection gauge *)

Section Gauge.
Context {B : Build} {AN : ArithNan} {HO : HashOrder} {C : CrcLib} {U : UuidLib} {J : JsonLib}
  {UT : UnicodeTables} {TD : TokenDebug}.

Abbreviation gauge e := (Metrics.active_connections (metrics e)).

Lemma update_loop_metrics fault now t key asg filter ids acc e :
  metrics (update_loop fault now t key asg filter ids acc e).1 = metrics e.
Proof.
  revert t acc e. induction ids as [|i ids IH]; intros t acc e; cbn [update_loop]; [reflexivity|].
  destruct (store_at key e !! i) as [before|]; [|apply IH].
  destruct (matches_filter filter before) as [[|]|er|]; [|apply IH|reflexivity..].
  destruct (apply_assignments (now t) before asg) as [after [u|er|]]; [|reflexivity..].
  destruct (NbfRecord.payload_from_document after) as [pl|er|]; [|reflexivity..].
  destruct (WriteAheadLog.append _ _ _ _ _ _ _ _ _) as [w [seq|er|]]; [|reflexivity..].
  destruct (IndexManager.on_update _ _ _) as [m [u'|er|]]; [| |reflexivity]; now rewrite IH.
Qed.

Lemma remove_loop_metrics fault now t key ids acc e :
  metrics (remove_loop fault now t key ids acc e).1 = metrics e.
Proof.
  revert t acc e. induction ids as [|i ids IH]; intros t acc e; cbn [remove_loop]; [reflexivity|].
  destruct (store_at key e !! i) as [d|]; [|apply IH].
  destruct (WriteAheadLog.append _ _ _ _ _ _ _ _ _) as [w [seq|er|]]; [|reflexivity..].
  destruct (IndexManager.on_remove _ _) as [m [u'|er|]]; [| |reflexivity]; now rewrite IH.
Qed.

Lemma emit_all_gauge mk now t us e : gauge (emit_all mk now t us e) = gauge e.
Proof. revert t e. induction us as [|u us IH]; intros t e; cbn [emit_all]; [reflexivity|]. now rewrite IH. Qed.

Lemma execute_gauge fault now stmt ns e : gauge (execute fault now stmt ns e).1 = gauge e.
Proof.
  destruct stmt; cbn [execute fst]; try reflexivity.
  - unfold execute_insert. destruct (insert_check _ _ _); [|reflexivity..].
    unfold insert_log. destruct (NbfRecord.payload_from_document _) as [pl|er|]; [|reflexivity..].
    destruct (WriteAheadLog.append _ _ _ _ _ _ _ _ _) as [w [seq|er|]]; [|reflexivity..].
    unfold insert_index. now destruct (IndexManager.on_insert _ _) as [m [u|er|]].
  - unfold execute_update, update_changes. set (e1 := entry_both _ _).
    pose proof (update_loop_metrics fault now 0 (ns, collection) assignments filter
      (store_keys (store_at (ns, collection) e1)) [] e1) as S1.
    destruct (update_loop _ _ _ _ _ _ _ _ _) as [e2 [us|er|]]; cbn [fst] in *; rewrite ?emit_all_gauge; now rewrite S1.
  - unfold execute_remove, remove_changes. set (e1 := entry_both _ _).
    destruct (target_ids _ _ _) as [ids|er|]; [|reflexivity..].
    pose proof (remove_loop_metrics fault now 0 (ns, collection) ids [] e1) as S1.
    destruct (remove_loop _ _ _ _ _ _ _) as [e2 [us|er|]]; cbn [fst] in *; rewrite ?emit_all_gauge; now rewrite S1.
  - unfold execute_create_index. now destruct (Engine.populate _ _ _).
  - unfold execute_drop_index. destruct (indexes _ !! _); [|reflexivity].
    now destruct (IndexManager.drop_index _ _) as [m [|]].
Qed.

Lemma handle_frame_gauge env f e c :
  gauge (handle_frame env f e c).1.1 = gauge e
  /\ alive (handle_frame env f e c).1.2 = alive c /\ crashed (handle_frame env f e c).1.2 = crashed c.
Proof.
  unfold handle_frame. destruct (NvpFrame.frame_type f); try (split_and!; reflexivity).
  destruct (request_from_bytes _) as [p|er|]; [|split_and!; reflexivity..].
  destruct p as [nql|nql|n|token|]; cbn [handle_request].
  - destruct (authenticated c); [|split_and!; reflexivity]. cbn [negb].
    destruct (parse_nql _ _ nql) as [stmt|er|]; [|split_and!; reflexivity..].
    assert (G : gauge ((let (e0, r) := execute (env_fault env) (env_now env) stmt "default" e in
      (e0, c, let? resp := r in respond (NvpFrame.request_id f) resp)).1.1) = gauge e).
    { pose proof (execute_gauge (env_fault env) (env_now env) stmt "default" e) as G.
      destruct (execute _ _ _ _ e) as [e' r]. exact G. }
    destruct stmt; try (split_and!; reflexivity);
      (split_and!; [exact G|destruct (execute _ _ _ _ e); reflexivity..]).
  - destruct (authenticated c); [|split_and!; reflexivity]. cbn [negb].
    destruct (parse_nql _ _ nql) as [stmt|er|]; [|split_and!; reflexivity..].
    destruct stmt; split_and!; reflexivity.
  - destruct (authenticated c); split_and!; reflexivity.
  - destruct (auth_token (config e)); [destruct (String.eqb _ _)|]; split_and!; reflexivity.
  - split_and!; reflexivity.
Qed.
End Gauge.

(** ** Counting connections *)

Definition count_if {A} (f : A -> bool) (l : list A) : Z := Z.of_nat (List.length (List.filter f l)).

Lemma count_if_app {A} (f : A -> bool) l x : count_if f (l ++ [x]) = count_if f l + (if f x then 1 else 0).
Proof. unfold count_if. rewrite List.filter_app, length_app. cbn. destruct (f x); cbn; lia. Qed.

Lemma count_if_insert {A} (f : A -> bool) l i x y :
  l !! i = Some x -> count_if f (<[i := y]> l) = count_if f l - (if f x then 1 else 0) + (if f y then 1 else 0).
Proof.
  unfold count_if. revert i. induction l as [|z l IH]; intros [|i] H; [discriminate..| |].
  - injection H as ->. cbn. destruct (f x), (f y); cbn; lia.
  - specialize (IH i H). change (<[S i := y]> (z :: l)) with (z :: <[i := y]> l). cbn [List.filter].
    destruct (f z); cbn [List.length]; lia.
Qed.

Section Limit.
Context {B : Build} {AN : ArithNan} {HO : HashOrder} {C : CrcLib} {U : UuidLib} {J : JsonLib}
  {UT : UnicodeTables} {TD : TokenDebug}.

Abbreviation gauge e := (Metrics.active_connections (metrics e)).

(** Connections whose reader loop runs, and connections whose task panicked. *)
Definition live (s : Server) : Z := count_if alive (conns s).
Definition panicked (s : Server) : Z := count_if crashed (conns s).

Lemma read_one_gauge env input e c :
  alive c = true -> crashed c = false ->
  let (e', c') := read_one env input e c in
  gauge e' = (if alive c' || crashed c' then gauge e else wrap_u64 (gauge e - 1))
  /\ alive c' && crashed c' = false.
Proof.
  intros Ha Hc. destruct input as [f|msg]; [|cbn; now rewrite ?Z.add_opp_r].
  unfold read_one. pose proof (handle_frame_gauge env f e c) as (G & A & K).
  destruct (handle_frame env f e c) as [[e1 c1] r]. cbn [fst snd] in *. rewrite Ha in A. rewrite Hc in K.
  destruct r as [[g|]|er|]; [| |destruct (response_to_bytes _) as [b|er'|]|]; cbn [send stop alive crashed];
    rewrite ?A, ?K; split; first [exact G|reflexivity].
Qed.

(** What holds between any two turns. *)
Definition server_ok (most before : Z) (s : Server) : Prop :=
  live s + permits s = most /\ 0 <= permits s
  /\ gauge (engine s) = wrap_u64 (before + live s + panicked s)
  /\ Forall (fun c => alive c && crashed c = false) (conns s).

Lemma deliver_alive j e c : alive (deliver j e c) = alive c /\ crashed (deliver j e c) = crashed c.
Proof.
  unfold deliver. destruct (watchers c !! j) as [w|]; [|now split]. destruct (running w); [|now split].
  destruct (events e !! _) as [ev|]; [|now split]. destruct (event_frame w ev) as [[f|]|er|]; now split.
Qed.

Lemma wrap_shift a b d : a = wrap_u64 b -> wrap_u64 (a + d) = wrap_u64 (b + d).
Proof. intros ->. unfold wrap_u64. now rewrite Zplus_mod_idemp_l. Qed.

Lemma server_accept_ok most before s : server_ok most before s -> server_ok most before (accept s).
Proof.
  intros (L & P & G & F). unfold accept. case_if; [|split_and!; assumption]. bool_facts.
  unfold server_ok, live, panicked in *. cbn [connect engine conns permits]. rewrite !count_if_app. cbn [conn_new alive crashed].
  split_and!; [lia|lia| |].
  - cbn [on_metrics metrics Metrics.inc_connections Metrics.add_conn Metrics.active_connections].
    rewrite (wrap_shift _ _ 1 G). f_equal. lia.
  - apply Forall_app. split; [assumption|]. now repeat constructor.
Qed.

Lemma server_serve_ok most before env input i s : server_ok most before s -> server_ok most before (serve env input i s).
Proof.
  intros (L & P & G & F). unfold serve. destruct (conns s !! i) as [c|] eqn:Ei; [|split_and!; assumption].
  destruct (alive c) eqn:Ea; [|split_and!; assumption].
  pose proof (Forall_lookup_1 _ _ _ _ F Ei) as Hc. cbn in Hc. rewrite Ea in Hc. cbn in Hc.
  pose proof (read_one_gauge env input (engine s) c Ea Hc) as R. destruct (read_one env input (engine s) c) as [e' c'].
  destruct R as [R1 R2]. unfold server_ok, live, panicked in *. cbn [engine conns permits].
  rewrite !(count_if_insert _ _ i c c' Ei), Ea, Hc.
  destruct (alive c') eqn:Ea', (crashed c') eqn:Ec'; try discriminate; cbn [orb andb] in *;
    (split_and!; [lia|lia| |apply Forall_insert; [assumption|now rewrite Ea', Ec']]); rewrite R1.
  - rewrite G. f_equal. lia.
  - rewrite G. f_equal. lia.
  - replace (gauge (engine s) - 1) with (gauge (engine s) + -1) by lia. rewrite (wrap_shift _ _ (-1) G). f_equal. lia.
Qed.

Lemma server_notify_ok most before i j s : server_ok most before s -> server_ok most before (notify i j s).
Proof.
  intros (L & P & G & F). unfold notify. destruct (conns s !! i) as [c|] eqn:Ei; [|split_and!; assumption].
  destruct (deliver_alive j (engine s) c) as [A K]. pose proof (Forall_lookup_1 _ _ _ _ F Ei) as Hc. cbn in Hc.
  unfold server_ok, live, panicked in *. cbn [engine conns permits]. rewrite !(count_if_insert _ _ i c _ Ei), A, K.
  split_and!; [lia|lia|rewrite G; f_equal; lia|]. apply Forall_insert; [assumption|]. now rewrite A, K.
Qed.

(** C28: the number of connections is bounded.  Whatever clients and the console do,
    the connections being served and the free permits add up to [max_connections], so
    that no more than these are ever served at once; the gauge
    [active_connections] counts the connections being served plus those whose task
    panicked, which never give their count back. *)
Theorem connections_are_bounded e s t :
  server_start e = Ok s -> 0 <= max_connections (config e) -> gauge e = 0 -> server_steps s t ->
  live t + permits t = max_connections (config e) /\ 0 <= live t <= max_connections (config e)
  /\ gauge (engine t) = wrap_u64 (live t + panicked t).
Proof.
  intros Hs Hm Hg H. assert (K : server_ok (max_connections (config e)) 0 t).
  { induction H as [|t u H IH Ht].
    - unfold server_start in Hs. destruct (MAX_PERMITS <? _); [discriminate|]. injection Hs as <-.
      unfold server_ok, live, panicked, count_if. cbn. rewrite Hg. split_and!; [lia|lia|reflexivity|constructor].
    - destruct Ht as [t _|env input i t|i j t|fault now stmt ns t|t].
      + now apply server_accept_ok.
      + now apply server_serve_ok.
      + now apply server_notify_ok.
      + destruct IH as (L & P & G & F). unfold server_ok, live, panicked in *. cbn [engine conns permits].
        rewrite execute_gauge. now split_and!.
      + exact IH. }
  destruct K as (L & P & G & _). unfold live in *. unfold count_if in *. split_and!; [lia|lia|lia|].
  rewrite G. f_equal.
Qed.
End Limit.

(** ** A server with one permit *)

Definition one_client : Engine :=
  {| config := {| host := "127.0.0.1"; port := 7400; data_dir := "./data"; max_connections := 1;
                  max_frame_size := 16777216; sync_mode_name := "always"; auth_token := None; web_port := None |};
     collections := collections engine0; indexes := indexes engine0; wal := wal engine0;
     events := []; metrics := Metrics.new 0 |}%string.

Definition one_server : Server := {| engine := one_client; conns := []; permits := 1; accepting := true |}.

(** The second client is dropped, the connection ends, a third one is served. *)
Definition third_client : Server :=
  accept (serve {| env_fault := NoFault; env_now := sample_now; env_parse_now := 0; env_generated := "x"%string |}
            (inr "end of stream"%string) 0 (accept (accept one_server))).

Lemma connections_are_bounded_witness :
  live third_client + permits third_client = 1
  /\ Metrics.active_connections (metrics (engine third_client)) = wrap_u64 (live third_client + panicked third_client).
Proof.
  assert (S1 : server_steps one_server third_client).
  { repeat (eapply Server_more; [|first [apply Accept_step; reflexivity|apply Serve_step]]). apply Server_none. }
  destruct (connections_are_bounded one_client one_server third_client eq_refl ltac:(vm_compute; discriminate) eq_refl S1) as (L & _ & G).
  split; [exact L|exact G].
Defined.

Example third_client_is_served : List.map alive (conns third_client) = [false; true].
Proof. reflexivity. Qed.
