(* ===== verification/SortLaws.v ===== *)
(** The stable sort and the pagination of FIND. *)

From stdpp Require Import sorting.
From S2P Require Export Sessions.

(** ** [sort_by] on a comparison that is an order on the elements *)

Section SortLaws.
Context {A : Type} (P : A -> Prop) (cmp : A -> A -> comparison) {O : OrdOn P cmp}.

Definition cmp_le (x y : A) : Prop := cmp x y <> Gt.

Lemma sort_by_length l : List.length (sort_by cmp l) = List.length l.
Proof. apply Permutation_length, sort_by_perm. Qed.

Lemma sort_insert_sorted x l :
  P x -> Forall P l -> StronglySorted cmp_le l -> StronglySorted cmp_le (sort_insert cmp x l).
Proof.
  intros Px HP HS. induction HS as [|y l HS IH Hy]; cbn [sort_insert]; [repeat constructor|].
  apply Forall_cons in HP as [Py HP].
  assert (Hle : cmp x y <> Gt -> StronglySorted cmp_le (x :: y :: l)).
  { intros Hxy. constructor; [now constructor|]. constructor; [exact Hxy|].
    rewrite List.Forall_forall in *. intros z Hz. unfold cmp_le in *. apply (ord_trans (OrdOn:=O) x y z); auto. }
  destruct (cmp x y) eqn:E; [apply Hle; congruence|apply Hle; congruence|].
  constructor; [now apply IH|]. rewrite sort_insert_perm. constructor; [|exact Hy].
  unfold cmp_le. rewrite (ord_sym (OrdOn:=O) x y), E by assumption. discriminate.
Qed.

Lemma sort_by_sorted l : Forall P l -> StronglySorted cmp_le (sort_by cmp l).
Proof.
  induction 1 as [|x l Px HP IH]; cbn [sort_by]; [constructor|].
  apply sort_insert_sorted; [assumption| |assumption]. now rewrite sort_by_perm.
Qed.

(** Elements that compare equal keep their order. *)
Definition same_key (k x : A) : bool := match cmp k x with Eq => true | _ => false end.

Lemma sort_insert_stable k x l :
  P k -> P x -> Forall P l ->
  List.filter (same_key k) (sort_insert cmp x l) = List.filter (same_key k) (x :: l).
Proof.
  intros Pk Px HP. induction HP as [|y l Py HP IH]; cbn [sort_insert]; [reflexivity|].
  destruct (cmp x y) eqn:E; [reflexivity|reflexivity|].
  cbn [List.filter] in *. rewrite IH. unfold same_key.
  destruct (cmp k x) eqn:Ex; destruct (cmp k y) eqn:Ey; try reflexivity.
  rewrite <- (ord_eq_l (P := P) k x y), Ey in E by assumption. discriminate.
Qed.

Lemma sort_by_stable k l :
  P k -> Forall P l -> List.filter (same_key k) (sort_by cmp l) = List.filter (same_key k) l.
Proof.
  intros Pk. induction 1 as [|x l Px HP IH]; cbn [sort_by]; [reflexivity|].
  rewrite sort_insert_stable by (try assumption; now rewrite sort_by_perm).
  cbn [List.filter]. now rewrite IH.
Qed.
End SortLaws.

(** The order of a SORT BY clause, on documents whose sort value is ordinary. *)
Definition sort_key_ok (c : SortClause) (d : Document) : Prop := ord_key (sort_value (sort_field c) d).

#[export] Instance doc_order_ord c : OrdOn (sort_key_ok c) (doc_order c).
Proof.
  split; unfold sort_key_ok, doc_order.
  - intros x y _ _. rewrite (value_cmp_sym (sort_value _ x)). now destruct (sort_direction c).
  - intros x y z Px Py Pz. destruct (sort_direction c); [now apply (ord_trans (OrdOn:=ord_key_cmp))|].
    rewrite <- !value_cmp_sym. intros H1 H2. now apply (ord_trans (OrdOn:=ord_key_cmp) _ _ _ Pz Py Px).
Qed.

(** The documents of a page before it is cut: sorted, or as they come. *)
Definition arranged (sort : option SortClause) (l : list Document) : list Document :=
  match sort with Some c => sort_by (doc_order c) l | None => l end.

Lemma arranged_perm sort l : arranged sort l ≡ₚ l.
Proof. destruct sort; [apply sort_by_perm|reflexivity]. Qed.

(** ** [paginate] *)

(** What a page is: at most [limit] documents from position [offset] on. *)
Definition page {A} (limit offset : option Z) (l : list A) : list A :=
  let rest := skipn (Z.to_nat (default 0 offset)) l in
  match limit with Some n => firstn (Z.to_nat n) rest | None => rest end.

Definition opt_usize (o : option Z) : Prop := match o with Some z => 0 <= z <= u64_max | None => True end.

(** Two numbers the NQL parser accepts after LIMIT and OFFSET add up without overflow. *)
Lemma nql_page limit offset :
  nql_usize limit -> nql_usize offset ->
  opt_usize limit /\ opt_usize offset /\ default 0 offset + default 0 limit <= u64_max.
Proof.
  unfold nql_usize, opt_usize, i64_max, u64_max. destruct limit, offset; cbn; lia.
Qed.

Section Paginate.
Context {B : Build}.

Lemma paginate_ok limit offset l :
  opt_usize limit -> opt_usize offset -> default 0 offset + default 0 limit <= u64_max ->
  paginate limit offset l = Ok (page limit offset l).
Proof.
  intros Hl Ho Hs. unfold paginate, page. set (off := default 0 offset) in *.
  assert (0 <= off) by (destruct offset; cbn in *; lia).
  assert (Hlen : (Z.to_nat off >= List.length l)%nat -> skipn (Z.to_nat off) l = []).
  { intros. apply skipn_all2. lia. }
  destruct (Z.of_nat (List.length l) <=? off) eqn:E.
  - rewrite Hlen by (bool_facts; lia). destruct limit; [now rewrite firstn_nil|reflexivity].
  - apply Z.leb_gt in E. destruct limit as [n|]; cbn [bindO].
    + cbn in Hl, Hs. unfold checked_u64. replace (in_u64 (off + n)) with true by (symmetry; unfold in_u64; lia). cbn [bindO].
      case_if; [bool_facts; lia|]. f_equal.
      destruct (Z.min_spec (off + n) (Z.of_nat (List.length l))) as [[Hm ->]|[Hm ->]]; [f_equal; lia|].
      rewrite !firstn_all2; [reflexivity|rewrite length_skipn; lia..].
    + case_if; [bool_facts; lia|]. rewrite firstn_all2; [reflexivity|rewrite length_skipn; lia].
Qed.

Lemma length_page {A} (limit offset : option Z) (l : list A) :
  opt_usize limit -> opt_usize offset ->
  Z.of_nat (List.length (page limit offset l))
  = let left := Z.max 0 (Z.of_nat (List.length l) - default 0 offset) in
    match limit with Some n => Z.min n left | None => left end.
Proof.
  intros Hl Ho. unfold page. cbn zeta. assert (0 <= default 0 offset) by (destruct offset; cbn in *; lia).
  destruct limit; cbn in Hl; rewrite ?length_firstn, length_skipn; lia.
Qed.
End Paginate.
