(* ===== verification/FindLaws.v ===== *)
(** FIND: the plan does not change the answer, sorting, pagination. *)


From S2P Require Export Covers SortLaws.

Section Find.
Context {B : Build} {AN : ArithNan} {HO : HashOrder} {HL : HashOrderLaws HO}.

(** ** The filter over a list of candidates *)

Definition selected (filter : option Expr) (s : DocumentStore) (i : DocumentId) : option Document :=
  match s !! i with
  | Some d => if matching filter d then Some d else None
  | None => None
  end.

Lemma filter_ids_ok filter s ids docs :
  filter_ids filter s ids = Ok docs -> docs = omap (selected filter s) ids.
Proof.
  revert docs. induction ids as [|i ids IH]; intros docs H; cbn [filter_ids] in H; [now injection H as <-|].
  change (omap (selected filter s) (i :: ids))
    with (match selected filter s i with Some d => d :: omap (selected filter s) ids | None => omap (selected filter s) ids end).
  unfold selected at 1, matching. destruct (s !! i) as [d|]; [|auto].
  destruct (matches_filter filter d) as [b| |]; [|discriminate H..]. cbn [bindO] in H. inv_ok H.
  rewrite <- (IH _ Hr). destruct b; now injection H as <-.
Qed.

(** The filter gives an answer on every document of the store. *)
Definition filter_total (filter : option Expr) (s : DocumentStore) : Prop :=
  forall i d, s !! i = Some d -> exists b, matches_filter filter d = Ok b.

Lemma filter_ids_total filter s ids :
  filter_total filter s -> filter_ids filter s ids = Ok (omap (selected filter s) ids).
Proof.
  intros HT. induction ids as [|i ids IH]; [reflexivity|]. cbn [filter_ids].
  change (omap (selected filter s) (i :: ids))
    with (match selected filter s i with Some d => d :: omap (selected filter s) ids | None => omap (selected filter s) ids end).
  unfold selected at 1, matching. destruct (s !! i) as [d|] eqn:G; [|exact IH].
  destruct (HT i d G) as [b ->]. cbn [bindO]. rewrite IH. now destruct b.
Qed.

(** Candidates that contain every match give the matches of the full scan. *)
Lemma selected_perm filter s ids :
  NoDup ids -> (forall i d, s !! i = Some d -> matching filter d = true -> i ∈ ids) ->
  omap (selected filter s) ids ≡ₚ omap (selected filter s) (store_keys s).
Proof.
  intros HN Hc.
  assert (E : forall l, omap (selected filter s) l
    = omap (selected filter s) (List.filter (fun i => match selected filter s i with Some _ => true | None => false end) l)).
  { induction l as [|i l IH]; [reflexivity|]. cbn [List.filter].
    change (omap (selected filter s) (i :: l))
      with (match selected filter s i with Some d => d :: omap (selected filter s) l | None => omap (selected filter s) l end).
    destruct (selected filter s i) as [d|] eqn:G; [|exact IH].
    change (omap (selected filter s) (i :: ?l'))
      with (match selected filter s i with Some d => d :: omap (selected filter s) l' | None => omap (selected filter s) l' end).
    rewrite G. now f_equal. }
  rewrite (E ids), (E (store_keys s)). apply omap_Permutation, NoDup_Permutation.
  - apply NoDup_ListNoDup, List.NoDup_filter, NoDup_ListNoDup, HN.
  - apply NoDup_ListNoDup, List.NoDup_filter, NoDup_ListNoDup, NoDup_store_ids.
  - intros i. rewrite !list_elem_of_In, !filter_In, <- !list_elem_of_In. split.
    + intros [_ H]. split; [|exact H]. apply elem_of_store_keys. unfold selected in H.
      destruct (s !! i); [eauto|discriminate].
    + intros [_ H]. split; [|exact H]. unfold selected in H. destruct (s !! i) as [d|] eqn:G; [|discriminate].
      destruct (matching filter d) eqn:M; [|discriminate]. now apply (Hc i d).
Qed.

(** ** The planner *)

(** The fields a filter may compare: an index does not know the identifier. *)
Definition plain_field (f : string) : bool := negb (String.eqb f "id" || String.eqb f "_id").

Lemma eval_field f d :
  plain_field f = true -> eval (EField f) d = Ok (default VNull (Doc.lookup d f)).
Proof.
  unfold plain_field. intros H. apply negb_true_iff in H. cbn [eval]. rewrite H.
  now destruct (Doc.lookup d f).
Qed.

(** The filters for which the planner may take an index, with the field and the
    test they perform on its value. *)
Inductive index_filter : Expr -> string -> (Value -> bool) -> Prop :=
| IF_eq f lit : index_filter (EBinary Eq_ (EField f) (ELiteral lit)) f (fun v => value_eqb v lit)
| IF_eq' f lit : index_filter (EBinary Eq_ (ELiteral lit) (EField f)) f (fun v => value_eqb lit v)
| IF_cmp op f lit : In op [Gt_; GtEq; Lt_; LtEq] ->
    index_filter (EBinary op (EField f) (ELiteral lit)) f (Range.contains (op_range op lit))
| IF_between f lo hi :
    index_filter (EBetween (EField f) (ELiteral lo) (ELiteral hi)) f
      (Range.contains (Range.between_inclusive lo hi)).

Lemma value_cmp_op v w : value_cmp w v = CompOpp (value_cmp v w).
Proof. apply value_cmp_sym. Qed.

Lemma index_filter_eval e f test d :
  index_filter e f test -> plain_field f = true ->
  matches_filter (Some e) d = Ok (test (default VNull (Doc.lookup d f))).
Proof.
  intros H Hf. pose proof (eval_field f d Hf) as E. set (v := default VNull (Doc.lookup d f)) in *.
  destruct H as [g lit|g lit|op g lit Hop|g lo hi]; unfold matches_filter; cbn [eval].
  - cbn [eval] in E. rewrite E. reflexivity.
  - cbn [eval] in E. cbn [bindO]. rewrite E. reflexivity.
  - cbn [eval] in E. unfold Range.contains.
    destruct Hop as [<-|[<-|[<-|[<-|[]]]]]; rewrite E; cbn [bindO eval_op op_range is_truthy Range.above Range.below
      Range.from_inclusive Range.to_inclusive range_start range_end];
      rewrite ?andb_true_r, ?andb_true_l, ?(value_cmp_op v lit); f_equal; now destruct (value_cmp v lit).
  - cbn [eval] in E. unfold Range.contains. rewrite E.
    cbn [bindO is_truthy Range.between_inclusive range_start range_end Range.above Range.below].
    rewrite (value_cmp_op v lo). f_equal. now destruct (value_cmp v lo), (value_cmp v hi).
Qed.

(** The plans for them. *)
Definition uses_index (p : QueryPlan) : bool :=
  match p with SeqScan _ _ _ _ => false | _ => true end.

Lemma plan_lookup e sort limit offset mgr n key fl so li off :
  plan (Some e) sort limit offset mgr = IndexLookup n key fl so li off ->
  exists f idx test, index_filter e f test /\ IndexManager.find_index_for_field f mgr = Some idx
    /\ n = index_name idx /\ (forall v, ord_key v -> ord_key key -> test v = true <-> value_cmp key v = Eq).
Proof.
  intros H. unfold plan in H.
  assert (Hx : plan_exact e sort limit offset mgr = Some (IndexLookup n key fl so li off)).
  { destruct (plan_exact e sort limit offset mgr) as [p|] eqn:E1; [now subst|].
    destruct (plan_range e sort limit offset mgr) as [p|] eqn:E2.
    - subst p. exfalso. unfold plan_range in E2. repeat case_match; discriminate.
    - destruct (plan_between e sort limit offset mgr) as [p|] eqn:E3; [|discriminate].
      subst p. exfalso. unfold plan_between in E3. repeat case_match; discriminate. }
  clear H. unfold plan_exact in Hx.
  destruct e as [|f|op l r| | |]; try discriminate. destruct op; try discriminate.
  destruct l as [lit|f| | | |]; try discriminate; destruct r as [lit'|f'| | | |]; try discriminate.
  - destruct (IndexManager.find_index_for_field f' mgr) as [idx|] eqn:F; [|discriminate].
    injection Hx as <- <- _ _ _ _. exists f', idx, (fun v => value_eqb lit v).
    split; [constructor|]. split; [exact F|]. split; [reflexivity|]. intros v Hv Hk. now apply value_eqb_iff.
  - destruct (IndexManager.find_index_for_field f mgr) as [idx|] eqn:F; [|discriminate].
    injection Hx as <- <- _ _ _ _. exists f, idx, (fun v => value_eqb v lit').
    split; [constructor|]. split; [exact F|]. split; [reflexivity|]. intros v Hv Hk.
    rewrite (value_eqb_iff v lit') by assumption. split; apply (ord_eq_sym (P := ord_key)); assumption.
Qed.

Lemma plan_scan e sort limit offset mgr n range fl so li off :
  plan (Some e) sort limit offset mgr = IndexRangeScan n range fl so li off ->
  exists f idx, index_filter e f (Range.contains range) /\ IndexManager.find_index_for_field f mgr = Some idx
    /\ n = index_name idx /\ index_type idx = Ordered.
Proof.
  intros H. unfold plan in H.
  destruct (plan_exact e sort limit offset mgr) as [p|] eqn:E1.
  { subst p. exfalso. unfold plan_exact in E1. repeat case_match; discriminate. }
  destruct (plan_range e sort limit offset mgr) as [p|] eqn:E2.
  - subst p. unfold plan_range in E2. destruct e as [|f|op l r| | |]; try discriminate.
    destruct l as [|f| | | |]; try discriminate. destruct r as [lit| | | | |]; try discriminate.
    destruct (IndexManager.find_index_for_field f mgr) as [idx|] eqn:F; [|discriminate].
    destruct (decide (index_type idx = Ordered)) as [Ht|]; [|discriminate].
    destruct (range_eqb (op_range op lit) Range.all) eqn:Er; cbn [negb] in E2; [discriminate|].
    injection E2 as <- <- _ _ _ _. exists f, idx. split; [|auto]. constructor.
    destruct op; cbn in Er; try discriminate Er; cbn; auto.
  - destruct (plan_between e sort limit offset mgr) as [p|] eqn:E3; [|discriminate]. subst p.
    unfold plan_between in E3. destruct e as [| | | | |ex lo hi]; try discriminate.
    destruct ex as [|f| | | |]; try discriminate. destruct lo as [lo| | | | |]; try discriminate.
    destruct hi as [hi| | | | |]; try discriminate.
    destruct (IndexManager.find_index_for_field f mgr) as [idx|] eqn:F; [|discriminate].
    destruct (decide (index_type idx = Ordered)) as [Ht|]; [|discriminate].
    injection E3 as <- <- _ _ _ _. exists f, idx. split; [constructor|auto].
Qed.

(** ** The answer does not depend on the plan *)

(** The literals of a plan are ordinary and its range is one a B-tree accepts. *)
Definition plan_ordinary (p : QueryPlan) : Prop :=
  match p with
  | IndexLookup _ key _ _ _ _ => ord_key key
  | IndexRangeScan _ range _ _ _ _ => range_ok range /\ Range.invalid range = false
  | SeqScan _ _ _ _ => True
  end.

(** The filter does not select documents that lack the field it compares. *)
Definition needs_field (e : Expr) (s : DocumentStore) : Prop :=
  forall f test, index_filter e f test -> plain_field f = true /\
    forall i d, s !! i = Some d -> Doc.lookup d f = None -> test VNull = false.

(** The candidates contain every match that is not still to be indexed. *)
Lemma candidates_cover e sort limit offset mgr s late :
  manager_covers s late mgr -> plan_ordinary (plan (Some e) sort limit offset mgr) -> needs_field e s ->
  exists ids, candidates (plan (Some e) sort limit offset mgr) mgr s = Ok ids
    /\ forall i d, s !! i = Some d -> matching (Some e) d = true -> i ∈ ids \/ exists x, x ∈ late /\ id x = i.
Proof.
  intros [Nm Rp] Hp Hn.
  assert (V : forall f test i d, index_filter e f test -> s !! i = Some d -> matching (Some e) d = true ->
    exists v, slots_of s f i = Some v /\ test v = true).
  { intros f test i d HF Hd Hm. destruct (Hn f test HF) as [Hpf Hnull]. unfold matching in Hm.
    rewrite (index_filter_eval e f test d HF Hpf) in Hm.
    destruct (Doc.lookup d f) as [v|] eqn:L; cbn in Hm; [|now rewrite (Hnull i d Hd L) in Hm].
    exists v. split; [|exact Hm]. unfold slots_of. now rewrite Hd. }
  destruct (plan (Some e) sort limit offset mgr) as [n key fl so li off|n range fl so li off|] eqn:P.
  - destruct (plan_lookup _ _ _ _ _ _ _ _ _ _ _ P) as (f & idx & test & HF & F & -> & Ht).
    apply find_index_Some in F as (<- & n & G). destruct (Rp _ _ G) as [W R]. cbn [candidates]. unfold IndexManager.get.
    rewrite (Nm _ _ G), G. exists (index_lookup key idx). split; [reflexivity|]. intros i d Hd Hm.
    destruct (V _ _ i d HF Hd Hm) as (v & Hs & Hv). destruct (R i v Hs) as [Ov [H|(x & u & Hx & Hi & _)]]; [left|right; eauto].
    apply H; [exact Hp|now apply Ht].
  - destruct (plan_scan _ _ _ _ _ _ _ _ _ _ _ P) as (f & idx & HF & F & -> & Hty).
    apply find_index_Some in F as (<- & n & G). destruct (Rp _ _ G) as [W R]. destruct Hp as [Hr Hv]. cbn [candidates].
    unfold IndexManager.get. rewrite (Nm _ _ G), G. destruct (index_scan_ok idx range W Hty Hr Hv) as (ids & Es & Hids & _). rewrite Es.
    exists ids. split; [reflexivity|]. intros i d Hd Hm.
    destruct (V _ _ i d HF Hd Hm) as (v & Hs & Hc). destruct (R i v Hs) as [Ov [H|(x & u & Hx & Hi & _)]]; [left|right; eauto].
    apply Hids. exists v. split; [exact Ov|]. split; [exact Hc|]. apply H; [exact Ov|]. now apply (ord_refl (P := ord_key)).
  - exists (store_keys s). split; [reflexivity|]. intros i d Hd _. left. apply elem_of_store_keys. eauto.
Qed.

(** No candidate comes twice when the indexes hold what the documents say. *)
Lemma candidates_nodup e sort limit offset mgr s ids :
  manager_ok s mgr -> plan_ordinary (plan (Some e) sort limit offset mgr) ->
  candidates (plan (Some e) sort limit offset mgr) mgr s = Ok ids -> NoDup ids.
Proof.
  intros [Nm Rp] Hp. destruct (plan (Some e) sort limit offset mgr) as [n key fl so li off|n range fl so li off|] eqn:P.
  - destruct (plan_lookup _ _ _ _ _ _ _ _ _ _ _ P) as (f & idx & test & _ & F & -> & _).
    apply find_index_Some in F as (_ & n & G). destruct (Rp _ _ G) as (W & _ & _). cbn [candidates]. unfold IndexManager.get.
    rewrite (Nm _ _ G), G. intros [= <-]. exact (index_lookup_nodup idx key W Hp).
  - destruct (plan_scan _ _ _ _ _ _ _ _ _ _ _ P) as (f & idx & _ & F & -> & Hty).
    apply find_index_Some in F as (_ & n & G). destruct (Rp _ _ G) as (W & O & R). destruct Hp as [Hr Hv]. cbn [candidates].
    unfold IndexManager.get. rewrite (Nm _ _ G), G. destruct (index_scan_ok idx range W Hty Hr Hv) as (ids' & -> & _ & Hnd).
    intros [= <-]. apply Hnd. intros k k' i Hk Hk' H1 H2. apply R in H1 as (v & S1 & E1); [|assumption].
    apply R in H2 as (v' & S2 & E2); [|assumption]. rewrite S1 in S2. injection S2 as <-.
    pose proof (O _ _ S1) as Ov. rewrite (ord_eq_l (P := ord_key) k v k') by assumption. now apply (ord_eq_sym (P := ord_key)).
  - intros [= <-]. apply NoDup_store_ids.
Qed.

Lemma candidates_complete e sort limit offset mgr s :
  manager_ok s mgr -> plan_ordinary (plan (Some e) sort limit offset mgr) -> needs_field e s ->
  exists ids, candidates (plan (Some e) sort limit offset mgr) mgr s = Ok ids /\ NoDup ids
    /\ forall i d, s !! i = Some d -> matching (Some e) d = true -> i ∈ ids.
Proof.
  intros Mk Hp Hn. destruct (candidates_cover e sort limit offset mgr s [] (manager_ok_covers s [] mgr Mk) Hp Hn) as (ids & E & Hc).
  exists ids. split; [exact E|]. split; [now apply (candidates_nodup e sort limit offset mgr s)|]. intros i d Hd Hm.
  destruct (Hc i d Hd Hm) as [H|(x & Hx & _)]; [exact H|now apply not_elem_of_nil in Hx].
Qed.

(** ** The whole statement *)

(** The documents a filter selects. *)
Definition matches_of (filter : option Expr) (s : DocumentStore) : list Document :=
  List.filter (matching filter) (store_values s).

Lemma matches_of_selected filter s :
  store_ok s -> omap (selected filter s) (store_keys s) = matches_of filter s.
Proof.
  intros Sk. unfold store_keys, matches_of, store_values.
  assert (H : forall i d, In (i, d) (hash_order (map_to_list s)) -> s !! i = Some d).
  { intros i d Hin. rewrite <- list_elem_of_In, elem_of_hash_order in Hin. now apply elem_of_map_to_list. }
  induction (hash_order (map_to_list s)) as [|[i d] l IH]; [reflexivity|].
  cbn [List.map List.filter fst snd].
  change (omap (selected filter s) (i :: ?l'))
    with (match selected filter s i with Some x => x :: omap (selected filter s) l' | None => omap (selected filter s) l' end).
  rewrite IH by (intros; apply H; now right). unfold selected at 1. rewrite (H i d) by (now left).
  now destruct (matching filter d).
Qed.

(** The plan of a filter suits the store. *)
Definition plan_fits (filter : option Expr) (sort : option SortClause) (limit offset : option Z)
    (mgr : IndexManager.t) (s : DocumentStore) : Prop :=
  match filter with
  | Some ex => plan_ordinary (plan filter sort limit offset mgr) /\ needs_field ex s
  | None => True
  end.

Lemma find_ids_perm filter sort limit offset mgr s :
  store_ok s -> manager_ok s mgr -> plan_fits filter sort limit offset mgr s -> filter_total filter s ->
  exists ids docs, candidates (plan filter sort limit offset mgr) mgr s = Ok ids
    /\ filter_ids filter s ids = Ok docs /\ docs ≡ₚ matches_of filter s.
Proof.
  intros Sk Mk Hp HT. assert (H : exists ids, candidates (plan filter sort limit offset mgr) mgr s = Ok ids /\ NoDup ids
    /\ forall i d, s !! i = Some d -> matching filter d = true -> i ∈ ids).
  { destruct filter as [ex|].
    - destruct Hp as [Hp Hn]. now apply candidates_complete.
    - exists (store_keys s). split; [reflexivity|]. split; [apply NoDup_store_ids|].
      intros i d Hd _. apply elem_of_store_keys. eauto. }
  destruct H as (ids & E & HN & Hc). exists ids, (omap (selected filter s) ids). split; [exact E|].
  split; [now apply filter_ids_total|]. rewrite <- matches_of_selected by assumption. now apply selected_perm.
Qed.

(** The documents FIND answers with, when indexes lack the entries of [late]. *)
Lemma find_ids_cover filter sort limit offset mgr s late :
  store_ok s -> manager_covers s late mgr -> plan_fits filter sort limit offset mgr s -> filter_total filter s ->
  exists ids docs, candidates (plan filter sort limit offset mgr) mgr s = Ok ids
    /\ filter_ids filter s ids = Ok docs
    /\ (forall d, d ∈ docs -> s !! id d = Some d /\ matching filter d = true)
    /\ (forall i d, s !! i = Some d -> matching filter d = true -> d ∈ docs \/ exists x, x ∈ late /\ id x = i).
Proof.
  intros Sk M Hp HT. assert (H : exists ids, candidates (plan filter sort limit offset mgr) mgr s = Ok ids
    /\ forall i d, s !! i = Some d -> matching filter d = true -> i ∈ ids \/ exists x, x ∈ late /\ id x = i).
  { destruct filter as [ex|].
    - destruct Hp as [Hp Hn]. now apply candidates_cover.
    - exists (store_keys s). split; [reflexivity|]. intros i d Hd _. left. apply elem_of_store_keys. eauto. }
  destruct H as (ids & E & Hc). exists ids, (omap (selected filter s) ids). split; [exact E|].
  split; [now apply filter_ids_total|]. split.
  - intros d (i & _ & Hs)%list_elem_of_omap. unfold selected in Hs. destruct (s !! i) as [x|] eqn:G; [|discriminate].
    destruct (matching filter x) eqn:Em; [|discriminate]. injection Hs as <-. split; [|exact Em]. destruct (Sk i x G) as [-> _]. exact G.
  - intros i d Hd Hm. destruct (Hc i d Hd Hm) as [H|H]; [left|now right]. apply list_elem_of_omap. exists i. split; [exact H|].
    unfold selected. now rewrite Hd, Hm.
Qed.

(** From the candidates to the answer. *)
Lemma execute_find_from ids docs ns coll filter sort limit offset e :
  let s := store_at (ns, coll) e in let mgr := manager_at (ns, coll) e in
  candidates (plan filter sort limit offset mgr) mgr s = Ok ids -> filter_ids filter s ids = Ok docs ->
  opt_usize limit -> opt_usize offset -> default 0 offset + default 0 limit <= u64_max ->
  let pg := page limit offset (arranged sort docs) in
  execute_find ns coll filter sort limit offset e = Ok (PRecords pg (Z.of_nat (List.length pg))).
Proof.
  intros s mgr E1 E2 Hl Ho Hs pg. unfold execute_find. fold mgr.
  subst s. unfold store_at in *. destruct (collections e !! (ns, coll)) as [s|]; cbn [from_option Datatypes.id] in *.
  - rewrite E1. cbn [bindO]. rewrite E2. cbn [bindO].
    change (match sort with Some c => sort_by (doc_order c) docs | None => docs end) with (arranged sort docs).
    rewrite paginate_ok by assumption. reflexivity.
  - assert (docs = []) as ->.
    { apply filter_ids_ok in E2. rewrite E2. clear. induction ids as [|i ids IH]; [reflexivity|].
      change (match selected filter ∅ i with Some d => d :: omap (selected filter ∅) ids | None => omap (selected filter ∅) ids end = []).
      unfold selected at 1. rewrite lookup_empty. exact IH. }
    assert (Ep : pg = []).
    { subst pg. unfold page, arranged. destruct sort; cbn [sort_by]; rewrite skipn_nil; destruct limit; rewrite ?firstn_nil; reflexivity. }
    now rewrite Ep.
Qed.

(** SORT, LIMIT and OFFSET have no say in which candidates are looked at. *)
Lemma plan_candidates filter sort limit offset mgr s :
  candidates (plan filter sort limit offset mgr) mgr s = candidates (plan filter None None None mgr) mgr s.
Proof.
  destruct filter as [ex|]; [|reflexivity]. unfold plan, plan_exact, plan_range, plan_between.
  repeat case_match; simplify_eq; try reflexivity; congruence.
Qed.

Lemma execute_find_ok ns coll filter sort limit offset e :
  indexed_ok e -> let s := store_at (ns, coll) e in
  plan_fits filter sort limit offset (manager_at (ns, coll) e) s -> filter_total filter s ->
  opt_usize limit -> opt_usize offset -> default 0 offset + default 0 limit <= u64_max ->
  exists docs, docs ≡ₚ matches_of filter s
    /\ let pg := page limit offset (arranged sort docs) in
       execute_find ns coll filter sort limit offset e = Ok (PRecords pg (Z.of_nat (List.length pg))).
Proof.
  intros I s Hp HT Hl Ho Hs. destruct (I (ns, coll)) as [Sk Mk].
  destruct (find_ids_perm filter sort limit offset _ s Sk Mk Hp HT) as (ids & docs & E1 & E2 & P).
  exists docs. split; [exact P|]. now apply (execute_find_from ids docs).
Qed.
End Find.
