(* ===== verification/StatementLaws.v ===== *)
(** Statements one by one: errors of INSERT, what COUNT and EXISTS answer, the
    collections a statement may touch, the page a request asks for. *)

From S2P Require Export FindLaws.

Section Statements.
Context {B : Build} {AN : ArithNan} {HO : HashOrder} {C : CrcLib} {U : UuidLib} {J : JsonLib}.

(** ** INSERT *)

Lemma insert_check_taken key d d0 e :
  store_at key e !! id d = Some d0 ->
  insert_check key d e = Err (Errors.new DocumentAlreadyExists
    ("Document '" ++ id d ++ "' already exists in '" ++ key.2 ++ "'")%string).
Proof.
  unfold store_at, insert_check. destruct (collections e !! key) as [s|]; cbn [from_option Datatypes.id].
  - now intros ->.
  - rewrite lookup_empty. discriminate.
Qed.

Lemma encode_error_code r er : NbfRecord.encode r = Err er -> code er = StorageError.
Proof. unfold NbfRecord.encode. repeat case_if; now intros [= <-]. Qed.

Lemma append_error_code now ty ns coll i pl tx w w' er :
  WriteAheadLog.append NoFault now ty ns coll i pl tx w = (w', Err er) -> code er = StorageError.
Proof.
  unfold WriteAheadLog.append, WriteAheadLog.next_sequence.
  destruct (NbfRecord.encode _) as [enc|er0|] eqn:E; intros H; apply pair_eq in H as [_ H]; try discriminate H.
  injection H as <-. eapply encode_error_code, E.
Qed.

Lemma insert_error_code now ns coll d e e' er :
  store_at (ns, coll) e !! id d = None ->
  execute_insert NoFault now ns coll d e = (e', Err er) -> code er = StorageError.
Proof.
  intros G H. unfold execute_insert in H.
  assert (Ec : insert_check (ns, coll) d e = Ok tt).
  { unfold insert_check, store_at in *. destruct (collections e !! (ns, coll)) as [s|]; [|reflexivity].
    cbn [from_option Datatypes.id] in G. now rewrite G. }
  rewrite Ec in H. unfold insert_log, NbfRecord.payload_from_document in H.
  destruct (WriteAheadLog.append _ _ _ _ _ _ _ _ _) as [w [seq|er0|]] eqn:Ea.
  - destruct (insert_index _ _ _) as [e2 [u|er1|]]; apply pair_eq in H as [_ H]; discriminate H.
  - apply pair_eq in H as [_ H]. injection H as <-. eapply append_error_code, Ea.
  - apply pair_eq in H as [_ H]. discriminate H.
Qed.

Lemma insert_log_store fault now key d e e' r :
  insert_log fault now key d e = (e', r) -> forall k, store_at k e' = store_at k e.
Proof.
  unfold insert_log. intros H k. destruct (NbfRecord.payload_from_document d); [|now apply pair_eq in H as [<- _]..].
  destruct (WriteAheadLog.append _ _ _ _ _ _ _ _ _) as [w r']. now apply pair_eq in H as [<- _].
Qed.

Lemma plan_no_index {HL : HashOrderLaws HO} ex sort limit offset :
  plan (Some ex) sort limit offset ∅ = SeqScan (Some ex) sort limit offset.
Proof.
  assert (N : forall f, IndexManager.find_index_for_field f ∅ = None).
  { intros f. destruct (IndexManager.find_index_for_field f ∅) as [idx|] eqn:F; [|reflexivity].
    apply find_index_Some in F as (_ & n & G). now rewrite lookup_empty in G. }
  assert (E1 : plan_exact ex sort limit offset ∅ = None)
    by (unfold plan_exact; repeat case_match; try reflexivity; rewrite N in *; discriminate).
  assert (E2 : plan_range ex sort limit offset ∅ = None)
    by (unfold plan_range; repeat case_match; try reflexivity; rewrite N in *; discriminate).
  assert (E3 : plan_between ex sort limit offset ∅ = None)
    by (unfold plan_between; repeat case_match; try reflexivity; rewrite N in *; discriminate).
  unfold plan. now rewrite E1, E2, E3.
Qed.

(** ** COUNT and EXISTS *)

Definition all_answer (filter : option Expr) (docs : list Document) : Prop :=
  Forall (fun d => matches_filter filter d = Ok (matching filter d)) docs.

Lemma count_docs_ok filter docs :
  all_answer filter docs -> count_docs filter docs = Ok (Z.of_nat (List.length (List.filter (matching filter) docs))).
Proof.
  induction 1 as [|d docs Hd _ IH]; cbn [count_docs List.filter]; [reflexivity|].
  rewrite Hd. cbn [bindO]. rewrite IH. cbn [bindO]. destruct (matching filter d); cbn [List.length]; f_equal; lia.
Qed.

Lemma exists_doc_ok filter docs :
  all_answer filter docs -> exists_doc filter docs = Ok (List.existsb (matching filter) docs).
Proof.
  induction 1 as [|d docs Hd _ IH]; cbn [exists_doc List.existsb]; [reflexivity|].
  rewrite Hd. cbn [bindO]. destruct (matching filter d); [reflexivity|exact IH].
Qed.

Lemma filter_total_all {HL : HashOrderLaws HO} filter s :
  filter_total filter s -> all_answer filter (store_values s).
Proof.
  intros HT. apply List.Forall_forall. intros d Hd. apply list_elem_of_In, elem_of_store_values in Hd as [i G].
  destruct (HT i d G) as [b Hb]. unfold matching. now rewrite Hb.
Qed.

Lemma store_values_empty {HL : HashOrderLaws HO} : store_values ∅ = [].
Proof.
  unfold store_values. assert (N : hash_order (map_to_list (∅ : DocumentStore)) ≡ₚ []) by (rewrite (hash_order_perm _ _); now rewrite map_to_list_empty).
  symmetry in N. apply Permutation_nil in N. now rewrite N.
Qed.

(** The two ways of counting matches. *)
Lemma matches_in_of {HL : HashOrderLaws HO} filter s :
  store_ok s -> matches_in filter s (store_keys s) = List.length (matches_of filter s).
Proof.
  intros Sk. rewrite <- matches_of_selected by assumption. unfold matches_in.
  induction (store_keys s) as [|i l IH]; [reflexivity|]. cbn [List.filter].
  change (omap (selected filter s) (i :: l))
    with (match selected filter s i with Some d => d :: omap (selected filter s) l | None => omap (selected filter s) l end).
  unfold selected at 1. destruct (s !! i) as [d|]; [|exact IH]. destruct (matching filter d); cbn [List.length]; now rewrite IH.
Qed.

(** ** The collection a statement works on is the only one it touches *)

(** Same store, same indexes, for every other collection. *)
Definition frame (key : CollectionKey) (e e' : Engine) : Prop :=
  forall k, k <> key -> store_at k e' = store_at k e /\ manager_at k e' = manager_at k e.

#[export] Instance frame_preorder key : PreOrder (frame key).
Proof.
  split; [now split|]. intros x y z H1 H2 k Hk. destruct (H1 k Hk), (H2 k Hk). split; congruence.
Qed.

Lemma frame_put_store key s e : frame key e (put_store key s e).
Proof. intros k Hk. rewrite store_at_put, decide_False by assumption. now split. Qed.

Lemma frame_put_manager key m e : frame key e (put_manager key m e).
Proof. intros k Hk. rewrite manager_at_put, decide_False by assumption. now split. Qed.

Lemma frame_set_wal key w e : frame key e (set_wal w e).
Proof. now split. Qed.

Lemma frame_put_both key s w m e : frame key e (put_manager key m (set_wal w (put_store key s e))).
Proof. etransitivity; [apply frame_put_store|]. etransitivity; [apply frame_set_wal|apply frame_put_manager]. Qed.

Lemma frame_emit_all key mk now t us e : frame key e (emit_all mk now t us e).
Proof. intros k _. destruct (emit_all_same mk now t us e) as (A & D & _). now split. Qed.

Lemma frame_update_loop fault now t key asg filter ids acc e :
  frame key e (update_loop fault now t key asg filter ids acc e).1.
Proof.
  revert t acc e. induction ids as [|i ids IH]; intros t acc e; cbn [update_loop]; [reflexivity|].
  destruct (store_at key e !! i) as [before|]; [|apply IH].
  destruct (matches_filter filter before) as [[|]|er|]; [|apply IH|reflexivity..].
  destruct (apply_assignments (now t) before asg) as [after [u|er|]]; [|apply frame_put_store..].
  destruct (NbfRecord.payload_from_document after) as [pl|er|]; [|apply frame_put_store..].
  destruct (WriteAheadLog.append _ _ _ _ _ _ _ _ _) as [w [seq|er|]]; [|apply frame_put_store..].
  destruct (IndexManager.on_update _ _ _) as [m r].
  pose proof (frame_put_both key (<[i := after]> (store_at key e)) w m e) as F.
  destruct r as [u'|er|]; [etransitivity; [exact F|apply IH]..|exact F].
Qed.

Lemma frame_remove_loop fault now t key ids acc e :
  frame key e (remove_loop fault now t key ids acc e).1.
Proof.
  revert t acc e. induction ids as [|i ids IH]; intros t acc e; cbn [remove_loop]; [reflexivity|].
  destruct (store_at key e !! i) as [d|]; [|apply IH].
  destruct (WriteAheadLog.append _ _ _ _ _ _ _ _ _) as [w [seq|er|]]; [|apply frame_put_store..].
  destruct (IndexManager.on_remove _ _) as [m r].
  pose proof (frame_put_both key (delete i (store_at key e)) w m e) as F.
  destruct r as [u'|er|]; [etransitivity; [exact F|apply IH]..|exact F].
Qed.

Lemma frame_insert fault now ns coll d e : frame (ns, coll) e (execute_insert fault now ns coll d e).1.
Proof.
  unfold execute_insert. destruct (insert_check _ _ _); [|reflexivity..].
  unfold insert_log. destruct (NbfRecord.payload_from_document _) as [pl|er|]; [|reflexivity..].
  destruct (WriteAheadLog.append _ _ _ _ _ _ _ _ _) as [w [seq|er|]]; [|apply frame_set_wal..].
  unfold insert_index. destruct (IndexManager.on_insert _ _) as [m r].
  assert (F : frame (ns, coll) e (put_manager (ns, coll) m (insert_store (ns, coll) d (set_wal w e)))).
  { exact (frame_put_both (ns, coll) (<[id d := d]> (store_at (ns, coll) e)) w m e). }
  destruct r as [u|er|]; exact F.
Qed.

(** The collection a statement names. *)
Definition target (stmt : Statement) : string :=
  match stmt with
  | SFind c _ _ _ _ | SInsert c _ | SUpdate c _ _ | SRemove c _ | SCount c _ | SExists c _
  | SCreateIndex c _ _ | SDropIndex c _ | SWatch c _ => c
  | SBegin | SCommit | SRollback => EmptyString
  end.

Lemma frame_execute fault now stmt ns e :
  frame (ns, target stmt) e (execute fault now stmt ns e).1.
Proof.
  assert (FE : forall key e0, frame key e0 (entry_both key e0)).
  { intros key e0. unfold entry_both. etransitivity; [apply frame_put_store|apply frame_put_manager]. }
  destruct stmt; cbn [execute target fst]; try (split; reflexivity).
  - etransitivity; [|apply frame_insert]. split; reflexivity.
  - unfold execute_update, update_changes. set (e1 := on_metrics _ _).
    pose proof (frame_update_loop fault now 0 (ns, collection) assignments filter
      (store_keys (store_at (ns, collection) (entry_both (ns, collection) e1))) [] (entry_both (ns, collection) e1)) as F.
    assert (F1 : frame (ns, collection) e (entry_both (ns, collection) e1))
      by (transitivity e1; [split; reflexivity|apply FE]).
    destruct (update_loop _ _ _ _ _ _ _ _ _) as [e2 [us|er|]]; cbn [fst] in *;
      (etransitivity; [exact F1|]); [|exact F..].
    etransitivity; [exact F|apply frame_emit_all].
  - unfold execute_remove, remove_changes. set (e1 := on_metrics _ _).
    assert (F1 : frame (ns, collection) e (entry_both (ns, collection) e1))
      by (transitivity e1; [split; reflexivity|apply FE]).
    destruct (target_ids _ _ _) as [ids|er|]; [|exact F1..].
    pose proof (frame_remove_loop fault now 0 (ns, collection) ids [] (entry_both (ns, collection) e1)) as F.
    destruct (remove_loop _ _ _ _ _ _ _) as [e2 [us|er|]]; cbn [fst] in *;
      (etransitivity; [exact F1|]); [|exact F..].
    etransitivity; [exact F|apply frame_emit_all].
  - unfold execute_create_index. set (e1 := put_manager _ _ _).
    assert (F1 : frame (ns, collection) e e1)
      by (transitivity (on_metrics Metrics.inc_queries e); [split; reflexivity|apply frame_put_manager]).
    destruct (populate _ _ _); [|exact F1..]. cbn [fst]. etransitivity; [exact F1|apply frame_put_manager].
  - unfold execute_drop_index. destruct (indexes _ !! _); [|split; reflexivity].
    destruct (IndexManager.drop_index _ _) as [m [|]]; cbn [fst];
      (transitivity (on_metrics Metrics.inc_queries e); [split; reflexivity|apply frame_put_manager]).
Qed.
End Statements.
