(* ===== verification/Database.v ===== *)
(** The abstract database: collections as maps from identifiers to documents, with no
    log, no index, no lock and no hash order, and what each statement does to them.
    The engine refines it, statement by statement and across restarts. *)

From S2P Require Export StatementLaws.

Section Database.
Context {B : Build} {AN : ArithNan} {HO : HashOrder} {HL : HashOrderLaws HO}
  {C : CrcLib} {CL : CrcLaws C} {U : UuidLib} {UL : UuidLaws U} {J : JsonLib} {JL : JsonLaws J}.

(** ** The specification *)

Definition Db := CollectionKey -> DocumentStore.

Definition db_of (e : Engine) : Db := fun key => store_at key e.

(** The collection [key] before and after, and the response. *)
Definition insert_rule (d : Document) (s s' : DocumentStore) (r : result ResponsePayload) : Prop :=
  match s !! id d with
  | Some _ => s' = s /\ exists er, r = Err er /\ code er = DocumentAlreadyExists
  | None => (s' = <[id d := d]> s /\ r = Ok (PRecords [d] 1))
            \/ (s' = s /\ exists er, r = Err er /\ code er = StorageError)
  end.

Definition update_rule (now : nat -> Z) (asg : list Assignment) (filter : option Expr)
    (s s' : DocumentStore) (r : result ResponsePayload) : Prop :=
  (forall i, match s !! i with
     | None => s' !! i = None
     | Some d =>
       if matching filter d
       then exists t after, apply_assignments (now t) d asg = (after, Ok tt) /\ s' !! i = Some after
       else s' !! i = Some d
     end)
  /\ exists msg, r = Ok (PSuccess msg (Z.of_nat (List.length (matches_of filter s)))).

Definition remove_rule (filter : option Expr) (s s' : DocumentStore) (r : result ResponsePayload) : Prop :=
  (forall i, s' !! i = match s !! i with
                       | Some d => if matching filter d then None else Some d
                       | None => None
                       end)
  /\ exists msg, r = Ok (PSuccess msg (Z.of_nat (List.length (matches_of filter s)))).

Definition find_rule (filter : option Expr) (sort : option SortClause) (limit offset : option Z)
    (s : DocumentStore) (r : result ResponsePayload) : Prop :=
  exists found, found ≡ₚ matches_of filter s
    /\ let pg := page limit offset (arranged sort found) in r = Ok (PRecords pg (Z.of_nat (List.length pg))).

Definition rule (now : nat -> Z) (stmt : Statement) (s s' : DocumentStore) (r : result ResponsePayload) : Prop :=
  match stmt with
  | SInsert _ d => insert_rule d s s' r
  | SUpdate _ asg filter => update_rule now asg filter s s' r
  | SRemove _ filter => remove_rule filter s s' r
  | SFind _ filter sort limit offset => s' = s /\ find_rule filter sort limit offset s r
  | SCount _ filter => s' = s /\ r = Ok (PCount (Z.of_nat (List.length (matches_of filter s))))
  | SExists _ filter => s' = s /\ r = Ok (PExists (List.existsb (matching filter) (store_values s)))
  | _ => s' = s
  end.

Inductive Label :=
| LStatement (now : nat -> Z) (ns : string) (stmt : Statement) (r : result ResponsePayload)
| LRestart.

Inductive db_step : Db -> Label -> Db -> Prop :=
| Db_statement now ns stmt r s s' :
    rule now stmt (s (ns, target stmt)) (s' (ns, target stmt)) r ->
    (forall key, key <> (ns, target stmt) -> s' key = s key) ->
    db_step s (LStatement now ns stmt r) s'
| Db_restart s s' : (forall key, s' key = s key) -> db_step s LRestart s'.

(** Histories of the abstract database, from no document at all. *)
Inductive db_history : list Label -> Db -> Prop :=
| Db_empty s : (forall key, s key = ∅) -> db_history [] s
| Db_more h s l s' : db_history h s -> db_step s l s' -> db_history (h ++ [l]) s'.

(** ** Histories of the engine *)

(** [stmt_ok], and for a query that its filter answers on every document, that the plan
    suits it, and that its page numbers are what NQL can write. *)
Definition stmt_fits (now : nat -> Z) (ns : string) (stmt : Statement) (e : Engine) : Prop :=
  stmt_ok now ns stmt e
  /\ match stmt with
     | SFind coll filter sort limit offset =>
       plan_fits filter sort limit offset (manager_at (ns, coll) e) (store_at (ns, coll) e)
       /\ filter_total filter (store_at (ns, coll) e) /\ nql_usize limit /\ nql_usize offset
     | SCount coll filter | SExists coll filter => filter_total filter (store_at (ns, coll) e)
     | _ => True
     end.

Inductive history : list Label -> Engine -> Prop :=
| History_open cfg m e : get_sync_mode cfg = SyncAlways -> Engine.open cfg m ∅ = Ok e -> history [] e
| History_statement h e e' now ns stmt r :
    history h e -> stmt_fits now ns stmt e -> execute NoFault now stmt ns e = (e', r) ->
    is_ok r = true \/ may_fail stmt = true -> history (h ++ [LStatement now ns stmt r]) e'
| History_restart h cfg m e e' :
    history h e -> get_sync_mode cfg = SyncAlways ->
    Engine.open cfg m (WriteAheadLog.dir (wal e)) = Ok e' -> history (h ++ [LRestart]) e'.

Lemma history_reach h e : history h e -> Reach e.
Proof.
  induction 1 as [cfg m e Hm Ho|h e e' now ns stmt r _ IH [Hs _] H Hr|h cfg m e e' _ IH Hm Ho].
  - exact (Reach_open cfg m e Hm Ho).
  - exact (Reach_step e e' now ns stmt r IH Hs H Hr).
  - exact (Reach_restart cfg m e e' IH Hm Ho).
Qed.

(** ** Each statement follows its rule *)

Lemma reach_engine_ok e : Reach e -> exists rs, engine_ok rs e.
Proof. intros HR. now destruct (Reach_ok e HR) as (OK & _). Qed.

Lemma insert_follows now ns coll d e e' r :
  Reach e -> stmt_ok now ns (SInsert coll d) e -> execute NoFault now (SInsert coll d) ns e = (e', r) ->
  insert_rule d (store_at (ns, coll) e) (store_at (ns, coll) e') r
  /\ (is_ok r = false -> forall k, store_at k e' = store_at k e).
Proof.
  intros HR (Vn & Vc & Hd & Room) H. destruct (reach_engine_ok e HR) as (rs & OK).
  cbn [execute] in H. set (e1 := on_metrics _ (on_metrics _ e)) in H.
  assert (OK1 : engine_ok rs e1) by now apply (engine_ok_ext rs e).
  destruct (execute_insert_ok now ns coll d rs e1 0 e' r Vn Vc Hd OK1 Room H) as (_ & _ & A).
  change (store_at ?k e1) with (store_at k e) in A. unfold insert_rule.
  destruct (store_at (ns, coll) e !! id d) as [d0|] eqn:G.
  - unfold execute_insert in H. rewrite (insert_check_taken _ d d0 e1 G) in H.
    injection H as <- <-. split; [|reflexivity]. split; [reflexivity|]. eexists. split; reflexivity.
  - destruct r as [resp|er|]; [|split; [right|intros _; apply A]|destruct A].
    + destruct A as (-> & _ & S & _). split; [|discriminate]. left. now rewrite S, decide_True.
    + split; [apply A|]. exists er. split; [reflexivity|]. exact (insert_error_code now ns coll d e1 e' er G H).
Qed.

Lemma update_follows now ns coll asg filter e e' resp :
  Reach e -> stmt_ok now ns (SUpdate coll asg filter) e ->
  execute NoFault now (SUpdate coll asg filter) ns e = (e', Ok resp) ->
  update_rule now asg filter (store_at (ns, coll) e) (store_at (ns, coll) e') (Ok resp).
Proof.
  intros HR (Vn & Vc & Room & HG) H. destruct (reach_engine_ok e HR) as (rs & OK).
  pose proof OK as (_ & I & _). destruct (I (ns, coll)) as [Sk _].
  cbn [execute] in H. set (e1 := on_metrics _ (on_metrics _ e)) in H.
  assert (OK1 : engine_ok rs e1) by now apply (engine_ok_ext rs e).
  destruct (execute_update_ok now ns coll asg filter rs e1 e' resp Vn Vc Room HG OK1 H) as (_ & _ & _ & Us & _ & msg & ->).
  change (store_at ?k e1) with (store_at k e) in *. split.
  - intros i. specialize (Us i). destruct (store_at (ns, coll) e !! i) as [d|] eqn:G; [|exact Us].
    rewrite bool_decide_true in Us by (apply elem_of_store_keys; eauto). exact Us.
  - exists msg. now rewrite matches_in_of.
Qed.

Lemma remove_follows now ns coll filter e e' resp :
  Reach e -> stmt_ok now ns (SRemove coll filter) e ->
  execute NoFault now (SRemove coll filter) ns e = (e', Ok resp) ->
  remove_rule filter (store_at (ns, coll) e) (store_at (ns, coll) e') (Ok resp).
Proof.
  intros HR (Vn & Vc & Room) H. destruct (reach_engine_ok e HR) as (rs & OK).
  pose proof OK as (_ & I & _). destruct (I (ns, coll)) as [Sk _].
  cbn [execute] in H. set (e1 := on_metrics _ (on_metrics _ e)) in H.
  assert (OK1 : engine_ok rs e1) by now apply (engine_ok_ext rs e).
  destruct (execute_remove_ok now ns coll filter rs e1 e' resp Vn Vc Room OK1 H) as (_ & _ & _ & Us & _ & msg & ->).
  change (store_at ?k e1) with (store_at k e) in *. split; [exact Us|]. exists msg. now rewrite matches_in_of.
Qed.

Lemma find_follows ns coll filter sort limit offset e :
  indexed_ok e -> plan_fits filter sort limit offset (manager_at (ns, coll) e) (store_at (ns, coll) e) ->
  filter_total filter (store_at (ns, coll) e) -> nql_usize limit -> nql_usize offset ->
  find_rule filter sort limit offset (store_at (ns, coll) e) (execute_find ns coll filter sort limit offset e).
Proof.
  intros I Hp HT Hl Ho. destruct (nql_page limit offset Hl Ho) as (Hl' & Ho' & Hs).
  exact (execute_find_ok ns coll filter sort limit offset e I Hp HT Hl' Ho' Hs).
Qed.

Lemma count_follows ns coll filter e :
  let s := store_at (ns, coll) e in
  filter_total filter s ->
  execute_count ns coll filter e = Ok (PCount (Z.of_nat (List.length (matches_of filter s))))
  /\ execute_exists ns coll filter e = Ok (PExists (List.existsb (matching filter) (store_values s))).
Proof.
  intros s HT. subst s. unfold execute_count, execute_exists, store_at, matches_of in *.
  destruct (collections e !! (ns, coll)) as [s|]; cbn [from_option Datatypes.id] in *.
  - apply filter_total_all in HT. now rewrite count_docs_ok, exists_doc_ok.
  - rewrite store_values_empty. now split.
Qed.

(** One statement of the engine is one step of the abstract database. *)
Lemma statement_follows now ns stmt e e' r :
  Reach e -> stmt_fits now ns stmt e -> execute NoFault now stmt ns e = (e', r) ->
  is_ok r = true \/ may_fail stmt = true ->
  rule now stmt (store_at (ns, target stmt) e) (store_at (ns, target stmt) e') r.
Proof.
  intros HR [Hs Hf] H Hr. destruct (reach_engine_ok e HR) as (rs & OK).
  destruct stmt; cbn [target rule]; cbn [execute] in H; try (injection H as <- <-; reflexivity).
  - injection H as <- <-. split; [reflexivity|]. destruct Hf as (Hp & HT & Hl & Ho). destruct OK as (_ & I & _).
    exact (find_follows ns collection filter sort limit offset _ I Hp HT Hl Ho).
  - now apply (insert_follows now ns collection document e e' r).
  - destruct Hr as [Hr|Hr]; [|discriminate Hr]. destruct r as [resp| |]; [|discriminate Hr..].
    now apply (update_follows now ns collection assignments filter e e' resp).
  - destruct Hr as [Hr|Hr]; [|discriminate Hr]. destruct r as [resp| |]; [|discriminate Hr..].
    now apply (remove_follows now ns collection filter e e' resp).
  - injection H as <- <-. split; [reflexivity|]. exact (proj1 (count_follows ns collection filter _ Hf)).
  - injection H as <- <-. split; [reflexivity|]. exact (proj2 (count_follows ns collection filter _ Hf)).
  - assert (OK1 : engine_ok rs (on_metrics Metrics.inc_queries e)) by now apply (engine_ok_ext rs e).
    now apply (execute_create_index_ok ns collection field index_type rs _ e' r OK1).
  - assert (OK1 : engine_ok rs (on_metrics Metrics.inc_queries e)) by now apply (engine_ok_ext rs e).
    now apply (execute_drop_index_ok ns collection field rs _ e' r OK1).
Qed.
End Database.
