(* ===== verification/EngineProps.v ===== *)
(** What the engine promises: durability across restarts, faithful indexes, and
    the functional behaviour of each statement. *)

From stdpp Require Import sorting.
From S2P Require Export EngineSamples Database.

Section EngineProps.
Context {B : Build} {AN : ArithNan} {HO : HashOrder} {HL : HashOrderLaws HO}
  {C : CrcLib} {CL : CrcLaws C} {U : UuidLib} {UL : UuidLaws U} {J : JsonLib} {JL : JsonLaws J}.

(** C1: the engine refines the abstract database.  Take any history, from an empty
    directory, of restarts and statements that fit the log ([stmt_ok]): INSERTs and index
    statements, answered or not; UPDATEs and REMOVEs that were answered; FINDs, COUNTs and
    EXISTS whose filter has an answer on every document, FINDs besides only with plans that
    suit their filter ([plan_fits]: where an index is used, the filter does not select
    documents without the field, and its literals and bounds are ordinary).  The abstract
    database has the same history, with the same responses, and ends with the documents
    the engine holds: the log, the indexes, the plans and the iteration order of hash
    tables do not show.  (What an UPDATE that fails leaves is told by
    [Failures.failed_update_spec].) *)
Theorem engine_refines_database h e :
  history h e -> exists s, db_history h s /\ forall key, s key = store_at key e.
Proof.
  intros HH. exists (db_of e). split; [|reflexivity].
  induction HH as [cfg m e Hm Ho|h e e' now ns stmt r HH IH Hs H Hr|h cfg m e e' HH IH Hm Ho].
  - apply Db_empty. intros key. unfold db_of. destruct (open_engine _ _ _ _ Ho) as (st & d' & Hrec & -> & _).
    rewrite (recover_stored _ _ _ _ (stored_empty (16 * 1024 * 1024) 0 ltac:(unfold u64_max; lia))) in Hrec.
    injection Hrec as <- _. reflexivity.
  - apply (Db_more _ (db_of e)); [exact IH|]. apply Db_statement.
    + exact (statement_follows now ns stmt e e' r (history_reach h e HH) Hs H Hr).
    + intros key Hk. pose proof (frame_execute NoFault now stmt ns e key Hk) as [F _]. now rewrite H in F.
  - apply (Db_more _ (db_of e)); [exact IH|]. apply Db_restart. intros key. unfold db_of.
    destruct (Reach_ok e (history_reach h e HH)) as ((rs & OK) & Room & S & _).
    destruct (restart_ok rs e cfg m OK Room S) as (e'' & E & Es). rewrite Ho in E. injection E as <-. apply Es.
Qed.

(** C2: an engine that writes every append out can be stopped after any history of
    restarts and statements that fit the log ([stmt_ok]) in which every UPDATE and REMOVE
    was answered, and opening its directory again gives back every document of every
    collection, unchanged.  The documents stored are those whose JSON text determines them
    ([doc_storable]).  After a failing UPDATE, which may leave a change in memory that the
    log does not have, [Failures.failed_update_spec] tells what comes back. *)
Theorem restart_keeps_documents e cfg m :
  Reach e ->
  exists e', Engine.open cfg m (WriteAheadLog.dir (wal e)) = Ok e'
    /\ forall key, store_at key e' = store_at key e.
Proof.
  intros HR. destruct (Reach_ok e HR) as ((rs & OK) & Room & S & _). now apply (restart_ok rs).
Qed.

(** C10: after any history of restarts and statements that fit the log ([stmt_ok]) in which
    every UPDATE and REMOVE was answered, each index holds exactly the documents of its
    collection: looking an ordinary key up gives the
    identifiers of the documents whose indexed field has that key, and nothing else.  (After
    an UPDATE that failed the indexes are those of the logged documents, which memory may
    differ from in one document: [Failures.failed_update_spec].) *)
Theorem indexes_are_faithful e key name idx k i :
  Reach e -> IndexManager.get name (manager_at key e) = Some idx -> ord_key k ->
  index_name idx = name
  /\ (i ∈ index_lookup k idx <->
      exists d v, store_at key e !! i = Some d /\ id d = i
        /\ Doc.lookup d (index_field idx) = Some v /\ value_cmp k v = Eq).
Proof.
  intros HR Hg Hk. destruct (Reach_ok e HR) as ((rs & _ & I & _) & _).
  destruct (I key) as [Sk [Nm Rp]]. split; [now apply Nm|].
  destruct (Rp _ _ Hg) as (_ & _ & R). rewrite (R k i Hk). unfold slots_of. split.
  - intros (v & S & E). destruct (store_at key e !! i) as [d|] eqn:G; [|discriminate].
    exists d, v. split; [reflexivity|]. split; [now apply Sk in G|]. now split.
  - intros (d & v & G & _ & L & E). exists v. rewrite G. now split.
Qed.

(** The log and the events of an INSERT that is answered. *)
Lemma insert_answered now ns coll d e e' resp :
  execute_insert NoFault now ns coll d e = (e', Ok resp) ->
  exists seq,
    WriteAheadLog.append NoFault (now 0%nat) Insert ns coll (id d) (json_to_vec (json_of_document d)) None (wal e) = (wal e', Ok seq)
    /\ events e' = (events e ++ [event_new (now 1%nat) seq Create ns coll (id d) None (Some d) None])%list.
Proof.
  unfold execute_insert. intros H. destruct (insert_check _ _ _) as [u|er|]; [|discriminate H..].
  unfold insert_log, NbfRecord.payload_from_document in H. cbn [fst snd] in H.
  destruct (WriteAheadLog.append _ _ _ _ _ _ _ _ _) as [w [seq|er|]]; [|discriminate H..].
  exists seq. unfold insert_index in H. destruct (IndexManager.on_insert _ _) as [m [u'|er|]];
    [injection H as <- _; now split..|discriminate H].
Qed.

(** An INSERT that fails has touched neither events nor indexes. *)
Lemma insert_refused now ns coll d e e' er :
  execute_insert NoFault now ns coll d e = (e', Err er) ->
  events e' = events e /\ forall k, manager_at k e' = manager_at k e.
Proof.
  unfold execute_insert. intros H. destruct (insert_check _ _ _) as [u|er'|]; [|injection H as <- _; now split|discriminate H].
  unfold insert_log, NbfRecord.payload_from_document in H.
  destruct (WriteAheadLog.append _ _ _ _ _ _ _ _ _) as [w [seq|er'|]]; [|injection H as <- _; now split|discriminate H].
  unfold insert_index in H. destruct (IndexManager.on_insert _ _) as [m [u'|er'|]]; discriminate H.
Qed.

(** What a restart brings back of an engine reached by one more statement. *)
Lemma step_restarts now ns stmt e e' r cfg m :
  Reach e -> stmt_ok now ns stmt e -> execute NoFault now stmt ns e = (e', r) ->
  is_ok r = true \/ may_fail stmt = true ->
  Reach e' /\ exists e2, Engine.open cfg m (WriteAheadLog.dir (wal e')) = Ok e2
    /\ forall k, store_at k e2 = store_at k e'.
Proof.
  intros HR Hs H Hr. assert (HR' : Reach e') by exact (Reach_step e e' now ns stmt r HR Hs H Hr).
  split; [exact HR'|]. destruct (Reach_ok e' HR') as ((rs & OK) & Room & S & _). now apply (restart_ok rs).
Qed.

(** C13: INSERT of a document that fits the log ([stmt_ok]).  When the identifier is taken
    it reports that and changes no document, index, log or event.  Otherwise either the
    record does not fit the log format, and INSERT fails with a storage error having
    changed no document and no index and announced nothing; or it answers with the
    document, having appended its record to the log, stored it under its identifier,
    entered it into every index of the collection, announced it in one event that carries
    the sequence number of the record, and left every other collection alone; and a
    restart finds it. *)
Theorem insert_spec now ns coll d e e' r cfg m :
  Reach e -> stmt_ok now ns (SInsert coll d) e ->
  execute NoFault now (SInsert coll d) ns e = (e', r) ->
  let key := (ns, coll) in
  match store_at key e !! id d with
  | Some _ => (exists er, r = Err er /\ code er = DocumentAlreadyExists)
              /\ wal e' = wal e /\ events e' = events e
              /\ forall k, store_at k e' = store_at k e /\ manager_at k e' = manager_at k e
  | None =>
    ((exists er, r = Err er /\ code er = StorageError) /\ events e' = events e
     /\ forall k, store_at k e' = store_at k e /\ manager_at k e' = manager_at k e)
    \/ (r = Ok (PRecords [d] 1)
        /\ (exists seq,
              WriteAheadLog.append NoFault (now 0%nat) Insert ns coll (id d) (json_to_vec (json_of_document d)) None (wal e)
                = (wal e', Ok seq)
              /\ events e' = (events e ++ [event_new (now 1%nat) seq Create ns coll (id d) None (Some d) None])%list)
        /\ store_at key e' = <[id d := d]> (store_at key e)
        /\ manager_ok (store_at key e') (manager_at key e')
        /\ (forall k, k <> key -> store_at k e' = store_at k e /\ manager_at k e' = manager_at k e)
        /\ exists e2, Engine.open cfg m (WriteAheadLog.dir (wal e')) = Ok e2 /\ forall k, store_at k e2 = store_at k e')
  end.
Proof.
  intros HR Hs H key. destruct (insert_follows now ns coll d e e' r HR Hs H) as [R Same]. unfold insert_rule in R.
  fold key in R. pose proof (fun k => frame_execute NoFault now (SInsert coll d) ns e k) as F. rewrite H in F.
  destruct (step_restarts now ns (SInsert coll d) e e' r cfg m HR Hs H (or_intror eq_refl)) as [HR' Back].
  cbn [execute] in H. destruct (store_at key e !! id d) as [d0|] eqn:G.
  - destruct R as [_ (er & -> & Ec)]. split; [now exists er|]. split; [|split].
    + unfold execute_insert in H. rewrite (insert_check_taken _ d d0 (on_metrics _ (on_metrics _ e)) G) in H.
      now injection H as <- _.
    + exact (proj1 (insert_refused now ns coll d _ e' er H)).
    + intros k. split; [now apply Same|exact (proj2 (insert_refused now ns coll d _ e' er H) k)].
  - destruct R as [[S ->]|[_ (er & -> & Ec)]]; [right|left].
    + split; [reflexivity|]. split; [exact (insert_answered now ns coll d _ e' _ H)|]. split; [exact S|].
      split; [|split; [exact F|exact Back]]. destruct (Reach_ok e' HR') as ((rs & _ & I & _) & _). apply I.
    + split; [now exists er|]. destruct (insert_refused now ns coll d _ e' er H) as [Ev Mg]. split; [exact Ev|].
      intros k. split; [now apply Same|apply Mg].
Qed.

(** C14: an UPDATE that is answered has applied the assignments to exactly the
    documents its filter selects, left every other document as it was, and reports
    how many it changed. *)
Theorem update_spec now ns coll asg filter e e' resp :
  Reach e -> stmt_ok now ns (SUpdate coll asg filter) e ->
  execute NoFault now (SUpdate coll asg filter) ns e = (e', Ok resp) ->
  (forall i, match store_at (ns, coll) e !! i with
     | None => store_at (ns, coll) e' !! i = None
     | Some d =>
       if matching filter d
       then exists t after, apply_assignments (now t) d asg = (after, Ok tt)
              /\ store_at (ns, coll) e' !! i = Some after
       else store_at (ns, coll) e' !! i = Some d
     end)
  /\ others_same (ns, coll) e e'
  /\ exists msg, resp = PSuccess msg (Z.of_nat (List.length (matches_of filter (store_at (ns, coll) e)))).
Proof.
  intros HR Hs H. destruct (update_follows now ns coll asg filter e e' resp HR Hs H) as (Us & msg & R).
  split; [exact Us|]. split; [|exists msg; now injection R].
  intros k Hk. pose proof (frame_execute NoFault now (SUpdate coll asg filter) ns e k Hk) as [F _]. now rewrite H in F.
Qed.

(** A REMOVE that is answered has deleted exactly the documents its filter
    selects and reports how many. *)
Theorem remove_spec now ns coll filter e e' resp :
  Reach e -> stmt_ok now ns (SRemove coll filter) e ->
  execute NoFault now (SRemove coll filter) ns e = (e', Ok resp) ->
  (forall i, store_at (ns, coll) e' !! i
     = match store_at (ns, coll) e !! i with
       | Some d => if matching filter d then None else Some d
       | None => None
       end)
  /\ others_same (ns, coll) e e'
  /\ exists msg, resp = PSuccess msg (Z.of_nat (List.length (matches_of filter (store_at (ns, coll) e)))).
Proof.
  intros HR Hs H. destruct (remove_follows now ns coll filter e e' resp HR Hs H) as (Us & msg & R).
  split; [exact Us|]. split; [|exists msg; now injection R].
  intros k Hk. pose proof (frame_execute NoFault now (SRemove coll filter) ns e k Hk) as [F _]. now rewrite H in F.
Qed.

(** C9: the index a plan uses does not change the answer.  With the indexes of the
    collection and with none, FIND with a filter gives the same documents, namely those
    the filter selects, in the order of the SORT BY clause if there is one, provided that
    the filter has an answer on every document, does not select documents that lack the
    field it compares ([needs_field]: an index holds no entry for them), and that the
    literals it compares with are ordinary and its bounds are not the wrong way round
    ([plan_ordinary]). *)
Theorem find_ignores_indexes ns coll ex sort e :
  Reach e -> let s := store_at (ns, coll) e in
  plan_ordinary (plan (Some ex) sort None None (manager_at (ns, coll) e)) ->
  needs_field ex s -> filter_total (Some ex) s ->
  exists docs docs' n,
    execute_find ns coll (Some ex) sort None None e = Ok (PRecords docs n)
    /\ execute_find ns coll (Some ex) sort None None (put_manager (ns, coll) ∅ e) = Ok (PRecords docs' n)
    /\ docs ≡ₚ matches_of (Some ex) s /\ docs' ≡ₚ matches_of (Some ex) s.
Proof.
  intros HR s Hp Hn HT. destruct (Reach_ok e HR) as ((rs & _ & I & _) & _).
  destruct (execute_find_ok ns coll (Some ex) sort None None e I (conj Hp Hn) HT) as (docs & P & E); [easy..|].
  set (e2 := put_manager (ns, coll) ∅ e).
  assert (I2 : indexed_ok e2).
  { intros k. unfold e2. rewrite manager_at_put. change (store_at k _) with (store_at k e).
    destruct (I k). case_decide; [split; [assumption|apply manager_ok_new]|now split]. }
  destruct (execute_find_ok ns coll (Some ex) sort None None e2 I2) as (docs' & P' & E'); [|exact HT|easy..|].
  { split; [|exact Hn]. unfold e2. rewrite manager_at_put, decide_True by reflexivity.
    now rewrite plan_no_index. }
  change (store_at (ns, coll) e2) with s in P'. fold s in P.
  assert (Q : arranged sort docs ≡ₚ matches_of (Some ex) s) by now rewrite arranged_perm.
  assert (Q' : arranged sort docs' ≡ₚ matches_of (Some ex) s) by now rewrite arranged_perm.
  exists (arranged sort docs), (arranged sort docs'), (Z.of_nat (List.length (arranged sort docs))).
  split; [exact E|]. split; [|now split].
  assert (L : List.length (arranged sort docs') = List.length (arranged sort docs)) by (rewrite Q, Q'; reflexivity).
  rewrite <- L. exact E'.
Qed.

(** C11: FIND sorts stably before it cuts the page.  [found] is what the same FIND answers
    without SORT BY, LIMIT and OFFSET, which are the selected documents; the answer is the
    page of a list [sorted] of the same documents that is in SORT BY order and in which
    documents with the same sort value stand as they stand in [found].  This is for
    filters with an answer on every document and plans that suit them (see C9), and
    documents whose sort values are comparable; no LIMIT and OFFSET that NQL can write
    overflow. *)
Theorem find_sorted ns coll filter c limit offset e :
  Reach e -> let s := store_at (ns, coll) e in
  plan_fits filter (Some c) limit offset (manager_at (ns, coll) e) s -> filter_total filter s ->
  Forall (sort_key_ok c) (matches_of filter s) ->
  nql_usize limit -> nql_usize offset ->
  exists found sorted,
    execute_find ns coll filter None None None e = Ok (PRecords found (Z.of_nat (List.length found)))
    /\ execute_find ns coll filter (Some c) limit offset e
      = Ok (PRecords (page limit offset sorted) (Z.of_nat (List.length (page limit offset sorted))))
    /\ found ≡ₚ matches_of filter s /\ sorted ≡ₚ found
    /\ StronglySorted (cmp_le (doc_order c)) sorted
    /\ forall d, sort_key_ok c d ->
         List.filter (same_key (doc_order c) d) sorted = List.filter (same_key (doc_order c) d) found.
Proof.
  intros HR s Hp HT HK Hl Ho. destruct (reach_engine_ok e HR) as (rs & _ & I & _).
  destruct (I (ns, coll)) as [Sk Mk]. destruct (nql_page limit offset Hl Ho) as (Hl' & Ho' & Hs).
  destruct (find_ids_perm filter (Some c) limit offset _ s Sk Mk Hp HT) as (ids & docs & E1 & E2 & P).
  exists docs, (sort_by (doc_order c) docs). split; [|split; [|split; [exact P|split; [apply sort_by_perm|]]]].
  - apply (execute_find_from ids docs ns coll filter None None None); [|exact E2|exact Logic.I|exact Logic.I|unfold u64_max; cbn; lia].
    now rewrite <- (plan_candidates filter (Some c) limit offset).
  - now apply (execute_find_from ids docs ns coll filter (Some c)).
  - assert (HK' : Forall (sort_key_ok c) docs) by now rewrite P.
    split; [exact (sort_by_sorted (sort_key_ok c) (doc_order c) docs HK')|].
    intros d Hd. exact (sort_by_stable (sort_key_ok c) (doc_order c) d docs Hd HK').
Qed.

(** COUNT and EXISTS answer for exactly the documents the filter selects. *)
Theorem count_and_exists_spec ns coll filter e :
  let s := store_at (ns, coll) e in
  filter_total filter s ->
  execute_count ns coll filter e = Ok (PCount (Z.of_nat (List.length (matches_of filter s))))
  /\ execute_exists ns coll filter e = Ok (PExists (List.existsb (matching filter) (store_values s))).
Proof.
  exact (count_follows ns coll filter e).
Qed.

(** Whatever a statement does, also when it fails half way, panics or meets an
    injected fault, it leaves the documents and the indexes of every other
    collection alone. *)
Theorem statement_frame fault now stmt ns e key :
  key <> (ns, target stmt) ->
  let e' := (execute fault now stmt ns e).1 in
  store_at key e' = store_at key e /\ manager_at key e' = manager_at key e.
Proof. intros Hk. now apply frame_execute. Qed.

(** The duplicate check of INSERT is not atomic with the insertion: two inserts
    of the same new identifier whose checks both run first are both logged and
    stored, and the second document silently replaces the first. *)
Theorem insert_check_then_act now now' key d d' e e1 e3 seq seq' :
  store_at key e !! id d = None -> id d' = id d ->
  insert_log NoFault now key d e = (e1, Ok seq) ->
  insert_log NoFault now' key d' (insert_store key d e1) = (e3, Ok seq') ->
  insert_check key d e = Ok tt /\ insert_check key d' e = Ok tt
  /\ store_at key (insert_store key d' e3) = <[id d := d']> (store_at key e).
Proof.
  intros G Hid H1 H2.
  assert (Hc : forall x, id x = id d -> insert_check key x e = Ok tt).
  { intros x Hx. unfold insert_check, store_at in *. destruct (collections e !! key) as [s|]; [|reflexivity].
    cbn [from_option Datatypes.id] in G. now rewrite Hx, G. }
  split; [now apply Hc|]. split; [now apply Hc|]. unfold insert_store at 1. rewrite store_at_put_eq.
  assert (E : store_at key e3 = <[id d := d]> (store_at key e)).
  { rewrite (insert_log_store _ _ _ _ _ _ _ H2). unfold insert_store. rewrite store_at_put_eq.
    now rewrite (insert_log_store _ _ _ _ _ _ _ H1). }
  rewrite E, Hid. apply insert_insert_eq.
Qed.
End EngineProps.

(** ** The theorems on the sample database *)

(** The history of [engine2], and a restart. *)
Definition label_ada : Label := LStatement sample_now "default" (SInsert "users" ada) (Ok (PRecords [ada] 1)).
Definition label_bob : Label := LStatement sample_now "default" (SInsert "users" bob) (Ok (PRecords [bob] 1)).

Lemma engine_refines_database_witness :
  exists s, db_history [label_ada; label_bob; LRestart] s
    /\ s ("default", "users")%string !! "u2"%string = Some bob.
Proof.
  destruct (Engine.open config_default (Metrics.new 5) (WriteAheadLog.dir (wal engine2))) as [e'| |] eqn:Ho;
    [|vm_compute in Ho; discriminate Ho..].
  destruct (engine_refines_database [label_ada; label_bob; LRestart] e') as (s & Hs & E).
  - refine (History_restart [label_ada; label_bob] config_default (Metrics.new 5) engine2 e' _ eq_refl Ho).
    refine (History_statement [label_ada] engine1 engine2 sample_now "default" (SInsert "users" bob) (Ok (PRecords [bob] 1)) _ _ _ (or_introl eq_refl)).
    + refine (History_statement [] engine0 engine1 sample_now "default" (SInsert "users" ada) (Ok (PRecords [ada] 1)) _ _ _ (or_introl eq_refl)).
      * exact (History_open config_default (Metrics.new 0) engine0 eq_refl engine0_open).
      * split; [apply insert_fits; vm_compute; reflexivity|exact Logic.I].
      * apply executed. vm_compute. reflexivity.
    + split; [apply insert_fits; vm_compute; reflexivity|exact Logic.I].
    + apply executed. vm_compute. reflexivity.
  - exists s. split; [exact Hs|]. rewrite E.
    assert (K : match Engine.open config_default (Metrics.new 5) (WriteAheadLog.dir (wal engine2)) with
                | Ok e0 => store_at ("default", "users")%string e0 !! "u2"%string = Some bob | _ => False end)
      by (vm_compute; reflexivity).
    rewrite Ho in K. exact K.
Defined.

Lemma restart_witness :
  exists e', Engine.open config_default (Metrics.new 5) (WriteAheadLog.dir (wal engine2)) = Ok e'
    /\ store_at ("default", "users")%string e' !! "u2"%string = Some bob.
Proof.
  destruct (restart_keeps_documents engine2 config_default (Metrics.new 5) engine2_reach) as (e' & E & S).
  exists e'. split; [exact E|]. rewrite S. vm_compute. reflexivity.
Defined.

(** The age index of the sample database. *)
Definition age_index : DynIndex :=
  match IndexManager.get "idx_users_age" (manager_at ("default", "users")%string engine3) with
  | Some idx => idx
  | None => HashIdx (HashIndex.new "" "")
  end.

Lemma indexes_are_faithful_witness :
  "u2"%string ∈ index_lookup (VInt 25) age_index <->
  exists d v, store_at ("default", "users")%string engine3 !! "u2"%string = Some d /\ id d = "u2"%string
    /\ Doc.lookup d (index_field age_index) = Some v /\ value_cmp (VInt 25) v = Eq.
Proof.
  refine (proj2 (indexes_are_faithful engine3 ("default", "users")%string "idx_users_age" age_index (VInt 25) "u2"
    engine3_reach _ _)); vm_compute; reflexivity.
Defined.

Lemma insert_spec_witness :
  let e' := run (SInsert "users" bob) engine1 in
  store_at ("default", "users")%string e' = <[id bob := bob]> (store_at ("default", "users")%string engine1)
  /\ (exists e2, Engine.open config_default (Metrics.new 5) (WriteAheadLog.dir (wal e')) = Ok e2
        /\ forall k, store_at k e2 = store_at k e').
Proof.
  set (e' := run (SInsert "users" bob) engine1).
  assert (A : answer (SInsert "users" bob) engine1 = Ok (PRecords [bob] 1)) by (vm_compute; reflexivity).
  assert (N : store_at ("default", "users")%string engine1 !! id bob = None) by (vm_compute; reflexivity).
  pose proof (insert_spec sample_now "default" "users" bob engine1 e' (Ok (PRecords [bob] 1)) config_default (Metrics.new 5) engine1_reach) as P.
  cbn zeta in P. rewrite N in P. destruct P as [((er & E & _) & _)|(_ & _ & S & _ & _ & Back)].
  - apply insert_fits. vm_compute. reflexivity.
  - exact (executed _ _ _ A).
  - discriminate E.
  - split; [exact S|exact Back].
Defined.

(** [UPDATE users SET age = age + 1 WHERE age < 28]. *)
Definition older : list Assignment :=
  [{| as_field := "age"; as_expr := EBinary Plus (EField "age") (ELiteral (VInt 1)) |}]%string.
Definition below28 : Expr := EBinary Lt_ (EField "age") (ELiteral (VInt 28)).

Lemma older_ok : stmt_ok sample_now "default" (SUpdate "users" older (Some below28)) engine3.
Proof.
  cbn [stmt_ok]. split; [reflexivity|]. split; [reflexivity|]. split.
  - split; vm_compute; discriminate.
  - assert (Hall : map_Forall (fun i d => d = ada \/ d = bob) (store_at ("default", "users")%string engine3)).
    { replace (store_at ("default", "users")%string engine3)
        with (list_to_map [("u1", ada); ("u2", bob)]%string : DocumentStore) by (vm_compute; reflexivity).
      cbn [list_to_map foldr uncurry]. repeat (apply map_Forall_insert_2; [auto|]). apply map_Forall_empty. }
    intros i d G. destruct (Hall i d G) as [->| ->].
    + intros M. vm_compute in M. discriminate M.
    + intros _ t after H. vm_compute in H. injection H as <-. split; vm_compute; reflexivity.
Qed.

Lemma update_spec_witness :
  let e' := run (SUpdate "users" older (Some below28)) engine3 in
  (exists t after, apply_assignments (sample_now t) bob older = (after, Ok tt)
     /\ store_at ("default", "users")%string e' !! "u2"%string = Some after)
  /\ store_at ("default", "users")%string e' !! "u1"%string = Some ada.
Proof.
  set (e' := run (SUpdate "users" older (Some below28)) engine3).
  assert (A : answer (SUpdate "users" older (Some below28)) engine3 = Ok (PSuccess "Updated 1 document(s)" 1))
    by (vm_compute; reflexivity).
  destruct (update_spec sample_now "default" "users" older (Some below28) engine3 e' _ engine3_reach older_ok (executed _ _ _ A))
    as (Us & _).
  split; [exact (Us "u2"%string)|exact (Us "u1"%string)].
Defined.

Lemma remove_spec_witness :
  let e' := run (SRemove "users" (Some below28)) engine3 in
  store_at ("default", "users")%string e' !! "u2"%string = None
  /\ store_at ("default", "users")%string e' !! "u1"%string = Some ada.
Proof.
  set (e' := run (SRemove "users" (Some below28)) engine3).
  assert (A : answer (SRemove "users" (Some below28)) engine3 = Ok (PSuccess "Removed 1 document(s)" 1))
    by (vm_compute; reflexivity).
  destruct (remove_spec sample_now "default" "users" (Some below28) engine3 e' (PSuccess "Removed 1 document(s)" 1) engine3_reach)
    as (Us & _).
  - split; [reflexivity|]. split; [reflexivity|]. split; vm_compute; discriminate.
  - exact (executed _ _ _ A).
  - split; [exact (Us "u2"%string)|exact (Us "u1"%string)].
Defined.

(** [age > 26]: an index range scan on the sample database. *)
Definition above26 : Expr := EBinary Gt_ (EField "age") (ELiteral (VInt 26)).

Lemma above26_needs_age s : needs_field above26 s.
Proof. intros f test H. inversion H; subst. split; [reflexivity|]. intros i d _ _. vm_compute. reflexivity. Qed.

Lemma above26_total s : filter_total (Some above26) s.
Proof.
  intros i d _. eexists.
  exact (index_filter_eval above26 "age" _ d (IF_cmp Gt_ "age" (VInt 26) (or_introl eq_refl)) eq_refl).
Qed.

Lemma find_ignores_indexes_witness :
  uses_index (plan (Some above26) None None None (manager_at ("default", "users")%string engine3)) = true
  /\ exists docs docs' n,
    execute_find "default" "users" (Some above26) None None None engine3 = Ok (PRecords docs n)
    /\ execute_find "default" "users" (Some above26) None None None
         (put_manager ("default", "users")%string ∅ engine3) = Ok (PRecords docs' n)
    /\ docs ≡ₚ [ada] /\ docs' ≡ₚ [ada].
Proof.
  split; [vm_compute; reflexivity|].
  destruct (find_ignores_indexes "default" "users" above26 None engine3 engine3_reach) as (docs & docs' & n & P).
  - vm_compute. repeat split.
  - apply above26_needs_age.
  - apply above26_total.
  - exists docs, docs', n.
    replace (matches_of (Some above26) (store_at ("default", "users")%string engine3)) with [ada] in P by (vm_compute; reflexivity).
    exact P.
Defined.

Lemma find_sorted_witness :
  exists found sorted,
    execute_find "default" "users" None None None None engine3 = Ok (PRecords found (Z.of_nat (List.length found)))
    /\ execute_find "default" "users" None (Some {| sort_field := "age"; sort_direction := Asc |}%string) (Some 1) None engine3
      = Ok (PRecords (page (Some 1) None sorted) (Z.of_nat (List.length (page (Some 1) None sorted))))
    /\ found ≡ₚ [ada; bob] /\ sorted ≡ₚ found.
Proof.
  destruct (find_sorted "default" "users" None {| sort_field := "age"; sort_direction := Asc |}%string (Some 1) None
    engine3 engine3_reach) as (found & sorted & E0 & E & P & Q & _).
  - exact Logic.I.
  - intros i d _. now exists true.
  - replace (matches_of None (store_at ("default", "users")%string engine3)) with [ada; bob] by (vm_compute; reflexivity).
    repeat constructor.
  - cbn. unfold i64_max. lia.
  - exact Logic.I.
  - exists found, sorted. split; [exact E0|]. split; [exact E|]. split; [exact P|exact Q].
Defined.

Lemma count_and_exists_witness :
  execute_count "default" "users" (Some above26) engine3 = Ok (PCount 1)
  /\ execute_exists "default" "users" (Some above26) engine3 = Ok (PExists true).
Proof.
  exact (count_and_exists_spec "default" "users" (Some above26) engine3 (above26_total _)).
Defined.

Lemma statement_frame_witness :
  store_at ("default", "users")%string (execute CrashAfterWal sample_now (SRemove "orders" None) "default" engine3).1
  = store_at ("default", "users")%string engine3.
Proof.
  refine (proj1 (statement_frame CrashAfterWal sample_now (SRemove "orders" None) "default" engine3
    ("default", "users")%string _)). discriminate.
Defined.

Lemma insert_check_then_act_witness :
  let key := ("default", "users")%string in
  let bob' := user "u2" "Eve" (VInt 1) in
  exists e1 e3 seq seq',
    insert_log NoFault 5 key bob engine1 = (e1, Ok seq)
    /\ insert_log NoFault 6 key bob' (insert_store key bob e1) = (e3, Ok seq')
    /\ insert_check key bob engine1 = Ok tt /\ insert_check key bob' engine1 = Ok tt
    /\ store_at key (insert_store key bob' e3) = <["u2"%string := bob']> (store_at key engine1).
Proof.
  intros key bob'. set (e1 := (insert_log NoFault 5 key bob engine1).1).
  set (e3 := (insert_log NoFault 6 key bob' (insert_store key bob e1)).1).
  assert (H1 : insert_log NoFault 5 key bob engine1 = (e1, Ok 2)) by (vm_compute; reflexivity).
  assert (H2 : insert_log NoFault 6 key bob' (insert_store key bob e1) = (e3, Ok 3)) by (vm_compute; reflexivity).
  exists e1, e3, 2, 3. split; [exact H1|]. split; [exact H2|].
  refine (insert_check_then_act 5 6 key bob bob' engine1 e1 e3 2 3 _ eq_refl H1 H2). vm_compute. reflexivity.
Defined.
