(* ===== verification/EndToEnd.v ===== *)
(** From the collection handle of a client to the store of the server and back: the
    texts the handle writes, the parser, the engine, the responses on the wire, and what
    the handle makes of them. *)

From stdpp Require Import list.
From S2P Require Export Queries NetworkProps EngineProps.

Import CollectionHandle.

Section EndToEnd.
Context {B : Build} {AN : ArithNan} {HO : HashOrder} {HL : HashOrderLaws HO}
  {C : CrcLib} {CL : CrcLaws C} {U : UuidLib} {UL : UuidLaws U} {J : JsonLib} {JL : JsonLaws J}
  {UT : UnicodeTables} {TD : TokenDebug}.

(** [execute_nql] of a client whose connection the server has in the state [c], and the
    methods of a collection handle made of it. *)
Definition execute_nql (env : Env) (req_id : Z) (e : Engine) (c : Conn) (nql : string) : result ResponsePayload :=
  server_answer env req_id (RQuery nql) e c.

Section Handle.
Variables (debug : ResponsePayload -> string) (env : Env) (req_id : Z) (e : Engine) (c : Conn) (coll : string).

Definition find_all : result (list Document) :=
  let? resp := execute_nql env req_id e c (find_all_nql coll) in find_all_result debug resp.

Definition find_by_id (i : string) : result (option Document) :=
  let? resp := execute_nql env req_id e c (find_by_id_nql coll i) in find_by_id_result debug resp.

Definition find (filter : string) : result (list Document) :=
  let? resp := execute_nql env req_id e c (find_nql coll filter) in find_result debug resp.

Definition count (filter : option string) : result Z :=
  let? resp := execute_nql env req_id e c (count_nql coll filter) in count_result debug resp.

Definition exists_ (filter : string) : result bool :=
  let? resp := execute_nql env req_id e c (exists_nql coll filter) in exists_result debug resp.
End Handle.

(** ** The engine's side *)

(** The filter of [find_by_id]. *)
Definition by_id (i : string) : Expr := EBinary Eq_ (EField "id") (ELiteral (VString i)).

Lemma matching_by_id i d : matching (Some (by_id i)) d = String.eqb (id d) i.
Proof. reflexivity. Qed.

Lemma by_id_total i s : filter_total (Some (by_id i)) s.
Proof. intros j d _. eexists. reflexivity. Qed.

Lemma plan_by_id i mgr :
  IndexManager.find_index_for_field "id" mgr = None ->
  plan (Some (by_id i)) None None None mgr = SeqScan (Some (by_id i)) None None None.
Proof. intros H. unfold plan, by_id. cbn. now rewrite H. Qed.

Lemma omap_nothing {X Y} (f : X -> option Y) (l : list X) : (forall j, j ∈ l -> f j = None) -> omap f l = [].
Proof.
  induction l as [|j l IH]; intros H; [reflexivity|].
  change (omap f (j :: l)) with (match f j with Some b => b :: omap f l | None => omap f l end).
  rewrite (H j) by apply list_elem_of_here. apply IH. intros k Hk. now apply H, list_elem_of_further.
Qed.

Lemma omap_single {Y} (f : string -> option Y) (l : list string) (i : string) :
  NoDup l -> (forall j, j <> i -> f j = None) -> (i ∉ l -> f i = None) -> omap f l = match f i with Some b => [b] | None => [] end.
Proof.
  intros HN Hf. induction HN as [|j l Hj HN IH]; intros Hi; [now rewrite Hi by apply not_elem_of_nil|].
  change (omap f (j :: l)) with (match f j with Some b => b :: omap f l | None => omap f l end).
  destruct (decide (j = i)) as [->|N].
  - rewrite omap_nothing; [reflexivity|]. intros k Hk. apply Hf. now intros ->.
  - rewrite Hf by exact N. apply IH. intros Hn. apply Hi. rewrite elem_of_cons. now intros [->|?].
Qed.

Lemma execute_find_by_id coll i e :
  store_ok (store_at ("default", coll)%string e) -> IndexManager.find_index_for_field "id" (manager_at ("default", coll)%string e) = None ->
  let found := match store_at ("default", coll)%string e !! i with Some d => [d] | None => [] end in
  execute_find "default" coll (Some (by_id i)) None None None e = Ok (PRecords found (Z.of_nat (List.length found))).
Proof.
  intros Sk Hi. cbn zeta. unfold execute_find.
  unfold store_at in *. destruct (collections e !! ("default", coll)%string) as [s|]; [cbn [from_option Datatypes.id] in *|reflexivity].
  rewrite plan_by_id by exact Hi. cbn [candidates bindO]. rewrite filter_ids_total by apply by_id_total. cbn [bindO].
  rewrite (omap_single _ _ i); [|apply NoDup_store_ids|..].
  - unfold selected. destruct (s !! i) as [d|] eqn:G; [|reflexivity].
    apply Sk in G as [<- _]. rewrite matching_by_id, String.eqb_refl. reflexivity.
  - intros j N. unfold selected. destruct (s !! j) as [d|] eqn:G; [|reflexivity]. apply Sk in G as [<- _].
    rewrite matching_by_id. now rewrite (proj2 (String.eqb_neq _ _) N).
  - intros N. unfold selected. destruct (s !! i) as [d|] eqn:G; [|reflexivity]. destruct N. apply elem_of_store_keys. eauto.
Qed.

(** ** The wire *)

(** Documents a response can carry: each of them, and their number. *)
Definition sendable (s : DocumentStore) : Prop :=
  (forall i d, s !! i = Some d -> doc_sendable d = true) /\ Z.of_nat (size s) <= u64_max.

Lemma store_values_perm (s : DocumentStore) : store_values s ≡ₚ (map_to_list s).*2.
Proof. unfold store_values. change (List.map snd) with (fmap (M := list) (@snd DocumentId Document)). now rewrite hash_order_perm. Qed.

Lemma matches_all (s : DocumentStore) : matches_of None s = store_values s.
Proof. unfold matches_of. induction (store_values s) as [|d l IH]; [reflexivity|]. cbn [List.filter]. change (matching None d) with true. now rewrite IH. Qed.

Lemma matches_length filter (s : DocumentStore) : (List.length (matches_of filter s) <= size s)%nat.
Proof.
  transitivity (List.length (store_values s)).
  - unfold matches_of. induction (store_values s) as [|d l IH]; cbn [List.filter List.length]; [lia|]. destruct (matching filter d); cbn [List.length]; lia.
  - rewrite store_values_perm, length_fmap. apply Nat.eq_le_incl, length_map_to_list.
Qed.

Lemma found_sendable filter (s : DocumentStore) docs :
  sendable s -> docs ≡ₚ matches_of filter s -> response_ok (PRecords docs (Z.of_nat (List.length docs))) = true.
Proof.
  intros [HS HN] P. cbn [response_ok]. apply andb_true_iff. split.
  - apply forallb_forall. intros d Hd. apply list_elem_of_In in Hd. rewrite P in Hd. unfold matches_of in Hd.
    apply list_elem_of_In, filter_In in Hd as [Hd _]. apply list_elem_of_In, elem_of_store_values in Hd as [i G]. eauto.
  - rewrite P. pose proof (matches_length filter s). unfold in_u64. apply andb_true_iff. split; apply Z.leb_le; lia.
Qed.

Lemma count_sendable filter (s : DocumentStore) :
  sendable s -> response_ok (PCount (Z.of_nat (List.length (matches_of filter s)))) = true.
Proof.
  intros [_ HN]. pose proof (matches_length filter s). cbn [response_ok]. unfold in_u64. apply andb_true_iff. split; apply Z.leb_le; lia.
Qed.

Lemma read_answered env req_id nql stmt e c resp :
  authenticated c = true -> parse_nql (env_parse_now env) (env_generated env) nql = Ok stmt ->
  (forall coll filter, stmt <> SWatch coll filter) ->
  (execute (env_fault env) (env_now env) stmt "default" e).2 = Ok resp -> response_ok resp = true ->
  execute_nql env req_id e c nql = Ok resp.
Proof.
  intros Ha Hp Hw He Hr. destruct (query_answered env req_id nql stmt e c Ha Hp Hw) as [E _]; rewrite He in *; [exact Hr|exact E].
Qed.

Lemma none_total s : filter_total None s.
Proof. intros i d _. now exists true. Qed.

Lemma find_by_id_answers debug env req_id e c coll i :
  authenticated c = true -> plain_name coll = true -> valid_str i = true -> no_escape i = true ->
  let s := store_at ("default", coll)%string e in
  store_ok s -> (forall d, s !! i = Some d -> doc_sendable d = true) ->
  IndexManager.find_index_for_field "id" (manager_at ("default", coll)%string e) = None ->
  find_by_id debug env req_id e c coll i = Ok (s !! i).
Proof.
  intros Ha Hn Hi He s Sk HS Hx. pose proof (execute_find_by_id coll i e Sk Hx) as E. cbn zeta in E. fold s in E.
  unfold find_by_id. rewrite (read_answered env req_id _ _ e c _ Ha (find_by_id_parses _ _ coll i Hn Hi He) ltac:(discriminate) E).
  - cbn [bindO find_by_id_result]. now destruct (s !! i).
  - destruct (s !! i) as [d|] eqn:G; [|reflexivity]. cbn [response_ok forallb]. now rewrite HS.
Qed.

(** C12: what a client reads is what the server stores.  Over any connection that has
    authenticated itself, on any collection with a plain name, [find_all] of the handle
    gives the documents of the collection, [count] their number, [find_by_id] the
    document of an identifier, if there is one and no index is on the field [id]; and
    [count] and [exists] with a filter that has an answer on every document answer for the
    documents it selects, as does [find] if besides the plan suits the filter
    ([plan_fits]).  The documents are such as a response can carry ([sendable]). *)
Theorem client_reads_are_the_documents debug env req_id e c coll :
  Reach e -> authenticated c = true -> plain_name coll = true ->
  let s := store_at ("default", coll)%string e in
  sendable s ->
  (exists docs, find_all debug env req_id e c coll = Ok docs /\ docs ≡ₚ (map_to_list s).*2)
  /\ count debug env req_id e c coll None = Ok (Z.of_nat (size s))
  /\ (forall i, valid_str i = true -> no_escape i = true ->
        IndexManager.find_index_for_field "id" (manager_at ("default", coll)%string e) = None ->
        find_by_id debug env req_id e c coll i = Ok (s !! i))
  /\ forall f ex, text_of ex f -> filter_total (Some ex) s ->
       count debug env req_id e c coll (Some f) = Ok (Z.of_nat (List.length (matches_of (Some ex) s)))
       /\ exists_ debug env req_id e c coll f = Ok (List.existsb (matching (Some ex)) (store_values s))
       /\ (plan_fits (Some ex) None None None (manager_at ("default", coll)%string e) s ->
            exists docs, find debug env req_id e c coll f = Ok docs /\ docs ≡ₚ matches_of (Some ex) s).
Proof.
  intros HR Ha Hn s HS. destruct (reach_engine_ok e HR) as (rs & _ & I & _). split; [|split; [|split]].
  - destruct (execute_find_ok "default" coll None None None None e I) as (docs & P & E);
      [exact Logic.I|apply none_total|easy..|]. exists docs. split.
    + unfold find_all. rewrite (read_answered env req_id _ _ e c _ Ha (find_all_parses _ _ coll Hn) ltac:(discriminate) E); [reflexivity|].
      now apply (found_sendable None s).
    + rewrite P. fold s. rewrite matches_all. apply store_values_perm.
  - destruct (count_follows "default" coll None e (none_total _)) as [E _]. fold s in E.
    unfold count. rewrite (read_answered env req_id _ _ e c _ Ha (count_all_parses _ _ coll Hn) ltac:(discriminate) E).
    + cbn [bindO count_result]. rewrite matches_all, store_values_perm, length_fmap. now rewrite length_map_to_list.
    + now apply count_sendable.
  - intros i Hi He Hx. apply find_by_id_answers; try assumption; [apply I|]. intros d. apply HS.
  - intros f ex Hf HT. destruct (count_follows "default" coll (Some ex) e HT) as [E1 E2]. split; [|split].
    + unfold count. rewrite (read_answered env req_id _ _ e c _ Ha (count_parses _ _ coll f ex Hn Hf) ltac:(discriminate) E1); [reflexivity|].
      now apply count_sendable.
    + unfold exists_. now rewrite (read_answered env req_id _ _ e c _ Ha (exists_parses _ _ coll f ex Hn Hf) ltac:(discriminate) E2).
    + intros Hp. destruct (execute_find_ok "default" coll (Some ex) None None None e I Hp HT) as (docs & P & E); [easy..|].
      exists docs. split; [|exact P].
      unfold find. rewrite (read_answered env req_id _ _ e c _ Ha (find_parses _ _ coll f ex Hn Hf) ltac:(discriminate) E); [reflexivity|].
      now apply (found_sendable (Some ex) s).
Qed.

(** C3: what a client was told is stored is found again.  A client's INSERT of a storable
    document that the engine answers is answered to the client with that document; from
    then on, if the server is killed at any moment before another change and started
    again on what is on disk, any client that asks the collection for the document's
    identifier gets the document, unchanged. *)
Theorem acknowledged_insert_is_found_after_a_restart debug env req_id e c coll d nql cfg m :
  Reach e -> authenticated c = true -> plain_name coll = true -> no_escape (id d) = true -> doc_sendable d = true ->
  parse_nql (env_parse_now env) (env_generated env) nql = Ok (SInsert coll d) ->
  env_fault env = NoFault -> stmt_ok (env_now env) "default" (SInsert coll d) e ->
  is_ok (execute NoFault (env_now env) (SInsert coll d) "default" e).2 = true ->
  let e1 := (handle_request env req_id (RQuery nql) e c).1.1 in
  execute_nql env req_id e c nql = Ok (PRecords [d] 1)
  /\ exists e2, Engine.open cfg m (WriteAheadLog.dir (wal e1)) = Ok e2
       /\ forall env' req_id' c', authenticated c' = true ->
            find_by_id debug env' req_id' e2 c' coll (id d) = Ok (Some d).
Proof.
  intros HR Ha Hn He HS Hp Hf Hs Hok.
  destruct (query_answered env req_id nql (SInsert coll d) e c Ha Hp ltac:(discriminate)) as [EA EE]; rewrite Hf in *.
  - destruct (execute NoFault (env_now env) (SInsert coll d) "default" e) as [e1 r] eqn:E. cbn [snd] in *.
    destruct (insert_follows (env_now env) "default" coll d e e1 r HR Hs E) as [R _]. unfold insert_rule in R.
    destruct (store_at _ e !! id d); [destruct R as [_ (er & -> & _)]; discriminate|].
    destruct R as [[_ ->]|[_ (er & -> & _)]]; [|discriminate]. cbn [response_ok forallb]. now rewrite HS.
  - cbn zeta. rewrite EE. unfold execute_nql. rewrite EA.
    destruct (execute NoFault (env_now env) (SInsert coll d) "default" e) as [e1 r] eqn:E. cbn [fst snd] in *.
    assert (HR1 : Reach e1) by (eapply Reach_step; eauto).
    destruct (insert_follows (env_now env) "default" coll d e e1 r HR Hs E) as [R _]. unfold insert_rule in R.
    destruct (store_at _ e !! id d); [destruct R as [_ (er & -> & _)]; discriminate|].
    destruct R as [[S ->]|[_ (er & -> & _)]]; [|discriminate]. split; [reflexivity|].
    destruct (Reach_ok e1 HR1) as ((rs & OK) & Room & Sy & _). destruct (restart_ok rs e1 cfg m OK Room Sy) as (e2 & O & S2).
    exists e2. split; [exact O|]. intros env' req_id' c' Ha'.
    assert (G : store_at ("default", coll)%string e2 !! id d = Some d) by (rewrite S2, S; apply lookup_insert_eq).
    rewrite (find_by_id_answers debug env' req_id' e2 c' coll (id d)); try assumption.
    + now rewrite G.
    + destruct Hs as (_ & _ & (_ & _ & Hid) & _). now apply doc_id_bounds.
    + rewrite S2. destruct OK as (_ & I & _). apply I.
    + intros d'. rewrite G. now intros [= <-].
    + destruct (open_engine _ _ _ _ O) as (_ & _ & _ & _ & Em & _). rewrite Em.
      destruct (IndexManager.find_index_for_field "id" ∅) as [idx|] eqn:F; [|reflexivity].
      apply find_index_Some in F as (_ & n & N). now rewrite lookup_empty in N.
Qed.
End EndToEnd.

(** ** On the sample database *)

Lemma users_sendable : sendable (store_at ("default", "users")%string engine2).
Proof.
  replace (store_at ("default", "users")%string engine2)
    with (list_to_map [("u1", ada); ("u2", bob)]%string : DocumentStore) by (vm_compute; reflexivity).
  split; [|vm_compute; discriminate]. cbn [list_to_map foldr uncurry fst snd].
  intros i d [[_ <-]|[_ [[_ <-]|[_ H]]%lookup_insert_Some]]%lookup_insert_Some; [vm_compute; reflexivity..|].
  now rewrite lookup_empty in H.
Qed.

Definition no_text (resp : ResponsePayload) : string := "".

Lemma client_reads_witness :
  count no_text sample_env 1 engine2 (conn_new engine2) "users" None = Ok 2
  /\ find_by_id no_text sample_env 1 engine2 (conn_new engine2) "users" "u2" = Ok (Some bob)
  /\ find_by_id no_text sample_env 1 engine2 (conn_new engine2) "users" "u3" = Ok None.
Proof.
  destruct (client_reads_are_the_documents no_text sample_env 1 engine2 (conn_new engine2) "users"
    engine2_reach eq_refl eq_refl users_sendable) as (_ & Hc & Hi & _).
  assert (N : IndexManager.find_index_for_field "id" (manager_at ("default", "users")%string engine2) = None) by (vm_compute; reflexivity).
  split; [|split].
  - rewrite Hc. vm_compute. reflexivity.
  - rewrite (Hi "u2"%string eq_refl eq_refl N). vm_compute. reflexivity.
  - rewrite (Hi "u3"%string eq_refl eq_refl N). vm_compute. reflexivity.
Defined.

(** What a handle writes for a document with a field. *)
Definition carol_nql : string :=
  string_of_chars (chars "INSERT INTO users VALUES ({" ++ c_dquote :: chars "name" ++ c_dquote :: chars ": " ++ c_dquote :: chars "Carol"
    ++ c_dquote :: chars ", " ++ c_dquote :: chars "_id" ++ c_dquote :: chars ": " ++ c_dquote :: chars "u3" ++ c_dquote :: chars "})")%list.

Definition carol : Document :=
  match parse_nql 2000 "new" carol_nql with Ok (SInsert _ d) => d | _ => ada end.

Lemma acknowledged_insert_witness :
  execute_nql sample_env 7 engine2 (conn_new engine2) carol_nql = Ok (PRecords [carol] 1)
  /\ exists e2, Engine.open config_default (Metrics.new 0)
       (WriteAheadLog.dir (wal (handle_request sample_env 7 (RQuery carol_nql) engine2 (conn_new engine2)).1.1)) = Ok e2
     /\ find_by_id no_text sample_env 1 e2 (conn_new e2) "users" "u3" = Ok (Some carol).
Proof.
  destruct (acknowledged_insert_is_found_after_a_restart no_text sample_env 7 engine2 (conn_new engine2) "users" carol carol_nql
    config_default (Metrics.new 0)) as (E & e2 & O & F).
  - exact engine2_reach.
  - reflexivity.
  - reflexivity.
  - vm_compute. reflexivity.
  - vm_compute. reflexivity.
  - vm_compute. reflexivity.
  - reflexivity.
  - apply insert_fits. vm_compute. reflexivity.
  - vm_compute. reflexivity.
  - split; [exact E|]. exists e2. split; [exact O|]. apply (F sample_env 1 (conn_new e2)).
    unfold Engine.open in O. inv_ok O. destruct r as [st d']. injection O as <-. reflexivity.
Defined.
