(* ===== verification/ConcurrencyProps.v ===== *)
(** Inserts interleaved with each other and with other statements are durable: the log
    always holds the documents in the collections and those of the inserts in flight that
    have logged.  The proof follows a ghost engine in which an insert takes effect when it
    logs, and whose indexes are forgotten. *)

From S2P Require Export Concurrency EngineSamples StatementLaws.

#[local] Arguments record_bytes : simpl never.

Section Ghost.
Context {B : Build} {AN : ArithNan} {HO : HashOrder} {HL : HashOrderLaws HO}
  {C : CrcLib} {CL : CrcLaws C} {U : UuidLib} {UL : UuidLaws U} {J : JsonLib} {JL : JsonLaws J}.

(** ** Engines without indexes *)

Definition no_index (g : Engine) : Prop := forall key, manager_at key g = ∅.

Lemma each_mut_nothing body : IndexManager.each_mut body (IndexManager.names ∅) ∅ = (∅, Ok tt).
Proof.
  unfold IndexManager.names. assert (P : hash_order (map_to_list (∅ : IndexManager.t)) ≡ₚ []).
  { rewrite (hash_order_perm _ _). now rewrite map_to_list_empty. }
  symmetry in P. apply Permutation_nil in P. now rewrite P.
Qed.

(** Indexes can be forgotten. *)
Lemma forget_indexes rs g : engine_ok rs g -> engine_ok rs (set_indexes ∅ g) /\ no_index (set_indexes ∅ g).
Proof.
  intros (SG & I & L). assert (N : no_index (set_indexes ∅ g)).
  { intros key. unfold manager_at. cbn. now rewrite lookup_empty. }
  split; [|exact N]. split; [exact SG|]. split; [|exact L]. intros key. rewrite N. split; [apply I|].
  apply manager_ok_new.
Qed.

(** ** UPDATE and REMOVE on an engine and on its ghost

    The two agree on the identifiers the loop visits. *)

Definition twins (key : CollectionKey) (ids : list DocumentId) (e g : Engine) : Prop :=
  wal g = wal e /\ manager_at key g = ∅ /\ forall i, i ∈ ids -> store_at key g !! i = store_at key e !! i.

(** What a loop leaves alone. *)
Definition untouched (key : CollectionKey) (ids : list DocumentId) (e e' : Engine) : Prop :=
  (forall k, k <> key -> store_at k e' = store_at k e)
  /\ forall i, i ∉ ids -> store_at key e' !! i = store_at key e !! i.

Lemma untouched_refl key ids e : untouched key ids e e.
Proof. now split. Qed.

Lemma untouched_step key i ids e e1 e' :
  untouched key [i] e e1 -> untouched key ids e1 e' -> untouched key (i :: ids) e e'.
Proof.
  intros [A1 A2] [B1 B2]. split; [intros k Hk; now rewrite B1, A1|].
  intros j Hj. apply not_elem_of_cons in Hj as [H1 H2]. rewrite B2, A2; [reflexivity| |assumption].
  now rewrite list_elem_of_singleton.
Qed.

Lemma untouched_more key i ids e e' : untouched key ids e e' -> untouched key (i :: ids) e e'.
Proof. intros [A1 A2]. split; [exact A1|]. intros j Hj. apply A2. now apply not_elem_of_cons in Hj as [_ Hj]. Qed.

(** One document replaced or deleted, one record appended. *)
Lemma untouched_put key i s m w e :
  (forall j, j <> i -> s !! j = store_at key e !! j) ->
  untouched key [i] e (put_manager key m (set_wal w (put_store key s e))).
Proof.
  intros H. split; intros k Hk.
  - change (store_at k (put_store key s e) = store_at k e). rewrite store_at_put. now rewrite decide_False.
  - change (store_at key (put_store key s e) !! k = store_at key e !! k). rewrite store_at_put_eq.
    apply H. now rewrite list_elem_of_singleton in Hk.
Qed.

Lemma twins_put key i ids s s' m w e g :
  twins key (i :: ids) e g -> i ∉ ids ->
  (forall j, j <> i -> s !! j = store_at key e !! j) -> (forall j, j <> i -> s' !! j = store_at key g !! j) ->
  twins key ids (put_manager key m (set_wal w (put_store key s e))) (put_manager key ∅ (set_wal w (put_store key s' g))).
Proof.
  intros (W & M & A) Hn Hs Hs'. split; [reflexivity|]. split; [apply manager_at_put_eq|]. intros j Hj.
  change (store_at key (put_store key s' g) !! j = store_at key (put_store key s e) !! j).
  rewrite !store_at_put_eq. assert (j <> i) by (intros ->; contradiction). rewrite Hs, Hs' by assumption.
  apply A. now right.
Qed.

Lemma update_loop_twins now t key asg filter ids acc e e' us g :
  NoDup ids -> twins key ids e g ->
  update_loop NoFault now t key asg filter ids acc e = (e', Ok us) ->
  exists g', update_loop NoFault now t key asg filter ids acc g = (g', Ok us)
    /\ wal g' = wal e' /\ untouched key ids e e' /\ untouched key ids g g'
    /\ forall i, i ∈ ids -> store_at key g' !! i = store_at key e' !! i.
Proof.
  intros HN. revert t acc e g. induction HN as [|i ids Hni HN IH]; intros t acc e g T H.
  { injection H as <- <-. exists g. split; [reflexivity|]. split; [apply T|]. split; [apply untouched_refl|].
    split; [apply untouched_refl|]. intros i Hi. now apply not_elem_of_nil in Hi. }
  pose proof T as (W & M & A). assert (Ai := A i ltac:(now left)).
  assert (Skip : update_loop NoFault now t key asg filter ids acc e = (e', Ok us) ->
    exists g', update_loop NoFault now t key asg filter ids acc g = (g', Ok us)
      /\ wal g' = wal e' /\ untouched key (i :: ids) e e' /\ untouched key (i :: ids) g g'
      /\ forall j, j ∈ i :: ids -> store_at key g' !! j = store_at key e' !! j).
  { intros H'. destruct (IH t acc e g) as (g' & E & W' & Ue & Ug & A'); [|exact H'|].
    { split; [exact W|]. split; [exact M|]. intros j Hj. apply A. now right. }
    exists g'. split; [exact E|]. split; [exact W'|]. split; [now apply untouched_more|]. split; [now apply untouched_more|].
    intros j [->|Hj]%elem_of_cons; [|now apply A']. rewrite (proj2 Ue), (proj2 Ug) by assumption. exact Ai. }
  cbn [update_loop] in *. rewrite Ai. destruct (store_at key e !! i) as [before|]; [|now apply Skip].
  destruct (matches_filter filter before) as [[|]|er|]; [|now apply Skip|discriminate H..].
  destruct (apply_assignments (now t) before asg) as [after [[]|er|]]; [|discriminate H..].
  unfold NbfRecord.payload_from_document in *.
  change (wal (put_store key ?s ?x)) with (wal x) in *. rewrite W.
  destruct (WriteAheadLog.append _ _ _ _ _ _ _ _ _) as [w [seq|er|]]; [|discriminate H..].
  change (manager_at key (set_wal w (put_store key ?s ?x))) with (manager_at key x) in *. rewrite M.
  unfold IndexManager.on_update at 1. rewrite each_mut_nothing.
  destruct (IndexManager.on_update before after (manager_at key e)) as [m x].
  assert (P : forall x : Engine, forall j, j <> i -> (<[i := after]> (store_at key x)) !! j = store_at key x !! j)
    by (intros; now rewrite lookup_insert_ne by congruence).
  assert (H' : update_loop NoFault now (S (S t)) key asg filter ids (acc ++ [(seq, i, before, after)])
                 (put_manager key m (set_wal w (put_store key (<[i := after]> (store_at key e)) e))) = (e', Ok us))
    by (destruct x; [exact H|exact H|discriminate H]).
  destruct (IH _ _ _ _ (twins_put key i ids _ _ m w e g T Hni (P e) (P g)) H') as (g' & E & W' & Ue & Ug & A').
  exists g'. split; [exact E|]. split; [exact W'|].
  split; [eapply untouched_step; [apply untouched_put, P|exact Ue]|].
  split; [eapply untouched_step; [apply untouched_put, P|exact Ug]|].
  intros j [->|Hj]%elem_of_cons; [|now apply A'].
  rewrite (proj2 Ue), (proj2 Ug) by assumption.
  change (store_at key (put_manager key _ (set_wal w ?x))) with (store_at key x). now rewrite !store_at_put_eq, !lookup_insert_eq.
Qed.

Lemma remove_loop_twins now t key ids acc e e' us g :
  NoDup ids -> twins key ids e g ->
  remove_loop NoFault now t key ids acc e = (e', Ok us) ->
  exists g', remove_loop NoFault now t key ids acc g = (g', Ok us)
    /\ wal g' = wal e' /\ untouched key ids e e' /\ untouched key ids g g'
    /\ forall i, i ∈ ids -> store_at key g' !! i = store_at key e' !! i.
Proof.
  intros HN. revert t acc e g. induction HN as [|i ids Hni HN IH]; intros t acc e g T H.
  { injection H as <- <-. exists g. split; [reflexivity|]. split; [apply T|]. split; [apply untouched_refl|].
    split; [apply untouched_refl|]. intros i Hi. now apply not_elem_of_nil in Hi. }
  pose proof T as (W & M & A). assert (Ai := A i ltac:(now left)). cbn [remove_loop] in *. rewrite Ai.
  destruct (store_at key e !! i) as [d|].
  2: { destruct (IH t acc e g) as (g' & E & W' & Ue & Ug & A'); [|exact H|].
       { split; [exact W|]. split; [exact M|]. intros j Hj. apply A. now right. }
       exists g'. split; [exact E|]. split; [exact W'|]. split; [now apply untouched_more|]. split; [now apply untouched_more|].
       intros j [->|Hj]%elem_of_cons; [|now apply A']. rewrite (proj2 Ue), (proj2 Ug) by assumption.
       apply A. now left. }
  change (wal (put_store key ?s ?x)) with (wal x) in *. rewrite W.
  destruct (WriteAheadLog.append _ _ _ _ _ _ _ _ _) as [w [seq|er|]]; [|discriminate H..].
  change (manager_at key (set_wal w (put_store key ?s ?x))) with (manager_at key x) in *. rewrite M.
  unfold IndexManager.on_remove at 1. rewrite each_mut_nothing.
  destruct (IndexManager.on_remove d (manager_at key e)) as [m x].
  assert (P : forall x : Engine, forall j, j <> i -> (delete i (store_at key x)) !! j = store_at key x !! j)
    by (intros; now rewrite lookup_delete_ne by congruence).
  assert (H' : remove_loop NoFault now (S t) key ids (acc ++ [(seq, i, d, d)])
                 (put_manager key m (set_wal w (put_store key (delete i (store_at key e)) e))) = (e', Ok us))
    by (destruct x; [exact H|exact H|discriminate H]).
  destruct (IH _ _ _ _ (twins_put key i ids _ _ m w e g T Hni (P e) (P g)) H') as (g' & E & W' & Ue & Ug & A').
  exists g'. split; [exact E|]. split; [exact W'|].
  split; [eapply untouched_step; [apply untouched_put, P|exact Ue]|].
  split; [eapply untouched_step; [apply untouched_put, P|exact Ug]|].
  intros j [->|Hj]%elem_of_cons; [|now apply A'].
  rewrite (proj2 Ue), (proj2 Ug) by assumption.
  change (store_at key (put_manager key _ (set_wal w ?x))) with (store_at key x). now rewrite !store_at_put_eq, !lookup_delete_eq.
Qed.

(** ** The inserts in flight *)

(** No two early inserts share an identifier, none finds its identifier taken, and all
    bring a document that can be stored. *)
Definition tasks_ok (ts : list InsertTask) (e : Engine) : Prop :=
  (forall i i' t t', ts !! i = Some t -> ts !! i' = Some t' -> early t = true -> early t' = true ->
     (it_key t, id (it_doc t)) = (it_key t', id (it_doc t')) -> i = i')
  /\ (forall i t, ts !! i = Some t -> early t = true ->
       store_at (it_key t) e !! id (it_doc t) = None
       /\ valid_str (it_key t).1 = true /\ valid_str (it_key t).2 = true /\ doc_good (it_doc t)).

Lemma unstored_early t : unstored t = true -> early t = true.
Proof. unfold unstored, early. now destruct (it_phase t). Qed.

Lemma pending_spec ts e key i d :
  tasks_ok ts e ->
  pending_at ts key i = Some d
  <-> exists n t, ts !! n = Some t /\ unstored t = true /\ it_key t = key /\ id (it_doc t) = i /\ it_doc t = d.
Proof.
  intros [Uniq _]. unfold pending_at. match goal with |- head (omap ?h ts) = _ <-> _ => set (f := h) end.
  assert (F : forall t x, f t = Some x <-> unstored t = true /\ it_key t = key /\ id (it_doc t) = i /\ it_doc t = x).
  { intros t x. unfold f. destruct (unstored t) eqn:W; cbn [andb]; [|split; [discriminate|now intros [? _]]].
    case_bool_decide as D; [destruct D as [D1 D2]|split; [discriminate|intros (_ & D1 & D2 & _); tauto]].
    split; [intros [= <-]; auto|intros (_ & _ & _ & ->); reflexivity]. }
  assert (G : forall x, x ∈ omap f ts <-> exists n t, ts !! n = Some t /\ f t = Some x).
  { intros x. rewrite list_elem_of_omap. split.
    - intros (t & Hin & Hf). apply list_elem_of_lookup in Hin as [n Hn]. eauto.
    - intros (n & t & Hn & Hf). exists t. split; [|exact Hf]. now apply list_elem_of_lookup_2 in Hn. }
  split.
  - intros H. destruct (proj1 (G d)) as (n & t & Hn & Hf).
    + destruct (omap f ts); [discriminate|]. injection H as ->. now left.
    + exists n, t. split; [exact Hn|now apply F].
  - intros (n & t & Hn & Hf). apply F in Hf. assert (Hd : d ∈ omap f ts) by (apply G; eauto).
    destruct (omap f ts) as [|d0 l] eqn:E; [now apply not_elem_of_nil in Hd|]. cbn. f_equal.
    destruct (proj1 (G d0)) as (n0 & t0 & Hn0 & Hf0); [now left|]. apply F in Hf, Hf0.
    destruct Hf as (W & K & I & <-), Hf0 as (W0 & K0 & I0 & <-).
    assert (n = n0) as -> by (apply (Uniq n n0 t t0); [assumption..|now apply unstored_early|now apply unstored_early|congruence]).
    congruence.
Qed.

(** The documents the log holds: those logged only and those stored. *)
Definition logged_doc (ts : list InsertTask) (e : Engine) (key : CollectionKey) (i : DocumentId) : option Document :=
  match pending_at ts key i with Some d => Some d | None => store_at key e !! i end.

(** Nobody else waits under the identifier of an insert that has not logged. *)
Lemma pending_free ts e t n :
  tasks_ok ts e -> ts !! n = Some t -> early t = true -> unstored t = false ->
  pending_at ts (it_key t) (id (it_doc t)) = None.
Proof.
  intros T Hn He Hw. destruct (pending_at ts _ _) as [d|] eqn:P; [|reflexivity].
  apply (pending_spec _ e) in P as (n' & t' & Hn' & W & K & I & _); [|exact T].
  assert (n = n') as <- by (eapply (proj1 T); eauto using unstored_early; congruence). congruence.
Qed.

(** A task at its next phase. *)
Lemma tasks_ok_phase ts e e' n t p :
  tasks_ok ts e -> ts !! n = Some t -> (early (set_phase p t) = true -> early t = true) ->
  (forall m t', <[n := set_phase p t]> ts !! m = Some t' -> early t' = true ->
     store_at (it_key t') e' !! id (it_doc t') = store_at (it_key t') e !! id (it_doc t')) ->
  tasks_ok (<[n := set_phase p t]> ts) e'.
Proof.
  intros [Uniq Good] Hn He Hs. set (ts' := <[n := set_phase p t]> ts).
  assert (Back : forall m t', ts' !! m = Some t' -> early t' = true ->
    exists t0, ts !! m = Some t0 /\ early t0 = true /\ it_key t0 = it_key t' /\ it_doc t0 = it_doc t').
  { intros m t' Hm Ht. unfold ts' in Hm. destruct (decide (m = n)) as [->|D].
    - rewrite list_lookup_insert_eq in Hm by (eapply lookup_lt_Some, Hn). injection Hm as <-. exists t. auto.
    - rewrite list_lookup_insert_ne in Hm by congruence. eauto. }
  split.
  - intros i i' u u' Hi Hi' Eu Eu' E. destruct (Back _ _ Hi Eu) as (v & V1 & V2 & V3 & V4).
    destruct (Back _ _ Hi' Eu') as (v' & V1' & V2' & V3' & V4'). apply (Uniq i i' v v'); try assumption. congruence.
  - intros m t' Hm Ht. rewrite (Hs m t' Hm Ht). destruct (Back _ _ Hm Ht) as (t0 & T1 & T2 & <- & <-). now apply (Good m).
Qed.

Lemma pending_phase ts e e' n t p key i :
  tasks_ok ts e -> tasks_ok (<[n := set_phase p t]> ts) e' -> ts !! n = Some t -> early t = true ->
  pending_at (<[n := set_phase p t]> ts) key i
  = if decide ((key, i) = (it_key t, id (it_doc t)))
    then if unstored (set_phase p t) then Some (it_doc t) else None
    else pending_at ts key i.
Proof.
  intros T T' Hn He. pose proof (lookup_lt_Some _ _ _ Hn) as Ln. apply option_eq. intros d.
  rewrite (pending_spec _ e') by exact T'. case_decide as D.
  - injection D as -> ->. split.
    + intros (m & u & Hm & W & K & I & <-). destruct (decide (m = n)) as [->|Dm].
      * rewrite list_lookup_insert_eq in Hm by exact Ln. injection Hm as <-. now rewrite W.
      * rewrite list_lookup_insert_ne in Hm by congruence. exfalso. apply Dm.
        eapply (proj1 T); eauto using unstored_early. congruence.
    + destruct (unstored (set_phase p t)) eqn:W; [|discriminate]. intros [= <-].
      exists n, (set_phase p t). rewrite list_lookup_insert_eq by exact Ln. repeat split; assumption.
  - rewrite (pending_spec _ e) by exact T. split; intros (m & u & Hm & W & K & I & <-); exists m, u.
    + destruct (decide (m = n)) as [->|Dm].
      * rewrite list_lookup_insert_eq in Hm by exact Ln. injection Hm as <-. exfalso. apply D. cbn in K, I. congruence.
      * rewrite list_lookup_insert_ne in Hm by congruence. auto.
    + rewrite list_lookup_insert_ne; [auto|]. intros <-. apply D. congruence.
Qed.

Lemma pending_late ts e e' n t p key i :
  tasks_ok ts e -> tasks_ok (<[n := set_phase p t]> ts) e' -> ts !! n = Some t ->
  unstored t = false -> unstored (set_phase p t) = false ->
  pending_at (<[n := set_phase p t]> ts) key i = pending_at ts key i.
Proof.
  intros T T' Hn W1 W2. pose proof (lookup_lt_Some _ _ _ Hn) as Ln. apply option_eq. intros d.
  rewrite (pending_spec _ e') by exact T'. rewrite (pending_spec _ e) by exact T.
  split; intros (m & u & Hm & W & H); exists m, u.
  - destruct (decide (m = n)) as [->|Dm].
    + rewrite list_lookup_insert_eq in Hm by exact Ln. injection Hm as <-. congruence.
    + rewrite list_lookup_insert_ne in Hm by congruence. auto.
  - rewrite list_lookup_insert_ne; [auto|]. intros <-. congruence.
Qed.

(** ** The invariant *)

(** The ghost holds what the log holds. *)
Definition world_ok (w : Serving) : Prop :=
  tasks_ok (w_tasks w) (w_engine w) /\ synced (w_engine w) /\ has_room 0 (w_engine w)
  /\ exists rs g, engine_ok rs g /\ no_index g /\ wal g = wal (w_engine w)
      /\ forall key i, store_at key g !! i = logged_doc (w_tasks w) (w_engine w) key i.

(** Steps that change neither collections nor log. *)
Lemma world_ok_same ts e ts' e' :
  world_ok {| w_engine := e; w_tasks := ts |} -> tasks_ok ts' e' ->
  (forall key i, pending_at ts' key i = pending_at ts key i) ->
  (forall key, store_at key e' = store_at key e) -> wal e' = wal e ->
  world_ok {| w_engine := e'; w_tasks := ts' |}.
Proof.
  intros (T & Sy & R & rs & g & OK & N & W & G) T' P S Ew. split; [exact T'|]. cbn [w_engine w_tasks] in *.
  split; [unfold synced in *; now rewrite Ew|]. split; [unfold has_room in *; now rewrite Ew|].
  exists rs, g. split; [exact OK|]. split; [exact N|]. split; [now rewrite Ew|]. intros key i. rewrite G.
  unfold logged_doc. now rewrite P, S.
Qed.

Lemma log_step now key d e g rs e1 r :
  engine_ok rs g -> wal g = wal e -> synced e -> has_room 1 e -> store_at key g !! id d = None ->
  valid_str key.1 = true -> valid_str key.2 = true -> doc_good d ->
  insert_log NoFault now key d e = (e1, r) ->
  synced e1 /\ has_room 0 e1
  /\ exists rs' g', engine_ok rs' g' /\ no_index g' /\ wal g' = wal e1
     /\ match r with
        | Ok _ => forall k, store_at k g' = if decide (k = key) then <[id d := d]> (store_at k g) else store_at k g
        | Err _ => forall k, store_at k g' = store_at k g
        | Panic => False
        end.
Proof.
  intros OK Ew [Sy1 Sy2] HR Hn V1 V2 Hd H. destruct key as [ns coll].
  assert (Room : has_room 1 g) by (unfold has_room in *; now rewrite Ew).
  destruct (execute_insert NoFault (fun _ => now) ns coll d g) as [g2 r2] eqn:E.
  destruct (execute_insert_ok (fun _ => now) ns coll d rs g 0 g2 r2 V1 V2 Hd OK Room E) as (HR2 & M & A).
  assert (Hc : insert_check (ns, coll) d g = Ok tt).
  { unfold insert_check, store_at in *. destruct (collections g !! (ns, coll)) as [s|]; [|reflexivity].
    cbn [from_option Datatypes.id] in Hn. now rewrite Hn. }
  unfold execute_insert in E. rewrite Hc in E. unfold insert_log, NbfRecord.payload_from_document in E, H.
  rewrite Ew in E. destruct (WriteAheadLog.append _ _ _ _ _ _ _ _ _) as [w ra]. injection H as <- <-.
  assert (F : r2 <> Panic -> wal g2 = w).
  { intros NP. destruct ra as [seq|er|]; [|now injection E as <- _|injection E as _ <-; contradiction].
    unfold insert_index in E. destruct (IndexManager.on_insert _ _) as [m [u|er|]]; injection E as <- <-; [reflexivity..|contradiction]. }
  assert (F2 : wal g2 = w) by (apply F; intros ->; destruct A).
  cbn [wal set_wal] in *. unfold synced, has_room. cbn [wal set_wal].
  assert (Mode : WriteAheadLog.sync_mode w = SyncAlways) by (rewrite <- F2, M, Ew; exact Sy1).
  split; [|split; [unfold has_room in HR2; now rewrite F2 in HR2|]].
  - split; [exact Mode|]. destruct r2 as [resp|er|]; [| |destruct A].
    + destruct A as (_ & _ & _ & _ & Hb). rewrite <- F2. apply Hb. now rewrite Ew.
    + destruct A as (_ & _ & Hb). rewrite <- F2, Hb, Ew. exact Sy2.
  - assert (D : match ra with Ok _ => is_ok r2 = true | Err er => r2 = Err er | Panic => r2 = Panic end).
    { destruct ra as [seq|er|]; [|now injection E as _ <-..].
      destruct (insert_index _ _ _) as [e3 [u|er|]]; injection E as _ <-; [reflexivity..|destruct A]. }
    destruct r2 as [resp|er|]; [| |destruct A].
    + destruct A as (_ & _ & S & (rs' & OK') & _). destruct (forget_indexes _ _ OK') as [OK2 N2].
      exists (rs ++ rs')%list, (set_indexes ∅ g2). split; [exact OK2|]. split; [exact N2|]. split; [exact F2|].
      destruct ra; [exact S|discriminate D..].
    + destruct A as (OK' & S & _). destruct (forget_indexes _ _ OK') as [OK2 N2].
      exists rs, (set_indexes ∅ g2). split; [exact OK2|]. split; [exact N2|]. split; [exact F2|].
      destruct ra; [discriminate D|exact S|discriminate D].
Qed.

(** ** Every step keeps the invariant *)

Lemma start_ok key doc w :
  world_ok w -> valid_str key.1 = true -> valid_str key.2 = true -> doc_good doc ->
  (forall t, t ∈ w_tasks w -> early t = true -> (it_key t, id (it_doc t)) <> (key, id doc)) ->
  world_ok (start_insert key doc w).
Proof.
  intros OK V1 V2 Hd Hf. destruct w as [e ts]. cbn [w_tasks] in Hf. pose proof OK as ([Uniq Good] & _). cbn [w_engine w_tasks] in *.
  unfold start_insert. cbn [w_engine w_tasks]. set (e1 := on_metrics _ (on_metrics _ e)). set (t0 := {| it_phase := _ |}).
  assert (Hnew : early t0 = true -> store_at key e1 !! id doc = None).
  { unfold early, t0. cbn [it_phase]. unfold insert_check, store_at. destruct (collections e1 !! key) as [s|]; cbn; [|intros _; apply lookup_empty].
    destruct (s !! id doc); [discriminate|reflexivity]. }
  apply (world_ok_same ts e); [exact OK| | |reflexivity|reflexivity].
  - split.
    + intros i i' t t' Hi Hi' Et Et' E. apply lookup_app_Some in Hi as [Hi|[Li Hi]], Hi' as [Hi'|[Li' Hi']].
      * eapply Uniq; eauto.
      * apply list_lookup_singleton_Some in Hi' as [Ei' <-]. exfalso.
        apply (Hf t); [now apply list_elem_of_lookup_2 in Hi|exact Et|exact E].
      * apply list_lookup_singleton_Some in Hi as [Ei <-]. exfalso.
        apply (Hf t'); [now apply list_elem_of_lookup_2 in Hi'|exact Et'|now symmetry].
      * apply list_lookup_singleton_Some in Hi as [Ei _], Hi' as [Ei' _]. lia.
    + intros i t Hi Et. apply lookup_app_Some in Hi as [Hi|[_ Hi]]; [exact (Good i t Hi Et)|].
      apply list_lookup_singleton_Some in Hi as [_ <-]. split; [exact (Hnew Et)|]. auto.
  - intros k i. unfold pending_at. rewrite omap_app. cbn [omap list_omap].
    assert (unstored t0 = false) as -> by (unfold unstored, t0; cbn; now destruct (insert_check key doc e1)).
    cbn [andb]. now rewrite app_nil_r.
Qed.

(** A step that leaves collections and log alone and is past the collection. *)
Lemma late_ok ts e n t p e' :
  world_ok {| w_engine := e; w_tasks := ts |} -> ts !! n = Some t ->
  early t = false -> early (set_phase p t) = false ->
  (forall key, store_at key e' = store_at key e) -> wal e' = wal e ->
  world_ok {| w_engine := e'; w_tasks := <[n := set_phase p t]> ts |}.
Proof.
  intros OK Hn He He' S W. pose proof OK as (T & _).
  assert (T' : tasks_ok (<[n := set_phase p t]> ts) e').
  { apply (tasks_ok_phase ts e); [exact T|exact Hn|now rewrite He'|]. intros. now rewrite S. }
  assert (L : forall x, early x = false -> unstored x = false).
  { intros x Hx. destruct (unstored x) eqn:E; [|reflexivity]. apply unstored_early in E. congruence. }
  apply (world_ok_same ts e); [exact OK|exact T'| |exact S|exact W].
  intros key i. apply (pending_late ts e e'); auto.
Qed.

Lemma logging_ok now ts e n t e1 r p :
  world_ok {| w_engine := e; w_tasks := ts |} -> has_room 1 e -> ts !! n = Some t -> it_phase t = Checked ->
  insert_log NoFault now (it_key t) (it_doc t) e = (e1, r) ->
  p = match r with Ok seq => Logged seq | Err er => Answered (Err er) | Panic => Answered Panic end ->
  world_ok {| w_engine := e1; w_tasks := <[n := set_phase p t]> ts |}.
Proof.
  intros (T & Sy & _ & rs & g & OK & N & W & G) HR Hn Hp H ->. cbn [w_engine w_tasks] in *.
  assert (He : early t = true) by (unfold early; now rewrite Hp).
  assert (Hu : unstored t = false) by (unfold unstored; now rewrite Hp).
  destruct (proj2 T n t Hn He) as (Hs & V1 & V2 & Hd). pose proof (insert_log_store _ _ _ _ _ _ _ H) as S.
  assert (Hg : store_at (it_key t) g !! id (it_doc t) = None).
  { rewrite G. unfold logged_doc. now rewrite (pending_free ts e t n). }
  destruct (log_step now (it_key t) (it_doc t) e g rs e1 r OK W Sy HR Hg V1 V2 Hd H) as (Sy1 & R1 & rs' & g' & OK' & N' & W' & A).
  set (p := match r with Ok _ => _ | Err _ => _ | Panic => _ end).
  assert (T' : tasks_ok (<[n := set_phase p t]> ts) e1).
  { apply (tasks_ok_phase ts e); [exact T|exact Hn|now rewrite He|]. intros. now rewrite S. }
  split; [exact T'|]. split; [exact Sy1|]. split; [exact R1|]. exists rs', g'. split; [exact OK'|]. split; [exact N'|]. split; [exact W'|].
  intros key i. cbn [w_engine w_tasks]. unfold logged_doc. rewrite (pending_phase ts e e1) by assumption. rewrite S.
  specialize (G key i). unfold logged_doc in G.
  destruct r as [seq|er|]; [| |destruct A]; rewrite A; cbn [p unstored set_phase it_phase].
  - destruct (decide ((key, i) = (it_key t, id (it_doc t)))) as [D|D].
    + injection D as -> ->. rewrite decide_True by reflexivity. apply lookup_insert_eq.
    + destruct (decide (key = it_key t)) as [->|D2]; [|exact G]. rewrite lookup_insert_ne by congruence. exact G.
  - case_decide as D; [|exact G]. injection D as -> ->. now rewrite (pending_free ts e t n) in G.
Qed.

Lemma storing_ok ts e n t seq :
  world_ok {| w_engine := e; w_tasks := ts |} -> ts !! n = Some t -> it_phase t = Logged seq ->
  world_ok {| w_engine := insert_store (it_key t) (it_doc t) e; w_tasks := <[n := set_phase (Stored seq) t]> ts |}.
Proof.
  intros (T & Sy & R & rs & g & OK & N & W & G) Hn Hp. cbn [w_engine w_tasks] in *.
  assert (He : early t = true) by (unfold early; now rewrite Hp). set (e' := insert_store _ _ e).
  assert (S : forall k i, store_at k e' !! i = if decide ((k, i) = (it_key t, id (it_doc t))) then Some (it_doc t) else store_at k e !! i).
  { intros k i. unfold e', insert_store. rewrite store_at_put. destruct (decide (k = it_key t)) as [->|D]; [|now rewrite decide_False by congruence].
    destruct (decide (i = id (it_doc t))) as [->|D].
    - rewrite decide_True by reflexivity. apply lookup_insert_eq.
    - rewrite decide_False by congruence. now apply lookup_insert_ne. }
  assert (T' : tasks_ok (<[n := set_phase (Stored seq) t]> ts) e').
  { apply (tasks_ok_phase ts e); [exact T|exact Hn|now rewrite He|]. intros m t' Hm Ht. rewrite S. case_decide as D; [|reflexivity].
    exfalso. destruct (decide (m = n)) as [->|Dm].
    - rewrite list_lookup_insert_eq in Hm by (eapply lookup_lt_Some, Hn). injection Hm as <-. discriminate Ht.
    - rewrite list_lookup_insert_ne in Hm by congruence. apply Dm. now apply (proj1 T m n t' t). }
  split; [exact T'|]. split; [exact Sy|]. split; [exact R|]. exists rs, g. split; [exact OK|]. split; [exact N|]. split; [exact W|].
  intros key i. rewrite G. cbn [w_engine w_tasks]. unfold logged_doc. rewrite (pending_phase ts e e') by assumption. rewrite S.
  case_decide as D; [|reflexivity]. injection D as -> ->. cbn [unstored set_phase it_phase].
  assert (pending_at ts (it_key t) (id (it_doc t)) = Some (it_doc t)) as ->; [|reflexivity].
  apply (pending_spec _ e); [exact T|]. exists n, t. unfold unstored. rewrite Hp. auto.
Qed.

Lemma run_insert_step_ok now i w : world_ok w -> has_room 1 (w_engine w) -> world_ok (run_insert_step now i w).
Proof.
  intros OK HR. destruct w as [e ts]. unfold run_insert_step. cbn [w_engine w_tasks] in *.
  destruct (ts !! i) as [t|] eqn:Hn; [|exact OK]. unfold advance_task. destruct (it_key t) as [ns coll] eqn:K. rewrite <- K.
  destruct (it_phase t) as [|seq|seq|seq|r] eqn:Hp.
  - destruct (insert_log NoFault now (it_key t) (it_doc t) e) as [e1 r] eqn:H.
    pose proof (logging_ok now ts e i t e1 r _ OK HR Hn Hp H eq_refl) as A. destruct r; exact A.
  - now apply storing_ok.
  - unfold insert_index. destruct (IndexManager.on_insert _ _) as [m [u|er|]];
      (apply (late_ok ts e); [exact OK|exact Hn|unfold early; now rewrite Hp|reflexivity..]).
  - apply (late_ok ts e); [exact OK|exact Hn|unfold early; now rewrite Hp|reflexivity..].
  - now rewrite list_insert_id.
Qed.

(** The identifiers a loop visits are stored, so no insert waits for one of them. *)
Lemma pending_stored ts e key i : tasks_ok ts e -> store_at key e !! i <> None -> pending_at ts key i = None.
Proof.
  intros T H. destruct (pending_at ts key i) as [d|] eqn:P; [|reflexivity]. exfalso.
  apply (pending_spec _ e) in P as (n & t & Hn & W & <- & <- & _); [|exact T].
  destruct (proj2 T n t Hn (unstored_early t W)) as (Hs & _). contradiction.
Qed.

(** A loop over stored identifiers, run on the engine and on its ghost. *)
Lemma loop_ok ts e e' key ids g g' rs' :
  tasks_ok ts e -> (forall k i, store_at k g !! i = logged_doc ts e k i) ->
  (forall i, i ∈ ids -> store_at key e !! i <> None) ->
  untouched key ids e e' -> untouched key ids g g' ->
  (forall i, i ∈ ids -> store_at key g' !! i = store_at key e' !! i) ->
  engine_ok rs' g' -> has_room 0 g' -> synced g' -> wal g' = wal e' ->
  world_ok {| w_engine := e'; w_tasks := ts |}.
Proof.
  intros T G Hids [Ue1 Ue2] [Ug1 Ug2] A OK HR Sy W. split; cbn [w_engine w_tasks].
  - destruct T as [Uniq Good]. split; [exact Uniq|]. intros i t Hi Et. destruct (Good i t Hi Et) as (Hs & V).
    split; [|exact V]. destruct (decide (it_key t = key)) as [<-|D]; [|now rewrite Ue1].
    rewrite Ue2; [exact Hs|]. intros Hin. now apply Hids in Hin.
  - split; [unfold synced in *; now rewrite <- W|]. split; [unfold has_room in *; now rewrite <- W|].
    destruct (forget_indexes _ _ OK) as [OK2 N2]. exists rs', (set_indexes ∅ g').
    split; [exact OK2|]. split; [exact N2|]. split; [exact W|]. intros k i.
    change (store_at k (set_indexes ∅ g')) with (store_at k g'). unfold logged_doc.
    destruct (decide (k = key)) as [->|D].
    + destruct (decide (i ∈ ids)) as [Hin|Hin].
      * rewrite (pending_stored ts e) by auto. now apply A.
      * rewrite Ug2, Ue2 by assumption. apply G.
    + rewrite Ug1, Ue1 by assumption. apply G.
Qed.

(** The log has room for a loop over the identifiers of a collection. *)
Lemma loop_room e g n (ids : list DocumentId) : wal g = wal e -> (List.length ids <= n)%nat -> has_room n e -> has_room (List.length ids + 0) g.
Proof. intros W L R. unfold has_room. rewrite W. eapply has_room_weaken; [|exact R]. lia. Qed.

Lemma entry_untouched key ids e e1 : untouched key ids (entry_both key e) e1 -> untouched key ids e e1.
Proof.
  destruct (entry_both_same key e) as [S _]. intros [A1 A2].
  split; [intros k Hk; now rewrite A1|intros i Hi; now rewrite A2, S].
Qed.

(** The metrics and the events are not part of the invariant. *)
Lemma world_ok_ext ts e e' :
  world_ok {| w_engine := e; w_tasks := ts |} -> (forall key, store_at key e' = store_at key e) -> wal e' = wal e ->
  world_ok {| w_engine := e'; w_tasks := ts |}.
Proof.
  intros OK S W. apply (world_ok_same ts e); [exact OK| |reflexivity|exact S|exact W].
  destruct OK as ([Uniq Good] & _). split; [exact Uniq|]. intros i t Hi Et. rewrite S. exact (Good i t Hi Et).
Qed.

Lemma update_ok now ns coll asg filter ts e e' us :
  world_ok {| w_engine := e; w_tasks := ts |} -> stmt_ok now ns (SUpdate coll asg filter) e ->
  update_changes NoFault now ns coll asg filter e = (e', Ok us) ->
  world_ok {| w_engine := e'; w_tasks := ts |}.
Proof.
  intros (T & Sy & _ & rs & g & OK & N & W & G) (V1 & V2 & Room & HG) H. cbn [w_engine w_tasks] in *.
  unfold update_changes in H. set (key := (ns, coll)) in *. destruct (entry_both_same key e) as [Es _].
  rewrite Es in H. set (ids := store_keys (store_at key e)) in *.
  assert (Hids : forall i, i ∈ ids -> store_at key e !! i <> None).
  { intros i Hi. apply elem_of_store_keys in Hi as [d ->]. discriminate. }
  assert (Ag : forall i, i ∈ ids -> store_at key g !! i = store_at key e !! i).
  { intros i Hi. rewrite G. unfold logged_doc. now rewrite (pending_stored ts e) by auto. }
  destruct (update_loop_twins now 0 key asg filter ids [] (entry_both key e) e' us g (NoDup_store_ids _)) as (g2 & Eg & Wg & Ue & Ug & A).
  { split; [exact W|]. split; [apply N|]. intros i Hi. rewrite Es. now apply Ag. }
  { exact H. }
  assert (Hlen : (List.length ids <= size (store_at key e))%nat) by (unfold ids; now rewrite length_store_keys).
  assert (HG' : forall i d, i ∈ ids -> store_at key g !! i = Some d -> good_update now asg filter d)
    by (intros i d Hi; rewrite Ag by assumption; apply HG).
  destruct (update_loop_ok now 0 key asg filter ids [] rs g 0 g2 us V1 V2 (NoDup_store_ids _) OK (loop_room e g _ ids W Hlen Room) HG' Eg)
    as ((rs' & OK') & HR' & M & Buf & _).
  apply (loop_ok ts e e' key ids g g2 (rs ++ rs')); try assumption; [now apply entry_untouched|].
  destruct Sy as [S1 S2]. split; [now rewrite M, W|]. apply Buf; now rewrite W.
Qed.

Lemma remove_ok now ns coll filter ts e e' us :
  world_ok {| w_engine := e; w_tasks := ts |} -> stmt_ok now ns (SRemove coll filter) e ->
  remove_changes NoFault now ns coll filter e = (e', Ok us) ->
  world_ok {| w_engine := e'; w_tasks := ts |}.
Proof.
  intros (T & Sy & _ & rs & g & OK & N & W & G) (V1 & V2 & Room) H. cbn [w_engine w_tasks] in *.
  unfold remove_changes in H. set (key := (ns, coll)) in *. destruct (entry_both_same key e) as [Es _].
  rewrite Es in H. destruct (target_ids filter (store_at key e) (store_keys (store_at key e))) as [ids|er|] eqn:Et; [|discriminate H..].
  apply target_ids_spec in Et.
  assert (HN : NoDup ids) by (subst ids; apply NoDup_ListNoDup, List.NoDup_filter, NoDup_ListNoDup, NoDup_store_ids).
  assert (Hlen : (List.length ids <= size (store_at key e))%nat).
  { subst ids. rewrite <- length_store_keys. apply List.filter_length_le. }
  assert (Hids : forall i, i ∈ ids -> store_at key e !! i <> None).
  { intros i Hi. subst ids. apply list_elem_of_In, filter_In in Hi as [_ Hi]. now destruct (store_at key e !! i). }
  assert (Ag : forall i, i ∈ ids -> store_at key g !! i = store_at key e !! i).
  { intros i Hi. rewrite G. unfold logged_doc. now rewrite (pending_stored ts e) by auto. }
  destruct (remove_loop_twins now 0 key ids [] (entry_both key e) e' us g HN) as (g2 & Eg & Wg & Ue & Ug & A).
  { split; [exact W|]. split; [apply N|]. intros i Hi. rewrite Es. now apply Ag. }
  { exact H. }
  destruct (remove_loop_ok now 0 key ids [] rs g 0 g2 us V1 V2 HN OK (loop_room e g _ ids W Hlen Room) Eg)
    as ((rs' & OK') & HR' & M & Buf & _).
  apply (loop_ok ts e e' key ids g g2 (rs ++ rs')); try assumption; [now apply entry_untouched|].
  destruct Sy as [S1 S2]. split; [now rewrite M, W|]. apply Buf; now rewrite W.
Qed.

Lemma create_index_same ns coll field ty e e' r :
  execute_create_index ns coll field ty e = (e', r) -> wal e' = wal e /\ forall k, store_at k e' = store_at k e.
Proof.
  unfold execute_create_index. intros H. repeat case_match; apply pair_eq in H as [<- _]; now split.
Qed.

Lemma drop_index_same ns coll field e e' r :
  execute_drop_index ns coll field e = (e', r) -> wal e' = wal e /\ forall k, store_at k e' = store_at k e.
Proof.
  unfold execute_drop_index. intros H. repeat case_match; apply pair_eq in H as [<- _]; now split.
Qed.

Lemma statement_ok now ns stmt ts e e' r :
  world_ok {| w_engine := e; w_tasks := ts |} ->
  (match stmt with SInsert _ _ | SUpdate _ _ _ | SRemove _ _ => False | _ => True end) ->
  execute NoFault now stmt ns e = (e', r) -> world_ok {| w_engine := e'; w_tasks := ts |}.
Proof.
  intros OK Hi H.
  assert (OKm : forall f g, world_ok {| w_engine := on_metrics f (on_metrics g e); w_tasks := ts |})
    by (intros f g; now apply (world_ok_ext ts e)).
  assert (OK1 : forall g, world_ok {| w_engine := on_metrics g e; w_tasks := ts |}) by (intros g; now apply (world_ok_ext ts e)).
  destruct stmt; cbn [execute] in H; try (apply pair_eq in H as [<- _]; first [apply OKm|apply OK1]); [contradiction..| |].
  - apply create_index_same in H as [W S]. exact (world_ok_ext ts _ e' (OK1 _) S W).
  - apply drop_index_same in H as [W S]. exact (world_ok_ext ts _ e' (OK1 _) S W).
Qed.

Lemma send_next_same now i w :
  w_tasks (send_next now i w) = w_tasks w /\ (forall key, store_at key (w_engine (send_next now i w)) = store_at key (w_engine w))
  /\ (forall key, manager_at key (w_engine (send_next now i w)) = manager_at key (w_engine w))
  /\ wal (w_engine (send_next now i w)) = wal (w_engine w).
Proof. unfold send_next. destruct (w_unsent w !! i) as [[mk [|u us]]|]; now repeat split. Qed.

Lemma worlds_ok w : worlds w -> world_ok w.
Proof.
  induction 1 as [e HR|w w' HW IH Hs].
  - destruct (Reach_ok e HR) as ((rs & OK) & R & Sy & _). split; [split; [intros ? ? ? ? H; discriminate H|intros ? ? H; discriminate H]|].
    split; [exact Sy|]. split; [exact R|]. destruct (forget_indexes _ _ OK) as [OK2 N2].
    exists rs, (set_indexes ∅ e). split; [exact OK2|]. split; [exact N2|]. split; reflexivity.
  - destruct w as [[e ts] out]. cbn [w_serving w_engine w_tasks] in *.
    assert (OK1 : world_ok {| w_engine := count_write e; w_tasks := ts |}) by now apply (world_ok_ext ts e).
    destruct Hs as [key doc V1 V2 Hd Hf|now i HR|now ns coll asg filter e' us Hs H|now ns coll filter e' us Hs H|now i|now ns stmt e' r Hi H].
    + now apply start_ok.
    + now apply run_insert_step_ok.
    + exact (update_ok now ns coll asg filter ts _ e' us OK1 Hs H).
    + exact (remove_ok now ns coll filter ts _ e' us OK1 Hs H).
    + destruct (send_next_same now i {| w_serving := {| w_engine := e; w_tasks := ts |}; w_unsent := out |}) as (T & S & _ & W).
      destruct (send_next _ _ _) as [[e' ts'] out']. cbn in T. subst ts'. exact (world_ok_ext ts e e' IH S W).
    + exact (statement_ok now ns stmt ts e e' r IH Hi H).
Qed.

(** C17: interleaved inserts are durable.  However the steps of any number of inserts
    interleave with each other and with other statements, as long as no two inserts of
    one identifier are between their check and their collection at once: at any moment
    the server may be stopped, and opening its directory gives in every collection the
    stored documents, unchanged by what was in flight, and those inserts had logged but
    not stored; when no insert is at that point, exactly the stored documents. *)
Theorem interleaved_inserts_are_durable w cfg m :
  worlds w ->
  exists e', Engine.open cfg m (WriteAheadLog.dir (wal (w_engine w))) = Ok e'
    /\ (forall key i, store_at key e' !! i
         = match pending_at (w_tasks w) key i with Some d => Some d | None => store_at key (w_engine w) !! i end)
    /\ ((forall t, t ∈ w_tasks w -> unstored t = false) -> forall key, store_at key e' = store_at key (w_engine w)).
Proof.
  intros HW. destruct (worlds_ok w HW) as (T & Sy & R & rs & g & OK & _ & W & G).
  destruct (restart_ok rs g cfg m OK) as (e' & E & S).
  { unfold has_room in *. now rewrite W. }
  { unfold synced in *. now rewrite W. }
  rewrite W in E. exists e'. split; [exact E|]. split; [intros key i; rewrite S; apply G|].
  intros Hn key. apply map_eq. intros i. rewrite S, G. unfold logged_doc.
  destruct (pending_at (w_tasks w) key i) as [d|] eqn:P; [|reflexivity].
  apply (pending_spec _ (w_engine w)) in P as (n & t & Ht & Hu & _); [|exact T].
  apply list_elem_of_lookup_2, Hn in Ht. congruence.
Qed.
End Ghost.

(** ** On the sample database *)

Definition users : CollectionKey := ("default", "users")%string.

(** An insert starts; [n] steps of the [i]-th insert. *)
Definition start (doc : Document) (w : World) : World := set_serving (start_insert users doc w) w.
Definition step_of (i : nat) (w : World) : World := set_serving (run_insert_step 2000 i w) w.
Fixpoint steps_of (n i : nat) (w : World) : World :=
  match n with O => w | S n => steps_of n i (step_of i w) end.

(** UPDATE and REMOVE on the users; their events wait. *)
Definition changed (r : result (list Updated)) : list Updated := match r with Ok us => us | _ => [] end.
Definition updating (asg : list Assignment) (filter : option Expr) (w : World) : World :=
  let x := update_changes NoFault sample_now "default" "users" asg filter (count_write (w_engine w)) in
  announce_later x.1 {| out_event := update_event "default" "users"; out_left := changed x.2 |} w.
Definition removing (filter : option Expr) (w : World) : World :=
  let x := remove_changes NoFault sample_now "default" "users" filter (count_write (w_engine w)) in
  announce_later x.1 {| out_event := delete_event "default" "users"; out_left := changed x.2 |} w.

Lemma removing_step filter (w : World) :
  has_room (size (store_at users (w_engine w))) (w_engine w) ->
  is_ok (remove_changes NoFault sample_now "default" "users" filter (count_write (w_engine w))).2 = true ->
  world_step w (removing filter w).
Proof.
  intros R H. unfold removing. destruct (remove_changes _ _ _ _ _ _) as [e' [us|er|]] eqn:E; [|discriminate H..]. cbn [fst snd changed].
  apply (Run_remove w sample_now "default" "users" filter e' us); [|exact E]. split; [reflexivity|]. split; [reflexivity|exact R].
Qed.

Lemma worlds_run {B : Build} {AN : ArithNan} {HO : HashOrder} {C : CrcLib} {U : UuidLib} {J : JsonLib} w w' :
  worlds w -> rtc world_step w w' -> worlds w'.
Proof. intros HW HS. revert HW. induction HS as [w|w w1 w' H HS IH]; intros HW; [exact HW|]. now apply IH, (Worlds_step w). Qed.

(** Bob is logged, and then the users are removed. *)
Definition bob_in_flight : World := step_of 0 (start bob (alone engine1)).
Definition users_removed : World := removing None bob_in_flight.

Lemma room_enough e :
  (WriteAheadLog.current_segment_index (wal e) + 1 <=? u64_max)
  && (WriteAheadLog.current_sequence (wal e) + 1 <=? u64_max) = true -> has_room 1 e.
Proof. intros H. bool_facts. unfold has_room, budget, seq_budget. lia. Qed.

Lemma start_step doc (w : World) :
  doc_good doc -> (forall t, t ∈ w_tasks w -> early t = true -> (it_key t, id (it_doc t)) <> (users, id doc)) -> world_step w (start doc w).
Proof. intros G H. now apply Start_insert. Qed.

Lemma users_removed_worlds : worlds users_removed.
Proof.
  apply (Worlds_step bob_in_flight).
  - apply (Worlds_step (start bob (alone engine1))).
    + apply (Worlds_step (alone engine1)); [apply Worlds_start, engine1_reach|].
      apply start_step; [split; [|split]; vm_compute; reflexivity|]. intros t Ht. now apply not_elem_of_nil in Ht.
    + apply Run_step. apply room_enough. vm_compute. reflexivity.
  - apply removing_step; [|vm_compute; reflexivity].
    replace (size (store_at users (w_engine bob_in_flight))) with 1%nat by (vm_compute; reflexivity).
    apply room_enough. vm_compute. reflexivity.
Qed.

Lemma interleaved_inserts_are_durable_witness :
  exists e', Engine.open config_default (Metrics.new 5) (WriteAheadLog.dir (wal (w_engine users_removed))) = Ok e'
    /\ store_at users e' !! "u2"%string = Some bob /\ store_at users e' !! "u1"%string = None.
Proof.
  destruct (interleaved_inserts_are_durable users_removed config_default (Metrics.new 5) users_removed_worlds) as (e' & E & S & _).
  exists e'. split; [exact E|]. rewrite !S. split; vm_compute; reflexivity.
Defined.

(** Two inserts of one identifier checked together: the one that stores last is in
    memory, the one that logs last is in the log. *)
Example racing_inserts_change_at_the_restart :
  let bob' := user "u2" "Eve" (VInt 1) in
  let w := steps_of 3 0 (steps_of 3 1 (step_of 0 (start bob' (start bob (alone engine1))))) in
  store_at users (w_engine w) !! "u2"%string = Some bob
  /\ match Engine.open config_default (Metrics.new 5) (WriteAheadLog.dir (wal (w_engine w))) with
     | Ok e' => store_at users e' !! "u2"%string = Some bob'
     | _ => False
     end.
Proof. split; vm_compute; reflexivity. Qed.

(** An UPDATE between the store and the index of an insert: the insert indexes the old
    value after the new one, and a range search answers with the document twice. *)
Example late_index_entry_duplicates_the_answer :
  let eve := user "u9" "Eve" (VInt 40) in
  let aged := updating [{| as_field := "age"; as_expr := ELiteral (VInt 41) |}]
                (Some (EBinary Eq_ (EField "name") (ELiteral (VString "Eve")))) in
  let over := Some (EBinary GtEq (EField "age") (ELiteral (VInt 35))) in
  let w := steps_of 2 0 (aged (steps_of 2 0 (start eve (alone engine3)))) in
  match answer (SFind "users" over None None None) (w_engine w) with
  | Ok (PRecords docs n) => List.map id docs = ["u9"; "u9"]%string /\ n = 2
  | _ => False
  end
  /\ answer (SCount "users" over) (w_engine w) = Ok (PCount 1).
Proof. vm_compute. repeat split. Qed.
