(* ===== verification/ConcurrencyIndexes.v ===== *)
(** The indexes while inserts are in flight: an index may hold entries nobody wants, but a
    search misses no document except those whose insert has stored and not yet indexed. *)

From S2P Require Export Covers EngineProps ConcurrencyProps.

Section Indexes.
Context {B : Build} {AN : ArithNan} {HO : HashOrder} {HL : HashOrderLaws HO}
  {C : CrcLib} {CL : CrcLaws C} {U : UuidLib} {UL : UuidLaws U} {J : JsonLib} {JL : JsonLaws J}.

(** ** The loops of UPDATE and REMOVE *)

Lemma store_ok_insert (s : DocumentStore) d : store_ok s -> doc_ordinary d = true -> store_ok (<[id d := d]> s).
Proof. intros Sk Hd i x. rewrite lookup_insert_Some. intros [[<- <-]|[_ H]]; [now split|now apply Sk]. Qed.

Lemma store_ok_delete (s : DocumentStore) i : store_ok s -> store_ok (delete i s).
Proof. intros Sk j x. rewrite lookup_delete_Some. intros [_ H]. now apply Sk. Qed.

(** The collection and its indexes after one document was replaced or deleted. *)
Lemma put_both key s w m e :
  store_at key (put_manager key m (set_wal w (put_store key s e))) = s
  /\ manager_at key (put_manager key m (set_wal w (put_store key s e))) = m.
Proof. split; [apply (store_at_put_eq key s e)|apply manager_at_put_eq]. Qed.

Lemma update_loop_covers now t key asg filter late ids acc e e' us :
  docs_ordinary late -> NoDup ids -> store_ok (store_at key e) ->
  (forall i d, i ∈ ids -> store_at key e !! i = Some d -> good_update now asg filter d) ->
  manager_covers (store_at key e) late (manager_at key e) ->
  update_loop NoFault now t key asg filter ids acc e = (e', Ok us) ->
  manager_covers (store_at key e') late (manager_at key e').
Proof.
  intros Hl HN. revert t acc e. induction HN as [|i ids Hni HN IH]; intros t acc e Sk HG M H; cbn [update_loop] in H; [now injection H as <- <-|].
  assert (HG' : forall j d, j ∈ ids -> store_at key e !! j = Some d -> good_update now asg filter d)
    by (intros j d Hj; apply HG; now right).
  destruct (store_at key e !! i) as [before|] eqn:Eb; [|exact (IH t acc e Sk HG' M H)].
  destruct (matches_filter filter before) as [[|]|er|] eqn:Em; [|exact (IH t acc e Sk HG' M H)|discriminate H..].
  destruct (apply_assignments (now t) before asg) as [after [[]|er|]] eqn:Ea; [|discriminate H..].
  destruct (NbfRecord.payload_from_document after) as [payload|er|]; [|discriminate H..].
  destruct (WriteAheadLog.append _ _ _ _ _ _ _ _ _) as [w [seq|er|]]; [|discriminate H..].
  pose proof (apply_assignments_id (now t) before asg) as Hid. rewrite Ea in Hid. cbn [fst] in Hid.
  destruct (Sk i before Eb) as [Ei Ob]. destruct (HG i before (list_elem_of_here _ _) Eb Em t after Ea) as [Oa _].
  change (manager_at key (set_wal w (put_store key ?s e))) with (manager_at key e) in H.
  destruct (manager_update_covers (store_at key e) late before after (manager_at key e) M Hl) as (m & Eu & M'); [now rewrite Ei|exact Hid|exact Ob|exact Oa|].
  rewrite Eu in H. rewrite Hid, Ei in M'.
  destruct (put_both key (<[i := after]> (store_at key e)) w m e) as [P1 P2].
  apply IH in H; [exact H|..]; rewrite P1; [rewrite <- Ei, <- Hid; now apply store_ok_insert| |now rewrite P2].
  intros j d Hj Hd. apply (HG j); [now right|]. rewrite lookup_insert_ne in Hd; [exact Hd|]. now intros <-.
Qed.

Lemma remove_loop_covers now t key late ids acc e e' us :
  store_ok (store_at key e) -> manager_covers (store_at key e) late (manager_at key e) ->
  remove_loop NoFault now t key ids acc e = (e', Ok us) ->
  manager_covers (store_at key e') late (manager_at key e').
Proof.
  revert t acc e. induction ids as [|i ids IH]; intros t acc e Sk M H; cbn [remove_loop] in H; [now injection H as <- <-|].
  destruct (store_at key e !! i) as [d|] eqn:Ed; [|exact (IH t acc e Sk M H)].
  destruct (WriteAheadLog.append _ _ _ _ _ _ _ _ _) as [w [seq|er|]]; [|discriminate H..].
  destruct (Sk i d Ed) as [Ei Od]. change (manager_at key (set_wal w (put_store key ?s e))) with (manager_at key e) in H.
  destruct (manager_remove_covers (store_at key e) late d (manager_at key e) M Od) as (m & Er & M'). rewrite Er in H. rewrite Ei in M'.
  destruct (put_both key (delete i (store_at key e)) w m e) as [P1 P2].
  apply IH in H; [exact H|..]; rewrite P1; [now apply store_ok_delete|now rewrite P2].
Qed.

(** ** One statement *)

Lemma frame_count_write key e e' : frame key (count_write e) e' -> frame key e e'.
Proof. intros F k Dk. exact (F k Dk). Qed.

Lemma frame_entry_both key e : frame key e (entry_both key e).
Proof. intros k _. destruct (entry_both_same key e) as [-> ->]. now split. Qed.

Lemma frame_update_changes now ns coll asg filter e e' r fault :
  update_changes fault now ns coll asg filter (count_write e) = (e', r) -> frame (ns, coll) e e'.
Proof.
  intros H. apply frame_count_write. transitivity (entry_both (ns, coll) (count_write e)); [apply frame_entry_both|].
  unfold update_changes in H. pose proof (frame_update_loop fault now 0 (ns, coll) asg filter
    (store_keys (store_at (ns, coll) (entry_both (ns, coll) (count_write e)))) [] (entry_both (ns, coll) (count_write e))) as F. now rewrite H in F.
Qed.

Lemma frame_remove_changes now ns coll filter e e' r fault :
  remove_changes fault now ns coll filter (count_write e) = (e', r) -> frame (ns, coll) e e'.
Proof.
  intros H. apply frame_count_write. transitivity (entry_both (ns, coll) (count_write e)); [apply frame_entry_both|].
  unfold remove_changes in H. destruct (target_ids _ _ _) as [ids|er|]; [|now apply pair_eq in H as [<- _]..].
  pose proof (frame_remove_loop fault now 0 (ns, coll) ids [] (entry_both (ns, coll) (count_write e))) as F. now rewrite H in F.
Qed.

Lemma update_covers now ns coll asg filter late e e' us :
  docs_ordinary late -> stmt_ok now ns (SUpdate coll asg filter) e ->
  store_ok (store_at (ns, coll) e) -> manager_covers (store_at (ns, coll) e) late (manager_at (ns, coll) e) ->
  update_changes NoFault now ns coll asg filter (count_write e) = (e', Ok us) ->
  manager_covers (store_at (ns, coll) e') late (manager_at (ns, coll) e').
Proof.
  intros Hl (_ & _ & _ & HG) Sk M H. unfold update_changes in H. set (key := (ns, coll)) in *.
  destruct (entry_both_same key (count_write e)) as [Es Em].
  refine (update_loop_covers now 0 key asg filter late _ [] _ e' us Hl (NoDup_store_ids _) _ _ _ H); rewrite ?Es, ?Em; [exact Sk| |exact M].
  intros i d _. exact (HG i d).
Qed.

Lemma remove_covers now ns coll filter late e e' us :
  store_ok (store_at (ns, coll) e) -> manager_covers (store_at (ns, coll) e) late (manager_at (ns, coll) e) ->
  remove_changes NoFault now ns coll filter (count_write e) = (e', Ok us) ->
  manager_covers (store_at (ns, coll) e') late (manager_at (ns, coll) e').
Proof.
  intros Sk M H. unfold remove_changes in H. set (key := (ns, coll)) in *. destruct (entry_both_same key (count_write e)) as [Es Em].
  destruct (target_ids _ _ _) as [ids|er|]; [|discriminate H..].
  refine (remove_loop_covers now 0 key late ids [] _ e' us _ _ H); rewrite ?Es, ?Em; [exact Sk|exact M].
Qed.

Lemma statement_covers now ns stmt late e e' r :
  (match stmt with SInsert _ _ | SUpdate _ _ _ | SRemove _ _ => False | _ => True end) ->
  store_ok (store_at (ns, target stmt) e) ->
  manager_covers (store_at (ns, target stmt) e) late (manager_at (ns, target stmt) e) ->
  execute NoFault now stmt ns e = (e', r) ->
  manager_covers (store_at (ns, target stmt) e') late (manager_at (ns, target stmt) e').
Proof.
  intros Hi Sk M H.
  destruct stmt; cbn [execute target] in *; try (apply pair_eq in H as [<- _]; exact M); [contradiction..| |].
  - set (e1 := on_metrics _ e) in H. destruct (create_index_built ns collection field _ e1 e' r Sk H) as (_ & idx & -> & R & _).
    rewrite manager_at_put_eq. change (store_at ?k (put_manager _ _ _)) with (store_at k e).
    apply manager_add_covers; [exact M|now apply represents_covers].
  - unfold execute_drop_index in H. set (e1 := on_metrics _ e) in H. set (key := (ns, collection)) in *.
    destruct (indexes e1 !! key) as [mgr|] eqn:Em; [|apply pair_eq in H as [<- _]; exact M].
    assert (E : e' = put_manager key (IndexManager.drop_index (idx_name collection field) mgr).1 e1)
      by (destruct (IndexManager.drop_index _ mgr) as [m' [|]]; apply pair_eq in H as [<- _]; reflexivity).
    subst e'. rewrite manager_at_put_eq. change (store_at ?k (put_manager _ _ _)) with (store_at k e).
    apply manager_drop_covers. unfold manager_at in M. change (indexes e) with (indexes e1) in M. now rewrite Em in M.
Qed.

(** ** The inserts that have stored and not yet indexed *)

Definition unindexed (t : InsertTask) : bool :=
  match it_phase t with Stored _ => true | _ => false end.

Definition late_docs (ts : list InsertTask) (key : CollectionKey) : list Document :=
  omap (fun t => if unindexed t && bool_decide (it_key t = key) then Some (it_doc t) else None) ts.

Lemma elem_of_late_docs ts key d :
  d ∈ late_docs ts key <-> exists t, t ∈ ts /\ unindexed t = true /\ it_key t = key /\ it_doc t = d.
Proof.
  unfold late_docs. rewrite list_elem_of_omap. split; intros (t & Ht & H); exists t; (split; [exact Ht|]).
  - destruct (unindexed t); [|discriminate]. cbn [andb] in H. case_bool_decide; [|discriminate]. now injection H as <-.
  - destruct H as (-> & Hk & ->). now rewrite bool_decide_true.
Qed.

(** An insert that moves on stops being owed; the others still are. *)
Lemma late_docs_phase ts n t p key x :
  ts !! n = Some t -> x ∈ late_docs ts key ->
  unindexed t = true /\ it_key t = key /\ it_doc t = x \/ x ∈ late_docs (<[n := set_phase p t]> ts) key.
Proof.
  intros Hn (u & Hu & Wu & Ku & Du)%elem_of_late_docs. apply list_elem_of_lookup in Hu as [m Hm].
  destruct (decide (m = n)) as [->|D]; [left; rewrite Hn in Hm; now injection Hm as <-|right].
  apply elem_of_late_docs. exists u. split; [|auto]. apply (list_elem_of_lookup_2 _ m). now rewrite list_lookup_insert_ne.
Qed.

(** ** The invariant *)

(** Every index covers its collection, but for those inserts. *)
Definition covered (w : Serving) : Prop :=
  (forall t, t ∈ w_tasks w -> doc_ordinary (it_doc t) = true)
  /\ forall key, manager_covers (store_at key (w_engine w)) (late_docs (w_tasks w) key) (manager_at key (w_engine w)).

Lemma late_ordinary ts key : (forall t, t ∈ ts -> doc_ordinary (it_doc t) = true) -> docs_ordinary (late_docs ts key).
Proof. intros H d (t & Ht & _ & _ & <-)%elem_of_late_docs. now apply H. Qed.

Lemma world_stores (w : World) key : worlds w -> store_ok (store_at key (w_engine w)).
Proof.
  intros HW i d Hd. destruct (worlds_ok w HW) as (T & _ & _ & rs & g & (_ & I & _) & _ & _ & G).
  destruct (I key) as [Sk _]. apply Sk. rewrite G. unfold logged_doc.
  rewrite (pending_stored _ (w_engine w)); [exact Hd|exact T|]. now rewrite Hd.
Qed.

(** A task at its next phase has the same document. *)
Lemma tasks_ordinary_phase (ts : list InsertTask) (n : nat) t p :
  ts !! n = Some t -> (forall u, u ∈ ts -> doc_ordinary (it_doc u) = true) ->
  forall u, u ∈ <[n := set_phase p t]> ts -> doc_ordinary (it_doc u) = true.
Proof.
  intros Hn H u Hu. apply list_elem_of_lookup in Hu as [m Hm]. apply list_lookup_insert_Some in Hm as [(<- & <- & _)|[_ Hm]].
  - apply (H t). now apply (list_elem_of_lookup_2 _ n).
  - apply H. now apply (list_elem_of_lookup_2 _ m).
Qed.

Lemma covered_quiet e ts n t p e' :
  covered {| w_engine := e; w_tasks := ts |} -> ts !! n = Some t -> unindexed t = false ->
  (forall key, store_at key e' = store_at key e) -> (forall key, manager_at key e' = manager_at key e) ->
  covered {| w_engine := e'; w_tasks := <[n := set_phase p t]> ts |}.
Proof.
  intros [D M] Hn Hu S I. split; [now apply tasks_ordinary_phase|]. intros key. cbn [w_engine w_tasks] in *. rewrite S, I.
  apply (manager_more_covers _ (late_docs ts key)); [apply M|]. intros x Hx.
  destruct (late_docs_phase ts n t p key x Hn Hx) as [(H & _)|H]; [congruence|exact H].
Qed.

Lemma run_step_covered now i w : covered w -> covered (run_insert_step now i w).
Proof.
  intros [D M]. pose proof (conj D M : covered w) as K. unfold run_insert_step. destruct w as [e ts]. cbn [w_tasks w_engine] in *.
  destruct (ts !! i) as [t|] eqn:Hn; [|exact K]. assert (Od : doc_ordinary (it_doc t) = true) by (apply D; now apply (list_elem_of_lookup_2 _ i)).
  unfold advance_task. destruct (it_key t) as [ns coll] eqn:Ek. set (key := (ns, coll)) in *. destruct (it_phase t) as [|seq|seq|seq|r] eqn:Ep.
  - assert (U1 : unindexed t = false) by (unfold unindexed; now rewrite Ep). unfold insert_log.
    destruct (NbfRecord.payload_from_document (it_doc t)) as [pl|er|]; [destruct (WriteAheadLog.append _ _ _ _ _ _ _ _ _) as [wl [seq|er|]]|..];
      now apply (covered_quiet e).
  - split; [now apply tasks_ordinary_phase|]. intros k. cbn [w_engine w_tasks]. unfold insert_store. rewrite store_at_put.
    change (manager_at k (put_store _ _ e)) with (manager_at k e).
    assert (L : forall x, x ∈ late_docs ts k -> x ∈ late_docs (<[i := set_phase (Stored seq) t]> ts) k).
    { intros x Hx. destruct (late_docs_phase ts i t (Stored seq) k x Hn Hx) as [(H & _)|H]; [|exact H].
      unfold unindexed in H. now rewrite Ep in H. }
    case_decide as Dk; [subst k|now apply (manager_more_covers _ (late_docs ts k))].
    apply (manager_store_covers _ (late_docs ts key)); [apply M|exact Od| |exact L].
    apply elem_of_late_docs. exists (set_phase (Stored seq) t). split; [|now split].
    apply (list_elem_of_lookup_2 _ i). rewrite list_lookup_insert_eq; [reflexivity|]. eapply lookup_lt_Some, Hn.
  - unfold insert_index.
    assert (L : forall k p x, x ∈ late_docs ts k -> k = key /\ x = it_doc t \/ x ∈ late_docs (<[i := set_phase p t]> ts) k).
    { intros k p x Hx. destruct (late_docs_phase ts i t p k x Hn Hx) as [(_ & H1 & H2)|H]; [left; split; congruence|now right]. }
    destruct (manager_late_covers (store_at key e) (late_docs ts key) (late_docs (<[i := set_phase (Indexed seq) t]> ts) key)
      (it_doc t) (manager_at key e) (M key) Od) as (m & E & M').
    { intros x Hx. destruct (L key (Indexed seq) x Hx) as [[_ ->]|H]; [now left|now right]. }
    rewrite E. split; [now apply tasks_ordinary_phase|]. intros k. cbn [w_engine w_tasks]. rewrite manager_at_put.
    change (store_at k (put_manager _ _ e)) with (store_at k e). case_decide as Dk; [now subst k|].
    apply (manager_more_covers _ (late_docs ts k)); [apply M|]. intros x Hx. destruct (L k (Indexed seq) x Hx) as [[-> _]|H]; [contradiction|exact H].
  - apply (covered_quiet e); auto. unfold unindexed. now rewrite Ep.
  - now rewrite list_insert_id.
Qed.

(** A statement on one collection leaves the others covered. *)
Lemma covered_frame key e e' ts :
  covered {| w_engine := e; w_tasks := ts |} -> frame key e e' ->
  manager_covers (store_at key e') (late_docs ts key) (manager_at key e') -> covered {| w_engine := e'; w_tasks := ts |}.
Proof.
  intros [D M] F H. split; [exact D|]. intros k. cbn [w_tasks w_engine] in *.
  destruct (decide (k = key)) as [->|Dk]; [exact H|]. destruct (F k Dk) as [-> ->]. apply M.
Qed.

Lemma worlds_covered w : worlds w -> covered w.
Proof.
  induction 1 as [e HR|w w' HW IH Hs].
  - destruct (Reach_ok e HR) as ((rs & _ & I & _) & _). split; [intros t Ht; now apply not_elem_of_nil in Ht|].
    intros key. apply manager_ok_covers, I.
  - pose proof (fun key => world_stores w key HW) as Sk. pose proof IH as [D M]. destruct w as [[e ts] out]. cbn [w_serving w_tasks w_engine] in *.
    destruct Hs as [key doc _ _ (Hd & _) _|now i _|now ns coll asg filter e' us Hs H|now ns coll filter e' us Hs H|now i|now ns stmt e' r Hi H]; cbn [w_serving w_engine w_tasks] in *.
    + unfold start_insert. cbn. set (t0 := {| it_phase := _ |}). split; cbn [w_tasks w_engine].
      * intros t [Ht|Ht%list_elem_of_singleton]%elem_of_app; [now apply D|now subst t].
      * intros k. apply (manager_more_covers _ (late_docs ts k)); [apply M|].
        intros x (t & Ht & Hx)%elem_of_late_docs. apply elem_of_late_docs. exists t. split; [apply elem_of_app; now left|exact Hx].
    + now apply run_step_covered.
    + apply (covered_frame (ns, coll) e); [exact IH|exact (frame_update_changes _ _ _ _ _ _ _ _ _ H)|].
      apply (update_covers now ns coll asg filter _ e e' us); auto using late_ordinary.
    + apply (covered_frame (ns, coll) e); [exact IH|exact (frame_remove_changes _ _ _ _ _ _ _ _ H)|].
      now apply (remove_covers now ns coll filter _ e e' us).
    + destruct (send_next_same now i {| w_serving := {| w_engine := e; w_tasks := ts |}; w_unsent := out |}) as (T & S & I & _).
      destruct (send_next _ _ _) as [[e' ts'] out']. cbn in T, S, I. subst ts'. split; [exact D|]. intros k.
      cbn [w_engine w_tasks w_serving]. rewrite S, I. apply M.
    + apply (covered_frame (ns, target stmt) e); [exact IH| |now apply (statement_covers now ns stmt _ e e' r)].
      pose proof (frame_execute NoFault now stmt ns e) as F. now rewrite H in F.
Qed.

(** C18: FIND misses nothing while inserts are in flight.  However the steps of inserts
    interleave with each other, with answered UPDATEs and REMOVEs, and with the creation and
    removal of indexes: a FIND without LIMIT and OFFSET answers with stored documents that
    match, and with every one of them except possibly those whose own insert has stored and
    not yet indexed.  Its filter has an answer on every stored document, and its plan, by an
    index or by a scan, suits the filter ([plan_fits]: with an index, the filter does not
    select documents that lack the field, and its literals and bounds are ordinary; what
    happens otherwise is told in [EngineFindings]). *)
Theorem concurrent_finds_miss_nothing w ns coll filter sort :
  worlds w -> let e := w_engine w in let s := store_at (ns, coll) e in
  plan_fits filter sort None None (manager_at (ns, coll) e) s -> filter_total filter s ->
  exists docs, execute_find ns coll filter sort None None e = Ok (PRecords docs (Z.of_nat (List.length docs)))
    /\ (forall d, d ∈ docs -> s !! id d = Some d /\ matching filter d = true)
    /\ (forall i d, s !! i = Some d -> matching filter d = true ->
         d ∈ docs \/ exists t, t ∈ w_tasks w /\ it_key t = (ns, coll) /\ id (it_doc t) = i /\ unindexed t = true).
Proof.
  intros HW e s Hp HT. pose proof (world_stores w (ns, coll) HW) as Sk. destruct (worlds_covered w HW) as [_ M].
  specialize (M (ns, coll)). fold e s in Sk, M.
  destruct (find_ids_cover filter sort None None _ s _ Sk M Hp HT) as (ids & docs & E1 & E2 & Sound & Cover).
  exists (arranged sort docs). assert (P : forall d, d ∈ arranged sort docs <-> d ∈ docs) by (intros d; now rewrite (arranged_perm sort docs)).
  split; [|split].
  - apply (execute_find_from ids docs); [exact E1|exact E2|exact I|exact I|unfold u64_max; cbn; lia].
  - intros d Hd. apply Sound. now apply P.
  - intros i d Hd Hm. destruct (Cover i d Hd Hm) as [H|(x & (t & Ht & Hu & Hk & <-)%elem_of_late_docs & Hi)]; [left; now apply P|right]. exists t. auto.
Qed.
End Indexes.

(** ** On the sample database *)

Definition eve : Document := user "u3" "Eve" (VInt 41).
Definition dan : Document := user "u4" "Dan" (VInt 52).

(** Two inserts start; the first one stores; the younger than 28 are removed; the first
    one finishes and the second one stores. *)
Definition both_started : World := start dan (start eve (alone engine3)).
Definition eve_stored : World := steps_of 2 0 both_started.
Definition young_removed : World := removing (Some below28) eve_stored.
Definition dan_stored : World := steps_of 2 1 (steps_of 2 0 young_removed).

(** Steps with room in the log, which is computed. *)
Definition steps_fit (n i : nat) (w : World) : bool :=
  forallb (fun k => let wl := wal (w_engine (steps_of k i w)) in
    (WriteAheadLog.current_segment_index wl + 1 <=? u64_max) && (WriteAheadLog.current_sequence wl + 1 <=? u64_max)) (seq 0 n).

Lemma steps_run n i w : steps_fit n i w = true -> rtc world_step w (steps_of n i w).
Proof.
  unfold steps_fit. rewrite forallb_forall. revert w. induction n as [|n IH]; intros w H; [apply rtc_refl|]. cbn [steps_of].
  apply (rtc_l _ _ (step_of i w)).
  - apply Run_step, room_enough, (H 0%nat), in_seq. lia.
  - apply IH. intros k [_ Hk]%in_seq. apply (H (S k)), in_seq. lia.
Qed.

Lemma eve_stored_run : rtc world_step (alone engine3) eve_stored.
Proof.
  apply (rtc_l _ _ (start eve (alone engine3))).
  { apply start_step; [split; [|split]; vm_compute; reflexivity|]. intros t Ht. now apply not_elem_of_nil in Ht. }
  apply (rtc_l _ _ both_started); [|apply steps_run; vm_compute; reflexivity].
  apply start_step; [split; [|split]; vm_compute; reflexivity|].
  intros t Ht%list_elem_of_singleton _. subst t. cbn [it_key it_doc]. discriminate.
Qed.

Lemma dan_stored_run : rtc world_step (alone engine3) dan_stored.
Proof.
  apply (rtc_trans _ eve_stored); [apply eve_stored_run|]. apply (rtc_l _ _ young_removed).
  - apply removing_step; [|vm_compute; reflexivity].
    replace (size (store_at users (w_engine eve_stored))) with 3%nat by (vm_compute; reflexivity).
    unfold has_room, budget, seq_budget. split; vm_compute; discriminate.
  - apply (rtc_trans _ (steps_of 2 0 young_removed)); apply steps_run; vm_compute; reflexivity.
Qed.

Lemma dan_stored_worlds : worlds dan_stored.
Proof. apply (worlds_run (alone engine3)); [apply Worlds_start, engine3_reach|apply dan_stored_run]. Qed.

Lemma concurrent_finds_witness :
  let e := w_engine dan_stored in
  uses_index (plan (Some above26) None None None (manager_at users e)) = true
  /\ exists docs, execute_find "default" "users" (Some above26) None None None e = Ok (PRecords docs (Z.of_nat (List.length docs)))
    /\ eve ∈ docs.
Proof.
  intros e. split; [vm_compute; reflexivity|].
  destruct (concurrent_finds_miss_nothing dan_stored "default" "users" (Some above26) None dan_stored_worlds) as (docs & E & _ & All).
  - split; [vm_compute; repeat split|apply above26_needs_age].
  - apply above26_total.
  - exists docs. split; [exact E|]. destruct (All "u3"%string eve) as [H|(t & Ht & _ & Hi & Hu)]; [vm_compute; reflexivity..|exact H|].
    exfalso. apply list_elem_of_lookup in Ht as [[|[|n]] Hn].
    + assert (W : unindexed t = false) by (revert Hn; vm_compute; now intros [= <-]). congruence.
    + assert (W : id (it_doc t) = "u4"%string) by (revert Hn; vm_compute; now intros [= <-]). congruence.
    + vm_compute in Hn. discriminate Hn.
Defined.

(** The exception is real: Dan is counted and not found. *)
Example stored_and_not_yet_found :
  let e := w_engine dan_stored in
  match answer (SFind "users" (Some above26) None None None) e with
  | Ok (PRecords docs _) => List.map id docs = ["u1"; "u3"]%string
  | _ => False
  end
  /\ answer (SCount "users" (Some above26)) e = Ok (PCount 3).
Proof. vm_compute. repeat split. Qed.
