(* ===== verification/Feed.v ===== *)
(** The change feed ([emit_event] of [nova-server/src/engine.rs]): a client that knows the
    documents of a collection and applies to them the events it receives.

    [feed] is what following means: every event of the collection tells the document the
    client has under its identifier, and replaces or deletes it. *)

From S2P Require Export ConnectionProps ConcurrencyIndexes.

(** ** Following a feed *)

Definition Slots := DocumentId -> option Document.

Definition slots_at (key : CollectionKey) (e : Engine) : Slots := fun i => store_at key e !! i.

Definition put_slot (i : DocumentId) (o : option Document) (s : Slots) : Slots :=
  fun j => if decide (j = i) then o else s j.

(** The documents an event of each kind carries. *)
Definition event_shape (ev : DataEvent) : bool :=
  match ev_type ev, ev_before ev, ev_after ev with
  | Create, None, Some _ | Document.Update, Some _, Some _ | Document.Delete, Some _, None => true
  | _, _, _ => false
  end.

Definition event_key (ev : DataEvent) : CollectionKey := (ev_namespace ev, ev_collection ev).

Inductive feed (key : CollectionKey) : list DataEvent -> Slots -> Slots -> Prop :=
| Feed_end s s' : (forall i, s' i = s i) -> feed key [] s s'
| Feed_change ev evs s s' :
    event_key ev = key -> event_shape ev = true -> ev_before ev = s (ev_document_id ev) ->
    feed key evs (put_slot (ev_document_id ev) (ev_after ev) s) s' -> feed key (ev :: evs) s s'
| Feed_elsewhere ev evs s s' :
    event_key ev <> key -> feed key evs s s' -> feed key (ev :: evs) s s'.

Lemma feed_ext key evs s s' t t' :
  feed key evs s s' -> (forall i, t i = s i) -> (forall i, t' i = s' i) -> feed key evs t t'.
Proof.
  intros F. revert t. induction F as [s s' H|ev evs s s' K Sh Bf F IH|ev evs s s' K F IH]; intros t E E'.
  - constructor. intros i. now rewrite E', H, E.
  - apply Feed_change; [exact K|exact Sh|now rewrite E|]. apply IH; [|exact E']. intros i. unfold put_slot. now rewrite E.
  - apply Feed_elsewhere; [exact K|]. now apply IH.
Qed.

Lemma feed_app key evs1 evs2 s s1 s' :
  feed key evs1 s s1 -> feed key evs2 s1 s' -> feed key (evs1 ++ evs2) s s'.
Proof.
  induction 1 as [s s1 H|ev evs s s1 K Sh Bf F IH|ev evs s s1 K F IH]; intros F2; cbn [app].
  - apply (feed_ext key evs2 s1 s'); auto.
  - apply Feed_change; auto.
  - apply Feed_elsewhere; auto.
Qed.

Lemma feed_one ev s s' :
  event_shape ev = true -> ev_before ev = s (ev_document_id ev) ->
  (forall i, s' i = put_slot (ev_document_id ev) (ev_after ev) s i) -> feed (event_key ev) [ev] s s'.
Proof. intros Sh Bf H. apply Feed_change; [reflexivity|exact Sh|exact Bf|]. now constructor. Qed.

Lemma feed_elsewhere key evs s s' :
  Forall (fun ev => event_key ev <> key) evs -> (forall i, s' i = s i) -> feed key evs s s'.
Proof. induction 1 as [|ev evs H _ IH]; intros E; [now constructor|]. apply Feed_elsewhere; auto. Qed.

(** Events of documents that exist leave alone what else there is. *)
Definition over (p s : Slots) : Slots := fun i => match p i with Some d => Some d | None => s i end.

Lemma feed_over key evs p s s' :
  feed key evs s s' -> Forall (fun ev => ev_before ev <> None) evs -> (forall i, s i <> None -> p i = None) ->
  feed key evs (over p s) (over p s').
Proof.
  induction 1 as [s s' H|ev evs s s' K Sh Bf F IH|ev evs s s' K F IH]; intros HF D.
  - constructor. intros i. unfold over. now rewrite H.
  - inversion HF as [|? ? Hb HF']; subst. assert (P : p (ev_document_id ev) = None) by (apply D; now rewrite <- Bf).
    apply Feed_change; [reflexivity|exact Sh|unfold over; now rewrite P|].
    assert (D' : forall i, put_slot (ev_document_id ev) (ev_after ev) s i <> None -> p i = None).
    { intros i. unfold put_slot. case_decide as E; [subst i; now intros _|apply D]. }
    apply (feed_ext _ _ _ _ _ _ (IH HF' D')); [|reflexivity]. intros i. unfold over, put_slot.
    case_decide as E; [subst i; now rewrite P|reflexivity].
  - inversion HF; subst. apply Feed_elsewhere; [exact K|]. now apply IH.
Qed.

(** ** Sequence numbers *)

(** A list increases, between two numbers. *)
Fixpoint numbered (lo : Z) (l : list Z) (hi : Z) : Prop :=
  match l with [] => lo <= hi | s :: l => lo < s /\ numbered s l hi end.

Lemma numbered_le lo l hi : numbered lo l hi -> lo <= hi.
Proof. revert lo. induction l as [|s l IH]; intros lo; cbn; [auto|]. intros [H1 H2%IH]. lia. Qed.

Lemma numbered_low lo lo' l hi : lo' <= lo -> numbered lo l hi -> numbered lo' l hi.
Proof. destruct l; cbn; [lia|]. intros H [H1 H2]. split; [lia|exact H2]. Qed.

Lemma numbered_app lo l mid l' hi : numbered lo l mid -> numbered mid l' hi -> numbered lo (l ++ l') hi.
Proof.
  revert lo. induction l as [|s l IH]; intros lo; cbn [app numbered]; [apply numbered_low|].
  intros [H1 H2] H3. split; [exact H1|now apply IH].
Qed.

Definition sequence_of (e : Engine) : Z := WriteAheadLog.current_sequence (wal e).

Section Feed.
Context {B : Build} {AN : ArithNan} {HO : HashOrder} {HL : HashOrderLaws HO} {C : CrcLib} {CL : CrcLaws C}
  {U : UuidLib} {UL : UuidLaws U} {J : JsonLib} {JL : JsonLaws J}.

Lemma append_number now ty ns coll i pl tx w w' r :
  0 <= WriteAheadLog.current_sequence w -> WriteAheadLog.current_sequence w + 1 <= u64_max ->
  WriteAheadLog.append NoFault now ty ns coll i pl tx w = (w', r) ->
  WriteAheadLog.current_sequence w' = WriteAheadLog.current_sequence w + 1
  /\ forall s, r = Ok s -> s = WriteAheadLog.current_sequence w + 1.
Proof.
  intros H0 H1. unfold WriteAheadLog.append, WriteAheadLog.next_sequence.
  assert (E : wrap_u64 (WriteAheadLog.current_sequence w + 1) = WriteAheadLog.current_sequence w + 1).
  { unfold wrap_u64. apply Z.mod_small. unfold u64_max in H1. lia. }
  rewrite E. set (s := _ + 1). set (w1 := WriteAheadLog.set_sequence s w).
  destruct (NbfRecord.encode _) as [b|er|]; [|intros H; apply pair_eq in H as [<- <-]; split; [reflexivity|discriminate]..].
  assert (R : forall w2, WriteAheadLog.current_sequence w2 = s ->
    WriteAheadLog.current_sequence (match WriteAheadLog.sync_mode w2 with SyncAlways => WriteAheadLog.buf_flush w2 | SyncNone => w2 end) = s)
    by (intros w2 E2; destruct (WriteAheadLog.sync_mode w2); exact E2).
  intros H. apply pair_eq in H as [<- <-]. split; [|now intros ? [= <-]].
  cbn [WriteAheadLog.current_sequence WriteAheadLog.set_size]. apply R. unfold WriteAheadLog.buf_write.
  repeat case_match; reflexivity.
Qed.

(** ** What a statement announces *)

Fixpoint emitted (mk : Z -> Updated -> DataEvent) (now : nat -> Z) (t : nat) (us : list Updated) : list DataEvent :=
  match us with [] => [] | u :: us => mk (now t) u :: emitted mk now (S t) us end.

Lemma emit_all_emitted mk now t us e : events (emit_all mk now t us e) = (events e ++ emitted mk now t us)%list.
Proof.
  revert t e. induction us as [|u us IH]; intros t e; cbn [emit_all emitted]; [now rewrite app_nil_r|].
  rewrite IH. cbn [events emit_event]. now rewrite <- app_assoc.
Qed.

Lemma emitted_app mk now t us us' :
  emitted mk now t (us ++ us') = (emitted mk now t us ++ emitted mk now (List.length us + t) us')%list.
Proof.
  revert t. induction us as [|u us IH]; intros t; [reflexivity|]. cbn [app emitted List.length]. rewrite IH.
  do 2 f_equal. f_equal. lia.
Qed.

Definition updated_seq (u : Updated) : Z := let '(seq, _, _, _) := u in seq.

(** What the events of a loop say of it. *)
Definition announces (mk : string -> string -> Z -> Updated -> DataEvent) (key : CollectionKey) (e e' : Engine) (us : list Updated) : Prop :=
  numbered (sequence_of e) (List.map updated_seq us) (sequence_of e')
  /\ forall now t, feed key (emitted (mk key.1 key.2) now t us) (slots_at key e) (slots_at key e').

Lemma announces_nothing mk key e : announces mk key e e [].
Proof. split; [cbn; lia|]. intros now t. now constructor. Qed.

(** One document replaced or deleted, and then the rest. *)
Lemma announces_step mk key e s w m e' seq i before after o us :
  (forall at_, mk key.1 key.2 at_ (seq, i, before, after) = event_new at_ seq
     (match o with Some _ => Document.Update | None => Document.Delete end) key.1 key.2 i (Some before) o None) ->
  store_at key e !! i = Some before -> (forall j, s !! j = put_slot i o (slots_at key e) j) ->
  WriteAheadLog.current_sequence w = sequence_of e + 1 -> seq = sequence_of e + 1 ->
  announces mk key (put_manager key m (set_wal w (put_store key s e))) e' us ->
  announces mk key e e' ((seq, i, before, after) :: us).
Proof.
  intros Hmk Hb Hs Hw -> [N F]. split.
  - cbn [List.map numbered updated_seq]. split; [lia|]. rewrite <- Hw. exact N.
  - intros now t. cbn [emitted]. rewrite Hmk. apply Feed_change; [now destruct key|now destruct o|symmetry; exact Hb|].
    apply (feed_ext _ _ _ _ _ _ (F now (S t))); [|reflexivity]. intros j. unfold slots_at at 2.
    change (store_at key (put_manager _ _ (set_wal w (put_store key s e)))) with (store_at key (put_store key s e)).
    now rewrite store_at_put_eq, Hs.
Qed.

Lemma update_loop_announces now t key asg filter ids acc e e' us :
  0 <= sequence_of e -> sequence_of e + Z.of_nat (List.length ids) <= u64_max ->
  update_loop NoFault now t key asg filter ids acc e = (e', Ok us) ->
  exists us', us = (acc ++ us')%list /\ announces update_event key e e' us'.
Proof.
  revert t acc e. induction ids as [|i ids IH]; intros t acc e H0 H1 H; cbn [update_loop List.length] in *.
  { injection H as <- <-. exists []. split; [now rewrite app_nil_r|apply announces_nothing]. }
  destruct (store_at key e !! i) as [before|] eqn:Eb; [|apply (IH t acc e); [exact H0|lia|exact H]].
  destruct (matches_filter filter before) as [[|]|er|]; [|apply (IH t acc e); [exact H0|lia|exact H]|discriminate H..].
  destruct (apply_assignments (now t) before asg) as [after [[]|er|]]; [|discriminate H..].
  destruct (NbfRecord.payload_from_document after) as [payload|er|]; [|discriminate H..].
  destruct (WriteAheadLog.append _ _ _ _ _ _ _ _ _) as [w [seq|er|]] eqn:Ea; [|discriminate H..].
  change (wal (put_store key ?s e)) with (wal e) in Ea. destruct (append_number _ _ _ _ _ _ _ _ _ _ H0 ltac:(unfold sequence_of in *; lia) Ea) as [Ew Es].
  specialize (Es seq eq_refl). destruct (IndexManager.on_update _ _ _) as [m r].
  set (e1 := put_manager key m (set_wal w (put_store key (<[i := after]> (store_at key e)) e))) in *.
  assert (H' : update_loop NoFault now (S (S t)) key asg filter ids (acc ++ [(seq, i, before, after)]) e1 = (e', Ok us)) by (destruct r; [exact H|exact H|discriminate H]).
  assert (E1 : sequence_of e1 = sequence_of e + 1) by exact Ew.
  destruct (IH _ _ e1 ltac:(lia) ltac:(lia) H') as (us' & -> & A).
  exists ((seq, i, before, after) :: us'). split; [now rewrite <- app_assoc|].
  apply (announces_step update_event key e (<[i := after]> (store_at key e)) w m e' seq i before after (Some after)); auto.
  intros j. unfold put_slot, slots_at. case_decide as D; [subst j; apply lookup_insert_eq|now apply lookup_insert_ne].
Qed.

Lemma remove_loop_announces now t key ids acc e e' us :
  0 <= sequence_of e -> sequence_of e + Z.of_nat (List.length ids) <= u64_max ->
  remove_loop NoFault now t key ids acc e = (e', Ok us) ->
  exists us', us = (acc ++ us')%list /\ announces delete_event key e e' us'.
Proof.
  revert t acc e. induction ids as [|i ids IH]; intros t acc e H0 H1 H; cbn [remove_loop List.length] in *.
  { injection H as <- <-. exists []. split; [now rewrite app_nil_r|apply announces_nothing]. }
  destruct (store_at key e !! i) as [d|] eqn:Eb; [|apply (IH t acc e); [exact H0|lia|exact H]].
  destruct (WriteAheadLog.append _ _ _ _ _ _ _ _ _) as [w [seq|er|]] eqn:Ea; [|discriminate H..].
  change (wal (put_store key ?s e)) with (wal e) in Ea. destruct (append_number _ _ _ _ _ _ _ _ _ _ H0 ltac:(unfold sequence_of in *; lia) Ea) as [Ew Es].
  specialize (Es seq eq_refl). destruct (IndexManager.on_remove _ _) as [m r].
  set (e1 := put_manager key m (set_wal w (put_store key (delete i (store_at key e)) e))) in *.
  assert (H' : remove_loop NoFault now (S t) key ids (acc ++ [(seq, i, d, d)]) e1 = (e', Ok us)) by (destruct r; [exact H|exact H|discriminate H]).
  assert (E1 : sequence_of e1 = sequence_of e + 1) by exact Ew.
  destruct (IH _ _ e1 ltac:(lia) ltac:(lia) H') as (us' & -> & A).
  exists ((seq, i, d, d) :: us'). split; [now rewrite <- app_assoc|].
  apply (announces_step delete_event key e (delete i (store_at key e)) w m e' seq i d d None); auto.
  intros j. unfold put_slot, slots_at. case_decide as D; [subst j; apply lookup_delete_eq|now apply lookup_delete_ne].
Qed.

(** ** Statements *)

(** The events sent between two engines, and what they say. *)
Definition followed (e e' : Engine) (evs : list DataEvent) : Prop :=
  events e' = (events e ++ evs)%list
  /\ numbered (sequence_of e) (List.map ev_sequence evs) (sequence_of e')
  /\ forall key, feed key evs (slots_at key e) (slots_at key e').

Lemma followed_nothing e e' :
  events e' = events e -> sequence_of e <= sequence_of e' -> (forall key, store_at key e' = store_at key e) -> followed e e' [].
Proof.
  intros E N S. split; [now rewrite app_nil_r|]. split; [exact N|]. intros key. constructor. intros i. unfold slots_at. now rewrite S.
Qed.

Lemma followed_trans e e1 e2 evs evs' : followed e e1 evs -> followed e1 e2 evs' -> followed e e2 (evs ++ evs').
Proof.
  intros (E & N & F) (E' & N' & F'). split; [rewrite E', E; now rewrite app_assoc|]. split.
  - rewrite List.map_app. now apply (numbered_app _ _ (sequence_of e1)).
  - intros key. apply (feed_app _ _ _ _ (slots_at key e1)); auto.
Qed.

Lemma emitted_all (P : DataEvent -> Prop) mk now t us : (forall at_ u, P (mk at_ u)) -> Forall P (emitted mk now t us).
Proof. intros H. revert t. induction us as [|u us IH]; intros t; constructor; auto. Qed.

(** A loop that announced its changes and left the other collections alone. *)
Lemma loop_followed mk key e e1 e2 us now t :
  (forall at_ u, event_key (mk key.1 key.2 at_ u) = key /\ ev_sequence (mk key.1 key.2 at_ u) = updated_seq u) ->
  events e1 = events e -> frame key e e1 -> announces mk key e e1 us ->
  e2 = emit_all (mk key.1 key.2) now t us e1 -> followed e e2 (emitted (mk key.1 key.2) now t us).
Proof.
  intros Hmk E F [N A] ->. destruct (emit_all_same (mk key.1 key.2) now t us e1) as (S & _ & W).
  split; [now rewrite emit_all_emitted, E|]. split.
  - unfold sequence_of. rewrite W. clear - N Hmk. revert N. unfold sequence_of. generalize (WriteAheadLog.current_sequence (wal e)) as lo.
    revert t. induction us as [|u us IH]; intros t lo; cbn [emitted List.map numbered]; [auto|].
    destruct (Hmk (now t) u) as [_ ->]. intros [H1 H2]. split; [exact H1|now apply IH].
  - intros k. destruct (decide (k = key)) as [->|D].
    + apply (feed_ext _ _ _ _ _ _ (A now t)); [reflexivity|]. intros i. unfold slots_at. now rewrite S.
    + apply feed_elsewhere; [apply emitted_all; intros at_ u; destruct (Hmk at_ u) as [-> _]; congruence|].
      intros i. unfold slots_at. rewrite S. now destruct (F k D) as [-> _].
Qed.

(** The changes of UPDATE and REMOVE, before their events. *)
Definition to_announce (mk : string -> string -> Z -> Updated -> DataEvent) (key : CollectionKey) (e e' : Engine) (us : list Updated) : Prop :=
  events e' = events e /\ frame key e e' /\ announces mk key e e' us.

(** From the collection as its entry is made. *)
Lemma to_announce_entry mk key e e' us :
  events e' = events (entry_both key e) -> frame key (entry_both key e) e' -> announces mk key (entry_both key e) e' us ->
  to_announce mk key e e' us.
Proof.
  intros E F [N A]. destruct (entry_both_same key e) as [Es _]. split; [exact E|].
  split; [transitivity (entry_both key e); [apply frame_entry_both|exact F]|]. split; [exact N|].
  intros n t. apply (feed_ext _ _ _ _ _ _ (A n t)); [|reflexivity]. intros i. unfold slots_at. now rewrite Es.
Qed.

Lemma update_announces now ns coll asg filter e e' us :
  0 <= sequence_of e -> has_room (size (store_at (ns, coll) e)) e ->
  update_changes NoFault now ns coll asg filter e = (e', Ok us) -> to_announce update_event (ns, coll) e e' us.
Proof.
  intros H0 [_ Room] H. unfold update_changes in H. set (key := (ns, coll)) in *. set (e1 := entry_both key e) in H.
  destruct (entry_both_same key e) as [Es _]. set (ids := store_keys (store_at key e1)) in H.
  pose proof (update_loop_events NoFault now 0 key asg filter ids [] e1) as Ev.
  pose proof (frame_update_loop NoFault now 0 key asg filter ids [] e1) as Fr. rewrite H in Ev, Fr. cbn [fst] in Ev, Fr.
  destruct (update_loop_announces now 0 key asg filter ids [] e1 e' us H0) as (us' & -> & A); [|exact H|now apply to_announce_entry].
  unfold ids. rewrite length_store_keys. unfold e1. rewrite Es. exact Room.
Qed.

Lemma remove_announces now ns coll filter e e' us :
  0 <= sequence_of e -> has_room (size (store_at (ns, coll) e)) e ->
  remove_changes NoFault now ns coll filter e = (e', Ok us) -> to_announce delete_event (ns, coll) e e' us.
Proof.
  intros H0 [_ Room] H. unfold remove_changes in H. set (key := (ns, coll)) in *. set (e1 := entry_both key e) in H.
  destruct (entry_both_same key e) as [Es _]. destruct (target_ids _ _ _) as [ids|er|] eqn:Et; [|discriminate H..].
  pose proof (remove_loop_events NoFault now 0 key ids [] e1) as Ev.
  pose proof (frame_remove_loop NoFault now 0 key ids [] e1) as Fr. rewrite H in Ev, Fr. cbn [fst] in Ev, Fr.
  destruct (remove_loop_announces now 0 key ids [] e1 e' us H0) as (us' & -> & A); [|exact H|now apply to_announce_entry].
  apply target_ids_spec in Et. assert (L : (List.length ids <= size (store_at key e))%nat).
  { subst ids. unfold e1. rewrite Es, <- length_store_keys. apply List.filter_length_le. }
  change (sequence_of e1) with (sequence_of e). unfold seq_budget in Room. unfold sequence_of. lia.
Qed.

(** What both kinds of event have in common. *)
Definition change_event (mk : string -> string -> Z -> Updated -> DataEvent) : Prop :=
  forall ns coll at_ u, event_key (mk ns coll at_ u) = (ns, coll) /\ ev_sequence (mk ns coll at_ u) = updated_seq u
    /\ ev_before (mk ns coll at_ u) <> None.

Lemma update_change : change_event update_event.
Proof. intros ns coll at_ [[[seq i] b] a]. now split_and!. Qed.

Lemma delete_change : change_event delete_event.
Proof. intros ns coll at_ [[[seq i] b] a]. now split_and!. Qed.

Lemma announced_followed mk ns coll e e1 us now t :
  change_event mk -> to_announce mk (ns, coll) e e1 us ->
  exists evs, followed e (emit_all (mk ns coll) now t us e1) evs.
Proof.
  intros Hmk (E & F & A). exists (emitted (mk ns coll) now t us).
  apply (loop_followed mk (ns, coll) e e1 _ us now t); [|exact E|exact F|exact A|reflexivity].
  intros at_ u. destruct (Hmk ns coll at_ u) as (K & Q & _). now split.
Qed.

(** The queries counted are not announced. *)
Lemma followed_from e e1 e' evs :
  events e1 = events e -> wal e1 = wal e -> (forall key, store_at key e1 = store_at key e) -> followed e1 e' evs -> followed e e' evs.
Proof.
  intros E W S F. apply (followed_trans e e1 e' []); [|exact F]. apply followed_nothing; [exact E|unfold sequence_of; now rewrite W|exact S].
Qed.

Lemma create_index_events ns coll field ty e e' r : execute_create_index ns coll field ty e = (e', r) -> events e' = events e.
Proof. unfold execute_create_index. intros H. repeat case_match; now apply pair_eq in H as [<- _]. Qed.

Lemma drop_index_events ns coll field e e' r : execute_drop_index ns coll field e = (e', r) -> events e' = events e.
Proof. unfold execute_drop_index. intros H. repeat case_match; now apply pair_eq in H as [<- _]. Qed.

(** Statements that announce nothing. *)
Lemma statement_silent now ns stmt e e' r :
  (match stmt with SInsert _ _ | SUpdate _ _ _ | SRemove _ _ => False | _ => True end) ->
  execute NoFault now stmt ns e = (e', r) -> followed e e' [].
Proof.
  intros Hi H.
  assert (Q : forall e'', events e'' = events e -> wal e'' = wal e -> (forall key, store_at key e'' = store_at key e) -> e'' = e' -> followed e e' []).
  { intros e'' E W S <-. apply followed_nothing; [exact E|unfold sequence_of; now rewrite W|exact S]. }
  destruct stmt; cbn [execute] in *; try (apply pair_eq in H as [H _]; now refine (Q _ _ _ _ H)); [contradiction..| |].
  - pose proof (create_index_same _ _ _ _ _ _ _ H) as [W S]. apply create_index_events in H. now apply (Q e').
  - pose proof (drop_index_same _ _ _ _ _ _ H) as [W S]. apply drop_index_events in H. now apply (Q e').
Qed.

Lemma silent_stores now ns stmt e e' r key :
  (match stmt with SInsert _ _ | SUpdate _ _ _ | SRemove _ _ => False | _ => True end) ->
  execute NoFault now stmt ns e = (e', r) -> store_at key e' = store_at key e.
Proof.
  intros Hi H. destruct stmt; cbn [execute] in H; try (now apply pair_eq in H as [<- _]); [contradiction..| |].
  - apply create_index_same in H as [_ S]. apply S.
  - apply drop_index_same in H as [_ S]. apply S.
Qed.

Lemma insert_followed now ns coll d rs e e' r :
  engine_ok rs e -> 0 <= sequence_of e -> stmt_ok now ns (SInsert coll d) e ->
  execute_insert NoFault now ns coll d e = (e', r) -> exists evs, followed e e' evs.
Proof.
  intros OK H0 (V1 & V2 & Hd & Room) H. pose proof (execute_insert_ok now ns coll d rs e 0 e' r V1 V2 Hd OK Room H) as (_ & _ & A).
  unfold execute_insert in H. set (key := (ns, coll)) in *.
  assert (Q : e' = e -> exists evs, followed e e' evs) by (intros ->; exists []; apply followed_nothing; [reflexivity|lia|reflexivity]).
  destruct (insert_check key d e) as [[]|er|] eqn:Ec; [|apply pair_eq in H as [<- _]; now apply Q..].
  assert (Hn : store_at key e !! id d = None).
  { unfold insert_check, store_at in *. destruct (collections e !! key) as [s|]; [|apply lookup_empty]. cbn.
    now destruct (s !! id d). }
  unfold insert_log, NbfRecord.payload_from_document in H. destruct (WriteAheadLog.append _ _ _ _ _ _ _ _ _) as [w ra] eqn:Ea.
  destruct (append_number _ _ _ _ _ _ _ _ _ _ H0 (proj2 Room) Ea) as [Ew Es].
  destruct ra as [seq|er|].
  2,3: apply pair_eq in H as [<- _]; exists []; apply followed_nothing; [reflexivity|unfold sequence_of in *; cbn; lia|reflexivity].
  specialize (Es seq eq_refl). unfold insert_index in H. destruct (IndexManager.on_insert _ _) as [m ri].
  assert (Hr : ri <> Panic) by (intros ->; apply pair_eq in H as [_ <-]; destruct A).
  set (ev := event_new (now 1%nat) seq Create ns coll (id d) None (Some d) None). exists [ev].
  assert (E : e' = emit_event ev (put_manager key m (insert_store key d (set_wal w e)))).
  { destruct ri as [[]|er|]; [now apply pair_eq in H as [<- _]..|contradiction]. }
  subst e'. split; [reflexivity|]. split; [cbn; unfold sequence_of in *; cbn; lia|]. intros k.
  assert (S : forall i, slots_at k (emit_event ev (put_manager key m (insert_store key d (set_wal w e)))) i
    = (if decide (k = key) then <[id d := d]> (store_at key e) else store_at k e) !! i).
  { intros i. unfold slots_at, insert_store.
    change (store_at k (put_store key (<[id d := d]> (store_at key e)) (set_wal w e)) !! i = (if decide (k = key) then <[id d := d]> (store_at key e) else store_at k e) !! i).
    now rewrite store_at_put. }
  destruct (decide (k = key)) as [->|D].
  - change key with (event_key ev) at 1. apply feed_one; [reflexivity|symmetry; exact Hn|]. intros i. rewrite S. unfold put_slot.
    case_decide as Di; [subst i; apply lookup_insert_eq|now apply lookup_insert_ne].
  - apply feed_elsewhere; [|exact S]. constructor; [|constructor]. intros E. apply D. symmetry. exact E.
Qed.

(** ** One statement after the other *)

Lemma Steps_reach e0 e : Reach e0 -> Steps e0 e -> Reach e.
Proof. intros HR. induction 1 as [|e e' now ns stmt r HS IH Hs H Hr]; [exact HR|]. now apply (Reach_step e e' now ns stmt r). Qed.

Lemma logged_sequence rs e : engine_ok rs e -> 0 <= sequence_of e.
Proof. intros (_ & _ & (closed & opened & disk & HI & _) & _). apply HI. Qed.

Lemma step_followed now ns stmt e e' r :
  Reach e -> stmt_ok now ns stmt e -> execute NoFault now stmt ns e = (e', r) -> is_ok r = true \/ may_fail stmt = true ->
  exists evs, followed e e' evs.
Proof.
  intros HR Hs H Hr. destruct (Reach_ok e HR) as ((rs & OK) & _). pose proof (logged_sequence rs e OK) as H0.
  assert (Q : (match stmt with SInsert _ _ | SUpdate _ _ _ | SRemove _ _ => False | _ => True end) -> exists evs, followed e e' evs).
  { intros Hi. exists []. exact (statement_silent now ns stmt e e' r Hi H). }
  assert (W : forall evs, followed (count_write e) e' evs -> exists evs, followed e e' evs).
  { intros evs F. exists evs. now apply (followed_from e (count_write e)). }
  destruct stmt as [| coll d|coll asg filter|coll filter| | | | | | | |]; try exact (Q Logic.I); cbn [execute] in H; fold (count_write e) in H.
  - assert (OK1 : engine_ok rs (count_write e)) by now apply (engine_ok_ext rs e).
    destruct (insert_followed now ns coll d rs _ e' r OK1 H0 Hs H) as (evs & F). exact (W evs F).
  - destruct Hr as [Hr|Hr]; [|discriminate]. destruct Hs as (_ & _ & Room & _). unfold execute_update in H.
    destruct (update_changes _ _ _ _ _ _ _) as [e1 [us|er|]] eqn:E; try (apply pair_eq in H as [_ <-]; discriminate Hr).
    apply pair_eq in H as [<- _]. apply (update_announces now ns coll asg filter (count_write e)) in E; [|exact H0|exact Room].
    destruct (announced_followed _ ns coll _ e1 us now (2 * List.length us) update_change E) as (evs & F). exact (W evs F).
  - destruct Hr as [Hr|Hr]; [|discriminate]. destruct Hs as (_ & _ & Room). unfold execute_remove in H.
    destruct (remove_changes _ _ _ _ _ _) as [e1 [us|er|]] eqn:E; try (apply pair_eq in H as [_ <-]; discriminate Hr).
    apply pair_eq in H as [<- _]. apply (remove_announces now ns coll filter (count_write e)) in E; [|exact H0|exact Room].
    destruct (announced_followed _ ns coll _ e1 us now (List.length us) delete_change E) as (evs & F). exact (W evs F).
Qed.

Lemma steps_followed e0 e : Reach e0 -> Steps e0 e -> exists evs, followed e0 e evs.
Proof.
  intros HR HS. induction HS as [|e e' now ns stmt r HS IH Hs H Hr].
  - exists []. now apply followed_nothing.
  - destruct IH as (evs & F). destruct (step_followed now ns stmt e e' r (Steps_reach e0 e HR HS) Hs H Hr) as (evs' & F').
    exists (evs ++ evs')%list. now apply (followed_trans e0 e e').
Qed.

(** C20: the events tell the changes.  After any statements that fit the log run one after
    the other, every UPDATE and REMOVE among them answered (one that fails announces
    nothing, see [Failures.failed_update_spec]), the events sent since have increasing sequence numbers, all given out by the log since,
    and a client that had the documents of a collection and applied the events to them in
    the order they were sent has the documents there are now: each event tells the document
    the client has under its identifier before it tells the new one. *)
Theorem events_tell_the_changes e0 e :
  Reach e0 -> Steps e0 e ->
  exists evs, events e = (events e0 ++ evs)%list
    /\ numbered (sequence_of e0) (List.map ev_sequence evs) (sequence_of e)
    /\ forall key, feed key evs (slots_at key e0) (slots_at key e).
Proof. intros HR HS. destruct (steps_followed e0 e HR HS) as (evs & E). now exists evs. Qed.
End Feed.

(** ** On the sample database *)

Lemma events_tell_witness :
  let e := run (SRemove "users" (Some below28)) engine3 in
  exists evs, events e = (events engine3 ++ evs)%list
    /\ feed ("default", "users")%string evs (slots_at ("default", "users")%string engine3) (slots_at ("default", "users")%string e).
Proof.
  intros e. set (stmt := SRemove "users" (Some below28)).
  destruct (events_tell_the_changes engine3 e engine3_reach) as (evs & E & _ & F).
  - refine (Steps_step engine3 engine3 e sample_now "default" stmt (answer stmt engine3) (Steps_refl _) _ (surjective_pairing _) _);
      [|left; vm_compute; reflexivity].
    split; [reflexivity|]. split; [reflexivity|]. split; vm_compute; discriminate.
  - exists evs. split; [exact E|apply F].
Defined.
