(* ===== verification/Watching.v ===== *)
(** A client that watches a collection knows its documents: the change feed ([Feed]) as
    the watchers of a connection ([Connection]) send it. *)

From S2P Require Export Feed.

Section Watching.
Context {B : Build} {AN : ArithNan} {HO : HashOrder} {HL : HashOrderLaws HO} {C : CrcLib} {CL : CrcLaws C}
  {U : UuidLib} {UL : UuidLaws U} {J : JsonLib} {JL : JsonLaws J} {UT : UnicodeTables} {TD : TokenDebug}.

(** ** A watcher that the channel never overran has read everything *)

Definition complete (e : Engine) (w : Watcher) : Prop :=
  (List.length (events e) <= start_at w + channel_capacity)%nat ->
  received w = firstn (next_event w - start_at w) (skipn (start_at w) (events e)).

Lemma complete_more e e' c w :
  events e `prefix_of` events e' -> watcher_ok e c w -> complete e w -> complete e' w.
Proof.
  intros [l El] (L & _) H Hc. rewrite El, length_app in Hc. rewrite El, window_app by exact L. apply H. lia.
Qed.

(** A turn of the reader appends to the events, or adds a watcher. *)
Lemma read_one_watchers env input e c :
  let x := read_one env input e c in
  events e `prefix_of` events x.1
  /\ (watchers x.2 = watchers c \/ events x.1 = events e /\ exists w, watchers x.2 = (watchers c ++ [w])%list /\ fresh_watcher e w).
Proof.
  destruct input as [f|msg]; cbn [read_one]; [|split; [reflexivity|now left]].
  pose proof (handle_frame_handled env f e c) as H. destruct (handle_frame env f e c) as [[e' c'] r].
  destruct H as (He & _ & Hw & _).
  assert (G : forall c2, watchers c2 = watchers c' -> events e `prefix_of` events (e', c2).1
    /\ (watchers (e', c2).2 = watchers c \/ events (e', c2).1 = events e /\ exists w, watchers (e', c2).2 = (watchers c ++ [w])%list /\ fresh_watcher e w)).
  { intros c2 E. cbn [fst snd]. rewrite E. split; [exact He|]. destruct Hw as [Hw|(-> & w & Hw)]; [now left|right; eauto]. }
  destruct r as [[g|]|er|]; [now apply G..| |now apply G]. destruct (response_to_bytes (PError er)); now apply G.
Qed.

Lemma deliver_complete i e c :
  stream_ok (e, c) -> Forall (complete e) (watchers c) -> Forall (complete e) (watchers (deliver i e c)).
Proof.
  intros [S _] H. rewrite Forall_lookup in S. unfold deliver. destruct (watchers c !! i) as [w|] eqn:Hi; [|exact H].
  destruct (running w); [|exact H]. set (pos := Nat.max _ _). destruct (events e !! pos) as [ev|] eqn:Hev; [|exact H].
  destruct (S i w Hi) as ((L1 & L2) & _).
  assert (G : forall b, Forall (complete e) (<[i := take_event ev pos b w]> (watchers c))).
  { intros b. apply Forall_insert; [exact H|]. rewrite Forall_lookup in H. specialize (H i w Hi). intros Hc.
    cbn [take_event start_at next_event received] in *. rewrite (H Hc).
    assert (pos = next_event w) as E by (unfold pos; lia). rewrite E in *. symmetry. now apply window_snoc. }
  destruct (event_frame w ev) as [[f|]|er|]; apply G.
Qed.

Lemma watchers_complete e0 c0 e c :
  watchers c0 = [] -> outbox c0 = [] -> conn_steps (e0, c0) (e, c) -> stream_ok (e, c) /\ Forall (complete e) (watchers c).
Proof.
  intros Hw Ho H. remember (e, c) as x eqn:Ex. revert e c Ex. induction H as [|y z H IH Hs]; intros e c Ex.
  - injection Ex as <- <-. rewrite Hw. split; [|constructor]. split; [rewrite Hw; constructor|]. intros f Hin. rewrite Ho in Hin.
    now apply not_elem_of_nil in Hin.
  - destruct y as [e1 c1]. destruct (IH e1 c1 eq_refl) as [S F]. subst z.
    assert (More : forall e2, events e1 `prefix_of` events e2 -> Forall (complete e2) (watchers c1)).
    { intros e2 P. rewrite Forall_lookup in *. intros i w Hi. apply (complete_more e1 e2 c1); [exact P| |now apply (F i)].
      destruct S as [S _]. rewrite Forall_lookup in S. now apply (S i). }
    inversion Hs as [env input e2 c2 Ha E1 E2|i e2 c2 E1 E2|fault now stmt ns e2 c2 E1 E2]; subst.
    + pose proof (read_one_ok env input e1 c1 S) as S'. destruct (read_one_watchers env input e1 c1) as [P W].
      rewrite E2 in *. split; [exact S'|]. cbn [fst snd] in *. destruct W as [->|(Ee & w & -> & F1 & F2 & F3)]; [now apply More|].
      apply Forall_app. split; [now apply More|]. constructor; [|constructor]. intros _. now rewrite F1, F2, F3, Nat.sub_diag.
    + split; [now apply deliver_ok|now apply deliver_complete].
    + pose proof (execute_events fault now stmt ns e1) as P. split; [|now apply More].
      apply (stream_ok_more e1 _ c); auto; reflexivity.
Qed.

(** ** What its frames tell *)

(** An event read back from a frame of a subscription. *)
Definition tells (sub : Z) (f : NvpFrame.t) (ev : DataEvent) : Prop :=
  NvpFrame.frame_type f = FEvent /\ NvpFrame.request_id f = sub /\ event_from_bytes (NvpFrame.payload f) = Ok ev.

Definition of_collection (coll : string) (evs : list DataEvent) : list DataEvent :=
  List.filter (fun ev => String.eqb (ev_collection ev) coll) evs.

(** The events of other collections can be left out. *)
Lemma feed_of_collection ns coll evs s s' :
  feed (ns, coll) evs s s' -> feed (ns, coll) (of_collection coll evs) s s'.
Proof.
  intros F. remember (ns, coll) as key eqn:Ek. induction F as [s s' H|ev evs s s' K Sh Bf F IH|ev evs s s' K F IH]; cbn [of_collection List.filter].
  - now constructor.
  - assert (ev_collection ev = coll) as Ec by (unfold event_key in K; congruence). rewrite Ec, String.eqb_refl. now apply Feed_change.
  - destruct (String.eqb _ _); [now apply Feed_elsewhere|exact IH].
Qed.

Lemma frames_tell w evs :
  watch_filter w = None -> Forall (fun ev => event_ok ev = true) evs ->
  Forall2 (tells (sub_id w)) (omap (fun ev => match event_frame w ev with Ok (Some f) => Some f | _ => None end) evs)
    (of_collection (watch_collection w) evs).
Proof.
  intros Hf. induction 1 as [|ev evs Hev _ IH]; [constructor|]. cbn [of_collection List.filter].
  pose proof (event_bytes_roundtrip ev Hev) as R.
  assert (E : event_frame w ev = if String.eqb (ev_collection ev) (watch_collection w)
    then let? b := event_to_bytes ev in Ok (Some (NvpFrame.new FEvent (sub_id w) b)) else Ok None).
  { unfold event_frame. destruct (String.eqb _ _); [|reflexivity]. rewrite Hf. now destruct (ev_after ev), (ev_before ev). }
  cbn. rewrite E. destruct (String.eqb _ _); [|exact IH].
  destruct (event_to_bytes ev) as [b|er|]; cbn in R |- *; [|discriminate R..]. constructor; [|exact IH]. now split.
Qed.

(** A client that watches a collection knows its documents.  Take a connection with
    any requests, and a watcher without filter that has read all events and has never
    fallen further behind than the channel holds: the frames it has sent are in the
    connection's output in order, and the events read back from them, applied in that
    order to the documents the collection had when the client subscribed, give the
    documents the collection has now. *)
Theorem watching_clients_know_the_documents e0 c0 e c w es ns :
  watchers c0 = [] -> outbox c0 = [] -> conn_steps (e0, c0) (e, c) -> w ∈ watchers c ->
  watch_filter w = None -> next_event w = List.length (events e) ->
  (List.length (events e) <= start_at w + channel_capacity)%nat ->
  Reach es -> Steps es e -> List.length (events es) = start_at w ->
  Forall (fun ev => event_ok ev = true) (received w) ->
  let key := (ns, watch_collection w) in
  sent_by w `sublist_of` outbox c
  /\ exists evs, Forall2 (tells (sub_id w)) (sent_by w) evs /\ feed key evs (slots_at key es) (slots_at key e).
Proof.
  intros Hw Ho HS Hin Hf Hn Hc HR St Hl Hok key. destruct (watchers_complete e0 c0 e c Hw Ho HS) as [[S _] F].
  rewrite Forall_forall in S, F. destruct (S w Hin) as (_ & _ & Hs). split; [exact Hs|].
  exists (of_collection (watch_collection w) (received w)). split; [now apply frames_tell|]. apply feed_of_collection.
  destruct (steps_followed es e HR St) as (evs & E & _ & Fd).
  assert (received w = evs) as ->; [|apply Fd].
  rewrite (F w Hin Hc), Hn, E, <- Hl, List.skipn_app, List.skipn_all, Nat.sub_diag. cbn [app skipn].
  apply List.firstn_all2. rewrite length_app. lia.
Qed.
End Watching.

(** ** On the sample database *)

(** Subscribe to the users, let another client insert, deliver. *)
Definition watching : Engine * Conn := read_one sample_env (request_frame 7 (RWatch "WATCH users")) engine1 (conn_new engine1).
Definition bob_inserted : Engine := (execute NoFault sample_now (SInsert "users" bob) "default" watching.1).1.
Definition bob_told : Conn := deliver 0 bob_inserted watching.2.
Definition the_watcher : Watcher :=
  default {| sub_id := 0; watch_collection := ""; watch_filter := None; start_at := 0; next_event := 0; received := []; running := false |}%string
    (head (watchers bob_told)).

Lemma watching_clients_witness :
  sent_by the_watcher `sublist_of` outbox bob_told
  /\ exists evs, Forall2 (tells 7) (sent_by the_watcher) evs
    /\ feed ("default", "users")%string evs (slots_at ("default", "users")%string engine1) (slots_at ("default", "users")%string bob_inserted).
Proof.
  pose proof (watching_clients_know_the_documents engine1 (conn_new engine1) bob_inserted bob_told the_watcher engine1 "default") as T.
  replace (watch_collection the_watcher) with "users"%string in T by (vm_compute; reflexivity).
  replace (sub_id the_watcher) with 7 in T by (vm_compute; reflexivity).
  apply T; [reflexivity|reflexivity| | |vm_compute; reflexivity|vm_compute; reflexivity|vm_compute; lia|apply engine1_reach| |vm_compute; reflexivity|].
  - assert (P : watching = (watching.1, watching.2)) by apply surjective_pairing.
    refine (Steps_more _ (bob_inserted, watching.2) _ (Steps_more _ watching _ (Steps_more _ _ _ (Steps_none _) _) _) _).
    + exact (Read_step sample_env (request_frame 7 (RWatch "WATCH users")) engine1 (conn_new engine1) eq_refl).
    + rewrite P at 1. exact (Other_step NoFault sample_now (SInsert "users" bob) "default" watching.1 watching.2).
    + exact (Watch_step 0 bob_inserted watching.2).
  - apply list_elem_of_lookup. exists 0%nat. vm_compute. reflexivity.
  - assert (W : watching.1 = engine1) by (vm_compute; reflexivity).
    assert (R : bob_inserted = run (SInsert "users" bob) engine1) by (unfold bob_inserted; now rewrite W). rewrite R.
    refine (Steps_step engine1 engine1 _ sample_now "default" (SInsert "users" bob) (answer (SInsert "users" bob) engine1)
      (Steps_refl _) _ (surjective_pairing _) _); [|left; vm_compute; reflexivity].
    apply insert_fits. vm_compute. reflexivity.
  - apply List.Forall_forall. intros ev H. vm_compute in H. destruct H as [<-|[]]. vm_compute. reflexivity.
Defined.
