(* ===== verification/Subscription.v ===== *)
(** A subscription from end to end: the events the server sends for a watcher ([Watching])
    come out of the client's stream ([nova-client/src/stream.rs]), each once and in order,
    so that an application that reads its stream knows the documents. *)

From S2P Require Export NetworkProps Watching.

#[local] Arguments Client.request_frame : simpl never.

(** ** The event frames of one subscription *)

Definition is_event_of (n : Z) (f : NvpFrame.t) : bool :=
  negb (is_reply f) && (NvpFrame.request_id f =? n).

Definition event_frames (n : Z) (l : list NvpFrame.t) : list NvpFrame.t := List.filter (is_event_of n) l.

Lemma event_frames_app n l l' : event_frames n (l ++ l') = (event_frames n l ++ event_frames n l')%list.
Proof. apply List.filter_app. Qed.

Lemma event_frames_none n l :
  (forall f, f ∈ l -> is_reply f = false -> NvpFrame.request_id f <> n) -> event_frames n l = [].
Proof.
  induction l as [|f l IH]; intros H; [reflexivity|].
  change (event_frames n (f :: l)) with (if is_event_of n f then f :: event_frames n l else event_frames n l).
  rewrite IH by (intros g Hg; apply H; now right). unfold is_event_of. destruct (is_reply f) eqn:R; [reflexivity|].
  rewrite (proj2 (Z.eqb_neq _ _)); [reflexivity|]. apply (H f); [now left|exact R].
Qed.

Lemma event_frames_reply n f : is_reply f = true -> event_frames n [f] = [].
Proof. intros R. cbn. unfold is_event_of. now rewrite R. Qed.

Lemma event_frames_other n f : NvpFrame.request_id f <> n -> event_frames n [f] = [].
Proof. intros D. cbn. unfold is_event_of. rewrite (proj2 (Z.eqb_neq _ _) D). now rewrite andb_false_r. Qed.

Section Subscription.
Context {B : Build} {AN : ArithNan} {HO : HashOrder} {HL : HashOrderLaws HO} {C : CrcLib} {CL : CrcLaws C}
  {U : UuidLib} {UL : UuidLaws U} {J : JsonLib} {JL : JsonLaws J} {UT : UnicodeTables} {TD : TokenDebug}.

(** ** The server's end

    Each watcher has the number of a request that was heard, and the event frames of that
    number are what this watcher sent. *)
Record served_ok (ids : list Z) (c : Conn) : Prop := {
  so_once : NoDup (sub_id <$> watchers c);
  so_heard : forall n, n ∈ sub_id <$> watchers c -> n ∈ ids;
  so_frames : forall f, f ∈ outbox c -> is_reply f = false -> NvpFrame.request_id f ∈ sub_id <$> watchers c;
  so_sent : forall w, w ∈ watchers c -> event_frames (sub_id w) (outbox c) = sent_by w;
}.

Lemma handle_request_subscribes env req_id p e c :
  let c' := (handle_request env req_id p e c).1.2 in
  watchers c' = watchers c \/ exists w, watchers c' = (watchers c ++ [w])%list /\ sub_id w = req_id /\ received w = [].
Proof.
  assert (W : forall coll filter, let c' := (let (c0, r) := start_watch req_id coll filter e c in (e, c0, r)).1.2 in
    watchers c' = watchers c \/ exists w, watchers c' = (watchers c ++ [w])%list /\ sub_id w = req_id /\ received w = []).
  { intros. right. eexists. split; [reflexivity|]. now split. }
  destruct p as [nql|nql|n|token|]; cbn [handle_request]; auto.
  - destruct (negb (authenticated c)); [auto|]. destruct (parse_nql _ _ nql) as [st|er|]; [|auto..].
    destruct st; auto; (match goal with |- context [execute ?f ?n ?s ?ns e] => destruct (execute f n s ns e) as [e' r] end; auto).
  - destruct (negb (authenticated c)); [auto|]. destruct (parse_nql _ _ nql) as [st|er|]; [|auto..]. destruct st; auto.
  - destruct (negb (authenticated c)); auto.
  - destruct (auth_token (config e)) as [expected|]; [destruct (String.eqb token expected)|]; auto.
Qed.

Lemma read_one_subscribes env f e c :
  NvpFrame.frame_type f = FRequest ->
  let c' := (read_one env (inl f) e c).2 in
  watchers c' = watchers c
  \/ exists w, watchers c' = (watchers c ++ [w])%list /\ sub_id w = NvpFrame.request_id f /\ received w = [].
Proof.
  intros Ft. cbn [read_one]. unfold handle_frame. rewrite Ft. destruct (request_from_bytes _) as [p|er|]; [|now left..].
  pose proof (handle_request_subscribes env (NvpFrame.request_id f) p e c) as H.
  destruct (handle_request env _ p e c) as [[e' c'] r]. cbn [fst snd] in H.
  destruct r as [[g|]|er|]; exact H.
Qed.

(** What the server answers is no event. *)
Lemma server_reply_is_reply env f e c g :
  NvpFrame.frame_type f = FRequest -> g ∈ of_option (server_reply env f e c) -> is_reply g = true.
Proof.
  intros Ft Hg. destruct (server_reply env f e c) as [g'|] eqn:E; [|now apply not_elem_of_nil in Hg].
  apply list_elem_of_singleton in Hg as ->. apply server_reply_id in E as [_ E]; [|exact Ft].
  unfold is_reply. now destruct E as [-> | ->].
Qed.

Lemma served_hears ids env f e c :
  NvpFrame.frame_type f = FRequest -> ~ NvpFrame.request_id f ∈ ids -> served_ok ids c ->
  served_ok (ids ++ [NvpFrame.request_id f]) (read_one env (inl f) e c).2.
Proof.
  intros Ft Hn [N H F S]. destruct (read_one_replies env f e c Ft) as (_ & Ro & _).
  pose proof (read_one_subscribes env f e c Ft) as Hw. set (c' := (read_one env (inl f) e c).2) in *.
  assert (Old : forall g, g ∈ outbox c' -> is_reply g = false -> g ∈ outbox c).
  { intros g Hg Hr. rewrite Ro in Hg. apply elem_of_app in Hg as [Hg|Hg]; [exact Hg|].
    apply server_reply_is_reply in Hg; [congruence|exact Ft]. }
  assert (Ev : forall n, event_frames n (outbox c') = event_frames n (outbox c)).
  { intros n. rewrite Ro, event_frames_app.
    enough (event_frames n (of_option (server_reply env f e c)) = []) as -> by apply app_nil_r.
    apply event_frames_none. intros g Hg Hr. apply server_reply_is_reply in Hg; [congruence|exact Ft]. }
  destruct Hw as [Hw|(w & Hw & Hid & Hrc)].
  - constructor; rewrite Hw; [exact N|intros n Hin; apply elem_of_app; left; auto|eauto|intros w Hin; rewrite Ev; auto].
  - assert (Hfresh : ~ sub_id w ∈ sub_id <$> watchers c) by (intros Hin; apply Hn; rewrite <- Hid; auto).
    constructor; rewrite Hw, ?fmap_app.
    + apply NoDup_app. split; [exact N|]. split; [|apply NoDup_singleton].
      intros n Hin Hin'. apply list_elem_of_singleton in Hin' as ->. contradiction.
    + intros n [Hin|Hin]%elem_of_app; apply elem_of_app; [left; auto|right]. cbn in Hin. now rewrite Hid in Hin.
    + intros g Hg Hr. apply elem_of_app. left. auto.
    + intros v [Hin|Hin]%elem_of_app; rewrite Ev; [auto|]. apply list_elem_of_singleton in Hin as ->.
      unfold sent_by. rewrite Hrc. cbn. apply event_frames_none. intros g Hg Hr E. apply Hfresh. rewrite <- E. auto.
Qed.

Lemma event_frame_id w ev f : event_frame w ev = Ok (Some f) -> is_reply f = false /\ NvpFrame.request_id f = sub_id w.
Proof.
  unfold event_frame. destruct (String.eqb _ _); [|discriminate]. intros H. inv_ok H. destruct r; [|discriminate].
  destruct (event_to_bytes ev); [|discriminate..]. now injection H as <-.
Qed.

Lemma served_delivers ids i e c : served_ok ids c -> served_ok ids (deliver i e c).
Proof.
  intros K. unfold deliver. destruct (watchers c !! i) as [w|] eqn:Hi; [|exact K]. destruct (running w); [|exact K].
  set (pos := Nat.max _ _). destruct (events e !! pos) as [ev|]; [|exact K].
  assert (G : forall b, served_ok ids
    {| authenticated := authenticated c; watchers := <[i := take_event ev pos b w]> (watchers c);
       outbox := outbox c ++ of_option (match event_frame w ev with Ok o => o | _ => None end);
       alive := alive c; crashed := crashed c |}).
  { intros b. destruct K as [N H F S].
    assert (Eid : sub_id <$> <[i := take_event ev pos b w]> (watchers c) = sub_id <$> watchers c).
    { rewrite list_fmap_insert. apply list_insert_id. now rewrite list_lookup_fmap, Hi. }
    assert (Eo : of_option (match event_frame w ev with Ok o => o | _ => None end)
                 = match event_frame w ev with Ok (Some f) => [f] | _ => [] end) by now destruct (event_frame w ev) as [[f|]| |].
    assert (Own : forall g, g ∈ of_option (match event_frame w ev with Ok o => o | _ => None end) ->
      is_reply g = false /\ NvpFrame.request_id g = sub_id w).
    { intros g Hg. rewrite Eo in Hg. destruct (event_frame w ev) as [[f|]| |] eqn:E; try now apply not_elem_of_nil in Hg.
      apply list_elem_of_singleton in Hg as ->. now apply event_frame_id with ev. }
    constructor; cbn [watchers outbox]; rewrite ?Eid; auto.
    - intros g [Hg|Hg]%elem_of_app Hr; [auto|]. destruct (Own g Hg) as [_ ->]. apply list_elem_of_fmap.
      exists w. split; [reflexivity|]. now apply list_elem_of_lookup_2 with i.
    - intros v Hv. rewrite event_frames_app. apply list_elem_of_lookup in Hv as [j Hv].
      destruct (decide (i = j)) as [<-|Hne].
      + rewrite list_lookup_insert_eq in Hv by now apply lookup_lt_Some in Hi. injection Hv as <-.
        change (sub_id (take_event ev pos b w)) with (sub_id w). rewrite sent_by_take, <- Eo, S by now apply list_elem_of_lookup_2 with i.
        f_equal. clear -Own. destruct (match event_frame w ev with Ok o => o | _ => None end) as [f|]; [|reflexivity].
        destruct (Own f) as [R E]; [now apply list_elem_of_singleton|]. cbn. unfold is_event_of. now rewrite R, E, Z.eqb_refl.
      + rewrite list_lookup_insert_ne in Hv by exact Hne. rewrite S by now apply list_elem_of_lookup_2 with j.
        rewrite event_frames_none; [apply app_nil_r|]. intros g Hg _ E. destruct (Own g Hg) as [_ Eg]. apply Hne.
        apply (NoDup_lookup (sub_id <$> watchers c) i j (sub_id w)); [exact N| |]; rewrite list_lookup_fmap; [now rewrite Hi|].
        rewrite Hv. cbn. now rewrite <- E, Eg. }
  specialize (G (match event_frame w ev with Ok _ => true | _ => false end)).
  destruct (event_frame w ev) as [[f|]| |]; cbn [of_option] in G; rewrite ?app_nil_r in G; exact G.
Qed.
(** ** The client's end *)

Definition decoded (f : NvpFrame.t) : option DataEvent :=
  match event_from_bytes (NvpFrame.payload f) with Ok ev => Some ev | _ => None end.

(** What the application took from the stream of call [i]. *)
Definition taken_of (i : nat) (taken : list (nat * DataEvent)) : list DataEvent :=
  omap (fun p => if decide (p.1 = i) then Some p.2 else None) taken.

(** A watch call that has entered its stream stands in the table of watchers; what was
    taken from an open stream and what is still in it are the events of the frames read. *)
Record reading_ok (taken : list (nat * DataEvent)) (read : list NvpFrame.t) (c : Client.t) : Prop := {
  ro_table : forall i k, Client.calls c !! i = Some k -> Client.is_watch (Client.call_req k) = true ->
    Client.phase k <> Client.Numbered -> Client.watchers c !! Client.call_id k = Some i;
  ro_entries : forall n i, Client.watchers c !! n = Some i ->
    exists k, Client.calls c !! i = Some k /\ Client.call_id k = n;
  ro_stream : forall i k, Client.calls c !! i = Some k -> Client.is_watch (Client.call_req k) = true ->
    Client.stream_open k = true ->
    (taken_of i taken ++ Client.stream k)%list = omap decoded (event_frames (Client.call_id k) read);
  ro_taken : forall i ev, (i, ev) ∈ taken -> (i < List.length (Client.calls c))%nat;
}.

Lemma taken_of_app i l l' : taken_of i (l ++ l') = (taken_of i l ++ taken_of i l')%list.
Proof. apply omap_app. Qed.

Lemma taken_of_none i l : (forall j ev, (j, ev) ∈ l -> j <> i) -> taken_of i l = [].
Proof.
  induction l as [|[j ev] l IH]; intros H; [reflexivity|].
  change (taken_of i ((j, ev) :: l)) with (match (if decide (j = i) then Some ev else None) with
    Some x => x :: taken_of i l | None => taken_of i l end).
  rewrite decide_False by (apply (H j ev); now left). apply IH. intros j' ev' Hin. apply (H j' ev'). now right.
Qed.

(** A change of one call that leaves its stream alone or closes it. *)
Definition calm (f : Client.Call -> Client.Call) : Prop :=
  forall k, Client.call_id (f k) = Client.call_id k /\ Client.call_req (f k) = Client.call_req k
    /\ (Client.stream_open (f k) = true -> Client.stream_open k = true /\ Client.stream (f k) = Client.stream k).

Lemma reading_on_call taken read c c' i f :
  calm f -> reading_ok taken read c -> Client.calls c' = alter f i (Client.calls c) ->
  (forall n j, Client.watchers c !! n = Some j -> Client.watchers c' !! n = Some j) ->
  (forall n j, Client.watchers c' !! n = Some j -> Client.watchers c !! n = Some j
     \/ exists k, Client.calls c !! j = Some k /\ Client.call_id k = n) ->
  (forall k, Client.calls c !! i = Some k -> Client.is_watch (Client.call_req k) = true ->
     Client.phase (f k) <> Client.Numbered -> Client.watchers c' !! Client.call_id k = Some i) ->
  reading_ok taken read c'.
Proof.
  intros Q [T E S R] Ec Up Down Hi.
  assert (L : forall j k', Client.calls c' !! j = Some k' -> (i <> j /\ Client.calls c !! j = Some k')
    \/ (i = j /\ exists k, Client.calls c !! i = Some k /\ k' = f k)).
  { intros j k'. rewrite Ec, list_lookup_alter. case_decide as D; [|now left].
    intros (k & H & ->)%fmap_Some. right. eauto. }
  constructor.
  - intros j k' [[D H]|(<- & k & H & ->)]%L Hw Hp; [eauto|]. destruct (Q k) as (-> & E2 & _). rewrite E2 in Hw. eauto.
  - intros n j Hn. assert (exists k, Client.calls c !! j = Some k /\ Client.call_id k = n) as (k & Hk & <-)
      by (destruct (Down n j Hn) as [H|H]; [now apply E|exact H]).
    rewrite Ec, list_lookup_alter. case_decide; [subst; rewrite Hk|eauto]. exists (f k). split; [reflexivity|apply Q].
  - intros j k' [[D H]|(<- & k & H & ->)]%L Hw Ho; [eauto|]. destruct (Q k) as (-> & E2 & E3). rewrite E2 in Hw.
    destruct (E3 Ho) as [Ho' ->]. eauto.
  - intros j ev Hj. rewrite Ec, length_alter. eauto.
Qed.

(** A change of calls that were there already, with the table as it is. *)
Lemma reading_quiet taken read c c' i f :
  calm f -> reading_ok taken read c -> Client.calls c' = alter f i (Client.calls c) -> Client.watchers c' = Client.watchers c ->
  (forall k, Client.calls c !! i = Some k -> Client.is_watch (Client.call_req k) = true ->
     Client.phase (f k) <> Client.Numbered -> Client.phase k <> Client.Numbered) ->
  reading_ok taken read c'.
Proof.
  intros Q K Ec Ew Hp. apply (reading_on_call taken read c c' i f Q K Ec); rewrite Ew; auto.
  intros k Hk Hw Hn. apply (ro_table _ _ _ K i k Hk Hw). eauto.
Qed.

Lemma reading_same taken read c c' :
  reading_ok taken read c -> Client.calls c' = Client.calls c -> Client.watchers c' = Client.watchers c -> reading_ok taken read c'.
Proof. intros [T E S R] Ec Ew. constructor; rewrite ?Ec, ?Ew; auto. Qed.

(** Every event read belongs to a call that was sent. *)
Definition owned (read : list NvpFrame.t) (c : Client.t) : Prop :=
  forall f, f ∈ read -> is_reply f = false -> exists i k, Client.calls c !! i = Some k
    /\ Client.phase k = Client.Sent /\ NvpFrame.request_id f = Client.call_id k.

Lemma reading_begins seen taken read req c :
  client_ok seen c -> Z.of_nat (List.length (Client.calls c)) < u64_max -> owned read c ->
  reading_ok taken read c -> reading_ok taken read (Client.begin req c).
Proof.
  intros K Hlen Ow [T E S R]. pose proof (next_exact _ _ K Hlen) as Hn.
  assert (L : forall j k, Client.calls (Client.begin req c) !! j = Some k -> Client.calls c !! j = Some k
    \/ (j = List.length (Client.calls c) /\ Client.call_id k = Client.next_req_id c /\ Client.phase k = Client.Numbered /\ Client.stream k = [])).
  { intros j k H. cbn in H. apply lookup_app_Some in H as [H|[Hj H]]; [now left|right].
    apply list_lookup_singleton_Some in H as [Hj' <-]. split; [lia|]. now repeat split. }
  constructor.
  - intros j k [H|(_ & _ & Hp & _)]%L Hw Hq; [eauto|congruence].
  - intros n j H. destruct (E n j H) as (k & Hk & Hi). exists k. split; [|exact Hi]. cbn. now apply lookup_app_l_Some.
  - intros j k [H|(-> & Hid & _ & Hs)]%L Hw Ho; [eauto|]. rewrite Hid, Hs, app_nil_r, event_frames_none.
    + apply taken_of_none. intros j ev Hj. apply R in Hj. lia.
    + intros f Hf Hr Ef. destruct (Ow f Hf Hr) as (j & k' & Hj & _ & Ei). destruct (ok_ids _ _ K _ _ Hj) as [Ej _].
      apply lookup_lt_Some in Hj. lia.
  - intros j ev Hj. cbn. rewrite length_app. apply R in Hj. lia.
Qed.

Lemma reading_subscribes seen taken read i c :
  client_ok seen c -> reading_ok taken read c -> reading_ok taken read (Client.subscribe i c).
Proof.
  intros K Rd. unfold Client.subscribe. destruct (Client.calls c !! i) as [k|] eqn:Hk; [|exact Rd].
  destruct (Client.phase k) eqn:Hp; try exact Rd. destruct (Client.is_watch (Client.call_req k)) eqn:Hw; [|exact Rd].
  apply (reading_on_call taken read c _ i (Client.set_phase Client.Watching)); [now repeat split|exact Rd|reflexivity|..]; cbn.
  - intros n j Hn. destruct (decide (n = Client.call_id k)) as [->|D]; [|now rewrite lookup_insert_ne].
    destruct (ro_entries _ _ _ Rd _ _ Hn) as (k' & Hk' & Ei). rewrite lookup_insert_eq. f_equal.
    now apply (same_id _ _ _ _ _ _ K Hk Hk').
  - intros n j. rewrite lookup_insert_Some. intros [[<- <-]|[_ H]]; [right; eauto|now left].
  - intros k' Hk' _ _. rewrite Hk in Hk'. injection Hk' as <-. apply lookup_insert_eq.
Qed.

Lemma reading_registers seen taken read i c :
  client_ok seen c -> reading_ok taken read c -> reading_ok taken read (Client.register i c).
Proof.
  intros K Rd. unfold Client.register. destruct (Client.calls c !! i) as [k|] eqn:Hk; [|exact Rd].
  assert (G : registered (Client.phase k) = false -> (Client.is_watch (Client.call_req k) = true -> Client.phase k <> Client.Numbered) ->
    reading_ok taken read (Client.on_call i (Client.set_phase Client.Registered)
      (Client.set_pending (<[Client.call_id k := i]> (Client.pending c)) c))).
  { intros _ Hp. apply (reading_quiet taken read c _ i (Client.set_phase Client.Registered)); try (now repeat split); [exact Rd|].
    intros k' Hk' Hw _. rewrite Hk in Hk'. injection Hk' as <-. auto. }
  destruct (Client.phase k) eqn:Hp; try exact Rd; [destruct (Client.is_watch (Client.call_req k)) eqn:Hw; [exact Rd|]|];
    rewrite (not_pending seen c i k) by (assumption || now rewrite Hp); (apply G; [reflexivity|intros; congruence]).
Qed.

Lemma reading_dispatches taken read i c : reading_ok taken read c -> reading_ok taken read (Client.dispatch i c).
Proof.
  intros Rd. unfold Client.dispatch. destruct (Client.calls c !! i) as [k|] eqn:Hk; [|exact Rd].
  destruct (Client.phase k) eqn:Hp; try exact Rd.
  assert (Hq : forall k', Client.calls c !! i = Some k' -> Client.phase k' <> Client.Numbered) by (intros k' E; congruence).
  destruct (Client.writing c); [case_match; [|exact Rd]|].
  - apply (reading_quiet taken read c _ i (Client.set_phase Client.Sent)); try (now repeat split); [exact Rd|eauto].
  - eapply (reading_quiet taken read c _ i); [|exact Rd|reflexivity|reflexivity|eauto]. now repeat split.
Qed.

(** Steps of the client that take nothing from a stream. *)
Lemma reading_step seen taken read c c' :
  client_ok seen c -> owned read c -> reading_ok taken read c -> client_step c c' ->
  (forall i ev c1, Client.next_event i c = Some (ev, c1) -> c' <> c1) ->
  Z.of_nat (List.length (Client.calls c')) <= u64_max -> reading_ok taken read c'.
Proof.
  intros K Ow Rd Hs Hno Hlen. destruct Hs as [req Hr|i|i|i| | |i ev c1 H|i|].
  - apply (reading_begins seen); try assumption. cbn in Hlen. rewrite length_app in Hlen. cbn in Hlen. lia.
  - now apply (reading_subscribes seen).
  - now apply (reading_registers seen).
  - now apply reading_dispatches.
  - apply (reading_same taken read c); [exact Rd|unfold Client.write_one; now repeat case_match..].
  - now apply (reading_same taken read c).
  - now destruct (Hno i ev c1 H).
  - apply (reading_quiet taken read c _ i (Client.set_stream [] false)); try (now repeat split). exact Rd.
  - now apply (reading_same taken read c).
Qed.

(** The application takes an event. *)
Lemma reading_takes taken read i ev c c' :
  reading_ok taken read c -> Client.next_event i c = Some (ev, c') -> reading_ok (taken ++ [(i, ev)]) read c'.
Proof.
  intros [T E S R] H. unfold Client.next_event in H. destruct (Client.calls c !! i) as [k|] eqn:Hk; [|discriminate].
  destruct (Client.stream k) as [|ev' evs] eqn:Hst; [discriminate|]. injection H as -> <-.
  assert (L : forall j k', Client.calls (Client.on_call i (Client.set_stream evs (Client.stream_open k)) c) !! j = Some k' ->
    (i <> j /\ Client.calls c !! j = Some k') \/ (j = i /\ k' = Client.set_stream evs (Client.stream_open k) k)).
  { intros j k'. rewrite calls_on_call. case_decide as D; [subst; rewrite Hk; intros [= <-]; now right|now left]. }
  constructor.
  - intros j k' [[D Hj]|[-> ->]]%L; [now apply T|]. cbn. now apply T.
  - intros n j Hn. destruct (E n j Hn) as (k' & Hk' & Hi). rewrite calls_on_call. case_decide as D; [|eauto]. subst.
    rewrite Hk' in *. cbn. eexists. now split.
  - intros j k' [[D Hj]|[-> ->]]%L Hw Ho; rewrite taken_of_app.
    + rewrite (taken_of_none j [(i, ev)]), app_nil_r; [now apply S|].
      intros j' ev' Hin. apply list_elem_of_singleton in Hin. congruence.
    + cbn [Client.set_stream Client.stream Client.call_id Client.stream_open Client.call_req] in *.
      rewrite <- (S i k Hk Hw Ho), Hst, <- app_assoc. cbn. now rewrite decide_True.
  - intros j ev' [Hj|Hj]%elem_of_app; rewrite length_calls_on_call; [eauto|].
    apply list_elem_of_singleton in Hj as [= -> ->]. now apply lookup_lt_Some in Hk.
Qed.

(** The client reads a frame. *)
Lemma reading_more taken read c g :
  (forall i k, Client.calls c !! i = Some k -> Client.is_watch (Client.call_req k) = true -> Client.stream_open k = true ->
     omap decoded (event_frames (Client.call_id k) [g]) = []) ->
  reading_ok taken read c -> reading_ok taken (read ++ [g]) c.
Proof.
  intros Hg [T E S R]. constructor; try assumption. intros i k Hk Hw Ho.
  rewrite event_frames_app, omap_app, (Hg i k Hk Hw Ho), app_nil_r. auto.
Qed.

Lemma reading_completes taken read g c : reading_ok taken read c -> reading_ok taken read (Client.complete g c).
Proof.
  intros Rd. unfold Client.complete. destruct (Client.pending c !! _) as [j|]; [|exact Rd].
  eapply (reading_quiet taken read c _ j); [|exact Rd|reflexivity|reflexivity|auto]. now repeat split.
Qed.

(** An event goes into the stream of the call it has the number of, and no other. *)
Lemma reading_event seen taken read g c i k ev :
  client_ok seen c -> reading_ok taken read c -> Client.watchers c !! NvpFrame.request_id g = Some i ->
  is_reply g = false -> event_from_bytes (NvpFrame.payload g) = Ok ev ->
  Client.calls c !! i = Some k -> Client.stream_open k = true ->
  reading_ok taken (read ++ [g]) (Client.on_call i (fun k => Client.set_stream (Client.stream k ++ [ev]) true k) c).
Proof.
  intros K [T E S R] Hn Hg Hev Hk Ho. destruct (E _ _ Hn) as (k0 & Hk0 & Hid). rewrite Hk in Hk0. injection Hk0 as <-.
  set (f := fun k => Client.set_stream (Client.stream k ++ [ev]) true k).
  assert (L : forall j k', Client.calls (Client.on_call i f c) !! j = Some k' ->
    (i <> j /\ Client.calls c !! j = Some k') \/ (j = i /\ k' = f k)).
  { intros j k'. rewrite calls_on_call. case_decide as D; [subst; rewrite Hk; intros [= <-]; now right|now left]. }
  constructor.
  - intros j k' [[D Hj]|[-> ->]]%L; [now apply T|]. cbn. now apply T.
  - intros n j Hj. destruct (E n j Hj) as (k' & Hk' & Hi). rewrite calls_on_call. case_decide as D; [|eauto]. subst.
    rewrite Hk' in *. cbn. eexists. now split.
  - intros j k' [[D Hj]|[-> ->]]%L Hw Ho'; rewrite event_frames_app, omap_app.
    + rewrite event_frames_other; [cbn; rewrite app_nil_r; now apply S|]. rewrite <- Hid. intros Eid.
      apply D. now apply (same_id _ _ _ _ _ _ K Hk Hj).
    + cbn [f Client.set_stream Client.stream Client.call_id Client.call_req] in *. rewrite <- (S i k Hk Hw Ho).
      rewrite Hid. cbn [event_frames List.filter]. unfold is_event_of. rewrite Hg, Z.eqb_refl. cbn. unfold decoded. rewrite Hev.
      now rewrite <- app_assoc.
  - intros j ev' Hj. rewrite length_calls_on_call. eauto.
Qed.

Lemma reading_read seen taken read g c c' :
  client_ok seen c -> owned [g] c -> reading_ok taken read c -> Client.read_frame g c = Some c' ->
  reading_ok taken (read ++ [g]) c'.
Proof.
  intros K Ow Rd H. destruct (is_reply g) eqn:Hg.
  { assert (Q : forall c1, reading_ok taken read c1 -> reading_ok taken (read ++ [g]) c1).
    { intros c1. apply reading_more. intros. now rewrite event_frames_reply. }
    unfold Client.read_frame, is_reply in *. destruct (NvpFrame.frame_type g); try discriminate Hg; injection H as <-;
      apply Q; try exact Rd; now apply reading_completes. }
  destruct (Ow g) as (i & k & Hk & Hs & Hid); [now apply list_elem_of_singleton|exact Hg|].
  unfold Client.read_frame in H. assert (Ft : NvpFrame.frame_type g = FEvent).
  { unfold is_reply in Hg. now destruct (NvpFrame.frame_type g). }
  rewrite Ft in H.
  assert (Skip : (Client.is_watch (Client.call_req k) = true -> Client.stream_open k = true ->
                  decoded g = None) -> reading_ok taken (read ++ [g]) c).
  { intros Hd. apply reading_more; [|exact Rd]. intros j k' Hj Hw Ho.
    destruct (decide (Client.call_id k' = NvpFrame.request_id g)) as [Ei|D]; [|rewrite event_frames_other; [reflexivity|congruence]].
    assert (i = j) as <- by (apply (same_id _ _ _ _ _ _ K Hk Hj); congruence). rewrite Hk in Hj. injection Hj as <-.
    cbn [event_frames List.filter]. destruct (is_event_of _ g); [|reflexivity]. cbn. now rewrite Hd. }
  destruct (Client.watchers c !! NvpFrame.request_id g) as [j|] eqn:Hj.
  2: { injection H as <-. apply Skip. intros Hw _. exfalso.
       rewrite Hid, (ro_table _ _ _ Rd i k Hk Hw) in Hj; [discriminate|congruence]. }
  destruct (ro_entries _ _ _ Rd _ _ Hj) as (k' & Hk' & Hid').
  assert (j = i) as -> by (apply (same_id _ _ _ _ _ _ K Hk' Hk); congruence). rewrite Hk in Hk'. injection Hk' as <-.
  rewrite Hk in H. unfold decoded in Skip. destruct (event_from_bytes (NvpFrame.payload g)) as [ev|er|] eqn:Hev;
    [|injection H as <-; now apply Skip..].
  destruct (Client.stream_open k) eqn:Ho; [|injection H as <-; apply Skip; discriminate].
  case_match; [|discriminate]. injection H as <-. now apply (reading_event seen taken read g c i k ev).
Qed.
(** ** Runs of a system whose application reads streams *)

Definition takes_nothing (s t : System) : Prop :=
  forall i ev c, Client.next_event i (sys_client s) = Some (ev, c) -> t <> with_client c s.

(** A run, and what the application took from which call's stream. *)
Inductive app_run (s0 : System) : list (nat * DataEvent) -> System -> Prop :=
| App_start : app_run s0 [] s0
| App_takes taken s i ev c :
    app_run s0 taken s -> Client.next_event i (sys_client s) = Some (ev, c) ->
    app_run s0 (taken ++ [(i, ev)]) (with_client c s)
| App_other taken s t :
    app_run s0 taken s -> sys_step s t -> takes_nothing s t -> app_run s0 taken t.

Lemma app_run_steps s0 taken s : app_run s0 taken s -> sys_steps s0 s.
Proof.
  induction 1 as [|taken s i ev c _ IH H|taken s t _ IH H _]; [constructor| |now apply Sys_more with s].
  apply Sys_more with s; [exact IH|]. apply Sys_client. exact (Next_event _ i ev c H).
Qed.

Record subscribed_ok (e : Engine) (taken : list (nat * DataEvent)) (s : System) : Prop := {
  sub_system : system_ok (system_open e) s;
  sub_served : served_ok (NvpFrame.request_id <$> firstn (heard s) (Client.wire (sys_client s))) (sys_conn s);
  sub_reading : reading_ok taken (firstn (seen s) (outbox (sys_conn s))) (sys_client s);
}.

Lemma events_owned e s :
  system_ok (system_open e) s ->
  served_ok (NvpFrame.request_id <$> firstn (heard s) (Client.wire (sys_client s))) (sys_conn s) ->
  owned (outbox (sys_conn s)) (sys_client s).
Proof.
  intros K Sv f Hf Hr. pose proof (so_heard _ _ Sv _ (so_frames _ _ Sv f Hf Hr)) as (g & Hid & Hg)%list_elem_of_fmap.
  assert (Hg' : g ∈ Client.wire (sys_client s)).
  { rewrite <- (firstn_skipn (heard s) (Client.wire _)). apply elem_of_app. now left. }
  destruct (wire_request _ _ g (sys_tables _ _ K) Hg') as (i & k & Hk & Hp & ->). eauto.
Qed.

(** The server hears the next frame, which no frame before it has the number of. *)
Lemma next_heard e s f :
  system_ok (system_open e) s -> Client.wire (sys_client s) !! heard s = Some f ->
  NvpFrame.frame_type f = FRequest
  /\ ~ NvpFrame.request_id f ∈ NvpFrame.request_id <$> firstn (heard s) (Client.wire (sys_client s))
  /\ NvpFrame.request_id <$> firstn (S (heard s)) (Client.wire (sys_client s))
     = ((NvpFrame.request_id <$> firstn (heard s) (Client.wire (sys_client s))) ++ [NvpFrame.request_id f])%list.
Proof.
  intros K Hf. destruct (wire_request _ _ f (sys_tables _ _ K)) as (i & k & _ & _ & ->); [now apply list_elem_of_lookup_2 with (heard s)|].
  split; [reflexivity|]. assert (E := take_S_r _ _ _ Hf). split; [|now rewrite E, fmap_app].
  pose proof (wire_once _ _ (S (heard s)) (sys_tables _ _ K)) as N. rewrite E, fmap_app in N. apply NoDup_app in N as (_ & N & _).
  intros Hin. apply (N _ Hin). now left.
Qed.

(** The server moves: what the client has read stays. *)
Lemma server_keeps_read taken s x m :
  (seen s <= List.length (outbox (sys_conn s)))%nat -> outbox (sys_conn s) `prefix_of` outbox x.2 ->
  reading_ok taken (firstn (seen s) (outbox (sys_conn s))) (sys_client s) ->
  reading_ok taken (firstn (seen (with_server x m s)) (outbox (sys_conn (with_server x m s)))) (sys_client (with_server x m s)).
Proof. intros Hs Ho Rd. cbn. now rewrite (take_more _ _ _ Ho). Qed.

Lemma client_reads_inv s s' :
  client_reads s = Some s' -> exists g c, outbox (sys_conn s) !! seen s = Some g
    /\ Client.read_frame g (sys_client s) = Some c
    /\ s' = {| sys_client := c; sys_engine := sys_engine s; sys_conn := sys_conn s; heard := heard s; seen := S (seen s) |}.
Proof.
  unfold client_reads. destruct (Client.reading _); [|discriminate]. destruct (outbox _ !! _) as [g|]; [|discriminate].
  destruct (NvpFrame.encode g); try discriminate. destruct (Client.read_frame g _) as [c|] eqn:Hc; [|discriminate].
  intros [= <-]. eauto.
Qed.

Lemma subscribed_step e taken s t :
  subscribed_ok e taken s -> sys_step s t -> takes_nothing s t -> bounded t -> subscribed_ok e taken t.
Proof.
  intros [K Sv Rd] Hs Hno L. pose proof (system_step_ok _ _ _ K Hs L) as K'. pose proof (events_owned e s K Sv) as Ow.
  pose proof (sys_seen _ _ K) as Hsn.
  assert (Own : owned (firstn (seen s) (outbox (sys_conn s))) (sys_client s)).
  { intros f Hf. apply Ow. rewrite <- (firstn_skipn (seen s) (outbox _)). apply elem_of_app. now left. }
  destruct Hs as [c Hc|s' Hr|env f Ha Hf|env msg Ha|i|fault now stmt ns].
  - destruct (client_step_shape _ _ Hc) as [_ Hw]. split; [exact K'| |].
    + cbn. rewrite (take_more _ _ _ Hw (sys_heard _ _ K)). exact Sv.
    + cbn. apply (reading_step _ taken _ _ c (sys_tables _ _ K) Own Rd Hc); [|exact L].
      intros i ev c1 H ->. now apply (Hno i ev c1).
  - destruct (client_reads_inv s s' Hr) as (g & c & Hg & Hc & ->). destruct (read_frame_shape _ _ _ Hc) as [_ Hw].
    split; [exact K'|cbn; rewrite Hw; exact Sv|]. cbn. rewrite (take_S_r _ _ _ Hg).
    apply (reading_read _ taken _ g (sys_client s) c (sys_tables _ _ K)); [|exact Rd|exact Hc].
    intros f Hf. apply list_elem_of_singleton in Hf as ->. apply Ow. now apply list_elem_of_lookup_2 with (seen s).
  - destruct (next_heard e s f K Hf) as (Ft & Hn & Ei). split; [exact K'|cbn; rewrite Ei; now apply served_hears|].
    apply server_keeps_read; [exact Hsn| |exact Rd].
    destruct (read_one_replies env f (sys_engine s) (sys_conn s) Ft) as (_ & -> & _). now eexists.
  - split; [exact K'|destruct Sv; now constructor|]. now apply server_keeps_read.
  - split; [exact K'|cbn; now apply served_delivers|].
    apply server_keeps_read; [exact Hsn|now apply deliver_replies|exact Rd].
  - split; [exact K'|exact Sv|]. now apply server_keeps_read.
Qed.

Lemma subscribed_open e : subscribed_ok e [] (system_open e).
Proof.
  split; [apply system_open_ok| |].
  - constructor; cbn; try constructor; intros; now apply not_elem_of_nil in H.
  - constructor; cbn; intros *; rewrite ?lookup_nil, ?lookup_empty; try discriminate. intros H. now apply not_elem_of_nil in H.
Qed.

Lemma app_run_ok e taken s : app_run (system_open e) taken s -> bounded s -> subscribed_ok e taken s.
Proof.
  induction 1 as [|taken s i ev c _ IH H|taken s t _ IH H Hno]; intros L; [apply subscribed_open| |].
  - assert (Hs : sys_step s (with_client c s)) by (apply Sys_client; exact (Next_event _ i ev c H)).
    destruct (IH (bounded_before _ _ Hs L)) as [K Sv Rd].
    destruct (client_step_shape _ _ (Next_event _ i ev c H)) as [_ Hw].
    split; [now apply system_step_ok with s|cbn; rewrite (take_more _ _ _ Hw (sys_heard _ _ K)); exact Sv|].
    cbn. now apply reading_takes with (sys_client s).
  - apply subscribed_step with s; try assumption. apply IH. now apply bounded_before with t.
Qed.

(** The server's side of a run is a run of its connection. *)
Lemma sys_conn_steps e s :
  sys_steps (system_open e) s -> conn_steps (connect e) (sys_engine s, sys_conn s).
Proof.
  assert (G : forall s x m, conn_steps (connect e) (sys_engine s, sys_conn s) -> conn_step (sys_engine s, sys_conn s) x ->
    conn_steps (connect e) (sys_engine (with_server x m s), sys_conn (with_server x m s))).
  { intros s0 x m IH H. cbn [with_server sys_engine sys_conn]. rewrite <- surjective_pairing. exact (Steps_more _ _ _ IH H). }
  induction 1 as [|s t _ IH H]; [constructor|]. destruct H as [c Hc|s' Hr|env f Ha Hf|env msg Ha|i|fault now stmt ns].
  - exact IH.
  - destruct (client_reads_inv s s' Hr) as (g & c & _ & _ & ->). exact IH.
  - apply G; [exact IH|now apply Read_step].
  - apply G; [exact IH|now apply Read_step].
  - apply G; [exact IH|apply Watch_step].
  - apply G; [exact IH|apply Other_step].
Qed.

(** ** The theorem *)

(** The events a watcher read that its filter lets through. *)
Definition passed (w : Watcher) : list DataEvent :=
  omap (fun ev => match event_frame w ev with Ok (Some _) => Some ev | _ => None end) (received w).

Lemma sent_decodes w :
  Forall (fun ev => event_ok ev = true) (received w) -> omap decoded (sent_by w) = passed w.
Proof.
  unfold sent_by, passed. induction 1 as [|ev evs Hev _ IH]; [reflexivity|]. cbn.
  pose proof (event_bytes_roundtrip ev Hev) as R.
  destruct (event_frame w ev) as [[f|]| |] eqn:E; try exact IH. cbn.
  assert (Hd : decoded f = Some ev); [|now rewrite Hd, IH].
  unfold event_frame in E. destruct (String.eqb _ _); [|discriminate]. inv_ok E. destruct r; [|discriminate].
  destruct (event_to_bytes ev) as [b| |]; try discriminate E. injection E as <-. unfold decoded. cbn. cbn in R. now rewrite R.
Qed.

Lemma tells_decoded sub fs evs : Forall2 (tells sub) fs evs -> omap decoded fs = evs.
Proof.
  induction 1 as [|f ev fs evs (_ & _ & H) _ IH]; [reflexivity|]. cbn. unfold decoded at 1. now rewrite H, IH.
Qed.

(** C31: a subscription, from the server's events to the application.  First, in any run of a
    client with a server, what an application has taken from the stream of a WATCH call
    is always the beginning of the events that the watcher of that call has read and let
    through, each once and in order.  Second, for a WATCH without a filter: if all statements
    since the subscription fit the log and every UPDATE and REMOVE among them was answered,
    no more events were sent since than the channel holds, the watcher has read all events,
    the client all frames, and the application has emptied the stream, then the events
    taken, applied in the order taken to the documents the collection had at the
    subscription, give the documents the engine has now. *)
Theorem subscribers_know_the_documents e taken s i k w es ns :
  app_run (system_open e) taken s -> bounded s ->
  Client.calls (sys_client s) !! i = Some k -> Client.is_watch (Client.call_req k) = true -> Client.stream_open k = true ->
  w ∈ watchers (sys_conn s) -> sub_id w = Client.call_id k ->
  Forall (fun ev => event_ok ev = true) (received w) ->
  taken_of i taken `prefix_of` passed w
  /\ (watch_filter w = None -> next_event w = List.length (events (sys_engine s)) ->
      (List.length (events (sys_engine s)) <= start_at w + channel_capacity)%nat ->
      seen s = List.length (outbox (sys_conn s)) -> Client.stream k = [] ->
      Reach es -> Steps es (sys_engine s) -> List.length (events es) = start_at w ->
      let key := (ns, watch_collection w) in
      feed key (taken_of i taken) (slots_at key es) (slots_at key (sys_engine s))).
Proof.
  intros H L Hk Hwt Ho Hw Hid Hok. pose proof (app_run_ok e taken s H L) as [K Sv Rd].
  pose proof (ro_stream _ _ _ Rd i k Hk Hwt Ho) as Est. pose proof (so_sent _ _ Sv w Hw) as Esn. rewrite Hid in Esn. split.
  - rewrite <- (sent_decodes w Hok), <- Esn.
    rewrite <- (firstn_skipn (seen s) (outbox (sys_conn s))), event_frames_app, omap_app, <- Est, <- app_assoc. now eexists.
  - intros Hf Hn Hc Hseen Hst HR St Hl key. rewrite Hst, app_nil_r, Hseen, firstn_all, Esn in Est.
    destruct (watching_clients_know_the_documents (connect e).1 (connect e).2 (sys_engine s) (sys_conn s) w es ns
      eq_refl eq_refl (sys_conn_steps e s (app_run_steps _ _ _ H)) Hw Hf Hn Hc HR St Hl Hok) as (_ & evs & Ht & Fd).
    rewrite Est, (tells_decoded _ _ _ Ht). exact Fd.
Qed.
End Subscription.

(** ** On a sample run *)

Definition streams_empty (c : Client.t) : bool :=
  forallb (fun k => match Client.stream k with [] => true | _ => false end) (Client.calls c).

Lemma empty_streams_give_nothing s t : streams_empty (sys_client s) = true -> takes_nothing s t.
Proof.
  intros H i ev c Hn. exfalso. unfold Client.next_event in Hn. destruct (Client.calls (sys_client s) !! i) as [k|] eqn:Hk; [|discriminate].
  apply list_elem_of_lookup_2, list_elem_of_In in Hk. unfold streams_empty in H. rewrite forallb_forall in H.
  specialize (H k Hk). destruct (Client.stream k); [discriminate Hn|discriminate H].
Qed.

(** A client watches the users of an empty database, another client inserts one. *)
Definition subscribing : Client.t :=
  Client.write_one (Client.dispatch 0 (Client.register 0 (Client.subscribe 0
    (Client.begin (RWatch "WATCH users") Client.connected)))).
Definition sub1 : System := with_client subscribing (system_open engine0).
Definition sub_frame : NvpFrame.t := default (NvpFrame.new FPing 0 []) (head (Client.wire subscribing)).
Definition sub2 : System := with_server (read_one sample_env (inl sub_frame) (sys_engine sub1) (sys_conn sub1)) 1 sub1.
Definition sub3 : System :=
  with_server ((execute NoFault sample_now (SInsert "users" bob) "default" (sys_engine sub2)).1, sys_conn sub2) 1 sub2.
Definition sub4 : System := with_server (sys_engine sub3, deliver 0 (sys_engine sub3) (sys_conn sub3)) 1 sub3.
Definition sub5 : System := default sub4 (client_reads sub4).
Definition sub6 : System := default sub5 (client_reads sub5).

Definition sub_event : DataEvent :=
  match Client.next_event 0 (sys_client sub6) with
  | Some (ev, _) => ev
  | None => event_new 0 0 Create "" "" "" None None None
  end.

Definition sub7 : System :=
  match Client.next_event 0 (sys_client sub6) with
  | Some (_, c) => with_client c sub6
  | None => sub6
  end.

Lemma sub1_run : app_run (system_open engine0) [] sub1.
Proof.
  set (c0 := Client.connected). set (c1 := Client.begin (RWatch "WATCH users") c0). set (c2 := Client.subscribe 0 c1).
  set (c3 := Client.register 0 c2). set (c4 := Client.dispatch 0 c3). set (s := system_open engine0).
  refine (App_other _ _ (with_client c4 s) _ _ (Sys_client (with_client c4 s) _ (Write_one c4)) (empty_streams_give_nothing _ _ _)); [|vm_compute; reflexivity].
  refine (App_other _ _ (with_client c3 s) _ _ (Sys_client (with_client c3 s) _ (Dispatch c3 0)) (empty_streams_give_nothing _ _ _)); [|vm_compute; reflexivity].
  refine (App_other _ _ (with_client c2 s) _ _ (Sys_client (with_client c2 s) _ (Register c2 0)) (empty_streams_give_nothing _ _ _)); [|vm_compute; reflexivity].
  refine (App_other _ _ (with_client c1 s) _ _ (Sys_client (with_client c1 s) _ (Subscribe c1 0)) (empty_streams_give_nothing _ _ _)); [|vm_compute; reflexivity].
  refine (App_other _ _ s _ (App_start s) (Sys_client s _ (Begin c0 (RWatch "WATCH users") eq_refl)) (empty_streams_give_nothing _ _ _)).
  vm_compute. reflexivity.
Qed.

Lemma sub4_run : app_run (system_open engine0) [] sub4.
Proof.
  refine (App_other _ _ sub3 _ _ (Sys_notifies sub3 0) (empty_streams_give_nothing _ _ _)); [|vm_compute; reflexivity].
  refine (App_other _ _ sub2 _ _ (Sys_other sub2 NoFault sample_now (SInsert "users" bob) "default") (empty_streams_give_nothing _ _ _)); [|vm_compute; reflexivity].
  refine (App_other _ _ sub1 _ sub1_run (Sys_serves sub1 sample_env sub_frame _ _) (empty_streams_give_nothing _ _ _)); vm_compute; reflexivity.
Qed.

Lemma sub7_run : app_run (system_open engine0) [(0%nat, sub_event)] sub7.
Proof.
  assert (R6 : app_run (system_open engine0) [] sub6).
  { refine (App_other _ _ sub5 _ _ (Sys_reads sub5 sub6 _) (empty_streams_give_nothing _ _ _)); [| |vm_compute; reflexivity].
    - refine (App_other _ _ sub4 _ sub4_run (Sys_reads sub4 sub5 _) (empty_streams_give_nothing _ _ _)); [|vm_compute; reflexivity].
      unfold sub5. destruct (client_reads sub4) eqn:E; [reflexivity|]. vm_compute in E. discriminate.
    - unfold sub6. destruct (client_reads sub5) eqn:E; [reflexivity|]. vm_compute in E. discriminate. }
  unfold sub7, sub_event. destruct (Client.next_event 0 (sys_client sub6)) as [[ev c]|] eqn:E; [|vm_compute in E; discriminate].
  exact (App_takes (system_open engine0) [] sub6 0 ev c R6 E).
Qed.

(** The engine at the subscription. *)
Lemma sub2_reach : Reach (sys_engine sub2).
Proof.
  apply (Reach_open config_default (Metrics.inc_connections (Metrics.new 0))); [reflexivity|]. vm_compute. reflexivity.
Qed.

Lemma sub7_steps : Steps (sys_engine sub2) (sys_engine sub7).
Proof.
  assert (E : sys_engine sub7 = run (SInsert "users" bob) (sys_engine sub2)) by (vm_compute; reflexivity). rewrite E.
  refine (Steps_step (sys_engine sub2) (sys_engine sub2) _ sample_now "default" (SInsert "users" bob)
    (answer (SInsert "users" bob) (sys_engine sub2)) (Steps_refl _) _ (surjective_pairing _) _); [|left; vm_compute; reflexivity].
  apply insert_fits. vm_compute. reflexivity.
Qed.

Lemma taken_of_one i ev : taken_of i [(i, ev)] = [ev].
Proof. cbn. now rewrite decide_True. Qed.

Lemma subscribers_know_witness :
  let key := ("default", "users")%string in
  feed key [sub_event] (slots_at key (sys_engine sub2)) (slots_at key (sys_engine sub7))
  /\ slots_at key (sys_engine sub7) "u2"%string = Some bob.
Proof.
  cbn zeta. split; [|vm_compute; reflexivity].
  assert (B7 : bounded sub7) by (vm_compute; discriminate).
  destruct (Client.calls (sys_client sub7) !! 0%nat) as [k|] eqn:Hk; [|vm_compute in Hk; discriminate].
  destruct (watchers (sys_conn sub7) !! 0%nat) as [w|] eqn:Hw; [|vm_compute in Hw; discriminate].
  assert (Kk : Client.is_watch (Client.call_req k) = true /\ Client.stream_open k = true /\ Client.stream k = [] /\ Client.call_id k = 1).
  { vm_compute in Hk. injection Hk as <-. repeat split. }
  assert (F : Forall (fun ev => event_ok ev = true) (received w)).
  { vm_compute in Hw. injection Hw as <-. repeat constructor. }
  assert (W : sub_id w = 1 /\ watch_filter w = None /\ next_event w = 1%nat /\ start_at w = 0%nat /\ watch_collection w = "users"%string).
  { vm_compute in Hw. injection Hw as <-. repeat split. }
  destruct Kk as (K1 & K2 & K3 & K4), W as (W1 & W2 & W3 & W4 & W5). apply list_elem_of_lookup_2 in Hw.
  destruct (subscribers_know_the_documents engine0 _ sub7 0 k w (sys_engine sub2) "default" sub7_run B7 Hk K1 K2 Hw
    (eq_trans W1 (eq_sym K4)) F) as [_ T]. rewrite W3, W4, W5, taken_of_one in T. cbn zeta in T.
  apply T; [exact W2| | | |exact K3|exact sub2_reach|exact sub7_steps|]; vm_compute; (reflexivity || lia).
Defined.
