(* ===== verification/Failures.v ===== *)
(** Statements that fail half way: what an UPDATE that stops has changed, logged and
    announced, and why a REMOVE does not stop. *)

From S2P Require Export EngineProps Feed.

#[local] Arguments record_bytes : simpl never.

Section Failures.
Context {B : Build} {AN : ArithNan} {HO : HashOrder} {HL : HashOrderLaws HO}
  {C : CrcLib} {CL : CrcLaws C} {U : UuidLib} {UL : UuidLaws U} {J : JsonLib} {JL : JsonLaws J}.

(** ** UPDATE *)

(** A loop that does not come to its end has done a prefix of its identifiers and
    stops at the next one. *)
Lemma update_loop_stops fault now t key asg filter ids acc e e' r :
  update_loop fault now t key asg filter ids acc e = (e', r) -> is_ok r = false ->
  exists done i rest e1 us1 t1,
    ids = (done ++ i :: rest)%list
    /\ update_loop fault now t key asg filter done acc e = (e1, Ok us1)
    /\ update_loop fault now t1 key asg filter [i] us1 e1 = (e', r).
Proof.
  revert t acc e. induction ids as [|i ids IH]; intros t acc e H Hr.
  { cbn in H. injection H as <- <-. discriminate Hr. }
  assert (Here : update_loop fault now t key asg filter [i] acc e = (e', r) ->
    exists done j rest e1 us1 t1, i :: ids = (done ++ j :: rest)%list
      /\ update_loop fault now t key asg filter done acc e = (e1, Ok us1)
      /\ update_loop fault now t1 key asg filter [j] us1 e1 = (e', r))
    by (intros E; exists [], i, ids, e, acc, t; auto).
  assert (There : forall t' acc' e2,
    update_loop fault now t' key asg filter ids acc' e2 = (e', r) ->
    (forall l, update_loop fault now t key asg filter (i :: l) acc e
               = update_loop fault now t' key asg filter l acc' e2) ->
    exists done j rest e1 us1 t1, i :: ids = (done ++ j :: rest)%list
      /\ update_loop fault now t key asg filter done acc e = (e1, Ok us1)
      /\ update_loop fault now t1 key asg filter [j] us1 e1 = (e', r)).
  { intros t' acc' e2 E S. destruct (IH t' acc' e2 E Hr) as (done & j & rest & e1 & us1 & t1 & -> & E1 & E2).
    exists (i :: done), j, rest, e1, us1, t1. split; [reflexivity|]. split; [now rewrite S|exact E2]. }
  cbn [update_loop] in H, Here, There.
  destruct (store_at key e !! i) as [before|]; [|exact (There _ _ _ H (fun _ => eq_refl))].
  destruct (matches_filter filter before) as [[|]|er|]; [|exact (There _ _ _ H (fun _ => eq_refl))|exact (Here H)..].
  destruct (apply_assignments (now t) before asg) as [after [u|er|]]; [|exact (Here H)..].
  destruct (NbfRecord.payload_from_document after) as [pl|er|]; [|exact (Here H)..].
  destruct (WriteAheadLog.append _ _ _ _ _ _ _ _ _) as [w [seq|er|]]; [|exact (Here H)..].
  destruct (IndexManager.on_update _ _ _) as [m [u'|er|]]; [exact (There _ _ _ H (fun _ => eq_refl))..|exact (Here H)].
Qed.

(** Why the loop stops at a document. *)
Definition stops_at (now : nat -> Z) (t : nat) (asg : list Assignment) (filter : option Expr)
    (before : Document) {A} (r : result A) : Prop :=
  match r with
  | Ok _ => False
  | Panic => matches_filter filter before = Panic \/ (apply_assignments (now t) before asg).2 = Panic
  | Err er =>
    matches_filter filter before = Err er
    \/ (matches_filter filter before = Ok true /\ (apply_assignments (now t) before asg).2 = Err er)
    \/ code er = StorageError
  end.

(** The document at which the loop stops is at most changed in memory: log and indexes
    are those of the engine [g] in which it is not. *)
Definition changed_in_memory (key : CollectionKey) (i : DocumentId) (after : Document) (g e' : Engine) : Prop :=
  wal e' = wal g /\ (forall k, manager_at k e' = manager_at k g)
  /\ ((forall k, store_at k e' = store_at k g)
      \/ forall k, store_at k e' = if decide (k = key) then <[i := after]> (store_at key g) else store_at k g).

Lemma update_step_stops now t key asg filter i us rs e e' r n :
  valid_str key.1 = true -> valid_str key.2 = true -> engine_ok rs e -> has_room (S n) e ->
  (forall d, store_at key e !! i = Some d -> good_update now asg filter d) ->
  update_loop NoFault now t key asg filter [i] us e = (e', r) -> is_ok r = false ->
  exists before g, store_at key e !! i = Some before /\ stops_at now t asg filter before r
    /\ engine_ok rs g /\ has_room n g /\ (synced e -> synced g) /\ (forall k, store_at k g = store_at k e)
    /\ changed_in_memory key i (apply_assignments (now t) before asg).1 g e'.
Proof.
  intros Vn Vc OK Room HG H Hr. cbn [update_loop] in H.
  destruct (store_at key e !! i) as [before|] eqn:Hb; [|injection H as <- <-; discriminate Hr].
  assert (Room' : has_room n e) by (eapply has_room_weaken; [|exact Room]; lia).
  exists before.
  assert (Same : forall r0, r = r0 -> e' = e -> stops_at now t asg filter before r0 ->
    exists g, Some before = Some before /\ stops_at now t asg filter before r
      /\ engine_ok rs g /\ has_room n g /\ (synced e -> synced g) /\ (forall k, store_at k g = store_at k e)
      /\ changed_in_memory key i (apply_assignments (now t) before asg).1 g e').
  { intros r0 -> -> S0. exists e. repeat (split; [first [assumption|reflexivity|tauto]|]).
    now left. }
  assert (Put : forall w k, store_at k (set_wal w (put_store key (<[i := (apply_assignments (now t) before asg).1]> (store_at key e)) e))
    = if decide (k = key) then <[i := (apply_assignments (now t) before asg).1]> (store_at key e) else store_at k e).
  { intros w k. etransitivity; [apply store_at_put|]. reflexivity. }
  destruct (matches_filter filter before) as [[|]|er|] eqn:Ef.
  2: { injection H as <- <-. discriminate Hr. }
  2, 3: injection H as <- <-; eapply Same; [reflexivity..|]; cbn; now left.
  destruct (apply_assignments (now t) before asg) as [after applied] eqn:Ea. cbn [fst] in *.
  assert (Mem : forall r0, e' = put_store key (<[i := after]> (store_at key e)) e -> r = r0 -> stops_at now t asg filter before r0 ->
    exists g, Some before = Some before /\ stops_at now t asg filter before r
      /\ engine_ok rs g /\ has_room n g /\ (synced e -> synced g) /\ (forall k, store_at k g = store_at k e)
      /\ changed_in_memory key i after g e').
  { intros r0 -> -> S0. exists e. repeat (split; [first [assumption|reflexivity|tauto]|]).
    right. exact (Put (wal e)). }
  destruct applied as [u|er|].
  2, 3: injection H as <- <-; eapply Mem; [reflexivity..|]; cbn; rewrite Ef, Ea; cbn; auto.
  unfold NbfRecord.payload_from_document in H.
  destruct (HG before eq_refl Ef t after) as [Ho Hst]; [now destruct u|].
  pose proof OK as (SG & Ix & Lg). destruct (SG _ _ _ Hb) as (_ & _ & Hval).
  destruct (Ix key) as [Sk _]. destruct (Sk _ _ Hb) as [Ei _]. subst i.
  destruct (WriteAheadLog.append _ _ _ _ _ _ _ _ _) as [w logged_] eqn:Ew.
  destruct (append_logged (now (S t)) Update key (id before) _ rs e n w logged_ Vn Vc Hval Lg Room Ew) as (Hroom & Hm & HA).
  pose proof (apply_assignments_id (now t) before asg) as Hid. rewrite Ea in Hid. cbn in Hid.
  destruct logged_ as [seq|er|]; [| |destruct HA].
  - destruct (put_doc_ok key before after rs e n w seq (now (S t)) Vn Vc OK Room Hb Hid Ho Hst Ew) as (m' & rc & Em & _).
    change (manager_at key (set_wal w ?x)) with (manager_at key e) in H. rewrite Em in H.
    injection H as <- <-. discriminate Hr.
  - injection H as <- <-. destruct HA as [HA Hbuf]. exists (set_wal w e).
    split; [reflexivity|]. split; [right; right; eapply append_error_code, Ew|].
    split; [split; [exact SG|split; [exact Ix|split; [exact HA|apply Lg]]]|]. split; [exact Hroom|].
    split; [intros [S1 S2]; split; [exact (eq_trans Hm S1)|exact (eq_trans Hbuf S2)]|]. split; [reflexivity|].
    split; [reflexivity|]. split; [reflexivity|]. right. exact (Put w).
Qed.

(** The loop that stops: the logged engine [g] and what is in memory beyond it. *)
Lemma update_loop_stop_ok now key asg filter ids rs e e' r :
  valid_str key.1 = true -> valid_str key.2 = true -> NoDup ids -> engine_ok rs e -> has_room (List.length ids) e -> synced e ->
  (forall i d, store_at key e !! i = Some d -> good_update now asg filter d) ->
  update_loop NoFault now 0 key asg filter ids [] e = (e', r) -> is_ok r = false ->
  exists done i rest before t rs' g,
    ids = (done ++ i :: rest)%list /\ store_at key e !! i = Some before /\ stops_at now t asg filter before r
    /\ updated_store now asg filter done (store_at key e) (store_at key g) /\ store_at key g !! i = Some before
    /\ engine_ok rs' g /\ has_room 0 g /\ synced g
    /\ changed_in_memory key i (apply_assignments (now t) before asg).1 g e'.
Proof.
  intros Vn Vc HN OK Room [S1 S2] HG El Hr.
  destruct (update_loop_stops _ _ _ _ _ _ _ _ _ _ _ El Hr) as (done & i & rest & g0 & us1 & t & -> & E1 & E2).
  apply NoDup_app in HN as (HNd & Hdis & _). rewrite length_app in Room. cbn [List.length] in Room.
  destruct (update_loop_ok now 0 key asg filter done [] rs e _ g0 us1 Vn Vc HNd OK Room)
    as ((rs' & A1) & A2 & A3 & A4 & A5 & _); [intros j d _; apply HG|exact E1|].
  assert (Hi : store_at key g0 !! i = store_at key e !! i).
  { specialize (A5 i). rewrite bool_decide_false in A5; [|intros Hin; apply (Hdis i Hin); now left]. cbn [andb] in A5.
    destruct (store_at key e !! i); exact A5. }
  destruct (update_step_stops now t key asg filter i us1 (rs ++ rs') g0 e' r (List.length rest) Vn Vc A1 A2)
    as (before & g & Hb & Hwhy & OKg & Hroomg & Hsy & Sg & M); [|exact E2|exact Hr|].
  { intros d Hd. rewrite Hi in Hd. exact (HG i d Hd). }
  exists done, i, rest, before, t, (rs ++ rs')%list, g. rewrite Sg, Hb. split; [reflexivity|]. split; [now rewrite <- Hi|].
  split; [exact Hwhy|]. split; [exact A5|]. split; [reflexivity|]. split; [exact OKg|].
  split; [eapply has_room_weaken; [|exact Hroomg]; lia|]. split; [|exact M].
  apply Hsy. split; [now rewrite A3|now apply A4].
Qed.

(** ** REMOVE *)

(** A record changes the collection it names. *)
Lemma replay_record_named key r st st' :
  replay_record r st = Ok st' ->
  (NbfRecord.namespace r, NbfRecord.collection r) = key \/ rec_store key st' = rec_store key st.
Proof.
  intros H. destruct (decide ((NbfRecord.namespace r, NbfRecord.collection r) = key)) as [E|D]; [now left|right].
  unfold replay_record, apply_record_to_state in H. unfold rec_store.
  destruct (NbfRecord.record_type r); inv_ok H; injection H as <-;
    try inv_ok Hr; injection Hr as <-; cbn; now rewrite rec_store_insert, decide_False by congruence.
Qed.

(** A collection with documents is named by a record. *)
Lemma replayed_is_named rs st key :
  replay rs recovered_new = Ok st -> rec_store key st <> ∅ ->
  exists r, In r rs /\ (NbfRecord.namespace r, NbfRecord.collection r) = key.
Proof.
  revert st. induction rs as [|r rs IH] using rev_ind; intros st H G.
  { injection H as <-. now destruct G. }
  rewrite replay_app in H. destruct (replay rs recovered_new) as [st0| |] eqn:E; [|discriminate..].
  cbn [bindO replay] in H. inv_ok H. injection H as <-.
  destruct (replay_record_named key _ _ _ Hr) as [D|D]; [exists r; rewrite in_app_iff; cbn; auto|].
  rewrite D in G. destruct (IH st0 eq_refl G) as (r' & Hin & Er). exists r'. rewrite in_app_iff. auto.
Qed.

(** A deletion fits the log where an insertion did. *)
Lemma append_delete_fits key i d rs e n now w er :
  engine_ok rs e -> has_room (S n) e -> store_at key e !! i = Some d ->
  WriteAheadLog.append NoFault now Delete key.1 key.2 i [] None (wal e) <> (w, Err er).
Proof.
  intros (SG & I & [(closed & opened & disk & HI & EI) (st & R & S)]) _ Hd H.
  destruct (SG _ _ _ Hd) as (_ & _ & Hval). destruct (I key) as [Sk _]. destruct (Sk _ _ Hd) as [Ei _]. rewrite Ei in Hval.
  destruct (replayed_is_named rs st key R) as (r & Hin & Er).
  { rewrite S. intros E. rewrite E, lookup_empty in Hd. discriminate. }
  pose proof (inv_records _ _ _ _ HI) as HR. rewrite EI in HR. rewrite List.Forall_forall in HR.
  destruct (HR r Hin) as (_ & _ & _ & _ & _ & Ln & _ & Lc & _).
  assert (E1 : key.1 = NbfRecord.namespace r) by now rewrite <- Er.
  assert (E2 : key.2 = NbfRecord.collection r) by now rewrite <- Er.
  destruct (doc_id_bounds _ Hval) as [Li _].
  unfold WriteAheadLog.append, WriteAheadLog.next_sequence in H.
  unfold NbfRecord.encode in H. cbn [WriteAheadLog.make_record NbfRecord.namespace NbfRecord.collection NbfRecord.document_id NbfRecord.payload] in H.
  rewrite E1, E2 in H.
  rewrite (proj2 (Z.ltb_ge u16_max _) Ln), (proj2 (Z.ltb_ge u16_max _) Lc), (proj2 (Z.ltb_ge u16_max (str_len i))) in H
    by (unfold u16_max; lia).
  change (MAX_PAYLOAD <? Z.of_nat (List.length [])) with false in H. discriminate H.
Qed.

(** With the log's room, the loop over identifiers comes to its end. *)
Lemma remove_loop_ends now t key ids acc rs e n :
  valid_str key.1 = true -> valid_str key.2 = true -> engine_ok rs e -> has_room (List.length ids + n) e ->
  exists e' us, remove_loop NoFault now t key ids acc e = (e', Ok us).
Proof.
  intros Vn Vc. revert t acc rs e. induction ids as [|i ids IH]; intros t acc rs e OK Room; cbn [remove_loop]; [eauto|].
  assert (Room' : has_room (List.length ids + n) e) by (eapply has_room_weaken; [|exact Room]; cbn; lia).
  destruct (store_at key e !! i) as [d|] eqn:Hd; [|now apply (IH _ _ rs)].
  pose proof OK as (SG & Ix & Lg). destruct (Ix key) as [Sk _]. destruct (Sk _ _ Hd) as [Ei _].
  destruct (WriteAheadLog.append _ _ _ _ _ _ _ _ _) as [w [seq|er|]] eqn:Ew.
  - subst i. destruct (delete_doc_ok key d rs e (List.length ids + n) w seq (now t) Vn Vc OK Room Hd Ew)
      as (m' & r & Em & OK' & Room2 & _).
    change (manager_at key (set_wal w ?x)) with (manager_at key e). rewrite Em.
    exact (IH _ _ _ _ OK' Room2).
  - now apply (append_delete_fits key i d rs e _ _ w er OK Room Hd) in Ew.
  - destruct (SG _ _ _ Hd) as (_ & _ & Hval). rewrite Ei in Hval.
    now destruct (append_logged (now t) Delete key i _ rs e _ w Panic Vn Vc Hval Lg Room Ew) as (_ & _ & []).
Qed.

Lemma target_ids_total filter (s : DocumentStore) ids :
  (forall i d, s !! i = Some d -> matches_filter filter d <> Panic) -> exists l, target_ids filter s ids = Ok l.
Proof.
  intros H. induction ids as [|i ids [l IH]]; cbn [target_ids]; [eauto|].
  destruct (s !! i) as [d|] eqn:E; [|eauto]. rewrite IH.
  destruct (matches_filter filter d) as [b|er|] eqn:Ef; cbn; [eauto..|]. now destruct (H i d E).
Qed.
(** ** The theorems *)

(** C16: an UPDATE that is not answered, because its filter or an assignment fails or
    panics on a document or the log refuses it, has stopped at one document: those
    before it in the scan are changed and logged, those after it are untouched, that
    one is at most changed in memory; nothing has been announced, the indexes are those
    of the logged documents, and a restart brings back exactly these. *)
Theorem failed_update_spec now ns coll asg filter e e' r cfg m :
  Reach e -> stmt_ok now ns (SUpdate coll asg filter) e ->
  execute NoFault now (SUpdate coll asg filter) ns e = (e', r) -> is_ok r = false ->
  let key := (ns, coll) in
  exists done i rest before logged t e2,
    store_keys (store_at key e) = (done ++ i :: rest)%list
    /\ store_at key e !! i = Some before /\ stops_at now t asg filter before r
    /\ updated_store now asg filter done (store_at key e) logged /\ logged !! i = Some before
    /\ (store_at key e' = logged \/ store_at key e' = <[i := (apply_assignments (now t) before asg).1]> logged)
    /\ others_same key e e' /\ events e' = events e
    /\ (forall k, manager_ok (if decide (k = key) then logged else store_at k e') (manager_at k e'))
    /\ Engine.open cfg m (WriteAheadLog.dir (wal e')) = Ok e2
    /\ store_at key e2 = logged /\ others_same key e' e2.
Proof.
  intros HR (Vn & Vc & Room & HG) H Hr key. destruct (Reach_ok e HR) as ((rs & OK) & _ & Sy & _).
  pose proof (statement_frame NoFault now (SUpdate coll asg filter) ns e) as Fr. rewrite H in Fr. cbn [fst target] in Fr.
  cbn [execute] in H. unfold execute_update, update_changes in H. fold key in H.
  set (e0 := on_metrics _ (on_metrics _ e)) in H. set (e1 := entry_both key e0) in H.
  destruct (entry_both_same key e0) as [Es _]. change (forall k, store_at k e1 = store_at k e) in Es. rewrite Es in H.
  assert (OK1 : engine_ok rs e1) by (apply entry_both_ok; now apply (engine_ok_ext rs e)).
  destruct (update_loop NoFault now 0 key asg filter (store_keys (store_at key e)) [] e1) as [e3 r3] eqn:El.
  assert (Hr3 : is_ok r3 = false /\ e' = e3 /\ forall before t, stops_at now t asg filter before r3 -> stops_at now t asg filter before r).
  { destruct r3 as [us|er|]; injection H as <- <-; [discriminate Hr|now repeat split..]. }
  destruct Hr3 as (Hr3 & -> & Hst). clear H.
  pose proof (update_loop_events NoFault now 0 key asg filter (store_keys (store_at key e)) [] e1) as Ev. rewrite El in Ev.
  destruct (update_loop_stop_ok now key asg filter (store_keys (store_at key e)) rs e1 e3 r3 Vn Vc (NoDup_store_ids (store_at key e)) OK1) as
    (done & i & rest & before & t & rs' & g & Ei & Hb & Hwhy & Hu & Hg & OKg & Rg & Sg & (Ew & Em & Es3));
    [now rewrite length_store_keys|exact Sy|intros i d; rewrite Es; apply HG|exact El|exact Hr3|].
  rewrite Es in Hb, Hu. destruct (restart_ok rs' g cfg m OKg Rg Sg) as (e2 & Eo & S2).
  assert (Eg : forall k, k <> key -> store_at k e3 = store_at k g).
  { intros k Hk. destruct Es3 as [Es3|Es3]; rewrite Es3; [reflexivity|now rewrite decide_False]. }
  exists done, i, rest, before, (store_at key g), t, e2. split; [exact Ei|]. split; [exact Hb|]. split; [now apply Hst|].
  split; [exact Hu|]. split; [exact Hg|].
  split; [destruct Es3 as [Es3|Es3]; rewrite (Es3 key); [now left|right; now rewrite decide_True]|].
  split; [intros k Hk; now apply Fr|]. split; [exact Ev|]. split; [|split; [now rewrite Ew|split; [apply S2|]]].
  - intros k. rewrite Em. destruct OKg as (_ & Ig & _). destruct (Ig k) as [_ Mk].
    case_decide as D; [now subst k|]. now rewrite Eg.
  - intros k Hk. now rewrite S2, Eg.
Qed.

(** C15: a REMOVE is always answered, unless its filter panics: documents on which the
    filter fails are kept like those it does not select, the documents that are gone are
    exactly those counted, other collections are left alone, and the log has taken every
    deletion: on what is then on disk a server opens with the documents that are left, in
    every collection. *)
Theorem remove_always_answers now ns coll filter e cfg m :
  Reach e -> stmt_ok now ns (SRemove coll filter) e ->
  (forall i d, store_at (ns, coll) e !! i = Some d -> matches_filter filter d <> Panic) ->
  exists e' msg,
    execute NoFault now (SRemove coll filter) ns e
      = (e', Ok (PSuccess msg (Z.of_nat (List.length (matches_of filter (store_at (ns, coll) e))))))
    /\ (forall i, store_at (ns, coll) e' !! i
         = match store_at (ns, coll) e !! i with
           | Some d => if matching filter d then None else Some d
           | None => None
           end)
    /\ others_same (ns, coll) e e'
    /\ exists e2, Engine.open cfg m (WriteAheadLog.dir (wal e')) = Ok e2 /\ forall k, store_at k e2 = store_at k e'.
Proof.
  intros HR Hs HP. pose proof Hs as (Vn & Vc & Room). destruct (reach_engine_ok e HR) as (rs & OK).
  assert (E : exists e' resp, execute NoFault now (SRemove coll filter) ns e = (e', Ok resp)).
  { cbn [execute]. unfold execute_remove, remove_changes. set (key := (ns, coll)) in *.
    set (e0 := on_metrics _ (on_metrics _ e)). set (e1 := entry_both key e0).
    destruct (entry_both_same key e0) as [Es _]. change (forall k, store_at k e1 = store_at k e) in Es. rewrite Es.
    destruct (target_ids_total filter (store_at key e) (store_keys (store_at key e)) HP) as [ids Et]. rewrite Et.
    assert (Hlen : (List.length ids <= size (store_at key e))%nat).
    { apply target_ids_spec in Et. subst ids. rewrite <- length_store_keys. apply List.filter_length_le. }
    destruct (remove_loop_ends now 0 key ids [] rs e1 0 Vn Vc) as (e2 & us & ->); [| |eauto].
    - apply entry_both_ok. now apply (engine_ok_ext rs e).
    - rewrite Nat.add_0_r. eapply has_room_weaken; [exact Hlen|exact Room]. }
  destruct E as (e' & resp & E). destruct (remove_follows now ns coll filter e e' resp HR Hs E) as (Us & msg & R).
  exists e', msg. split; [rewrite E; now injection R as ->|]. split; [exact Us|]. split.
  2: { exact (proj2 (step_restarts now ns (SRemove coll filter) e e' (Ok resp) cfg m HR Hs E (or_introl eq_refl))). }
  intros k Hk. pose proof (frame_execute NoFault now (SRemove coll filter) ns e k Hk) as [F _]. now rewrite E in F.
Qed.
End Failures.

(** ** On the sample database *)

(** [UPDATE users SET name = 'x', age = 60 / (age - 25)]: Bob is 25. *)
Definition per_year : list Assignment :=
  [{| as_field := "name"; as_expr := ELiteral (VString "x") |};
   {| as_field := "age";
      as_expr := EBinary Divide (ELiteral (VInt 60)) (EBinary Minus (EField "age") (ELiteral (VInt 25))) |}]%string.

Lemma sample_users (P : Document -> Prop) :
  P ada -> P bob -> forall i d, store_at ("default", "users")%string engine3 !! i = Some d -> P d.
Proof.
  intros Ha Hb. apply (map_Forall_lookup (fun _ => P)).
  replace (store_at ("default", "users")%string engine3)
    with (list_to_map [("u1", ada); ("u2", bob)]%string : DocumentStore) by (vm_compute; reflexivity).
  cbn [list_to_map foldr uncurry]. repeat (apply map_Forall_insert_2; [assumption|]). apply map_Forall_empty.
Qed.

Lemma per_year_ok : stmt_ok sample_now "default" (SUpdate "users" per_year None) engine3.
Proof.
  cbn [stmt_ok]. split; [reflexivity|]. split; [reflexivity|]. split; [split; vm_compute; discriminate|].
  apply sample_users; intros _ t after H; vm_compute in H; [|discriminate H].
  injection H as <-. split; vm_compute; reflexivity.
Qed.

Lemma one_of_two {A} (a b x : A) done rest : [a; b] = (done ++ x :: rest)%list -> x = a \/ x = b.
Proof.
  intros E. assert (Hin : In x [a; b]) by (rewrite E, in_app_iff; cbn; auto).
  destruct Hin as [<-|[<-|[]]]; auto.
Qed.

(** Ada has been changed for good, Bob in memory only, and nobody was told. *)
Lemma failed_update_witness :
  let e' := run (SUpdate "users" per_year None) engine3 in
  let key := ("default", "users")%string in
  exists e2, Engine.open config_default (Metrics.new 5) (WriteAheadLog.dir (wal e')) = Ok e2
    /\ (store_at key e2 !! "u1"%string ≫= fun d => Doc.lookup d "age") = Some (VInt 12)
    /\ store_at key e2 !! "u2"%string = Some bob /\ store_at key e' !! "u2"%string <> Some bob
    /\ events e' = events engine3.
Proof.
  cbn zeta. set (e' := run (SUpdate "users" per_year None) engine3). set (key := ("default", "users")%string).
  assert (A : answer (SUpdate "users" per_year None) engine3 = Err (Errors.new InvalidQuery "Division by zero"))
    by (vm_compute; reflexivity).
  destruct (failed_update_spec sample_now "default" "users" per_year None engine3 e' _ config_default (Metrics.new 5)
    engine3_reach per_year_ok (executed _ _ _ A) eq_refl)
    as (done & i & rest & before & logged & t & e2 & Ek & Hb & Hwhy & _ & Hl & Hm & _ & Ev & _ & Eo & E2 & _).
  fold key in Ek, Hb, Hm, E2, Eo. exists e2. split; [exact Eo|].
  assert (N : store_at key e' !! "u2"%string <> Some bob) by (vm_compute; discriminate).
  assert (Ei : i = "u2"%string).
  { replace (store_keys (store_at key engine3)) with ["u1"; "u2"]%string in Ek by (vm_compute; reflexivity).
    apply one_of_two in Ek as [-> | ->]; [|reflexivity]. replace (store_at key engine3 !! "u1"%string) with (Some ada) in Hb by (vm_compute; reflexivity).
    injection Hb as <-. destruct Hwhy as [Hw|[[_ Hw]|Hw]]; vm_compute in Hw; discriminate Hw. }
  subst i. replace (store_at key engine3 !! "u2"%string) with (Some bob) in Hb by (vm_compute; reflexivity).
  injection Hb as <-. rewrite E2. split; [|split; [exact Hl|split; [exact N|exact Ev]]].
  assert (K : (store_at key e' !! "u1"%string ≫= fun d => Doc.lookup d "age") = Some (VInt 12)) by (vm_compute; reflexivity).
  destruct Hm as [Hm|Hm]; rewrite Hm in K; [exact K|]. now rewrite lookup_insert_ne in K by discriminate.
Defined.

(** [WHERE 60 / (age - 25) > 5] fails on Bob, who is kept. *)
Definition per_year_above5 : Expr :=
  EBinary Gt_ (EBinary Divide (ELiteral (VInt 60)) (EBinary Minus (EField "age") (ELiteral (VInt 25)))) (ELiteral (VInt 5)).

Lemma remove_always_answers_witness :
  matches_filter (Some per_year_above5) bob = Err (Errors.new InvalidQuery "Division by zero")
  /\ exists e' msg, execute NoFault sample_now (SRemove "users" (Some per_year_above5)) "default" engine3 = (e', Ok (PSuccess msg 1))
       /\ store_at ("default", "users")%string e' !! "u1"%string = None
       /\ store_at ("default", "users")%string e' !! "u2"%string = Some bob
       /\ exists e2, Engine.open config_default (Metrics.new 5) (WriteAheadLog.dir (wal e')) = Ok e2
            /\ store_at ("default", "users")%string e2 !! "u1"%string = None.
Proof.
  split; [vm_compute; reflexivity|].
  destruct (remove_always_answers sample_now "default" "users" (Some per_year_above5) engine3 config_default (Metrics.new 5) engine3_reach)
    as (e' & msg & E & Us & _ & e2 & Eo & E2).
  - split; [reflexivity|]. split; [reflexivity|]. split; vm_compute; discriminate.
  - apply sample_users; vm_compute; discriminate.
  - exists e', msg. split; [exact E|]. split; [exact (Us "u1"%string)|]. split; [exact (Us "u2"%string)|].
    exists e2. split; [exact Eo|]. rewrite E2. exact (Us "u1"%string).
Defined.
