(* ===== verification/Harness.v ===== *)
(** [nova-testkit/src/harness.rs]: the test harness that starts, kills and restarts a
    server on a directory of its own, and what a restart after a kill brings back.

    Aborting the task of [NovaServer::run] ends the accept loop.  The tasks of open
    connections are tasks of their own: they keep the engine and go on.  What two engines
    then write into the same files is not modelled; a harness keeps the servers that were
    left behind apart ([left_over]). *)

From S2P Require Export EngineProps Listener.

Module TestHarness.

(** The task of [server.run()]: serving, or ended because the port was taken. *)
Inductive Task := Serving (s : Server) | Ended.

Record t := {
  port : Z;
  dir : string;                          (* the temporary directory *)
  wal_files : gmap string bytes;         (* the files below [wal_dir()] *)
  server_task : option Task;
  shutdown_tx : bool;
  left_over : list Server;               (* servers whose connections are still served *)
}.

Definition data_dir (h : t) : string := dir h.
Definition wal_dir (h : t) : string := (dir h ++ "/wal")%string.
Definition addr (h : t) : string := ("127.0.0.1:" ++ fmt_int (port h))%string.

(** [NEXT_TEST_PORT], a counter of the test process on sixteen bits. *)
Definition first_port : Z := 18400.
Definition next_port (n : Z) : Z * Z := (n, (n + 1) mod 65536).

Section Harness.
Context {B : Build} {AN : ArithNan} {HO : HashOrder} {C : CrcLib} {U : UuidLib} {J : JsonLib}
  {UT : UnicodeTables} {TD : TokenDebug}.

Definition harness_config (h : t) : ServerConfig :=
  {| host := "127.0.0.1"; Server.port := port h; web_port := web_port config_default; Server.data_dir := data_dir h;
     sync_mode_name := sync_mode_name config_default; max_connections := max_connections config_default;
     max_frame_size := max_frame_size config_default; auth_token := auth_token config_default |}.

(** A server that is still accepting holds the port. *)
Definition port_taken (h : t) : bool :=
  match server_task h with
  | Some (Serving s) => accepting s
  | _ => existsb accepting (left_over h)
  end.

(** The server of the task that is replaced goes on by itself. *)
Definition detached (h : t) : list Server :=
  match server_task h with
  | Some (Serving s) => left_over h ++ [s]
  | _ => left_over h
  end.

(** [start_server]: an error of [run] is dropped. *)
Definition start_server (now : Z) (h : t) : result t :=
  let cfg := harness_config h in
  let? e := server_open now cfg (wal_files h) in
  let task := if port_taken h then Ok Ended else mapO Serving (server_start e) in
  let? task := task in
  Ok {| port := port h; dir := dir h; wal_files := wal_files h; server_task := Some task; shutdown_tx := true;
        left_over := detached h |}.

(** [TestHarness::new]. *)
Definition new (now n : Z) (tmp : string) : Z * result t :=
  let (p, n) := next_port n in
  (n, start_server now {| port := p; dir := tmp; wal_files := ∅; server_task := None; shutdown_tx := false; left_over := [] |}).

Definition refuse (s : Server) : Server :=
  {| engine := engine s; conns := conns s; permits := permits s; accepting := false |}.

Definition after (s : Server) (files : gmap string bytes) (h : t) : t :=
  {| port := port h; dir := dir h; wal_files := files; server_task := None; shutdown_tx := false;
     left_over := left_over h ++ [refuse s] |}.

Definition without_task (h : t) : t :=
  {| port := port h; dir := dir h; wal_files := wal_files h; server_task := None; shutdown_tx := false;
     left_over := left_over h |}.

(** [kill], also [Drop]: the task is aborted.  The files are what the operating system
    holds at that moment; an engine that is dropped with the task writes out what its
    [BufWriter] holds later. *)
Definition kill (h : t) : t :=
  match server_task h with
  | Some (Serving s) => after s (WriteAheadLog.dir (wal (engine s))) h
  | _ => without_task h
  end.

(** [shutdown]: the signal ends the accept loop, and the task is awaited.  Without an open
    connection it drops the engine, and the [BufWriter] writes out what it holds.  [None]:
    the task is awaited for ever, since nobody signals it. *)
Definition shutdown (h : t) : option t :=
  match server_task h with
  | Some (Serving s) =>
    if shutdown_tx h
    then Some (after s (if existsb alive (conns s) then WriteAheadLog.dir (wal (engine s))
                        else WriteAheadLog.dir (WriteAheadLog.buf_flush (wal (engine s)))) h)
    else None
  | _ => Some (without_task h)
  end.

(** [client]: one connection accepted by the server. *)
Definition client (h : t) : result t :=
  match server_task h with
  | Some (Serving s) =>
    if accepting s
    then Ok {| port := port h; dir := dir h; wal_files := wal_files h; server_task := Some (Serving (accept s));
               shutdown_tx := shutdown_tx h; left_over := left_over h |}
    else Err (protocol ("Failed to connect to " ++ addr h))
  | _ => Err (protocol ("Failed to connect to " ++ addr h))
  end.
End Harness.

(** ** Ports *)

Fixpoint ports (k : nat) (n : Z) : list Z :=
  match k with
  | O => []
  | S k' => let (p, n) := next_port n in p :: ports k' n
  end.

Lemma ports_lookup k n i : 0 <= n < 65536 -> (i < k)%nat -> ports k n !! i = Some ((n + Z.of_nat i) mod 65536).
Proof.
  revert n i. induction k as [|k IH]; intros n i Hn Hi; [lia|]. cbn. destruct i as [|i]; cbn.
  - now rewrite Z.add_0_r, Z.mod_small.
  - rewrite IH by (try lia; apply Z.mod_pos_bound; lia). f_equal. rewrite Zplus_mod_idemp_l. f_equal. lia.
Qed.

Lemma ports_length k n : List.length (ports k n) = k.
Proof. revert n. induction k as [|k IH]; intros n; cbn; auto. Qed.

(** Harnesses of one process have ports of their own, until the counter has gone round. *)
Theorem harness_ports_differ k : Z.of_nat k <= 65536 -> NoDup (ports k first_port).
Proof.
  intros Hk. apply NoDup_alt. intros i j p Hi Hj.
  assert (Li := lookup_lt_Some _ _ _ Hi). assert (Lj := lookup_lt_Some _ _ _ Hj). rewrite ports_length in Li, Lj.
  rewrite ports_lookup in Hi, Hj by (unfold first_port; lia). rewrite <- Hj in Hi. injection Hi as E.
  pose proof (Z.div_mod (first_port + Z.of_nat i) 65536 ltac:(lia)).
  pose proof (Z.div_mod (first_port + Z.of_nat j) 65536 ltac:(lia)).
  rewrite E in *. lia.
Qed.

(** ** Kill and restart *)

Section Restart.
Context {B : Build} {AN : ArithNan} {HO : HashOrder} {HL : HashOrderLaws HO}
  {C : CrcLib} {CL : CrcLaws C} {U : UuidLib} {UL : UuidLaws U} {J : JsonLib} {JL : JsonLaws J}
  {UT : UnicodeTables} {TD : TokenDebug}.

(** Dropping the log's writer changes nothing of a log that writes every append out. *)
Lemma dropped_engine_ok e :
  Reach e -> exists rs, engine_ok rs (set_wal (WriteAheadLog.buf_flush (wal e)) e)
    /\ has_room 0 (set_wal (WriteAheadLog.buf_flush (wal e)) e) /\ synced (set_wal (WriteAheadLog.buf_flush (wal e)) e).
Proof.
  intros HR. destruct (Reach_ok e HR) as ((rs & SG & I & [(closed & opened & disk & HI & Er) R]) & [B1 B2] & [S1 _] & _).
  destruct (flush_inv (wal e) closed opened disk 0 HI B1) as (HI' & Hb & B1'). exists rs.
  split; [|split; [split; [exact B1'|exact B2]|split; [exact S1|exact Hb]]].
  split; [exact SG|]. split; [exact I|]. split; [|exact R]. exists closed, opened, (log_bytes opened). now split.
Qed.

Lemma after_ok s files h :
  existsb accepting (left_over h) = false ->
  port_taken (after s files h) = false /\ port (after s files h) = port h /\ wal_files (after s files h) = files.
Proof. intros Hl. unfold after, port_taken; cbn. rewrite existsb_app, Hl. auto. Qed.

(** What [start_server] makes of the files of an engine. *)
Lemma start_server_ok now h e rs :
  port_taken h = false -> wal_files h = WriteAheadLog.dir (wal e) -> engine_ok rs e -> has_room 0 e -> synced e ->
  exists h' s', start_server now h = Ok h' /\ server_task h' = Some (Serving s') /\ port h' = port h
    /\ shutdown_tx h' = true /\ conns s' = [] /\ accepting s' = true
    /\ forall key, store_at key (engine s') = store_at key e.
Proof.
  intros Hp Ew OK Room Sy. unfold start_server. set (cfg := harness_config h).
  destruct (restart_ok rs e cfg (Metrics.new now) OK Room Sy) as (e' & Eo & Es).
  unfold server_open. rewrite Ew, Eo. cbn [bindO]. rewrite Hp.
  assert (Ec : config e' = cfg) by (unfold Engine.open in Eo; inv_ok Eo; destruct r as [st d']; now injection Eo as <-).
  unfold server_start. rewrite Ec. change (MAX_PERMITS <? max_connections cfg) with false. cbn [mapO bindO].
  do 2 eexists. repeat (split; [reflexivity|]). exact Es.
Qed.

(** A server killed at any moment and started again by the harness has every document it
    had, on the same port, whether connections were open or not. *)
Theorem killed_server_comes_back now h s :
  server_task h = Some (Serving s) -> Reach (engine s) -> existsb accepting (left_over h) = false ->
  exists h' s', start_server now (kill h) = Ok h' /\ server_task h' = Some (Serving s') /\ port h' = port h
    /\ shutdown_tx h' = true /\ conns s' = [] /\ accepting s' = true
    /\ forall key, store_at key (engine s') = store_at key (engine s).
Proof.
  intros Ht HR Hl. unfold kill. rewrite Ht. destruct (Reach_ok _ HR) as ((rs & OK) & Room & Sy & _).
  destruct (after_ok s (WriteAheadLog.dir (wal (engine s))) h Hl) as (Hp & Hport & Ew). rewrite <- Hport.
  now apply (start_server_ok now _ (engine s) rs).
Qed.

(** So has a server that was shut down. *)
Theorem shut_down_server_comes_back now h s :
  server_task h = Some (Serving s) -> shutdown_tx h = true -> Reach (engine s) -> existsb accepting (left_over h) = false ->
  exists hs h' s', shutdown h = Some hs /\ start_server now hs = Ok h' /\ server_task h' = Some (Serving s')
    /\ port h' = port h /\ conns s' = [] /\ forall key, store_at key (engine s') = store_at key (engine s).
Proof.
  intros Ht Hx HR Hl. unfold shutdown. rewrite Ht, Hx.
  assert (G : exists w rs, (if existsb alive (conns s) then WriteAheadLog.dir (wal (engine s))
                            else WriteAheadLog.dir (WriteAheadLog.buf_flush (wal (engine s)))) = WriteAheadLog.dir w
    /\ engine_ok rs (set_wal w (engine s)) /\ has_room 0 (set_wal w (engine s)) /\ synced (set_wal w (engine s))).
  { destruct (existsb alive (conns s)).
    - destruct (Reach_ok _ HR) as ((rs & OK) & Room & Sy & _). exists (wal (engine s)), rs. split; [reflexivity|].
      split; [now apply (engine_ok_ext rs (engine s))|]. now split.
    - destruct (dropped_engine_ok _ HR) as (rs & OK). eauto. }
  destruct G as (w & rs & -> & OK & Room & Sy). destruct (after_ok s (WriteAheadLog.dir w) h Hl) as (Hp & Hport & Ew).
  destruct (start_server_ok now _ (set_wal w (engine s)) rs Hp Ew OK Room Sy) as (h' & s' & E & Et & Ep & _ & Ec & _ & Es).
  rewrite <- Hport. eauto 9.
Qed.

(** Killing a server ends its accept loop and nothing else: its open connections are
    served as before, by the engine that was to have crashed. *)
Theorem killed_connections_go_on h s :
  server_task h = Some (Serving s) ->
  exists s', left_over (kill h) = left_over h ++ [s'] /\ accepting s' = false
    /\ forall env input i, engine (serve env input i s') = engine (serve env input i s)
         /\ conns (serve env input i s') = conns (serve env input i s).
Proof.
  intros Ht. unfold kill. rewrite Ht. exists (refuse s). split; [reflexivity|]. split; [reflexivity|].
  intros env input i. unfold serve. cbn. destruct (conns s !! i) as [c|]; [|auto]. destruct (alive c); [|auto].
  now destruct (read_one env input (engine s) c).
Qed.
End Restart.
End TestHarness.
