(* ===== verification/ConcurrencyFeed.v ===== *)
(** The change feed while statements are in flight: INSERT, UPDATE and REMOVE send their
    events after they have released their locks, so that events may come out of order, but
    their sequence numbers still put them in the order that tells the changes. *)

From S2P Require Export Feed.













Section Told.
Context {B : Build} {AN : ArithNan} {HO : HashOrder} {HL : HashOrderLaws HO}
  {C : CrcLib} {CL : CrcLaws C} {U : UuidLib} {UL : UuidLaws U} {J : JsonLib} {JL : JsonLaws J}.














End Told.

(** ** On the sample database *)




(** Eve is updated before the insert has sent its event: the last event that tells of her
    is the older one, and a client that goes by the order of arrival keeps the old age. *)
Example the_last_event_is_not_the_latest :
  let aged := updating [{| as_field := "age"; as_expr := ELiteral (VInt 42) |}]
                (Some (EBinary Eq_ (EField "name") (ELiteral (VString "Eve")))) in
  let w := steps_of 1 0 (send_next 2000 0 (aged (steps_of 3 0 (start eve (alone engine3))))) in
  let evs := drop (List.length (events engine3)) (events (w_engine w)) in
  List.map (fun ev => (ev_sequence ev, event_type_as_str (ev_type ev))) evs = [(4, "UPDATE"); (3, "CREATE")]%string
  /\ option_map ev_after (last evs) = Some (Some eve)
  /\ (store_at users (w_engine w) !! "u3"%string ≫= fun d => Doc.lookup d "age") = Some (VInt 42).
Proof. vm_compute. repeat split. Qed.

(** Two updates of a document whose events cross. *)
Example updates_announced_in_the_other_order :
  let to n := updating [{| as_field := "age"; as_expr := ELiteral (VInt n) |}]
                (Some (EBinary Eq_ (EField "name") (ELiteral (VString "Ada")))) in
  let w := send_next 2000 0 (send_next 2000 1 (to 32 (to 31 (alone engine3)))) in
  let evs := drop (List.length (events engine3)) (events (w_engine w)) in
  List.map (fun ev => (ev_sequence ev, ev_after ev ≫= fun d => Doc.lookup d "age")) evs = [(4, Some (VInt 32)); (3, Some (VInt 31))]%string
  /\ (store_at users (w_engine w) !! "u1"%string ≫= fun d => Doc.lookup d "age") = Some (VInt 32).
Proof. vm_compute. repeat split. Qed.
