(* ===== verification/WebProps.v ===== *)
(** The HTTP interface: a query sent to the console is run as the engine runs it, by
    anyone who can reach the port. *)

From S2P Require Export Web ConnectionProps.

(** ** Reading text *)

Lemma lossy_encode_char c l :
  is_scalar c = true -> from_utf8_lossy (utf8_encode_char c ++ l) = c :: from_utf8_lossy l.
Proof.
  intros Hc.
  assert (0 <= c <= 0x10FFFF /\ ~ (0xD800 <= c <= 0xDFFF)) as [Hr Hs].
  { unfold is_scalar in Hc. apply orb_true_iff in Hc. destruct Hc; bool_facts; lia. }
  clear Hc. unfold utf8_encode_char. repeat case_if; bool_facts;
    cbn [app from_utf8_lossy]; rewrite !Z_of_byte_of_Z_small by (Z.to_euclidean_division_equations; lia).
  - if_true. reflexivity.
  - if_false. if_true. if_true. f_equal. Z.to_euclidean_division_equations; lia.
  - if_false. if_false.
    replace ((0xE0 <=? 0xE0 + c / 4096) && (0xE0 + c / 4096 <=? 0xEF) && second_of_three (0xE0 + c / 4096) (0x80 + c / 64 mod 64)) with true.
    2: { symmetry. unfold second_of_three, is_cont. repeat case_if; solve_zb. }
    if_true. f_equal. Z.to_euclidean_division_equations; lia.
  - if_false. if_false.
    replace ((0xE0 <=? 0xF0 + c / 262144) && (0xF0 + c / 262144 <=? 0xEF) && second_of_three (0xF0 + c / 262144) (0x80 + c / 4096 mod 64)) with false.
    2: { symmetry. apply andb_false_iff. left. solve_zb. }
    replace ((0xF0 <=? 0xF0 + c / 262144) && (0xF0 + c / 262144 <=? 0xF4) && second_of_four (0xF0 + c / 262144) (0x80 + c / 4096 mod 64)) with true.
    2: { symmetry. unfold second_of_four, is_cont. repeat case_if; solve_zb. }
    if_true. if_true. f_equal. Z.to_euclidean_division_equations; lia.
Qed.

(** A text that is valid is read as it is. *)
Lemma lossy_valid s : valid_str s = true -> from_utf8_lossy (as_bytes s) = chars s.
Proof.
  unfold valid_str, utf8_valid, chars. intros H. destruct (utf8_decode (as_bytes s)) as [cs|] eqn:E; [|discriminate].
  apply utf8_decode_inv in E as [HF <-]. induction HF as [|c cs Hc HF IH]; [reflexivity|].
  unfold utf8_encode. cbn [List.map List.concat]. rewrite lossy_encode_char by assumption.
  fold (utf8_encode cs). now rewrite IH.
Qed.

(** ** Queries over HTTP *)

Section WebProps.
Context {B : Build} {AN : ArithNan} {HO : HashOrder} {C : CrcLib} {U : UuidLib} {J : JsonLib}
  {UT : UnicodeTables} {TD : TokenDebug}.

(** A response the console reports as a success. *)
Definition succeeded (r : result ResponsePayload) : bool :=
  match r with Ok (PError _) => false | Ok _ => true | _ => false end.

Lemma length_as_bytes s : List.length (as_bytes s) = String.length s.
Proof.
  unfold as_bytes, String.list_byte_of_string. rewrite List.length_map.
  induction s as [|a s IH]; [reflexivity|]. cbn. now rewrite IH.
Qed.

(** C30: a query posted to the console is the statement it parses to, run by the engine in
    the namespace it names: the engine is left as [execute] leaves it, and the reply
    reports success exactly when [execute] succeeded.  The token the configuration may
    ask of clients plays no part. *)
Theorem web_query_runs_the_statement html env now elapsed text j q stmt e e' r :
  valid_str text = true -> (0 < String.length text <= READ_SIZE)%nat ->
  method_and_path (chars text) = ("POST", "/api/query")%string -> extract_json_body (chars text) = j ->
  json_get "query" j = Some (JString q) -> trim q <> EmptyString ->
  parse_nql (env_parse_now (env 0%nat)) (env_generated (env 0%nat)) q = Ok stmt ->
  execute (env_fault (env 0%nat)) (env_now (env 0%nat)) stmt
    (default "default"%string (json_get "namespace" j ≫= json_str)) e = (e', r) ->
  r <> Panic ->
  exists reply, handle_http_connection html env now elapsed (as_bytes text) e = (e', Ok (http_json reply))
    /\ json_get "success" reply = Some (JBool (succeeded r)).
Proof.
  intros Hv Hl Hm <- Hq Ht Hp He Hr. rewrite <- length_as_bytes in Hl.
  unfold handle_http_connection. rewrite firstn_all2 by lia.
  destruct (as_bytes text) as [|b l] eqn:E; [cbn in Hl; lia|]. rewrite <- E, lossy_valid, Hm by assumption.
  rewrite Hq. change (default EmptyString (Some (JString q) ≫= json_str)) with q.
  cbn [String.eqb Ascii.eqb Bool.eqb andb]. unfold execute_query_api. rewrite (proj2 (String.eqb_neq _ _) Ht), Hp, He. destruct r as [p|er|]; [| |contradiction].
  - exists (api_response elapsed p). split; [reflexivity|]. now destruct p.
  - eexists. split; reflexivity.
Qed.
End WebProps.

(** ** On the sample database, with a token configured *)

Definition remove_request : string :=
  "POST /api/query HTTP/1.1" ++ crlf ++ "Host: localhost" ++ crlf ++ crlf
  ++ json_text (JObject [("query", JString "REMOVE users")])%string.

Lemma web_query_runs_the_statement_witness :
  auth_token (config locked) = Some "s3cret"%string
  /\ size (store_at ("default", "users")%string locked) = 2%nat
  /\ store_at ("default", "users")%string
       (handle_http_connection EmptyString (fun _ => sample_env) 0 7 (as_bytes remove_request) locked).1 = ∅.
Proof.
  split; [reflexivity|]. split; [vm_compute; reflexivity|].
  destruct (execute NoFault sample_now (SRemove "users" None) "default" locked) as [e' r] eqn:He.
  destruct (web_query_runs_the_statement EmptyString (fun _ => sample_env) 0 7 remove_request
    (JObject [("query", JString "REMOVE users")])%string "REMOVE users" (SRemove "users" None) locked e' r) as (reply & H & _).
  - vm_compute. reflexivity.
  - vm_compute. lia.
  - vm_compute. reflexivity.
  - vm_compute. reflexivity.
  - reflexivity.
  - vm_compute. discriminate.
  - vm_compute. reflexivity.
  - exact He.
  - intros ->. vm_compute in He. discriminate.
  - rewrite H. cbn [fst]. replace e' with (execute NoFault sample_now (SRemove "users" None) "default" locked).1 by now rewrite He.
    vm_compute. reflexivity.
Defined.

Definition has_indexes (key : CollectionKey) (e : Engine) : bool :=
  match indexes e !! key with
  | Some m => match IndexManager.list_indexes m with [] => false | _ => true end
  | None => false
  end.

(** The sample data of the console comes with indexes on a collection called ON. *)
Example seeding_indexes_another_collection :
  let e := (seed_sample_data (fun _ => sample_env) engine0).1 in
  (size (store_at ("default", "users")%string e), has_indexes ("default", "ON")%string e,
   has_indexes ("default", "users")%string e) = (4%nat, true, false).
Proof. vm_compute. reflexivity. Qed.
