(* ===== verification/CliProps.v ===== *)
(** The command line: maintenance never changes the database a server opens, the doctor
    tells whether it opens, a backup holds the server's documents, and the shell streams
    exactly the WATCH statements. *)

From S2P Require Export Cli EngineProps SnapshotProps StorageProps.

Import Cli.

(** ** Recovery run again, also when it fails *)

Section Again.
Context {C : CrcLib} {CL : CrcLaws C} {U : UuidLib} {J : JsonLib}.

(** A failure does not depend on what was recovered before. *)
Lemma replay_record_fails r st st2 :
  same_data st st2 -> is_ok (replay_record r st) = false -> replay_record r st2 = replay_record r st.
Proof.
  intros _. unfold replay_record, apply_record_to_state.
  destruct (NbfRecord.record_type r); cbn; try discriminate;
    destruct (NbfRecord.document_from_payload r); cbn; congruence.
Qed.

Lemma recover_loop_fails fuel path offset input st st2 :
  same_data st st2 -> is_ok (recover_loop fuel path offset input st) = false ->
  recover_loop fuel path offset input st2 = recover_loop fuel path offset input st.
Proof.
  revert offset input st st2. induction fuel as [|fuel IH]; intros offset input st st2 SD; cbn [recover_loop]; [discriminate|].
  destruct (NbfRecord.decode input) as [[[r rest]|]|e|]; [|discriminate| |reflexivity].
  - destruct (replay_record r st) as [st'|e|] eqn:Er.
    + destruct (replay_record_same _ _ _ _ SD Er) as (st2' & -> & SD' & _). cbn [bindO]. now apply IH.
    + rewrite (replay_record_fails r st st2 SD), Er by now rewrite Er. reflexivity.
    + rewrite (replay_record_fails r st st2 SD), Er by now rewrite Er. reflexivity.
  - case_decide; [discriminate|reflexivity].
Qed.

Lemma recover_segment_fails path c st st2 :
  same_data st st2 -> is_ok (recover_segment path c st) = false ->
  recover_segment path c st2 = recover_segment path c st.
Proof.
  intros SD. unfold recover_segment. destruct c as [|b c]; [discriminate|].
  destruct (recover_loop _ path 0 (b :: c) st) as [[st' cut]|e|] eqn:E; [discriminate| |];
    intros _; rewrite (recover_loop_fails _ _ _ _ st st2 SD), E by (now rewrite E); reflexivity.
Qed.

Lemma files_after_ok segs d st st1 d1 : recover_segments segs d st = Ok (st1, d1) -> files_after segs d st = d1.
Proof.
  revert d st. induction segs as [|i segs IH]; intros d st H; cbn [recover_segments files_after] in *; [now injection H|].
  destruct (d !! segment_path i); [|discriminate]. inv_ok H. destruct r as [st' c']. rewrite Hr. now apply IH.
Qed.

Lemma files_after_fixed segs d st i c :
  (forall st, exists st', recover_segment (segment_path i) c st = Ok (st', c)) ->
  d !! segment_path i = Some c -> files_after segs d st !! segment_path i = Some c.
Proof.
  intros Fx. revert d st. induction segs as [|j segs IH]; intros d st G; cbn [files_after]; [exact G|].
  destruct (d !! segment_path j) as [cj|] eqn:Gj; [|exact G].
  destruct (recover_segment _ _ st) as [[st' c']| |] eqn:E; [|exact G..].
  apply IH. destruct (decide (segment_path j = segment_path i)) as [Ej|N]; [|now rewrite lookup_insert_ne].
  rewrite Ej in *. rewrite G in Gj. injection Gj as <-. destruct (Fx st) as [st2 E2].
  rewrite E2 in E. injection E as _ <-. apply lookup_insert_eq.
Qed.

Lemma dom_files_after segs d st : dom (files_after segs d st) = dom d.
Proof.
  revert d st. induction segs as [|i segs IH]; intros d st; cbn [files_after]; [reflexivity|].
  destruct (d !! segment_path i) eqn:G; [|reflexivity].
  destruct (recover_segment _ _ st) as [[st' c']| |]; [|reflexivity..]. rewrite IH. apply dom_insert_lookup_L. eauto.
Qed.

Lemma recover_segments_fails segs d st st2 :
  same_data st st2 -> is_ok (recover_segments segs d st) = false ->
  recover_segments segs (files_after segs d st) st2 = recover_segments segs d st.
Proof.
  revert d st st2. induction segs as [|i segs IH]; intros d st st2 SD H; cbn [recover_segments files_after] in *;
    [discriminate|].
  destruct (d !! segment_path i) as [c|] eqn:G; [|now rewrite G].
  destruct (recover_segment (segment_path i) c st) as [[st' c']|e|] eqn:E.
  - destruct (recover_segment_again _ _ _ _ _ _ E SD) as (st3 & E3 & SD3 & _).
    assert (O : files_after segs (<[segment_path i := c']> d) st' !! segment_path i = Some c').
    { apply files_after_fixed; [|apply lookup_insert_eq]. intros sty. exact (recover_segment_any _ _ _ _ _ sty E3). }
    rewrite O, E3. cbn [bindO] in *. rewrite insert_id by exact O. now apply IH.
  - rewrite G, (recover_segment_fails _ c st st2 SD), E by (now rewrite E). reflexivity.
  - rewrite G, (recover_segment_fails _ c st st2 SD), E by (now rewrite E). reflexivity.
Qed.

(** The files left by a recovery, whatever its outcome. *)
Definition left_by_recovery (files : gmap string bytes) : gmap string bytes :=
  files_after (discover_segments files) files recovered_new.

Lemma discover_left files : discover_segments (left_by_recovery files) = discover_segments files.
Proof. apply discover_dom, dom_files_after. Qed.

(** Opening a server does not see that recovery has already been run. *)
Lemma open_left {HO : HashOrder} {HL : HashOrderLaws HO} cfg m files :
  Engine.open cfg m (left_by_recovery files) = Engine.open cfg m files.
Proof.
  unfold Engine.open. destruct (recover files) as [[st d']|e|] eqn:E.
  - unfold left_by_recovery, recover in *. rewrite (files_after_ok _ _ _ _ _ E).
    destruct (recover_again files st d' E) as (st' & E' & (E1 & E2 & _) & _). unfold recover in E'.
    rewrite E'. cbn [bindO]. now rewrite E1, E2.
  - unfold recover at 1. rewrite discover_left. unfold left_by_recovery.
    rewrite recover_segments_fails; [|apply same_data_refl|];
      fold (recover files); now rewrite E.
  - unfold recover at 1. rewrite discover_left. unfold left_by_recovery.
    rewrite recover_segments_fails; [|apply same_data_refl|];
      fold (recover files); now rewrite E.
Qed.

(** ** Recovery never panics *)

Lemma bindO_total {A B} (r : result A) (f : A -> result B) :
  r <> Panic -> (forall a, f a <> Panic) -> bindO r f <> Panic.
Proof. destruct r; cbn; [auto|discriminate|congruence]. Qed.

Lemma decode_str_total a b c input : NbfRecord.decode_str a b c input <> Panic.
Proof. unfold NbfRecord.decode_str, NbfRecord.torn. repeat case_match; discriminate. Qed.

Lemma decode_header_total h : NbfRecord.decode_header h <> Panic.
Proof.
  unfold NbfRecord.decode_header. apply bindO_total; [case_match; discriminate|intros [ver r]].
  case_match; [discriminate|]. apply bindO_total; [case_match; discriminate|intros [b r0]].
  apply bindO_total; [unfold record_type_from_u8; repeat case_match; discriminate|intros ty].
  repeat (apply bindO_total; [case_match; discriminate|intros [? ?]]). discriminate.
Qed.

Lemma decode_total input : NbfRecord.decode input <> Panic.
Proof.
  unfold NbfRecord.decode. repeat case_match; try discriminate.
  apply bindO_total; [apply decode_header_total|intros [[[[? ?] ?] ?] ?]].
  do 3 (apply bindO_total; [apply decode_str_total|intros [[? ?] ?]]).
  apply bindO_total; [unfold DocId.new; repeat case_match; discriminate|intros ?].
  unfold NbfRecord.torn. repeat case_match; discriminate.
Qed.

Lemma replay_record_total r st : replay_record r st <> Panic.
Proof.
  unfold replay_record. apply bindO_total; [|discriminate]. unfold apply_record_to_state.
  destruct (NbfRecord.record_type r); try discriminate;
    (apply bindO_total; [unfold NbfRecord.document_from_payload; repeat case_match; discriminate|discriminate]).
Qed.

Lemma recover_loop_total fuel path offset input st : recover_loop fuel path offset input st <> Panic.
Proof.
  revert offset input st. induction fuel as [|fuel IH]; intros offset input st; cbn [recover_loop]; [discriminate|].
  pose proof (decode_total input) as D. destruct (NbfRecord.decode input) as [[[r rest]|]|e|]; [|discriminate| |congruence].
  - apply bindO_total; [apply replay_record_total|intros st']. apply IH.
  - case_decide; discriminate.
Qed.

Lemma recover_total files : recover files <> Panic.
Proof.
  unfold recover. generalize (discover_segments files) recovered_new. intros segs. revert files.
  induction segs as [|i segs IH]; intros files st; cbn [recover_segments]; [discriminate|].
  case_match; [|discriminate]. apply bindO_total; [|intros [st' c']; apply IH].
  unfold recover_segment. case_match; [discriminate|]. apply bindO_total; [apply recover_loop_total|intros [? ?]; discriminate].
Qed.
End Again.

(** ** Maintenance *)

Section Maintenance.
Context {C : CrcLib} {CL : CrcLaws C} {U : UuidLib} {UL : UuidLaws U} {J : JsonLib} {JL : JsonLaws J}
  {PJ : PrettyJson} {PL : PrettyLaws PJ} {HO : HashOrder} {HL : HashOrderLaws HO}.

Definition wal_of (d : DataDir) : gmap string bytes := default ∅ (wal_files d).

Lemma run_recovery_wal d :
  wal_files (run_recovery d).1 = left_by_recovery <$> wal_files d
  /\ snapshots (run_recovery d).1 = snapshots d.
Proof. split; reflexivity. Qed.

(** A command leaves the files of the log, or runs recovery on them once. *)
Lemma run_command_wal c d :
  wal_files (run_command c d).1 = wal_files d
  \/ wal_files (run_command c d).1 = left_by_recovery <$> wal_files d.
Proof.
  destruct c as [now gen i| | | | |]; cbn [run_command]; try (left; reflexivity).
  - right. unfold backup_create. destruct (run_recovery d) as [d' r] eqn:E.
    assert (W : wal_files d' = left_by_recovery <$> wal_files d) by (now rewrite <- (proj1 (run_recovery_wal d)), E).
    destruct r; exact W.
  - right. unfold cmd_compact. destruct (run_recovery d) as [d' r] eqn:E. cbn [fst].
    now rewrite <- (proj1 (run_recovery_wal d)), E.
  - unfold cmd_doctor, check_wal. destruct (wal_files d) as [files|] eqn:W; [right|left; exact W].
    destruct (run_recovery d) as [d' r] eqn:E.
    assert (W' : wal_files d' = left_by_recovery <$> wal_files d) by (now rewrite <- (proj1 (run_recovery_wal d)), E).
    rewrite W in W'. destruct r; exact W'.
Qed.

Lemma run_command_ok cfg m c d :
  Engine.open cfg m (wal_of (run_command c d).1) = Engine.open cfg m (wal_of d).
Proof.
  unfold wal_of in *. destruct (run_command_wal c d) as [->| ->]; [reflexivity|].
  destruct (wal_files d) as [files|]; cbn; [|reflexivity]. apply open_left.
Qed.

Lemma run_commands_ok cfg m cs d :
  Engine.open cfg m (wal_of (run_commands cs d)) = Engine.open cfg m (wal_of d).
Proof.
  revert d. induction cs as [|c cs IH]; intros d; [reflexivity|]. unfold run_commands. cbn [fold_left].
  fold (run_commands cs (run_command c d).1). rewrite IH. apply run_command_ok.
Qed.

Lemma run_commands_found cs d : is_Some (wal_files d) -> is_Some (wal_files (run_commands cs d)).
Proof.
  revert d. induction cs as [|c cs IH]; intros d HS; [exact HS|]. unfold run_commands. cbn [fold_left]. apply IH.
  destruct (run_command_wal c d) as [->| ->]; [exact HS|]. now rewrite fmap_is_Some.
Qed.

(** The doctor always reports, and finds an issue just when the log does not open. *)
Lemma doctor_reports cfg m d files :
  wal_files d = Some files ->
  exists g, (cmd_doctor d).2 = Ok g
    /\ (issues g = 0 <-> exists e, Engine.open cfg m files = Ok e)
    /\ (forall er, Engine.open cfg m files = Err er <-> exists check, wal_check g = Some check /\ integrity check = inl er).
Proof.
  intros W. unfold cmd_doctor, check_wal. rewrite W. unfold run_recovery. rewrite W.
  change (default ∅ (Some files)) with files. pose proof (recover_total files) as T. unfold Engine.open.
  destruct (recover files) as [[st d']|e|]; [| |congruence]; cbn [mapO bindO snapshots set_wal fst snd].
  - destruct (snapshots d) as [snaps|]; cbn [mapO bindO SnapshotManager.list_snapshots]; eexists; (split; [reflexivity|]);
      (split; [split; [eauto|reflexivity]|]); intros er; (split; [discriminate|]);
      intros (check & [= <-] & ?); discriminate.
  - destruct (snapshots d) as [snaps|]; cbn [mapO bindO SnapshotManager.list_snapshots]; eexists; (split; [reflexivity|]);
      (split; [split; [discriminate|intros [? ?]; discriminate]|]); intros er;
      (split; [intros [= <-]; eexists; split; reflexivity|intros (check & [= <-] & [= <-]); reflexivity]).
Qed.

(** The maintenance commands never change the database.  After any sequence of
    backups, restorations, inspections, compactions and diagnoses, also on a damaged
    log, opening a server gives exactly the engine, or the error, that it gave before;
    and a diagnosis then made always ends with a report, which counts no issue just
    when the server opens and else shows the error it fails with. *)
Theorem maintenance_keeps_the_database cs d cfg m :
  is_Some (wal_files d) ->
  let d' := run_commands cs d in
  Engine.open cfg m (wal_of d') = Engine.open cfg m (wal_of d)
  /\ exists g, (cmd_doctor d').2 = Ok g
       /\ (issues g = 0 <-> exists e, Engine.open cfg m (wal_of d) = Ok e)
       /\ (forall er, Engine.open cfg m (wal_of d) = Err er
             <-> exists check, wal_check g = Some check /\ integrity check = inl er).
Proof.
  intros HS d'. pose proof (run_commands_ok cfg m cs d) as E. fold d' in E. split; [exact E|].
  destruct (run_commands_found cs d HS) as [files W]. fold d' in W.
  replace (Engine.open cfg m (wal_of d)) with (Engine.open cfg m files); [now apply (doctor_reports cfg m)|].
  rewrite <- E. unfold wal_of. now rewrite W.
Qed.
End Maintenance.

(** ** The log of a server *)

Section Servers.
Context {B : Build} {AN : ArithNan} {HO : HashOrder} {HL : HashOrderLaws HO}
  {C : CrcLib} {CL : CrcLaws C} {U : UuidLib} {UL : UuidLaws U} {J : JsonLib} {JL : JsonLaws J}
  {PJ : PrettyJson} {PL : PrettyLaws PJ}.

(** The directory of the server [e]. *)
Definition server_dir (e : Engine) (d : DataDir) : Prop := wal_files d = Some (WriteAheadLog.dir (wal e)).

Lemma server_stored e :
  Reach e -> exists rs, engine_ok rs e /\ stored (16 * 1024 * 1024) (WriteAheadLog.dir (wal e)) rs 0.
Proof.
  intros HR. destruct (Reach_ok e HR) as ((rs & OK) & [B1 B2] & [_ Hbuf] & Lim). exists rs. split; [exact OK|].
  destruct OK as (_ & _ & [(closed & opened & disk & HI & <-) _]). rewrite <- Lim.
  exact (inv_stored _ _ _ _ 0 HI Hbuf B1 B2).
Qed.

(** Recovery of a server's log changes no file, and finds its documents and one record
    for each change ever made. *)
Lemma server_recovers e d :
  Reach e -> server_dir e d ->
  exists rs st, engine_ok rs e /\ run_recovery d = (d, Ok st)
    /\ recover (WriteAheadLog.dir (wal e)) = Ok (st, WriteAheadLog.dir (wal e))
    /\ (forall key, rec_store key st = store_at key e) /\ records_replayed st = Z.of_nat (List.length rs).
Proof.
  intros HR HD. destruct (server_stored e HR) as (rs & OK & HS). pose proof OK as (_ & _ & [_ (st & R & S)]).
  pose proof (recover_stored _ _ _ _ HS) as E. rewrite R in E. cbn [mapO] in E. exists rs, st.
  split; [exact OK|]. split; [|split; [exact E|split; [exact S|]]].
  - unfold run_recovery. rewrite HD. cbn [fmap option_fmap option_map].
    change (default ∅ (Some (WriteAheadLog.dir (wal e)))) with (WriteAheadLog.dir (wal e)). rewrite E. cbn [mapO fst].
    unfold recover in E. rewrite (files_after_ok _ _ _ _ _ E). f_equal.
    unfold server_dir in HD. destruct d as [x w s]. cbn in *. now rewrite HD.
  - destruct (replay_counters _ _ _ R) as (_ & N & _). exact N.
Qed.

(** Compaction of a server's log leaves it as it is; what it reports as the documents
    retained is the number of records. *)
Theorem compaction_keeps_every_record e d :
  Reach e -> server_dir e d -> exists rs, engine_ok rs e /\ cmd_compact d = (d, Ok (Z.of_nat (List.length rs))).
Proof.
  intros HR HD. destruct (server_recovers e d HR HD) as (rs & st & OK & E & _ & _ & N). exists rs. split; [exact OK|].
  unfold cmd_compact. rewrite E. cbn [mapO bindO]. do 2 f_equal. exact N.
Qed.

(** C27: a backup holds the documents of the server.  [backup create] on the directory of
    a server that writes every append out leaves the log alone, and [backup restore] of
    the identifier reads back, from the files written, exactly the documents the server
    had in every collection, and reports the number of collections and documents. *)
Theorem backup_holds_the_servers_documents now generated i e d st d1 :
  Reach e -> server_dir e d -> recover (WriteAheadLog.dir (wal e)) = Ok (st, d1) ->
  snapshotable (Recovery.collections st) -> valid_str i = true -> in_i64 now = true ->
  SnapshotManager.doc_count (Recovery.collections st) <= u64_max ->
  Z.of_nat (List.length (SnapshotManager.snapshot_bytes (Recovery.collections st))) <= u64_max ->
  exists d' meta colls, backup_create now generated (Some i) d = (d', Ok meta)
    /\ wal_files d' = wal_files d
    /\ SnapshotManager.restore (snapshots d') i = Ok (meta, colls)
    /\ (forall key, default ∅ (colls !! key) = store_at key e)
    /\ backup_restore i d' = Ok (meta, Z.of_nat (size colls))
    /\ meta_document_count meta = SnapshotManager.doc_count colls
    /\ (exists l, backup_list d' = Ok l /\ meta ∈ l).
Proof.
  intros HR HD Hrec HS Hi Hn Hc Hl. destruct (server_recovers e d HR HD) as (rs & st' & _ & E & Hrec' & S & _).
  rewrite Hrec in Hrec'. injection Hrec' as <- _.
  destruct (snapshot_roundtrip now (snapshots d) i _ HS Hi Hn Hc Hl) as (files & meta & EC & ER & EN & EL & _).
  exists (set_snapshots (Some files) d), meta, (Recovery.collections st). unfold backup_create. rewrite E.
  change (default generated (Some i)) with i. rewrite EC. split; [reflexivity|]. split; [reflexivity|]. split; [exact ER|].
  split; [exact S|]. split; [|split; [exact EN|exact EL]].
  unfold backup_restore. cbn [snapshots set_snapshots]. now rewrite ER.
Qed.
End Servers.

(** ** Inspection *)

Section Inspect.
Context {C : CrcLib} {CL : CrcLaws C}.

(** A segment with whole records and perhaps a torn tail: the first fifty records, and
    an error when the torn tail is met before. *)
Theorem inspect_shows_the_first_records rs tail :
  Forall record_ok rs -> tail_of tail ->
  if (50 <=? List.length rs)%nat || (List.length tail <? 4)%nat
  then cmd_inspect (log_bytes rs ++ tail) = Ok (List.map inspect_row (firstn 50 rs))
  else exists er, cmd_inspect (log_bytes rs ++ tail) = Err er /\ code er = TornWriteDetected.
Proof.
  unfold cmd_inspect. intros HF HT. generalize 50%nat. induction HF as [|r rs Hr HF IH]; intros n.
  - cbn [log_bytes List.map List.concat app List.length]. pose proof (tail_decode _ HT) as D. unfold ends_log in D.
    destruct n as [|n]; [reflexivity|]. cbn [inspect_loop Nat.leb orb].
    destruct (List.length tail <? 4)%nat; [now rewrite D|]. destruct D as (er & -> & Ht). now exists er.
  - destruct n as [|n]; [reflexivity|]. cbn [log_bytes List.map List.concat]. fold (log_bytes rs).
    rewrite <- app_assoc. cbn [inspect_loop]. rewrite decode_ok by assumption. cbn [bindO]. specialize (IH n).
    change (S n <=? List.length (r :: rs))%nat with (n <=? List.length rs)%nat.
    destruct ((n <=? List.length rs)%nat || (List.length tail <? 4)%nat); [now rewrite IH|].
    destruct IH as (er & -> & Ht). now exists er.
Qed.

(** Any other file of at least four bytes is refused. *)
Lemma inspect_refuses_other_files magic rest :
  List.length magic = 4%nat -> bytes_eqb magic NBF_MAGIC = false -> is_ok (cmd_inspect (magic ++ rest)) = false.
Proof.
  intros L E. unfold cmd_inspect, inspect_loop, NbfRecord.decode.
  destruct magic as [|b0 [|b1 [|b2 [|b3 [|]]]]]; try discriminate L. cbn [app read_exact].
  replace (read_exact 4 (b0 :: b1 :: b2 :: b3 :: rest)) with (Some ([b0; b1; b2; b3], rest)) by reflexivity.
  now rewrite E.
Qed.

(** The data file of a snapshot of the empty database, as it is printed. *)
Example snapshots_cannot_be_inspected :
  is_ok (cmd_inspect (as_bytes ("{" ++ quote ++ "collections" ++ quote ++ ":{}}")%string)) = false.
Proof. reflexivity. Qed.
End Inspect.

(** ** On sample directories *)

#[local] Existing Instances pretty_as_is pretty_as_is_laws.

(** A whole record and half of another, and then a segment that is no log. *)
Definition damaged_dir : DataDir :=
  {| exists_ := true;
     wal_files := Some (dir_from 0 [(record_bytes sample_record ++ firstn 30 (record_bytes sample_record))%list;
                                    [x61; x62; x63; x64]]);
     snapshots := None |}.

Lemma maintenance_keeps_the_database_witness :
  is_ok (Engine.open config_default (Metrics.new 0) (wal_of damaged_dir)) = false
  /\ Engine.open config_default (Metrics.new 0) (wal_of (run_commands [Compact; Doctor] damaged_dir))
     = Engine.open config_default (Metrics.new 0) (wal_of damaged_dir)
  /\ exists g, (cmd_doctor (run_commands [Compact; Doctor] damaged_dir)).2 = Ok g /\ issues g <> 0.
Proof.
  split; [vm_compute; reflexivity|].
  destruct (maintenance_keeps_the_database [Compact; Doctor] damaged_dir config_default (Metrics.new 0))
    as (E & g & Eg & Hi & _).
  - now eexists.
  - split; [exact E|]. exists g. split; [exact Eg|]. intros H. apply Hi in H as [e He].
    assert (K : is_ok (Engine.open config_default (Metrics.new 0) (wal_of damaged_dir)) = false) by (vm_compute; reflexivity).
    rewrite He in K. discriminate.
Defined.

Definition dir_of (e : Engine) : DataDir :=
  {| exists_ := true; wal_files := Some (WriteAheadLog.dir (wal e)); snapshots := None |}.

Definition recovered_of (e : Engine) : RecoveredState :=
  match recover (WriteAheadLog.dir (wal e)) with Ok (st, _) => st | _ => recovered_new end.

Lemma recovered_of_ok e : Reach e -> recover (WriteAheadLog.dir (wal e)) = Ok (recovered_of e, WriteAheadLog.dir (wal e)).
Proof.
  intros HR. destruct (server_recovers e (dir_of e) HR eq_refl) as (rs & st & _ & _ & E & _). unfold recovered_of. now rewrite E.
Qed.

Lemma engine2_snapshotable : snapshotable (Recovery.collections (recovered_of engine2)).
Proof.
  replace (Recovery.collections (recovered_of engine2))
    with ({[("default", "users")%string := <["u1"%string := ada]> {["u2"%string := bob]}]} : gmap CollectionKey DocumentStore)
    by (vm_compute; reflexivity).
  intros key docs [<- <-]%lookup_singleton_Some. split; [split_and!; vm_compute; reflexivity|].
  intros i d [[<- <-]|[_ [<- <-]%lookup_singleton_Some]]%lookup_insert_Some;
    (split_and!; try (vm_compute; reflexivity); apply Nat.ltb_lt; vm_compute; reflexivity).
Qed.

Lemma backup_holds_the_servers_documents_witness :
  exists d' meta colls, backup_create 5 "snap" (Some "nightly"%string) (dir_of engine2) = (d', Ok meta)
    /\ SnapshotManager.restore (snapshots d') "nightly" = Ok (meta, colls)
    /\ default ∅ (colls !! ("default", "users")%string) = store_at ("default", "users")%string engine2.
Proof.
  destruct (backup_holds_the_servers_documents 5 "snap" "nightly" engine2 (dir_of engine2) (recovered_of engine2)
    (WriteAheadLog.dir (wal engine2)) engine2_reach eq_refl (recovered_of_ok engine2 engine2_reach) engine2_snapshotable)
    as (d' & meta & colls & E & _ & R & S & _).
  - reflexivity.
  - reflexivity.
  - apply Z.leb_le. vm_compute. reflexivity.
  - apply Z.leb_le. vm_compute. reflexivity.
  - exists d', meta, colls. split; [exact E|]. split; [exact R|apply S].
Defined.

(** Both users removed: compaction reports four active documents, and so does the
    doctor; there is none. *)
Example compaction_counts_records :
  let e := run (SRemove "users" None) engine2 in
  size (store_at ("default", "users")%string e) = 0%nat
  /\ (cmd_compact (dir_of e)).2 = Ok 4
  /\ match (cmd_doctor (dir_of e)).2 with
     | Ok g => match wal_check g with
               | Some c => match integrity c with inr st => records_replayed st = 4 | inl _ => False end
               | None => False
               end
     | _ => False
     end.
Proof. split_and!; vm_compute; reflexivity. Qed.
