(* ===== verification/FaultProps.v ===== *)
(** Faults in the files of a server: a flipped byte keeps the server from starting,
    unless it is in the length of a text; what a cut and appended bytes do. *)

From stdpp Require Import list.
From S2P Require Export Fault CliProps.

Import FaultInjector.

Section ServerFaults.
Context {B : Build} {AN : ArithNan} {HO : HashOrder} {HL : HashOrderLaws HO}
  {C : CrcLib} {CL : CrcLaws C} {CD : CrcDetects C} {U : UuidLib} {UL : UuidLaws U} {J : JsonLib} {JL : JsonLaws J}.

(** The files of a server are segments of whole records: those of its history. *)
Lemma server_holds e :
  Reach e -> exists closed opened, holds (closed ++ [opened]) (WriteAheadLog.dir (wal e))
    /\ engine_ok (List.concat (closed ++ [opened])) e.
Proof.
  intros HR. destruct (Reach_ok e HR) as ((rs & OK) & [B1 _] & [_ Hbuf] & _). pose proof OK as (_ & _ & [L R]).
  destruct L as (closed & opened & disk & HI & E). destruct R as (st & R & _). pose proof HI as [(D & I & F) _ HF _ _ _ _].
  exists closed, opened. rewrite List.concat_app. cbn [List.concat]. rewrite app_nil_r, E. split; [|exact OK].
  rewrite Hbuf, app_nil_r in F. subst disk. constructor.
  - rewrite List.map_app. exact D.
  - rewrite List.concat_app. cbn [List.concat]. rewrite app_nil_r. exact HF.
  - unfold budget in B1. rewrite I, length_map in B1. rewrite length_app. cbn [List.length]. lia.
  - rewrite List.concat_app. cbn [List.concat]. rewrite app_nil_r, E, R. reflexivity.
Qed.

Lemma open_fails cfg m d e : recover d = Err e -> Engine.open cfg m d = Err e.
Proof. intros H. unfold Engine.open. now rewrite H. Qed.

(** C6: a flipped byte keeps the server from starting.  The files of a server are the
    records of its history, whole and in order; every byte of every file is a byte of one
    of them; and when any byte of any of them that is not in one of its four length fields
    is inverted, the server refuses to start and reports a corrupted log. *)
Theorem flipped_byte_stops_the_server e cfg m :
  Reach e ->
  (exists segs, holds segs (WriteAheadLog.dir (wal e)) /\ engine_ok (List.concat segs) e)
  /\ forall segs, holds segs (WriteAheadLog.dir (wal e)) ->
       (forall path file off, WriteAheadLog.dir (wal e) !! path = Some file -> 0 <= off < Z.of_nat (List.length file) ->
          exists k pre r post o, path = segment_path (Z.of_nat k) /\ record_at segs k pre r post /\ off = offset_at pre o
            /\ (o < List.length (record_bytes r))%nat)
       /\ forall k pre r post o, record_at segs k pre r post -> (o < List.length (record_bytes r))%nat -> o ∉ length_fields r ->
            exists d', flip_byte_at (segment_path (Z.of_nat k)) (offset_at pre o) (WriteAheadLog.dir (wal e)) = Some d'
              /\ exists er, Engine.open cfg m d' = Err er /\ code er = WalCorrupted.
Proof.
  intros HR. split; [destruct (server_holds e HR) as (closed & opened & H & OK); eauto|].
  intros segs H. split; [intros path file off; now apply holds_byte|].
  intros k pre r post o Hk Lo N. destruct (flip_is_caught _ _ _ _ _ _ _ H Hk Lo N) as (d' & E & er & Er & Hc).
  exists d'. split; [exact E|]. exists er. split; [now apply open_fails|exact Hc].
Qed.

(** A flipped length loses acknowledged records.  In a directory of segments of whole
    records, such as every server has, let the high byte of the length of a record's
    namespace be inverted, in any segment.  The server starts: it takes the
    record for one cut short by a crash, drops it and all that follow it in its segment
    from the file, and serves what the others give. *)
Theorem flipped_length_loses_records cfg m d segs k pre r post :
  holds segs d -> record_at segs k pre r post ->
  str_len (NbfRecord.namespace r) < 256 -> Z.of_nat (List.length (log_bytes (r :: post))) < 65280 ->
  exists d' st e', flip_byte_at (segment_path (Z.of_nat k)) (offset_at pre 32) d = Some d'
    /\ replay (List.concat (<[k := pre]> segs)) recovered_new = Ok st
    /\ recover d' = Ok (count_torn st, dir_from 0 (List.map log_bytes (<[k := pre]> segs)))
    /\ Engine.open cfg m d' = Ok e' /\ Engine.collections e' = Recovery.collections st.
Proof.
  intros H Hk Hns Hl. destruct (flip_of_a_length _ _ _ _ _ _ H Hk Hns Hl) as (d' & st & E & R & Hrec).
  exists d', st. unfold Engine.open. rewrite Hrec. cbn [bindO]. eexists. split; [exact E|]. split; [exact R|].
  split; [reflexivity|]. split; reflexivity.
Qed.

(** A file cut short loses the records cut, and no other.  Whatever number of bytes is
    cut off the last file of a server, it starts with what the records before the cut
    give; bytes appended instead that are not the start of a record stop it. *)
Theorem cut_log_loses_what_is_cut e cfg m n :
  Reach e -> 0 <= n ->
  exists closed survivors lost d' st e',
    holds (closed ++ [(survivors ++ lost)%list]) (WriteAheadLog.dir (wal e))
    /\ engine_ok (List.concat closed ++ survivors ++ lost) e
    /\ match lost with
       | [] => n = 0 \/ survivors = []
       | _ :: rest => Z.of_nat (List.length (log_bytes rest)) < n
       end
    /\ truncate_tail (segment_path (Z.of_nat (List.length closed))) n (WriteAheadLog.dir (wal e)) = Some d'
    /\ replay (List.concat closed ++ survivors) recovered_new = Ok st
    /\ Engine.open cfg m d' = Ok e' /\ Engine.collections e' = Recovery.collections st
    /\ forall garbage, bytes_eqb (firstn 4 garbage) NBF_MAGIC = false -> (4 <= List.length garbage)%nat ->
         exists d'', append_garbage (segment_path (Z.of_nat (List.length closed))) garbage (WriteAheadLog.dir (wal e)) = Some d''
           /\ exists er, Engine.open cfg m d'' = Err er /\ code er = WalCorrupted.
Proof.
  intros HR Hn. destruct (server_holds e HR) as (closed & opened & H & OK).
  destruct (truncate_last closed opened n _ H Hn) as (s & lost & tail & d' & -> & Hl & E & Hrec).
  rewrite List.concat_app in OK. cbn [List.concat] in OK. rewrite app_nil_r in OK.
  assert (O : is_ok (replay (List.concat closed ++ s) recovered_new) = true).
  { pose proof (holds_replay _ _ H) as O. rewrite List.concat_app in O. cbn [List.concat] in O. rewrite app_nil_r, app_assoc in O.
    apply replay_ok_forall in O. apply Forall_app in O as [O _]. now apply replay_ok_forall. }
  destruct (replay (List.concat closed ++ s) recovered_new) as [st| |] eqn:R; [|discriminate O..]. cbn [bindO] in Hrec.
  exists closed, s, lost, d', st. unfold Engine.open at 1. rewrite Hrec. cbn [bindO]. eexists.
  split; [exact H|]. split; [exact OK|]. split; [destruct lost; [rewrite app_nil_r in Hl|]; exact Hl|].
  split; [exact E|]. split; [exact R|]. split; [reflexivity|]. split; [cbn; unfold settle; now case_if|].
  intros garbage Hg Lg. destruct (append_to_last _ _ _ _ H Hg Lg) as (d'' & E' & er & Er & Hc). exists d''. split; [exact E'|].
  exists er. split; [now apply open_fails|exact Hc].
Qed.
End ServerFaults.


(** ** On a sample server *)

#[local] Existing Instance ieee_detects.

(** The records of a file. *)
Fixpoint records_in (fuel : nat) (file : bytes) : list NbfRecord.t :=
  match fuel with
  | O => []
  | S fuel => match NbfRecord.decode file with Ok (Some (r, rest)) => r :: records_in fuel rest | _ => [] end
  end.

Lemma records_in_ok fuel file : Forall record_ok (records_in fuel file).
Proof.
  revert file. induction fuel as [|fuel IH]; intros file; cbn [records_in]; [constructor|].
  destruct (NbfRecord.decode file) as [[[r rest]|]| |] eqn:E; constructor; [|apply IH]. now apply decode_inv in E as [Hr _].
Qed.

Definition sample_dir : gmap string bytes := WriteAheadLog.dir (wal engine2).

Definition sample_records : list NbfRecord.t := records_in 10 (default [] (sample_dir !! segment_path 0)).

Lemma sample_records_hold : holds [sample_records] sample_dir.
Proof.
  constructor; cbn [List.concat]; rewrite ?app_nil_r.
  - vm_compute. reflexivity.
  - apply records_in_ok.
  - vm_compute. discriminate.
  - vm_compute. reflexivity.
Qed.

(** The first of them, and the others. *)
Definition sample_first : NbfRecord.t := List.nth 0 sample_records sample_record.
Definition sample_second : NbfRecord.t := List.nth 1 sample_records sample_record.

(** Inverting byte 40, in the name of the namespace. *)
Lemma flipped_byte_witness :
  exists d' er, flip_byte_at (segment_path 0) 40 sample_dir = Some d'
    /\ Engine.open config_default (Metrics.new 0) d' = Err er /\ code er = WalCorrupted.
Proof.
  destruct (flipped_byte_stops_the_server engine2 config_default (Metrics.new 0) engine2_reach) as [_ H].
  destruct (H [sample_records] sample_records_hold) as [_ F].
  destruct (F 0%nat [] sample_first [sample_second] 40%nat) as (d' & E & er & Er & Hc).
  - vm_compute. reflexivity.
  - apply Nat.ltb_lt. vm_compute. reflexivity.
  - apply (bool_decide_unpack _). vm_compute. reflexivity.
  - exists d', er. exact (conj E (conj Er Hc)).
Defined.

(** The second of two records goes. *)
Lemma flipped_length_loses_records_witness :
  exists d' st e', flip_byte_at (segment_path 0) (offset_at [sample_first] 32) sample_dir = Some d'
    /\ replay [sample_first] recovered_new = Ok st
    /\ Engine.open config_default (Metrics.new 0) d' = Ok e' /\ Engine.collections e' = Recovery.collections st.
Proof.
  destruct (flipped_length_loses_records config_default (Metrics.new 0) sample_dir [sample_records] 0
    [sample_first] sample_second [] sample_records_hold)
    as (d' & st & e' & E & R & _ & O & S).
  - vm_compute. reflexivity.
  - vm_compute. reflexivity.
  - vm_compute. reflexivity.
  - exists d', st, e'. split; [exact E|]. exact (conj R (conj O S)).
Defined.

Lemma cut_log_witness :
  exists closed survivors lost d' st e',
    holds (closed ++ [(survivors ++ lost)%list]) (WriteAheadLog.dir (wal engine2))
    /\ truncate_tail (segment_path (Z.of_nat (List.length closed))) 15 (WriteAheadLog.dir (wal engine2)) = Some d'
    /\ replay (List.concat closed ++ survivors) recovered_new = Ok st
    /\ Engine.open config_default (Metrics.new 0) d' = Ok e' /\ Engine.collections e' = Recovery.collections st.
Proof.
  destruct (cut_log_loses_what_is_cut engine2 config_default (Metrics.new 0) 15 engine2_reach ltac:(lia))
    as (closed & s & lost & d' & st & e' & H & _ & _ & E & R & O & S & _).
  exists closed, s, lost, d', st, e'. exact (conj H (conj E (conj R (conj O S)))).
Defined.
