(* ===== verification/ShellProps.v ===== *)
(** The shell and the parser agree on which lines are WATCH statements, and the table of
    a response shows every field. *)

From S2P Require Export Cli NqlProps.

Import Cli.

(** ** The first token of a statement *)

(** The keyword a statement begins with. *)
Definition statement_head (st : Statement) : TokenKind :=
  match st with
  | SFind _ _ _ _ _ => TFind | SInsert _ _ => TInsert | SUpdate _ _ _ => TUpdate | SRemove _ _ => TRemove
  | SWatch _ _ => TWatch | SCount _ _ => TCount | SExists _ _ => TExists
  | SCreateIndex _ _ _ => TCreate | SDropIndex _ _ => TDrop
  | SBegin => TBegin | SCommit => TCommit | SRollback => TRollback
  end.

Section Shell.
Context {TD : TokenDebug} {UT : UnicodeTables}.

Lemma parse_statement_head now gen ts st ts' :
  parse_statement now gen ts = Ok (st, ts') -> peek_kind ts = Some (statement_head st).
Proof.
  unfold parse_statement. destruct (peek_kind ts) as [[]|]; try discriminate;
    unfold parse_find, parse_insert, parse_update, parse_remove, parse_watch, parse_count, parse_exists,
      parse_create_index, parse_drop_index;
    intros H; repeat (first [discriminate H | progress cbn beta iota zeta in H
      | apply bindO_Ok_inv in H as ([] & _ & H) | apply bindO_Ok_inv in H as (? & _ & H) | case_match]);
    injection H as <- _; reflexivity.
Qed.

Lemma lex_ident_split rest i r : lex_ident rest = (i, r) -> List.map snd rest = (i ++ List.map snd r)%list.
Proof.
  revert i. induction rest as [|[[ln c] x] rest IH]; intros i H; cbn [lex_ident] in H; [now injection H as <- <-|].
  destruct (is_alphanumeric x || (x =? chr "_")); [|now injection H as <- <-].
  destruct (lex_ident rest) as [i0 r0]. injection H as <- <-. cbn. f_equal. now apply IH.
Qed.

Lemma skip_comment_line rest : ~ In c_newline (List.map snd rest) -> skip_comment rest = [].
Proof.
  induction rest as [|[[ln c] x] rest IH]; intros H; [reflexivity|]. cbn in *.
  destruct (Z.eqb_spec x c_newline) as [->|_]; [tauto|]. apply IH. tauto.
Qed.

(** A keyword comes from the letters at the front. *)
Lemma keyword_letters sp ch rest st r :
  lex_step sp ch rest = Ok (Some (statement_head st), r) ->
  exists i, lex_ident rest = (i, r) /\ ident_token (string_of_chars i) = statement_head st.
Proof.
  unfold lex_step. destruct (is_whitespace ch); [discriminate|]. case_if; [discriminate|].
  destruct (is_quote ch).
  { destruct (lex_string _ _ _) as [[s r0]|]; [|discriminate]. destruct st; discriminate. }
  destruct (is_ascii_digit ch || _).
  { intros H. inv_ok H. destruct r0 as [k r0]. exfalso. unfold number_token in Hr.
    repeat (case_match; try discriminate Hr); injection Hr as <- _; destruct st; discriminate. }
  destruct (is_alphabetic ch || _).
  { destruct (lex_ident rest) as [i r0]. intros [= E <-]. now exists i. }
  intros H. inv_ok H. destruct r0 as [k r0]. exfalso. unfold symbol_token in Hr.
  repeat (case_match; try discriminate Hr); injection Hr as <- _; destruct st; discriminate.
Qed.

(** A line that parses begins with the letters of its keyword. *)
Lemma line_begins_with_keyword now gen c cs q st :
  chars q = c :: cs -> is_whitespace c = false -> ~ In c_newline (c :: cs) ->
  parse_nql now gen q = Ok st ->
  exists i r, chars q = (i ++ r)%list /\ ident_token (string_of_chars i) = statement_head st.
Proof.
  intros Hq Hc Hn. unfold parse_nql, tokenize. destruct (lexer_new q) as [|[[ln col] ch] tl] eqn:El.
  { unfold lexer_new in El. rewrite Hq in El. discriminate. }
  assert (Hs : List.map snd ((ln, col, ch) :: tl) = c :: cs) by (rewrite <- El, <- Hq; apply locate_chars).
  assert (ch = c) as -> by (now injection Hs).
  generalize ((ln, col, c) :: tl) at 2. intros all. cbn [List.length lex_loop]. intros H. inv_ok H. inv_ok Hr.
  destruct r0 as [k r0]. inv_ok Hr. destruct (parse_statement now gen r) as [[st' ts']| |] eqn:P; try discriminate H.
  injection H as ->. apply parse_statement_head in P. destruct k as [k|].
  - injection Hr as <-. injection P as ->. apply keyword_letters in Hr0 as (i & Hi & Hk).
    exists i, (List.map snd r0). split; [|exact Hk]. rewrite Hq, <- Hs. now apply lex_ident_split.
  - exfalso. injection Hr as <-. unfold lex_step in Hr0. rewrite Hc in Hr0.
    destruct (((c =? chr "-") && _) || _); [|destruct (is_quote c)].
    + assert (r0 = []) as ->.
      { rewrite <- Hs in Hn. injection Hr0 as <-. exact (skip_comment_line _ Hn). }
      destruct tl; cbn in Hr1; injection Hr1 as <-; injection P as P; destruct st; discriminate.
    + destruct (lex_string _ _ _) as [[? ?]|]; discriminate.
    + destruct (is_ascii_digit c || _); [apply bindO_Ok_inv in Hr0 as ([? ?] & _ & ?); discriminate|].
      destruct (is_alphabetic c || _); [destruct (lex_ident _); discriminate|].
      apply bindO_Ok_inv in Hr0 as ([? ?] & _ & ?); discriminate.
Qed.

(** ** Upper case and prefixes *)

Lemma upper_app s t : to_ascii_uppercase (s ++ t) = (to_ascii_uppercase s ++ to_ascii_uppercase t)%string.
Proof.
  induction s as [|a s IH]; [reflexivity|].
  change (to_ascii_uppercase (String a s ++ t)) with (String (ascii_upper a) (to_ascii_uppercase (s ++ t))).
  now rewrite IH.
Qed.

Lemma string_of_chars_app a b : string_of_chars (a ++ b) = (string_of_chars a ++ string_of_chars b)%string.
Proof.
  unfold string_of_chars, utf8_encode. rewrite List.map_app, List.concat_app.
  induction (List.concat (List.map _ a)) as [|x l IH]; [reflexivity|].
  exact (f_equal (String (ascii_of_byte x)) IH).
Qed.

(** The keywords with which a statement begins are told apart by their first letter. *)
Lemma keyword_is_watch i rest st :
  ident_token i = statement_head st ->
  String.prefix "WATCH" (to_ascii_uppercase i ++ rest) = match st with SWatch _ _ => true | _ => false end.
Proof.
  unfold ident_token. destruct (List.find _ keywords) as [[w k]|] eqn:F; [|destruct st; discriminate].
  apply List.find_some in F as [Hin E]. cbn [fst] in E. apply String.eqb_eq in E. rewrite <- E. intros ->. clear E.
  revert Hin. unfold keywords. destruct st; cbn [List.In statement_head]; intros Hin;
    repeat (destruct Hin as [Hin|Hin]; [first [discriminate Hin|injection Hin as <-; now destruct rest]|]); contradiction.
Qed.

(** A line without a line break that parses is taken for a WATCH just when it is one. *)
Lemma watch_line now gen line st :
  ~ In c_newline (chars (trim line)) -> parse_nql now gen (trim line) = Ok st ->
  is_watch_line (trim line) = match st with SWatch _ _ => true | _ => false end.
Proof.
  intros Hn H. pose proof (drop_ws_head (trim_chars (chars line))) as Hh. rewrite drop_ws_trim, <- chars_trim in Hh.
  destruct (chars (trim line)) as [|c cs] eqn:Eq.
  { unfold parse_nql, tokenize, lexer_new in H. rewrite Eq in H. discriminate. }
  destruct (line_begins_with_keyword now gen c cs _ st Eq Hh Hn H) as (i & r & E & K).
  unfold is_watch_line. rewrite <- (string_of_chars_of (trim line)) by apply trim_valid.
  rewrite E, string_of_chars_app, upper_app. now apply keyword_is_watch.
Qed.

Lemma commands_do_not_parse now gen names q st :
  names = [".exit"; ".quit"; "exit"; "quit"]%string \/ names = [".help"; "help"]%string ->
  parse_nql now gen q = Ok st -> one_of names q = false.
Proof.
  intros Hn H. destruct (one_of names q) eqn:E; [|reflexivity]. exfalso. unfold one_of in E.
  apply existsb_exists in E as (n & Hin & E). apply String.eqb_eq in E. subst n.
  destruct Hn as [->| ->]; cbn [In] in Hin; intuition subst; discriminate.
Qed.

(** C38: the shell streams exactly the WATCH statements.  A line of one line that parses,
    blanks around it or not, in whatever case its keywords are, is given to the watch
    stream when it is a WATCH statement and sent as a query when it is another one, and
    in both cases the text sent is the trimmed line; it is never taken for a command of
    the shell. *)
Theorem shell_streams_exactly_the_watches now gen line st :
  ~ In c_newline (chars (trim line)) -> parse_nql now gen (trim line) = Ok st ->
  shell_line line = match st with SWatch _ _ => WatchFor (trim line) | _ => RunQuery (trim line) end.
Proof.
  intros Hn H. unfold shell_line. pose proof (watch_line now gen line st Hn H) as W.
  destruct (String.eqb_spec (trim line) "") as [E|_]; [rewrite E in H; discriminate|].
  rewrite !(commands_do_not_parse now gen _ (trim line) st) by tauto. rewrite W. now destruct st.
Qed.
End Shell.

(** ** The table of a response *)

Lemma add_key_ok ks k :
  NoDup ks -> NoDup (add_key ks k) /\ (forall x, x ∈ add_key ks k <-> x ∈ ks \/ x = k) /\ head (add_key ks k) = head (ks ++ [k]).
Proof.
  intros HN. unfold add_key. destruct (existsb (String.eqb k) ks) eqn:E.
  - apply existsb_exists in E as (y & Hin & Ey). apply String.eqb_eq in Ey as <-. apply list_elem_of_In in Hin.
    split; [exact HN|]. split; [|destruct ks; [now apply not_elem_of_nil in Hin|reflexivity]].
    intros x. split; [now left|now intros [H| ->]].
  - assert (Hk : k ∉ ks).
    { intros Hin. apply list_elem_of_In in Hin. rewrite (proj2 (existsb_exists _ _)) in E; [discriminate|].
      exists k. now rewrite String.eqb_refl. }
    split; [|split; [intros x; now rewrite elem_of_app, list_elem_of_singleton|reflexivity]].
    apply NoDup_app. split; [exact HN|]. split; [|apply NoDup_singleton].
    intros x Hx ->%list_elem_of_singleton. now apply Hk.
Qed.

Lemma add_keys_ok new ks :
  NoDup ks ->
  let ks' := fold_left add_key new ks in
  NoDup ks' /\ (forall x, x ∈ ks' <-> x ∈ ks \/ x ∈ new) /\ (forall k, head ks = Some k -> head ks' = Some k).
Proof.
  revert ks. induction new as [|k new IH]; intros ks HN; cbn [fold_left].
  - split; [exact HN|]. split; [|auto]. intros x. rewrite elem_of_nil. tauto.
  - destruct (add_key_ok ks k HN) as (HN' & Hin & Hh). destruct (IH _ HN') as (HN2 & Hin2 & Hh2).
    split; [exact HN2|]. split; [intros x; rewrite Hin2, Hin, elem_of_cons; tauto|].
    intros k0 H0. apply Hh2. rewrite Hh. now destruct ks.
Qed.

(** The columns are the identifier and then every field of any of the documents, once. *)
Theorem columns_are_the_fields documents :
  let ks := column_keys documents in
  NoDup ks /\ head ks = Some "_id"%string
  /\ forall k, k ∈ ks <-> k = "_id"%string \/ exists doc, doc ∈ documents /\ k ∈ List.map fst (fields doc).
Proof.
  unfold column_keys. cbn zeta.
  assert (G : forall ks, NoDup ks -> head ks = Some "_id"%string ->
    let ks' := fold_left (fun ks doc => fold_left add_key (List.map fst (fields doc)) ks) documents ks in
    NoDup ks' /\ head ks' = Some "_id"%string
    /\ forall k, k ∈ ks' <-> k ∈ ks \/ exists doc, doc ∈ documents /\ k ∈ List.map fst (fields doc)).
  { induction documents as [|doc documents IH]; intros ks HN Hh; cbn [fold_left].
    - split; [exact HN|]. split; [exact Hh|]. intros k. split; [now left|]. intros [H|(d & H & _)]; [exact H|].
      now apply not_elem_of_nil in H.
    - destruct (add_keys_ok (List.map fst (fields doc)) ks HN) as (HN' & Hin & Hh').
      destruct (IH _ HN' (Hh' _ Hh)) as (HN2 & Hh2 & Hin2). split; [exact HN2|]. split; [exact Hh2|].
      intros k. rewrite Hin2, Hin. setoid_rewrite elem_of_cons. split.
      + intros [[H|H]|(d & H & Hk)]; [now left|right; now exists doc; auto|right; eauto].
      + intros [H|(d & [->|H] & Hk)]; [now left; left|now left; right|right; eauto]. }
  destruct (G ["_id"%string]) as (HN & Hh & Hin); [apply NoDup_singleton|reflexivity|].
  split; [exact HN|]. split; [exact Hh|]. intros k. now rewrite Hin, list_elem_of_singleton.
Qed.

(** ** On concrete lines *)

#[local] Existing Instances ascii_tables no_debug.

Lemma shell_streams_exactly_the_watches_witness :
  shell_line "  watch users WHERE age >= 30  " = WatchFor "watch users WHERE age >= 30"
  /\ shell_line " count users" = RunQuery "count users".
Proof.
  split.
  - refine (shell_streams_exactly_the_watches 0 "new" "  watch users WHERE age >= 30  "
      (SWatch "users" (Some (EBinary GtEq (EField "age") (ELiteral (VInt 30))))) _ _); [|vm_compute; reflexivity].
    vm_compute. intuition discriminate.
  - refine (shell_streams_exactly_the_watches 0 "new" " count users" (SCount "users" None) _ _); [|vm_compute; reflexivity].
    vm_compute. intuition discriminate.
Defined.

(** With a line break in it (a pasted text), a comment hides the statement from the
    shell, which sends the subscription as a query and reads no event of it. *)
Example comment_hides_a_watch :
  let line := ("-- adults" ++ String (Ascii.ascii_of_nat 10) "WATCH users")%string in
  parse_nql 0 "new" line = Ok (SWatch "users" None) /\ shell_line line = RunQuery line.
Proof. split; vm_compute; reflexivity. Qed.
