(* ===== verification/CommandProps.v ===== *)
(** The commands on a machine: maintenance as [run_command] has it, a shell session as
    the statements of its lines, the playground from its banner to its end. *)

From S2P Require Export Commands ShellProps NetworkProps CliProps.

Import Cli.

(** ** A machine

    One server, running or not, the directories, the connection of the command, and what
    the user types.  The clock of the machine moves by one with every reading; the
    environment of a request depends on its number. *)
Record Machine := {
  m_dirs : gmap string DataDir;
  m_server : option Engine;
  m_running : bool;
  m_conn : option Conn;
  m_next_id : Z;
  m_inputs : list Readline;
  m_history : list string;
  m_clock : Z;
}.

Definition set_server (e : option Engine) (running : bool) (m : Machine) : Machine :=
  {| m_dirs := m_dirs m; m_server := e; m_running := running; m_conn := m_conn m; m_next_id := m_next_id m;
     m_inputs := m_inputs m; m_history := m_history m; m_clock := m_clock m |}.
Definition set_conn (e : Engine) (c : Conn) (n : Z) (m : Machine) : Machine :=
  {| m_dirs := m_dirs m; m_server := Some e; m_running := m_running m; m_conn := Some c; m_next_id := n;
     m_inputs := m_inputs m; m_history := m_history m; m_clock := m_clock m |}.
Definition set_input (inputs : list Readline) (history : list string) (m : Machine) : Machine :=
  {| m_dirs := m_dirs m; m_server := m_server m; m_running := m_running m; m_conn := m_conn m;
     m_next_id := m_next_id m; m_inputs := inputs; m_history := history; m_clock := m_clock m |}.
Definition set_dir (dir : string) (d : DataDir) (m : Machine) : Machine :=
  {| m_dirs := <[dir := d]> (m_dirs m); m_server := m_server m; m_running := m_running m; m_conn := m_conn m;
     m_next_id := m_next_id m; m_inputs := m_inputs m; m_history := m_history m; m_clock := m_clock m |}.
Definition tick_clock (m : Machine) : Machine * Z :=
  ({| m_dirs := m_dirs m; m_server := m_server m; m_running := m_running m; m_conn := m_conn m;
      m_next_id := m_next_id m; m_inputs := m_inputs m; m_history := m_history m; m_clock := m_clock m + 1 |},
   m_clock m).

Definition no_dir : DataDir := {| exists_ := false; wal_files := None; snapshots := None |}.

Section Machine.
Context {B : Build} {AN : ArithNan} {HO : HashOrder} {C : CrcLib} {U : UuidLib} {J : JsonLib} {PJ : PrettyJson}
  {UT : UnicodeTables} {TD : TokenDebug}.
Context (envs : Z -> Env) (debug : ResponsePayload -> string).

(** A request of the connection and its answer ([NetworkProps] is about the frames
    between them). *)
Definition request (req : RequestPayload) (m : Machine) : Machine * result ResponsePayload :=
  match m_server m, m_conn m with
  | Some e, Some c =>
    let n := m_next_id m in
    let '(e', c', _) := handle_request (envs n) n req e c in
    (set_conn e' c' (n + 1) m, server_answer (envs n) n req e c)
  | _, _ => (m, Err (Client.dispatch_error req))
  end.

Definition machine_connect (addr : string) (m : Machine) : Machine * result unit :=
  match m_server m with
  | Some e =>
    if m_running m && String.eqb (bind_addr (config e)) addr
    then let (e, c) := connect e in (set_conn e c 1 m, Ok tt)
    else (m, Err (protocol ("Failed to connect to " ++ addr ++ ": Connection refused")))
  | None => (m, Err (protocol ("Failed to connect to " ++ addr ++ ": Connection refused")))
  end.

(** The server opens the log in its directory, and leaves its files there. *)
Definition machine_new_server (cfg : ServerConfig) (m : Machine) : Machine * result unit :=
  let (m, now) := tick_clock m in
  let d := default no_dir (m_dirs m !! data_dir cfg) in
  match Engine.open cfg (Metrics.new now) (default ∅ (wal_files d)) with
  | Ok e => (set_server (Some e) false m, Ok tt)
  | Err er => (m, Err er)
  | Panic => (m, Panic)
  end.

(** A server that stops leaves its files in its directory. *)
Definition machine_shutdown (m : Machine) : Machine :=
  match m_server m with
  | Some e =>
    let dir := data_dir (config e) in
    set_dir dir {| exists_ := true; wal_files := Some (WriteAheadLog.dir (wal e));
                   snapshots := snapshots (default no_dir (m_dirs m !! dir)) |} (set_server None false m)
  | None => m
  end.

#[export] Instance machine_host : Host Machine := {|
  h_instant := tick_clock;
  h_now := tick_clock;
  h_stamp := fun m => (m, "20240101_000000"%string);
  h_connect := machine_connect;
  h_ping := fun m => let (m, r) := request RPing m in (m, let? resp := r in Client.ping_result (Ok resp));
  h_query := fun q => request (RQuery q);
  h_watch := fun q m => let (m, r) := request (RWatch q) m in (m, let? _ := Client.watch_result debug r in Ok ([], true));
  h_new_server := machine_new_server;
  h_run_server := fun m => (set_server (m_server m) true m, Ok true);
  h_spawn_server := fun m => set_server (m_server m) true m;
  h_shutdown := machine_shutdown;
  h_temp_dir := fun m => (m, Ok "/tmp/nova"%string);
  h_editor := fun m => (m, Ok tt);
  h_readline := fun m => match m_inputs m with
                         | [] => (m, Eof)
                         | r :: inputs => (set_input inputs (m_history m) m, r)
                         end;
  h_add_history := fun s m => set_input (m_inputs m) (m_history m ++ [s]) m;
  h_save_history := Datatypes.id;
  h_data := fun dir m => default no_dir (m_dirs m !! dir);
  h_set_data := set_dir;
  h_file := fun _ _ => Err (storage "no such file");
|}.
End Machine.

(** ** Maintenance *)

(** Directories are written where they are named, and only there. *)
Class DataLaws {W : Type} (H : Host W) : Prop := {
  data_put : forall dir dir' d w, h_data dir (h_set_data dir' d w) = if decide (dir = dir') then d else h_data dir w;
  data_now : forall dir w, h_data dir (h_now w).1 = h_data dir w;
  data_stamp : forall dir w, h_data dir (h_stamp w).1 = h_data dir w;
}.

(** The commands that work on files only. *)
Definition maintains (c : Commands) : bool :=
  match c with CmdBackup _ | CmdInspect _ | CmdCompact _ | CmdDoctor _ => true | _ => false end.

Section Maintenance.
Context {C : CrcLib} {CL : CrcLaws C} {U : UuidLib} {UL : UuidLaws U} {J : JsonLib} {JL : JsonLaws J}
  {PJ : PrettyJson} {PL : PrettyLaws PJ} {HO : HashOrder} {HL : HashOrderLaws HO} {AN : ArithNan}.
Context (path_debug : string -> string) (duration_text : Z -> string) (fields_debug : list (string * Value) -> string)
  (fmt_f64 fixed3 : Z -> string) (clock_text : Z -> option string)
  (rfc3339 : Z -> option string) (uuid_to_string : bytes -> string) (debug : ResponsePayload -> string) (read_error : string).
Context {W : Type} {H : Host W} {L : DataLaws H}.

#[local] Abbreviation main := (nova_main path_debug duration_text fields_debug fmt_f64 fixed3 clock_text rfc3339
  uuid_to_string debug read_error).

Lemma out_bind {A} o (k : unit -> M W A) w : bindM (out o) k w = (let '(w, o', r) := k tt w in (w, o ++ o', r)%list).
Proof. reflexivity. Qed.

Lemma on_data_bind {A E} dir (f : DataDir -> DataDir * result A) (k : A -> M W E) w :
  bindM (on_data dir f) k w
  = let w' := h_set_data dir (f (h_data dir w)).1 w in
    match (f (h_data dir w)).2 with Ok a => k a w' | Err e => (w', [], Err e) | Panic => (w', [], Panic) end.
Proof.
  unfold bindM, on_data, call. destruct (f (h_data dir w)) as [d [a|e|]]; cbn [fst snd]; [|reflexivity..].
  now destruct (k a _) as [[w' o] r].
Qed.

Lemma ask_bind {A E} (f : W -> W * A) (k : A -> M W E) w : bindM (ask f) k w = k (f w).2 (f w).1.
Proof. unfold bindM, ask. destruct (f w) as [w' a]. cbn. now destruct (k a w') as [[w2 o] r]. Qed.

Lemma ret_bind {A E} (a : A) (k : A -> M W E) w : bindM (ret a) k w = k a w.
Proof. unfold bindM, ret. now destruct (k a w) as [[w2 o] r]. Qed.

(** What stays of a program that prints at its end. *)
Lemma state_bind_out {A} (m : M W A) (k : A -> M W unit) w :
  (forall a w, (k a w).1.1 = w) -> (bindM m k w).1.1 = (m w).1.1.
Proof.
  intros Hk. unfold bindM. destruct (m w) as [[w' o] [a|e|]]; [|reflexivity..].
  specialize (Hk a w'). now destruct (k a w') as [[w2 o2] r].
Qed.

Lemma state_finish (m : M W unit) w : (bindM m (fun _ => ret (Some tt)) w).1.1 = (m w).1.1.
Proof. unfold bindM, ret. destruct (m w) as [[w' o] [a|e|]]; reflexivity. Qed.
Lemma out_state o w : (out (W := W) o w).1.1 = w.
Proof. reflexivity. Qed.

Lemma on_data_state {A} dir (f : DataDir -> DataDir * result A) w :
  (on_data (H := H) dir f w).1.1 = h_set_data dir (f (h_data dir w)).1 w.
Proof. unfold on_data, call. now destruct (f (h_data dir w)). Qed.

Lemma out_bind_state {A} o (k : unit -> M W A) w : (bindM (out o) k w).1.1 = (k tt w).1.1.
Proof. rewrite out_bind. now destruct (k tt w) as [[w' o'] r]. Qed.

(** One command on the files of a directory, or none. *)
Lemma data_ran dir dir' d w :
  (exists cs, d = run_commands cs (h_data dir' w)) ->
  exists cs, h_data dir (h_set_data dir' d w) = run_commands cs (h_data dir w).
Proof. intros [cs ->]. rewrite data_put. case_decide as D; [subst; now exists cs|now exists []]. Qed.

Lemma backup_data action w dir :
  exists cs, h_data dir (cmd_backup path_debug action w).1.1 = run_commands cs (h_data dir w).
Proof.
  destruct action as [dd id|dd|dd id]; cbn [cmd_backup].
  - assert (E : exists w1 stamp now, h_data dir w1 = h_data dir w /\ h_data dd w1 = h_data dd w
      /\ (cmd_backup path_debug (ActCreate dd id) w).1.1
         = (on_data dd (backup_create now ("snap_" ++ stamp)%string id) w1).1.1).
    { cbn [cmd_backup]. destruct id as [i|]; rewrite ?ret_bind, !ask_bind, state_bind_out by (intros; apply out_state).
      - eexists _, _, _. split; [|split; [|reflexivity]]; now rewrite data_now.
      - eexists _, _, _. split; [|split; [|reflexivity]]; now rewrite data_now, data_stamp. }
    destruct E as (w1 & stamp & now & E1 & E2 & E3). cbn [cmd_backup] in E3. rewrite E3, on_data_state, <- E1.
    apply data_ran. exists [BackupCreate now ("snap_" ++ stamp)%string id]. unfold run_commands. cbn [fold_left run_command].
    now destruct (backup_create now _ id (h_data dd w1)).
  - rewrite state_bind_out, on_data_state; [|intros [|] ?; apply out_state]. apply data_ran. now exists [].
  - rewrite state_bind_out, on_data_state; [|intros; apply out_state]. apply data_ran. now exists [].
Qed.

Lemma doctor_runs args w :
  let dir := doctor_data_dir args in
  exists w', (forall dir', h_data dir' w' = if decide (dir' = dir) then (cmd_doctor (h_data dir w)).1 else h_data dir' w)
    /\ (run_doctor path_debug args w).1.1 = w'
    /\ match (cmd_doctor (h_data dir w)).2 with
       | Ok g => (run_doctor path_debug args w).2 = Ok tt /\ last (run_doctor path_debug args w).1.2 = Some (verdict (issues g))
       | Err e => (run_doctor path_debug args w).2 = Err e
       | Panic => (run_doctor path_debug args w).2 = Panic
       end.
Proof.
  cbn zeta. set (dir := doctor_data_dir args). unfold run_doctor. fold dir. set (d := h_data dir w).
  rewrite out_bind, on_data_bind. cbn [fst snd]. fold d. set (w1 := h_set_data dir d w).
  assert (E1 : forall dir', h_data dir' w1 = h_data dir' w).
  { intros dir'. unfold w1. rewrite data_put. case_decide as D; [now subst|reflexivity]. }
  unfold println. rewrite out_bind, on_data_bind, E1. fold d. cbn zeta.
  unfold cmd_doctor. destruct (check_wal d) as [d2 [[check n]|e|]] eqn:Ec; cbn [fst snd].
  2, 3: exists (h_set_data dir d2 w1); (split; [intros dir'; rewrite data_put; case_decide; [reflexivity|apply E1]|]); now split.
  set (w2 := h_set_data dir d2 w1).
  assert (E2 : forall dir', h_data dir' w2 = if decide (dir' = dir) then d2 else h_data dir' w).
  { intros dir'. unfold w2. rewrite data_put. case_decide; [reflexivity|apply E1]. }
  rewrite out_bind, on_data_bind, E2, decide_True by reflexivity. cbn [fst snd]. cbn zeta. set (w3 := h_set_data dir d2 w2).
  assert (E3 : forall dir', h_data dir' w3 = if decide (dir' = dir) then d2 else h_data dir' w).
  { intros dir'. unfold w3. rewrite data_put. case_decide as D; [reflexivity|rewrite E2; now rewrite decide_False]. }
  destruct (snapshots d2) as [files|] eqn:Es; cbn [mapO bindO].
  - destruct (SnapshotManager.list_snapshots (Some files)) as [l|e|] eqn:El; cbn [mapO bindO];
      exists w3; (split; [exact E3|]); (split; [reflexivity|]); [|reflexivity..].
    split; [reflexivity|]. cbn [issues]. rewrite out_bind. unfold out. cbn [fst snd]. rewrite !app_assoc. apply last_snoc.
  - exists w3. split; [exact E3|]. split; [reflexivity|]. split; [reflexivity|]. cbn [issues]. rewrite out_bind. unfold out.
    cbn [fst snd]. rewrite !app_assoc. apply last_snoc.
Qed.

(** A maintenance command is one of [Cli.run_command] on its directory, and none on any
    other. *)
Lemma main_data fuel c w dir :
  maintains c = true -> exists cs, h_data dir (main fuel c w).1.1 = run_commands cs (h_data dir w).
Proof.
  destruct c as [| | |action|args|args|args| | |]; try discriminate; intros _; cbn [nova_main]; rewrite state_finish.
  - apply backup_data.
  - unfold run_inspect, println. rewrite out_bind_state.
    assert (E : forall (k : bytes -> M W unit), (forall b, (k b w).1.1 = w) ->
      (bindM (call (fun w => (w, h_file (inspect_path args) w))) k w).1.1 = w).
    { intros k Hk. unfold bindM, call. destruct (h_file _ w) as [b|e|]; [|reflexivity..]. specialize (Hk b).
      now destruct (k b w) as [[w2 o] r]. }
    rewrite E; [now exists []|]. intros b. unfold bindM, lift. destruct (cmd_inspect b); reflexivity.
  - unfold run_compact, println. rewrite out_bind_state, state_bind_out, on_data_state by (intros; apply out_state).
    apply data_ran. exists [Compact]. unfold run_commands. cbn [fold_left run_command].
    now destruct (cmd_compact (h_data _ w)).
  - destruct (doctor_runs args w) as (w' & E & -> & _). rewrite E. case_decide as D; [|now exists []].
    exists [Doctor]. unfold run_commands. cbn [fold_left run_command]. subst. now destruct (cmd_doctor _).
Qed.
Fixpoint run_all (fuel : nat) (cs : list Commands) (w : W) : W :=
  match cs with
  | [] => w
  | c :: cs' => run_all fuel cs' (main fuel c w).1.1
  end.

Lemma run_all_data fuel cs w dir :
  forallb maintains cs = true -> exists l, h_data dir (run_all fuel cs w) = run_commands l (h_data dir w).
Proof.
  revert w. induction cs as [|c cs IH]; intros w Hc; cbn [run_all forallb] in *; [now exists []|].
  apply andb_true_iff in Hc as [Hc Hcs]. destruct (main_data fuel c w dir Hc) as [l1 E1].
  destruct (IH (main fuel c w).1.1 Hcs) as [l2 E2]. exists (l1 ++ l2)%list. rewrite E2, E1. unfold run_commands. now rewrite fold_left_app.
Qed.

(** C26: maintenance never changes the database.  Whatever sequence of [nova backup],
    [nova inspect], [nova compact] and [nova doctor] is run, on this and on other
    directories, also over a damaged log, opening a server on the directory gives exactly
    the engine, or the error, that it gave before; and a [nova doctor] then run always
    ends with its verdict as the last line, which says that the database is healthy just
    when the server opens. *)
Theorem nova_maintenance_keeps_the_database fuel cs w dir cfg m :
  forallb maintains cs = true ->
  is_Some (wal_files (h_data dir w)) ->
  let w' := run_all fuel cs w in
  Engine.open cfg m (wal_of (h_data dir w')) = Engine.open cfg m (wal_of (h_data dir w))
  /\ exists o n, main fuel (CmdDoctor {| doctor_data_dir := dir |}) w'
                = ((run_all fuel (cs ++ [CmdDoctor {| doctor_data_dir := dir |}]) w), o, Ok (Some tt))
       /\ last o = Some (verdict n)
       /\ (n = 0 <-> exists e, Engine.open cfg m (wal_of (h_data dir w)) = Ok e).
Proof.
  intros Hc HS w'. destruct (run_all_data fuel cs w dir Hc) as [l E]. fold w' in E.
  pose proof (run_commands_ok cfg m l (h_data dir w)) as Eo. rewrite <- E in Eo. split; [exact Eo|].
  destruct (run_commands_found l (h_data dir w) HS) as [files Wf]. rewrite <- E in Wf.
  destruct (doctor_reports cfg m (h_data dir w') files Wf) as (g & Eg & Hi & _).
  replace (Engine.open cfg m files) with (Engine.open cfg m (wal_of (h_data dir w))) in Hi by (rewrite <- Eo; unfold wal_of; now rewrite Wf).
  destruct (doctor_runs {| doctor_data_dir := dir |} w') as (w2 & _ & E1 & E2). cbn [doctor_data_dir] in E2. rewrite Eg in E2.
  destruct E2 as [E2 E3]. exists (run_doctor path_debug {| doctor_data_dir := dir |} w').1.2, (issues g).
  split; [|split; [exact E3|exact Hi]].
  assert (Ew : run_all fuel (cs ++ [CmdDoctor {| doctor_data_dir := dir |}]) w = (main fuel (CmdDoctor {| doctor_data_dir := dir |}) w').1.1).
  { unfold w'. clear. revert w. induction cs as [|c cs IH]; intros w; [reflexivity|]. cbn [run_all app]. apply IH. }
  rewrite Ew. cbn [nova_main]. unfold bindM, ret. destruct (run_doctor path_debug _ w') as [[w3 o] r]. cbn [fst snd] in *. subst r.
  now rewrite app_nil_r.
Qed.
End Maintenance.

(** ** A session of the shell *)

Section Session.
Context {B : Build} {AN : ArithNan} {HO : HashOrder} {C : CrcLib} {U : UuidLib} {J : JsonLib} {PJ : PrettyJson}
  {UT : UnicodeTables} {TD : TokenDebug}.
Context (envs : Z -> Env) (debug : ResponsePayload -> string).
Context (path_debug : string -> string) (duration_text : Z -> string) (fields_debug : list (string * Value) -> string)
  (fmt_f64 : Z -> string) (clock_text : Z -> option string)
  (rfc3339 : Z -> option string) (uuid_to_string : bytes -> string) (read_error : string).

(** What a session makes of the engine: the statements of its lines, one after the
    other; [n] is the number of the next request.  No engine when a statement panics. *)
Fixpoint session (n : Z) (actions : list ShellAction) (e : Engine) : option Engine :=
  match actions with
  | [] => Some e
  | RunQuery q :: actions' =>
    match parse_nql (env_parse_now (envs n)) (env_generated (envs n)) q with
    | Ok (SWatch _ _) | Err _ => session (n + 1) actions' e
    | Ok stmt =>
      match execute (env_fault (envs n)) (env_now (envs n)) stmt "default" e with
      | (_, Panic) => None
      | (e', _) => session (n + 1) actions' e'
      end
    | Panic => None
    end
  | WatchFor _ :: actions' => session (n + 1) actions' e
  | _ :: actions' => session n actions' e
  end.

Lemma reply_no_panic f : Client.reply_of_frame f <> Panic.
Proof.
  unfold Client.reply_of_frame, response_from_bytes. destruct (NvpFrame.frame_type f); try discriminate;
    destruct (json_from_slice _ ≫= response_of_json) as [[]|]; discriminate.
Qed.

Lemma answer_no_panic env n req e c :
  (forall r, (handle_request env n req e c).2 = r -> r <> Panic /\ r <> Ok None) -> server_answer env n req e c <> Panic.
Proof.
  unfold server_answer. intros H. destruct (handle_request env n req e c).2 as [[f|]|er|]; [apply reply_no_panic| | |].
  - now destruct (H _ eq_refl) as [_ K].
  - apply reply_no_panic.
  - now destruct (H _ eq_refl) as [K _].
Qed.

Lemma handle_request_stays env n req e c :
  authenticated c = true -> authenticated (handle_request env n req e c).1.2 = true.
Proof.
  intros Ha. destruct req as [q|q|k|token|]; cbn [handle_request]; rewrite ?Ha; cbn [negb].
  - destruct (parse_nql _ _ q) as [st|er|]; [|exact Ha..]. destruct st; try exact Ha;
      (match goal with |- context [execute ?f ?nw ?s ?ns ?x] => destruct (execute f nw s ns x) as [e' [resp|er|]] end; exact Ha).
  - destruct (parse_nql _ _ q) as [st|er|]; [|exact Ha..]. destruct st; exact Ha.
  - exact Ha.
  - destruct (auth_token (config e)) as [x|]; [|reflexivity]. now destruct (String.eqb token x).
  - exact Ha.
Qed.

(** A query of the shell on a connection that may ask. *)
Lemma query_session n q e c actions e' :
  authenticated c = true -> session n (RunQuery q :: actions) e = Some e' ->
  session (n + 1) actions (handle_request (envs n) n (RQuery q) e c).1.1 = Some e'
  /\ server_answer (envs n) n (RQuery q) e c <> Panic.
Proof.
  intros Ha. cbn [session]. unfold server_answer. cbn [handle_request]. rewrite Ha. cbn [negb].
  assert (NP : forall f, Client.reply_of_frame f <> Panic) by apply reply_no_panic.
  destruct (parse_nql _ _ q) as [st|er|]; [| |discriminate].
  - destruct st; try (match goal with |- context [execute ?f ?nw ?s ?ns ?x] => destruct (execute f nw s ns x) as [e1 [resp|er|]] end;
      [intros Hs; split; [exact Hs|apply NP]..|discriminate]).
    intros Hs. split; [exact Hs|apply NP].
  - intros Hs. split; [exact Hs|apply NP].
Qed.

Lemma watch_session n q e c actions e' :
  authenticated c = true -> session n (WatchFor q :: actions) e = Some e' ->
  session (n + 1) actions (handle_request (envs n) n (RWatch q) e c).1.1 = Some e'
  /\ (parse_nql (env_parse_now (envs n)) (env_generated (envs n)) q <> Panic -> server_answer (envs n) n (RWatch q) e c <> Panic).
Proof.
  intros Ha. cbn [session]. unfold server_answer. cbn [handle_request]. rewrite Ha. cbn [negb]. intros Hs.
  assert (NP : forall f, Client.reply_of_frame f <> Panic) by apply reply_no_panic.
  destruct (parse_nql _ _ q) as [st|er|]; [destruct st| |]; (split; [exact Hs|intros K; try apply NP; try (now destruct K)]).
Qed.
(** The machine in the middle of a session. *)
Definition in_session (n : Z) (e : Engine) (m : Machine) : Prop :=
  m_server m = Some e /\ m_next_id m = n /\ exists c, m_conn m = Some c /\ authenticated c = true.

Lemma request_session n e m req :
  in_session n e m -> exists c, m_conn m = Some c /\ authenticated c = true
    /\ (request envs req m).2 = server_answer (envs n) n req e c
    /\ let m' := (request envs req m).1 in
       in_session (n + 1) (handle_request (envs n) n req e c).1.1 m' /\ m_inputs m' = m_inputs m /\ m_history m' = m_history m.
Proof.
  intros (Es & En & c & Ec & Ha). exists c. split; [exact Ec|]. split; [exact Ha|]. unfold request. rewrite Es, Ec, En.
  pose proof (handle_request_stays (envs n) n req e c Ha) as Hs.
  destruct (handle_request (envs n) n req e c) as [[e1 c1] r]. cbn in *. repeat split. now exists c1.
Qed.

(** Reading the clock before a request or after it is the same. *)
Lemma request_tick req m :
  request envs req (tick_clock m).1 = ((tick_clock (request envs req m).1).1, (request envs req m).2).
Proof.
  unfold request. change (m_server (tick_clock m).1) with (m_server m). change (m_conn (tick_clock m).1) with (m_conn m).
  change (m_next_id (tick_clock m).1) with (m_next_id m). destruct (m_server m) as [e|]; [|reflexivity].
  destruct (m_conn m) as [c|]; [|reflexivity]. now destruct (handle_request _ _ _ e c) as [[e1 c1] r1].
Qed.

#[local] Abbreviation does := (shell_do duration_text fields_debug fmt_f64 clock_text rfc3339 uuid_to_string
  (H := machine_host envs debug)).

Lemma shell_do_session action n e m actions e' :
  action <> Exit -> in_session n e m -> session n (action :: actions) e = Some e' ->
  exists m' o n' e1, does action m = (m', o, Ok tt) /\ in_session n' e1 m' /\ session n' actions e1 = Some e'
    /\ m_inputs m' = m_inputs m /\ m_history m' = m_history m.
Proof.
  intros Hx Hm Hs. assert (Same : session n actions e = Some e' -> (exists o, does action m = (m, o, Ok tt)) ->
    exists m' o n' e1, does action m = (m', o, Ok tt) /\ in_session n' e1 m' /\ session n' actions e1 = Some e'
    /\ m_inputs m' = m_inputs m /\ m_history m' = m_history m) by (intros H1 [o H2]; eauto 10).
  destruct action as [| | | |q|q]; try (now destruct Hx); try (apply Same; [exact Hs|eexists; reflexivity]).
  - destruct (request_session n e m (RWatch q) Hm) as (c & _ & Ha & Er & Hm' & Hi & Hh).
    destruct (watch_session n q e c actions e' Ha Hs) as [Hs' NP].
    assert (NPq : server_answer (envs n) n (RWatch q) e c <> Panic).
    { apply NP. pose proof (parse_nql_total (env_parse_now (envs n)) (env_generated (envs n)) q) as T. intros K. now rewrite K in T. }
    cbn [shell_do]. unfold shell_watch, println, bindM, out, attempt, ask. cbn [h_watch machine_host].
    destruct (request envs (RWatch q) m) as [m1 r]. cbn [fst snd] in *. subst r.
    destruct (server_answer (envs n) n (RWatch q) e c) as [resp|er|]; [| |now destruct NPq].
    + destruct resp; cbn; eauto 12.
    + cbn. eauto 12.
  - destruct (request_session n e m (RQuery q) Hm) as (c & _ & Ha & Er & Hm' & Hi & Hh).
    destruct (query_session n q e c actions e' Ha Hs) as [Hs' NP].
    cbn [shell_do]. unfold shell_query, attempt. rewrite !ask_bind. cbn [h_query h_instant machine_host].
    rewrite request_tick. destruct (request envs (RQuery q) m) as [m1 r]. cbn [fst snd] in *. subst r.
    destruct (server_answer (envs n) n (RQuery q) e c) as [resp|er|]; [| |now destruct NP].
    + rewrite ask_bind. do 4 eexists. split; [reflexivity|]. split; [exact Hm'|]. split; [exact Hs'|]. now split.
    + do 4 eexists. split; [reflexivity|]. split; [exact Hm'|]. split; [exact Hs'|]. now split.
Qed.

#[local] Abbreviation repl := (shell_repl duration_text fields_debug fmt_f64 clock_text rfc3339 uuid_to_string read_error
  (H := machine_host envs debug)).

Lemma shell_loop_next r inputs :
  shell_loop (r :: inputs)
  = let entry := match r with Line line => if String.eqb (trim line) "" then [] else [trim line] | _ => [] end in
    match shell_step r with
    | Exit => ([Exit], entry)
    | action => (action :: (shell_loop inputs).1, (entry ++ (shell_loop inputs).2)%list)
    end.
Proof. cbn. destruct (shell_loop inputs). now destruct (shell_step r). Qed.

Lemma shell_repl_session inputs n e m e' fuel :
  in_session n e m -> m_inputs m = inputs -> (List.length inputs < fuel)%nat ->
  session n (shell_loop inputs).1 e = Some e' ->
  exists m' o, repl fuel m = (m', o, Ok (Some tt)) /\ m_server m' = Some e'
    /\ m_history m' = (m_history m ++ (shell_loop inputs).2)%list.
Proof.
  revert n e m fuel. induction inputs as [|r inputs IH]; intros n e m fuel Hm Hi Hf Hs; (destruct fuel as [|fuel]; [cbn in Hf; lia|]).
  - cbn in Hs. injection Hs as <-. cbn [shell_repl]. unfold bindM, ask, modify, out, ret. cbn [h_readline machine_host].
    rewrite Hi. cbn. do 2 eexists. split; [reflexivity|]. split; [apply Hm|now rewrite app_nil_r].
  - rewrite shell_loop_next in Hs |- *. cbn zeta in Hs |- *.
    set (entry := match r with Line line => if String.eqb (trim line) "" then [] else [trim line] | _ => [] end) in *.
    cbn [shell_repl]. unfold bindM at 1, ask at 1. cbn [h_readline machine_host]. rewrite Hi.
    set (m1 := note_line (H := machine_host envs debug) r (set_input inputs (m_history m) m)).
    assert (E1 : in_session n e m1 /\ m_inputs m1 = inputs /\ m_history m1 = (m_history m ++ entry)%list).
    { subst m1 entry. destruct r as [line| | |]; cbn [note_line]; [destruct (String.eqb _ _)|..]; cbn; rewrite ?app_nil_r; auto. }
    destruct E1 as (Hm1 & Hi1 & Hh1). unfold bindM at 1, modify at 1. fold m1.
    destruct (shell_step r) eqn:Ea.
    all: cbn [fst snd] in Hs |- *.
    all: try (cbn in Hs; injection Hs as <-; unfold bindM, out, ret; do 2 eexists; split; [reflexivity|]; split; [apply Hm1|exact Hh1]).
    all: match type of Ea with _ = ?a =>
        destruct (shell_do_session a n e m1 (shell_loop inputs).1 e') as (m2 & o2 & n2 & e2 & E2 & Hm2 & Hs2 & Hi2 & Hh2);
          [discriminate|exact Hm1|exact Hs|]
      end;
      destruct (IH n2 e2 m2 fuel Hm2) as (m3 & o3 & E3 & S3 & H3); [congruence|cbn in Hf; lia|exact Hs2|];
      unfold bindM; rewrite E2, E3; do 2 eexists; (split; [reflexivity|]); (split; [exact S3|]);
      rewrite H3, Hh2, Hh1, <- app_assoc; reflexivity.
Qed.
#[local] Abbreviation nova := (nova_main path_debug duration_text fields_debug fmt_f64 fmt_f64 clock_text rfc3339
  uuid_to_string debug read_error (H := machine_host envs debug)).

(** C37: a session of the shell runs the statements of its lines.  [nova shell], given the
    address of a running server that asks for no token and any lines, none of whose
    statements panics, comes to its end with success, whatever errors the lines cause;
    the engine is then what the statements of the lines up to the first that leaves the
    shell make of it, one after the other, lines that do not parse and WATCH statements
    changing nothing; and the history holds the trimmed lines that were not empty. *)
Theorem shell_session_runs_its_statements m e e' fuel :
  m_server m = Some e -> m_running m = true -> auth_token (config e) = None ->
  (List.length (m_inputs m) < fuel)%nat ->
  session 1 (shell_loop (m_inputs m)).1 (connect e).1 = Some e' ->
  exists m' o, nova fuel (CmdShell {| shell_addr := bind_addr (config e) |}) m = (m', o, Ok (Some tt))
    /\ m_server m' = Some e' /\ m_history m' = (m_history m ++ (shell_loop (m_inputs m)).2)%list.
Proof.
  intros Es Er Et Hf Hs. cbn [nova_main shell_addr]. unfold cmd_shell. rewrite out_bind. unfold attempt. rewrite ask_bind.
  cbn [h_connect machine_host]. unfold machine_connect. rewrite Es, Er, String.eqb_refl. cbn [andb shell_addr].
  destruct (connect e) as [e0 c0] eqn:Ec. cbn [fst snd] in *.
  set (m1 := set_conn e0 c0 1 m).
  assert (Hm : in_session 1 e0 m1).
  { split; [reflexivity|]. split; [reflexivity|]. exists c0. split; [reflexivity|]. unfold connect in Ec. injection Ec as _ <-.
    cbn. now rewrite Et. }
  destruct (shell_repl_session (m_inputs m) 1 e0 m1 e' fuel Hm eq_refl Hf Hs) as (m2 & o2 & E2 & S2 & H2).
  unfold bindM at 1, call at 1. cbn [h_editor machine_host]. unfold bindM at 1. rewrite E2.
  unfold bindM, modify, println, out, ret. do 2 eexists. split; [reflexivity|]. split; [exact S2|exact H2].
Qed.
End Session.

(** ** On sample machines *)

#[local] Existing Instances pretty_as_is pretty_as_is_laws.

Definition sample_machine (dirs : gmap string DataDir) (server : option Engine) (inputs : list Readline) : Machine :=
  {| m_dirs := dirs; m_server := server; m_running := true; m_conn := None; m_next_id := 1; m_inputs := inputs;
     m_history := []; m_clock := 0 |}.

Definition sample_envs (n : Z) : Env := sample_env.
Definition no_debug_text (resp : ResponsePayload) : string := "".
Definition same_text (s : string) : string := s.
Definition no_fields (fs : list (string * Value)) : string := "".
Definition no_time (t : Z) : option string := None.
Definition no_uuid (b : bytes) : string := "".

#[local] Instance sample_host : Host Machine := machine_host sample_envs no_debug_text.

#[local] Instance sample_data_laws : DataLaws sample_host.
Proof.
  split; try reflexivity. intros dir dir' d w. cbn. case_decide as D; [subst; now rewrite lookup_insert_eq|].
  now rewrite lookup_insert_ne by congruence.
Qed.

Definition sample_nova (fuel : nat) (c : Commands) (m : Machine) : Machine * list Out * result (option unit) :=
  nova_main same_text fmt_int no_fields fmt_int fmt_int no_time no_time no_uuid no_debug_text "" fuel c m.

Definition maintenance_machine : Machine := sample_machine {["./data"%string := damaged_dir]} None [].

(** A damaged log, compacted and backed up in vain, is still reported. *)
Lemma nova_maintenance_witness :
  exists o n, (sample_nova 0 (CmdDoctor {| doctor_data_dir := "./data" |})
      (run_all same_text fmt_int no_fields fmt_int fmt_int no_time no_time no_uuid no_debug_text ""
         0 [CmdCompact {| compact_data_dir := "./data" |}; CmdBackup (ActCreate "./data" None)] maintenance_machine)).1.2 = o
    /\ last o = Some (verdict n) /\ n <> 0.
Proof.
  destruct (nova_maintenance_keeps_the_database same_text fmt_int no_fields fmt_int fmt_int no_time no_time no_uuid no_debug_text ""
    0 [CmdCompact {| compact_data_dir := "./data" |}; CmdBackup (ActCreate "./data" None)] maintenance_machine "./data"
    config_default (Metrics.new 0)) as (_ & o & n & E & Hl & Hi).
  - reflexivity.
  - eexists. vm_compute. reflexivity.
  - exists o, n. split; [unfold sample_nova; now rewrite E|]. split; [exact Hl|]. intros N. apply Hi in N as [e He].
    assert (K : is_ok (Engine.open config_default (Metrics.new 0) (wal_of (h_data "./data" maintenance_machine))) = false)
      by (vm_compute; reflexivity).
    rewrite He in K. discriminate.
Defined.

Definition shell_lines : list Readline :=
  [Line "COUNT users"; Line ""; Line "REMOVE users WHERE id == 'u1'"; Line "nonsense"; Interrupted; Line "help"; Line " .exit ";
   Line "REMOVE users"]%string.

Lemma shell_session_witness :
  exists m' o, sample_nova 9 (CmdShell shell_defaults) (sample_machine ∅ (Some engine2) shell_lines) = (m', o, Ok (Some tt))
    /\ (exists e', m_server m' = Some e' /\ store_at ("default", "users")%string e' = {["u2"%string := bob]})
    /\ m_history m' = ["COUNT users"; "REMOVE users WHERE id == 'u1'"; "nonsense"; "help"; ".exit"]%string.
Proof.
  set (m := sample_machine ∅ (Some engine2) shell_lines).
  destruct (session sample_envs 1 (shell_loop shell_lines).1 (connect engine2).1) as [e'|] eqn:Es; [|vm_compute in Es; discriminate].
  destruct (shell_session_runs_its_statements sample_envs no_debug_text same_text fmt_int no_fields fmt_int no_time no_time no_uuid ""
    m engine2 e' 9 eq_refl eq_refl eq_refl ltac:(vm_compute; lia) Es) as (m' & o & E & S & Hh).
  exists m', o. split; [exact E|]. split; [|rewrite Hh; vm_compute; reflexivity].
  exists e'. split; [exact S|].
  assert (K : match session sample_envs 1 (shell_loop shell_lines).1 (connect engine2).1 with
              | Some x => store_at ("default", "users")%string x = {["u2"%string := bob]} | None => False end)
    by (vm_compute; reflexivity).
  now rewrite Es in K.
Defined.

(** The throughput of a benchmark is formatted as a number after it has been made a text,
    so that two characters of it are printed. *)
Example throughput_is_cut : precision 2 "1234.56" = "12"%string.
Proof. reflexivity. Qed.

(** [nova status] on a server and without one. *)
Example status_of_a_server :
  (sample_nova 0 (CmdStatus status_defaults) (sample_machine ∅ (Some engine2) [])).1.2
  = [status_table fmt_int "127.0.0.1:7400" 1]
  /\ (sample_nova 0 (CmdStatus status_defaults) (sample_machine ∅ None [])).2 = Ok (Some tt).
Proof. split; vm_compute; reflexivity. Qed.
