(* ===== verification/EngineFindings.v ===== *)
(** Behaviours of the engine that its users would not expect, on concrete inputs. *)

From S2P Require Export EngineProps.

#[local] Abbreviation users := ("default", "users")%string.

(** [UPDATE users SET age = 99, id = 'x'] *)
Definition bad_update : Statement :=
  SUpdate "users" [{| as_field := "age"; as_expr := ELiteral (VInt 99) |};
                   {| as_field := "id"; as_expr := ELiteral (VString "x") |}]%string None.

(** An UPDATE whose second assignment is refused answers with an error, yet the
    first assignment is already visible in memory; it was never logged, so the next
    restart silently takes it back. *)
Theorem failed_update_is_visible_then_lost :
  let e' := run bad_update engine2 in
  (exists er, answer bad_update engine2 = Err er /\ code er = InvalidQuery)
  /\ (store_at users e' !! "u1"%string ≫= fun d => Doc.lookup d "age") = Some (VInt 99)
  /\ exists e2, Engine.open config_default (Metrics.new 5) (WriteAheadLog.dir (wal e')) = Ok e2
       /\ (store_at users e2 !! "u1"%string ≫= fun d => Doc.lookup d "age") = Some (VInt 30).
Proof.
  split; [|split].
  - eexists. split; [vm_compute; reflexivity|reflexivity].
  - vm_compute. reflexivity.
  - destruct (Reach_ok engine2 engine2_reach) as ((rs & OK) & Room & S & _).
    destruct (restart_ok rs engine2 config_default (Metrics.new 5) OK Room S) as (e2 & E & Hs).
    exists e2. replace (wal (run bad_update engine2)) with (wal engine2) by (vm_compute; reflexivity).
    split; [exact E|]. rewrite Hs. vm_compute. reflexivity.
Qed.

(** A user without an age. *)
Definition eve : Document :=
  {| id := "u3"; version := 1; created_at := 1000; updated_at := 1000;
     fields := [("name", VString "Eve")]%string |}.

Definition engine4 : Engine := run (SInsert "users" eve) engine2.
Definition engine5 : Engine := run (SCreateIndex "users" "age" Ordered) engine4.

(** Creating an index changes what a query answers when documents lack the
    field: the scan compares the missing field as null, below every number, and finds
    such a document, the index does not know it. *)
Theorem index_forgets_documents_without_the_field :
  answer (SFind "users" (Some below28) None None None) engine4 = Ok (PRecords [eve; bob] 2)
  /\ answer (SFind "users" (Some below28) None None None) engine5 = Ok (PRecords [bob] 1).
Proof. split; vm_compute; reflexivity. Qed.

(** An index on [id] is never filled, because the identifier is not among the
    fields of a document: with it, looking a document up by its identifier finds
    nothing. *)
Theorem index_on_id_hides_documents :
  let q := SFind "users" (Some (EBinary Eq_ (EField "id") (ELiteral (VString "u1"))))%string None None None in
  answer q engine2 = Ok (PRecords [ada] 1)
  /\ answer q (run (SCreateIndex "users" "id" Hash) engine2) = Ok (PRecords [] 0).
Proof. split; vm_compute; reflexivity. Qed.

(** BETWEEN with its bounds in the wrong order is an empty filter for the scan,
    and a panic in the B-tree range of an ordered index. *)
Theorem inverted_between_panics :
  let q := SFind "users" (Some (EBetween (EField "age") (ELiteral (VInt 40)) (ELiteral (VInt 20)))) None None None in
  answer q engine2 = Ok (PRecords [] 0) /\ answer q engine3 = Panic.
Proof. split; vm_compute; reflexivity. Qed.
